(* ===== verification/_CoqProject ===== *)
-Q . S2P
Prelude.v
Limits.v
Frames.v
Codec.v
Transport.v
Splice.v
Router.v
F64.v
RateLimit.v
Auth.v
Registry.v
RegistryInv.v
RegistryProps.v
RegistryAuth.v
RegistryTokens.v
RegistryPrune.v
Polar.v
PolarProps.v
Session.v
SessionProps.v
Relay.v
SessionActor.v
SessionDemo.v
Interleave.v
System.v
SystemTasks.v
SystemProps.v
SystemRely.v
SystemBounds.v
GateSteps.v
SystemDemo.v
Control.v
Http.v
Edge.v
Front.v
Fs.v
Store.v
Certs.v
Acme.v
Serve.v
Settings.v
RelayDoctor.v
ClientDaemon.v
ClientProps.v
ClientRelay.v
ClientDemo.v
ClientFiles.v
ClientCommands.v
ClientEdits.v
ClientList.v
ClientStatus.v
ClientDoctor.v
ClientNet.v
Service.v
Cli.v
TestKit.v
TestRegistry.v
TestRelay.v
TestPolar.v
TestSession.v
TestConfig.v
Tests.v
