(* ===== verification/Prelude.v ===== *)
(** * EtherTunnel: a verification library

    EtherTunnel publishes local services under hostnames and TCP ports of a
    relay.  A daemon keeps one multiplexed connection to the relay; it
    authenticates, claims names, and the relay opens a stream to it for every
    visitor, which the daemon forwards to a local service.  This library models
    the program's own logic (the Rust crates [proto], [relay], [client] and
    [cli]) as executable definitions and proves what makes it correct.

    ** Parts of the program and the files that model them

    Shared
    - Prelude.v: [result], the state-and-error monad [st], 64-bit arithmetic,
      byte and string functions of the Rust standard library, stable sorting,
      the hint database [etun] and the lemmas all files share.
    - Fs.v (crates/client/src/paths.rs, crates/relay/src/acme.rs): files with
      modes, operations that may fail, the process killed at any point
      ([crash_points]) or the machine stopped, when what was not synced is lost or
      kept in part ([stops], [survives]), and the atomic write both crates use.

    Protocol (crates/proto/src)
    - Limits.v, Frames.v (limits.rs, lib.rs, frames.rs): the constants and the
      frame types.
    - Codec.v (codec.rs): length-prefixed frames and the control preamble on
      byte streams that may end or fail anywhere.  The postcard encoding is the
      class [Wire] with its round-trip law.
    - Transport.v (transport.rs): the byte stream over WebSocket messages, poll
      by poll.

    Relay (crates/relay/src)
    - Router.v (router.rs): the routing table with its reverse index, refined to
      two plain maps ([Routes], [spec_op]).
    - F64.v, RateLimit.v (ratelimit.rs): IEEE binary64 as the standard library's
      [spec_float] with the exactness lemmas the token buckets need; the
      per-source rate limiter and the connection permits, the latter with their
      two critical sections interleaved ([cl_step]).
    - Auth.v (auth.rs): the trait [Authenticator] as a class, the laws a session
      may assume ([AuthenticatorLaws], stated over the view [OwnerView] of who
      owns what), and the in-memory implementation.
    - Registry.v (registry.rs): the SQLite registry.  Tables are lists of rows
      in row-id order; statements check the schema's constraints; transactions
      roll back when they are dropped; the engine may fail at any statement
      ([Engine]).  RegistryInv.v: the integrity invariant of every operation.
      RegistryProps.v: claims and the cap.  RegistryAuth.v: the registry keeps
      the [AuthenticatorLaws].  RegistryTokens.v: tokens, rotation, revocation
      and removal.  RegistryPrune.v: pruning to a cap.
    - Polar.v, PolarProps.v (polar.rs): the license gate: validation cache,
      validate budget, HTTP client, authentication by key, pooled caps,
      activation, and the enforcement of a lowered cap.
    - Session.v, SessionProps.v, SessionActor.v (session.rs): handshake, control
      loop, claims, releases, re-validation, and the actor that owns the
      connection.  Sessions are written against the class [SessionWorld] and
      proved against its laws [SessionLaws].
    - Relay.v: registry, router, gate and port manager (tcp.rs) put together as
      an instance of [SessionWorld], with the proof of [SessionLaws].
      SessionDemo.v runs the session theorems on a concrete relay.
    - Interleave.v: tasks as trees of atomic calls on a shared state, with
      rely and guarantee.  System.v (session.rs): every handler of the control
      loop as such a task, one call per lock taken, and the relay with all its
      sessions, under any interleaving of their calls ([moves]) or with each
      event at once ([amoves]).  SystemTasks.v: uninterrupted tasks are the
      handlers of Session.v.  SystemProps.v, SystemRely.v, SystemBounds.v: what
      holds in every run.  GateSteps.v (polar.rs): the license gate call by call,
      for the relay of Relay.v.  SystemDemo.v: runs on a concrete relay.
    - Control.v (session.rs, router.rs): the shared context with its session ids
      and its re-validation cadence; Module [Ctrl]: the bounded control channel,
      its senders, its writer task and their timeouts, which implement the [push]
      the sessions above are written with; a run ([run]) wakes a task whose timer is
      due before the next event ([wake]); the flush of a refusal.
    - Http.v, Edge.v (proxy.rs, listener.rs, tcp.rs, config.rs): header
      rewriting, host routing, the control upgrade, the HTTP proxy, admission,
      and the accounting of permits while connections, splices and sessions come
      and go ([edge_step]).  Front.v (listener.rs, tcp.rs): the accept loops (a
      connection is taken, then admitted), the sweeper, the loop of each raw port
      and the shutdown, over these permits.
    - Store.v (registry.rs, polar.rs): opening the database files and tightening
      their modes.
    - Splice.v (proxy.rs): the two copy loops of a spliced connection, the shared
      activity clock, the idle and absolute deadlines, and the timeout around
      proxied bodies (Module [Body]).
    - Certs.v (tls.rs, acme.rs, dns_cloudflare.rs): the SNI resolver, the
      certificate cache, the renewal loop, and the issuance with its DNS records.
      Acme.v (acme.rs, dns_cloudflare.rs): the Cloudflare client request by
      request, and the loop with the issuance through it.
    - Serve.v (main.rs, config.rs, listener.rs): what [etun serve] checks and
      wires before it accepts, and [etun admin].  RelayDoctor.v (doctor.rs).
      Settings.v (config.rs): decoding the configuration file.

    Client (crates/client/src)
    - ClientDaemon.v, ClientProps.v (supervisor.rs, proxy.rs): reconnecting with
      back-off, one connection from connect to heartbeat, the published status,
      forwarding to local services.
    - ClientRelay.v: the daemon's connection composed with the relay's session,
      frame by frame; ClientDemo.v runs it on a concrete relay.
    - ClientFiles.v, ClientCommands.v, ClientEdits.v (config.rs, creds.rs,
      status.rs, control.rs, login.rs, commands.rs): the files, the one-shot
      requests, the subcommands and what they leave on disk; ClientList.v: what
      [etun list] prints.
    - ClientStatus.v (commands.rs, status.rs): the status publisher, [etun
      status] and [etun logs].  ClientDoctor.v (doctor.rs, login.rs).
    - ClientNet.v (tls.rs, control.rs, login.rs, supervisor.rs): the steps that
      reach the relay, the trust they configure and the name they verify.
    - Service.v (service.rs, paths.rs): the unit and property-list texts, and
      installing, removing and controlling the service on each platform.

    Command line (crates/cli/src)
    - Cli.v (main.rs): every subcommand on one machine (client files, databases
      and their files, certificates, service manager), what [serve] and [up] write
      while they run, and the logging set-up.

    Conformance
    - TestKit.v, TestRegistry.v, TestRelay.v, TestPolar.v, TestSession.v,
      TestConfig.v, Tests.v: the crates' own unit tests, translated call by call
      and evaluated on the definitions of the files above.

    ** What the theorems show

    - Who gets traffic: no run of a session routes a name or port to anyone but
      its owner ([traffic_only_to_owner]), a grant is real, a denial routes
      nothing, a release frees exactly what was asked for and owned
      ([release_exact]), ports are bound only in range ([claim_binds_in_range]), a
      re-validation leaves no lost name; the assembled relay keeps the laws this
      rests on ([relay_lawful]); the edge opens a stream exactly for a request with
      one [Host] header that names a routed, non-reserved label ([route_sound]),
      with the visitor's address and scrubbed headers; and with the client attached,
      a name the daemon shows as granted is routed to it and, written in lower case,
      leads visitors to the local service configured for it ([tunnel_end_to_end]).
    - Many sessions: with events handled at once a visitor always reaches a session
      of the current owner, a live one unless the session went on after its exit
      ([served_by_live_owner], [late_event_leaks_route]), and these runs are
      schedules of the interleaved relay ([atomic_runs_refined]); in every
      interleaving routes lead to accepted sessions under their authenticated
      user ([any_interleaving_sound]), a user whose sessions do not release is
      never routed a name it does not own ([claims_race_free]), and a frame
      causes a bounded number of calls ([frame_work_bounded]).
    - Control frames: the channel implements the sessions' sends and delivers in
      order ([channel_refines_push]), a peer that stops reading is cut off by the
      two timeouts ([stalls_are_bounded]), a refusal is heard, session ids do not repeat.
    - Bytes: frames, preamble and the WebSocket byte stream round-trip, reads are
      bounded and terminate, a splice delivers prefixes in order and everything
      when it ends well ([splice_faithful]), silent ones end and busy ones do not.
    - Ownership and caps: registry integrity under failures, claims atomic,
      caps never exceeded but by an administrator's grants, prunes oldest-first and
      transactional; an admin
      command is one registry operation on one database.
    - Credentials: which tokens and license keys authenticate, that revocation
      is final (while the row stays or the token is not drawn again), rotation exact, cached answers used and bounded, nothing happens
      before an accepted handshake, a login stores exactly what was verified, and
      only a verified relay sees the token ([token_only_to_verified_relay]).
    - Resources: connection and session limits under every interleaving, exact
      bursts, transparent sweeps, one control stream, opens in order; the running
      relay's loops keep to the edge's steps and stop when told
      ([front_refines_edge]).
    - Certificates: the issuance through the provider's API implements the one on
      an abstract zone ([issue_refines]); what is served was validated, saved and
      is always there ([renewal_end_to_end]).
    - The machine: a subcommand changes only its own part of it
      ([commands_isolated]), databases stay private ([database_private]), the
      service's unit is written before it is started and says what it should
      ([install_starts_only_written], [unit_says], [system_service_token]), the
      configuration that loads is the file's ([limits_exact], [old_configs_load]).
    - Conformance: the definitions pass the crates' unit tests ([unit_tests_pass]).
    - Liveness: the supervisor retries for ever on its schedule, waits for DNS
      end, certificates are renewed in time.
    - Files: writes are atomic and private when they fail, when the process is
      killed, and when the machine stops after a sync that worked; each command
      edits exactly what it says, the status file is never torn.
    - Diagnosis: what exactly each doctor's verdict means.
    - Where the code falls short of its own words, a theorem shows the run:
      [stale_claim_misroutes], [late_release_unroutes_owner],
      [double_activation_leaks], [revoked_port_still_routed],
      [late_claim_leaks_route], [late_event_leaks_route], [rotate_failure_locks_out],
      [remove_user_partial], [map_cap_soft], [host_header_strippable],
      [second_connection_line_ignored], [torn_save_poisons],
      [expired_cache_is_served], [mixed_case_unserved],
      [connected_shown_while_down], [slow_peer_cut], [doctor_blind_to_key],
      [reconnect_not_announced], [welcome_may_be_lost],
      [oversize_answer_ends_session], [exec_path_unescaped],
      [ignored_sync_error_tears], [doctor_creates_registry].

    ** Conventions

    Integers are [Z] with wrap-around or saturation written out where the code's
    width matters; sets and maps are [gset] and [gmap]; strings are byte strings.
    An operation behind a lock is one function on the locked state; several
    critical sections are several steps.  Outside inputs are arguments: clocks,
    the operating system's answers, the polls of a stream, the answers of the
    license server, of the ACME server and of DNS, the frames and ticks a session
    receives, the sends that stall.

    Loops run over a list they are given (frames, rows, ports, hostnames, polls,
    attempts, events), so the functions are total.  One loop of the code is
    bounded only by time, the wait for a DNS record: [wait_propagated] has fuel,
    and fifty-two units are enough for its timeout of 150 seconds with three
    seconds between probes ([propagation_ends], [waits_decided]).

    ** Not modelled

    The libraries: TLS, X.509, ACME, yamux, WebSocket framing, HTTP parsing,
    SQLite's engine, the TOML and JSON parsers, argument parsing, the log writer,
    and the service managers: parameters with their documented behaviour, or
    inputs.  Building the relay's rustls configuration, which is one library call
    ([server_config]).  Of the unit tests, those that need a network, a WebSocket or a real
    certificate. *)

From Stdlib Require Export ZArith Lia.
From Stdlib Require Import Init.Byte Strings.Byte.
From stdpp Require Export base tactics option list strings gmap sorting.

(** ** Results and the state-and-error monad

    [result E A] is Rust's [Result<A, E>].  [st S E A] is a computation that
    threads a state [S] and may stop with an error; the state reached so far
    survives the error, as it does for a [&self] method that mutates through a
    lock and then returns [Err]. *)
Inductive result (E A : Type) : Type :=
  | Ok (a : A)
  | Err (e : E).
Arguments Ok {E A} a.
Arguments Err {E A} e.

#[export] Instance result_eq_dec {E A : Type} `{EqDecision E, EqDecision A} :
  EqDecision (result E A).
Proof. solve_decision. Defined.

#[export] Instance result_ret {E : Type} : MRet (result E) := fun A a => Ok a.
#[export] Instance result_bind {E : Type} : MBind (result E) :=
  fun A B f m => match m with Ok a => f a | Err e => Err e end.

Definition is_ok {E A : Type} (r : result E A) : bool :=
  match r with Ok _ => true | Err _ => false end.

(** [r.unwrap_or(d)], [r.map_err(f)] and [r.map(f)]. *)
Definition unwrap_or {E A : Type} (d : A) (r : result E A) : A :=
  match r with Ok a => a | Err _ => d end.
Definition map_err {E F A : Type} (f : E -> F) (r : result E A) : result F A :=
  match r with Ok a => Ok a | Err e => Err (f e) end.

Definition map_ok {E A B : Type} (f : A -> B) (r : result E A) : result E B :=
  match r with Ok a => Ok (f a) | Err e => Err e end.

(** [std::task::Poll]. *)
Inductive Poll (A : Type) : Type :=
  | Ready (a : A)
  | Pending.
Arguments Ready {A} a.
Arguments Pending {A}.

Definition st (S E A : Type) : Type := S -> result E A * S.
#[export] Instance st_ret {S E : Type} : MRet (st S E) := fun A a s => (Ok a, s).
#[export] Instance st_bind {S E : Type} : MBind (st S E) :=
  fun A B f m s => match m s with
                   | (Ok a, s') => f a s'
                   | (Err e, s') => (Err e, s')
                   end.
Definition st_fail {S E A : Type} (e : E) : st S E A := fun s => (Err e, s).

Lemma st_bind_ok {S E A B : Type} (m : st S E A) (f : A -> st S E B) s b s' :
  (m ≫= f) s = (Ok b, s') -> exists a s1, m s = (Ok a, s1) /\ f a s1 = (Ok b, s').
Proof. unfold mbind, st_bind. destruct (m s) as [[a|e] s1]; [eauto|done]. Qed.

(** Take a successful run apart, one bind at a time. *)
Ltac run_ok H :=
  let a := fresh "a" in let d := fresh "d" in let E := fresh "E" in
  apply st_bind_ok in H as (a & d & E & H).

(** ** Fixed-width integers *)
Definition u16_max : Z := 65535.
Definition u32_max : Z := 4294967295.
Definition u64_max : Z := 18446744073709551615.
Definition i64_min : Z := -9223372036854775808.
Definition i64_max : Z := 9223372036854775807.

(** Two's-complement reduction to [i64]: what [+] and [-] on [i64] compute in
    a release build. *)
Definition wrap_i64 (z : Z) : Z := ((z + 2 ^ 63) mod 2 ^ 64 - 2 ^ 63)%Z.
Definition i64_add (a b : Z) : Z := wrap_i64 (a + b).
Definition i64_sub (a b : Z) : Z := wrap_i64 (a - b).
(** [i64::saturating_sub]. *)
Definition i64_saturating_sub (a b : Z) : Z := Z.max i64_min (Z.min i64_max (a - b)).
Definition in_i64 (z : Z) : Prop := (i64_min <= z <= i64_max)%Z.

Lemma wrap_i64_id (z : Z) : in_i64 z -> wrap_i64 z = z.
Proof.
  unfold in_i64, wrap_i64, i64_min, i64_max. intros H.
  rewrite Z.mod_small by lia. lia.
Qed.

Lemma i64_add_exact (a b : Z) : in_i64 (a + b) -> i64_add a b = (a + b)%Z.
Proof. apply wrap_i64_id. Qed.
Lemma i64_sub_exact (a b : Z) : in_i64 (a - b) -> i64_sub a b = (a - b)%Z.
Proof. apply wrap_i64_id. Qed.

(** ** Bytes and little-endian integers *)
Abbreviation byte := Byte.byte.
#[export] Instance byte_eq_dec : EqDecision byte := Byte.byte_eq_dec.

Definition byte_val (b : byte) : Z := Z.of_N (Byte.to_N b).
Definition byte_of (z : Z) : byte :=
  default x00 (Byte.of_N (Z.to_N (z mod 256))).

(** [uN::to_le_bytes] at [n] bytes and [uN::from_le_bytes]. *)
Fixpoint to_le_bytes (n : nat) (z : Z) : list byte :=
  match n with
  | O => []
  | S n' => byte_of z :: to_le_bytes n' (z / 256)
  end.
Fixpoint from_le_bytes (bs : list byte) : Z :=
  match bs with
  | [] => 0
  | b :: bs' => byte_val b + 256 * from_le_bytes bs'
  end%Z.

Lemma byte_val_range (b : byte) : (0 <= byte_val b < 256)%Z.
Proof.
  unfold byte_val. pose proof (Byte.to_N_bounded b). lia.
Qed.

Lemma byte_val_of (z : Z) : byte_val (byte_of z) = (z mod 256)%Z.
Proof.
  unfold byte_val, byte_of.
  pose proof (Z.mod_pos_bound z 256 eq_refl) as Hb.
  destruct (Byte.of_N (Z.to_N (z mod 256))) as [b|] eqn:E; simpl.
  - apply Byte.to_of_N in E. rewrite E. lia.
  - apply Byte.of_N_None_iff in E. lia.
Qed.

Lemma length_to_le_bytes (n : nat) (z : Z) : length (to_le_bytes n z) = n.
Proof. revert z; induction n; intros z; simpl; auto. Qed.

Lemma from_to_le_bytes (n : nat) (z : Z) :
  (0 <= z < 256 ^ Z.of_nat n)%Z -> from_le_bytes (to_le_bytes n z) = z.
Proof.
  revert z. induction n as [|n IH]; intros z Hz; cbn [to_le_bytes from_le_bytes].
  - simpl in Hz. lia.
  - rewrite Nat2Z.inj_succ, Z.pow_succ_r in Hz by lia.
    rewrite byte_val_of, IH.
    + pose proof (Z.div_mod z 256 ltac:(lia)). lia.
    + split; [apply Z.div_pos; lia|]. apply Z.div_lt_upper_bound; lia.
Qed.

Lemma from_le_bytes_range (bs : list byte) :
  (0 <= from_le_bytes bs < 256 ^ Z.of_nat (length bs))%Z.
Proof.
  induction bs as [|b bs IH]; cbn [from_le_bytes length]; [simpl; lia|].
  rewrite Nat2Z.inj_succ, Z.pow_succ_r by lia.
  pose proof (byte_val_range b). lia.
Qed.

(** ** Strings

    A Rust [String] is its UTF-8 bytes; [string] is a sequence of 8-bit
    characters, so [len] is [String.length] and byte-wise tests are tests on
    characters. *)
Definition is_ascii_lowercase (c : Ascii.ascii) : bool :=
  let n := Ascii.nat_of_ascii c in (97 <=? n)%nat && (n <=? 122)%nat.
Definition is_ascii_digit (c : Ascii.ascii) : bool :=
  let n := Ascii.nat_of_ascii c in (48 <=? n)%nat && (n <=? 57)%nat.
Definition ascii_lower (c : Ascii.ascii) : Ascii.ascii :=
  let n := Ascii.nat_of_ascii c in
  if (65 <=? n)%nat && (n <=? 90)%nat then Ascii.ascii_of_nat (n + 32) else c.

Fixpoint to_ascii_lowercase (s : string) : string :=
  match s with
  | EmptyString => EmptyString
  | String c s' => String (ascii_lower c) (to_ascii_lowercase s')
  end.

Fixpoint str_forall (p : Ascii.ascii -> bool) (s : string) : bool :=
  match s with
  | EmptyString => true
  | String c s' => p c && str_forall p s'
  end.

(** [s.contains(c)] for a character. *)
Definition contains_char (c : Ascii.ascii) (s : string) : bool :=
  negb (str_forall (fun d => negb (Ascii.eqb c d)) s).

(** [s.strip_suffix(suf)], [s.ends_with(suf)], [s.starts_with(pre)]. *)
Fixpoint strip_suffix (suf s : string) : option string :=
  if decide (s = suf) then Some EmptyString else
  match s with
  | EmptyString => None
  | String c s' => String c <$> strip_suffix suf s'
  end.
Definition ends_with (suf s : string) : bool :=
  match strip_suffix suf s with Some _ => true | None => false end.
Definition starts_with (pre s : string) : bool := String.prefix pre s.

Definition is_empty (s : string) : bool :=
  match s with EmptyString => true | _ => false end.

Fixpoint last_char (s : string) : option Ascii.ascii :=
  match s with
  | EmptyString => None
  | String c EmptyString => Some c
  | String _ s' => last_char s'
  end.

Lemma string_app_nil_l (s : string) : (EmptyString +:+ s)%string = s.
Proof. reflexivity. Qed.
Lemma string_app_cons (c : Ascii.ascii) (s t : string) :
  (String c s +:+ t) = String c (s +:+ t).
Proof. reflexivity. Qed.
Lemma string_length_app (s t : string) :
  String.length (s +:+ t) = (String.length s + String.length t)%nat.
Proof.
  induction s as [|c s IH]; [reflexivity|].
  rewrite string_app_cons. simpl. by rewrite IH.
Qed.

Lemma strip_suffix_app (p suf : string) : strip_suffix suf (p +:+ suf) = Some p.
Proof.
  induction p as [|c p IH].
  - rewrite string_app_nil_l. destruct suf; cbn [strip_suffix]; by rewrite decide_True.
  - rewrite string_app_cons. cbn [strip_suffix].
    rewrite decide_False; [by rewrite IH|].
    intros E%(f_equal String.length). simpl in E.
    rewrite string_length_app in E. lia.
Qed.

Lemma strip_suffix_Some (suf s p : string) :
  strip_suffix suf s = Some p <-> s = p +:+ suf.
Proof.
  split; [|intros ->; apply strip_suffix_app].
  revert p. induction s as [|c s IH]; intros p; cbn [strip_suffix]; case_decide as Hd.
  - intros [= <-]. by rewrite string_app_nil_l.
  - done.
  - intros [= <-]. by rewrite string_app_nil_l.
  - intros (q & Hq & ->)%fmap_Some. by rewrite string_app_cons, <- (IH q Hq).
Qed.

Lemma string_app_inj_r (p q suf : string) : p +:+ suf = q +:+ suf -> p = q.
Proof.
  intros E. pose proof (strip_suffix_app p suf) as Hp.
  rewrite E, strip_suffix_app in Hp. by injection Hp.
Qed.

Lemma str_forall_app (p : Ascii.ascii -> bool) (s t : string) :
  str_forall p (s +:+ t) = str_forall p s && str_forall p t.
Proof.
  induction s as [|c s IH]; [reflexivity|].
  rewrite string_app_cons. simpl. by rewrite IH, andb_assoc.
Qed.

(** ** Automation *)
Create HintDb etun discriminated.
Create Rewrite HintDb etun.
#[export] Hint Constants Opaque : etun.
#[export] Hint Resolve byte_val_range from_le_bytes_range : etun.
#[export] Hint Rewrite length_to_le_bytes byte_val_of strip_suffix_app : etun.

(** Split the innermost [match] or [if] of the goal, or of a hypothesis. *)
Ltac split_match :=
  match goal with
  | |- context [match ?x with _ => _ end] =>
      lazymatch x with
      | context [match _ with _ => _ end] => fail
      | _ => destruct x eqn:?
      end
  end.
Ltac split_match_in H :=
  match type of H with
  | context [match ?x with _ => _ end] =>
      lazymatch x with
      | context [match _ with _ => _ end] => fail
      | _ => destruct x eqn:?
      end
  end.
Ltac split_matches := repeat split_match.
Ltac split_matches_in H := repeat split_match_in H.


(** ** Folds *)
Lemma foldl_inv {A B : Type} (P : A -> Prop) (f : A -> B -> A) (l : list B) (a : A) :
  (forall a b, P a -> P (f a b)) -> P a -> P (foldl f a l).
Proof. intros Hf. revert a. induction l; simpl; auto. Qed.

(** ** Stable sorting

    Rust's [sort_by] and SQL's [ORDER BY] on a total preorder: the stable sorted
    permutation, computed by insertion. *)
Section sort.
Context {A : Type} (leb : A -> A -> bool).
Fixpoint insert_by (x : A) (l : list A) : list A :=
  match l with
  | [] => [x]
  | y :: l' => if leb x y then x :: l else y :: insert_by x l'
  end.
Definition sort_by (l : list A) : list A := foldr insert_by [] l.

Lemma insert_by_perm (x : A) (l : list A) : insert_by x l ≡ₚ x :: l.
Proof using.
  induction l as [|y l IH]; cbn; [done|]. destruct (leb x y); [done|].
  rewrite IH. apply Permutation_swap.
Qed.
Lemma sort_by_perm (l : list A) : sort_by l ≡ₚ l.
Proof using.
  induction l as [|x l IH]; cbn; [done|].
  fold (sort_by l). rewrite insert_by_perm. by rewrite IH.
Qed.

Context (Htot : forall x y, leb x y = true \/ leb y x = true).
Context (Htrans : forall x y z, leb x y = true -> leb y z = true -> leb x z = true).
Lemma insert_by_sorted (x : A) (l : list A) :
  StronglySorted (fun a b => leb a b = true) l ->
  StronglySorted (fun a b => leb a b = true) (insert_by x l).
Proof using Htot Htrans.
  induction 1 as [|y l Hs IH Hy]; cbn; [repeat constructor|].
  destruct (leb x y) eqn:E.
  - constructor; [by constructor|]. constructor; [done|].
    eapply Forall_impl; [exact Hy|]. cbn. eauto.
  - constructor; [done|]. rewrite insert_by_perm. constructor; [|done].
    destruct (Htot x y); congruence.
Qed.
Lemma sort_by_sorted (l : list A) : StronglySorted (fun a b => leb a b = true) (sort_by l).
Proof using Htot Htrans.
  induction l as [|x l IH]; cbn; [constructor|]. by apply insert_by_sorted.
Qed.
End sort.

(** In a sorted list everything kept by [take] is below everything dropped. *)
Lemma StronglySorted_take_drop {A : Type} (R : A -> A -> Prop) (n : nat) (l : list A) (x y : A) :
  StronglySorted R l -> x ∈ take n l -> y ∈ drop n l -> R x y.
Proof.
  intros Hs. revert n. induction Hs as [|z l Hs IH Hz]; intros [|n] Hx Hy; cbn in *;
    try by apply not_elem_of_nil in Hx.
  apply elem_of_cons in Hx as [->|Hx]; [|eauto].
  rewrite Forall_forall in Hz. apply Hz. rewrite <- (take_drop n l), elem_of_app. by right.
Qed.

(** No element fails a test exactly when all pass it. *)
Lemma count_none {A : Type} (f : A -> bool) (b : bool) (l : list A) :
  length (filter (fun x => f x = b) l) = 0%nat <-> Forall (fun x => f x = negb b) l.
Proof.
  induction l as [|x l IH]; [by split|]. rewrite filter_cons, Forall_cons.
  destruct (decide (f x = b)) as [<-|Hne]; cbn.
  - split; [done|]. intros [Hx _]. by destruct (f x).
  - rewrite IH. split; [intros ?; split; [|done]|by intros []]. by destruct (f x), b.
Qed.

(** ** [str::trim], for the white space that is ASCII *)
Definition is_ws (c : Ascii.ascii) : bool :=
  let n := Ascii.nat_of_ascii c in ((9 <=? n) && (n <=? 13) || (n =? 32))%nat.
Fixpoint trim_start (s : string) : string :=
  match s with
  | EmptyString => EmptyString
  | String c rest => if is_ws c then trim_start rest else s
  end.
Fixpoint trim_end (s : string) : string :=
  match s with
  | EmptyString => EmptyString
  | String c rest =>
      match trim_end rest with
      | EmptyString => if is_ws c then EmptyString else String c EmptyString
      | t => String c t
      end
  end.
Definition trim (s : string) : string := trim_end (trim_start s).

(** ** State monad: mapping errors and preserving an invariant *)
Definition st_map_err {S E F A : Type} (f : E -> F) (m : st S E A) : st S F A :=
  fun s => let (r, s') := m s in (map_err f r, s').

(** [m] keeps [P] on every path, errors included. *)
Definition keeps {S E A : Type} (P : S -> Prop) (m : st S E A) : Prop :=
  forall s, P s -> P (m s).2.

Lemma keeps_ret {S E A : Type} (P : S -> Prop) (a : A) : keeps (E:=E) P (mret a).
Proof. by intros s. Qed.
Lemma keeps_fail {S E A : Type} (P : S -> Prop) (e : E) : keeps (A:=A) P (st_fail e).
Proof. by intros s. Qed.
Lemma keeps_bind {S E A B : Type} (P : S -> Prop) (m : st S E A) (k : A -> st S E B) :
  keeps P m -> (forall a, keeps P (k a)) -> keeps P (m ≫= k).
Proof.
  intros Hm Hk s Hs. unfold mbind, st_bind. specialize (Hm s Hs).
  destruct (m s) as [[a|e] s']; [by apply Hk|done].
Qed.
Lemma keeps_map_err {S E F A : Type} (P : S -> Prop) (f : E -> F) (m : st S E A) :
  keeps P m -> keeps P (st_map_err f m).
Proof. intros Hm s Hs. unfold st_map_err. specialize (Hm s Hs). by destruct (m s). Qed.
#[export] Hint Resolve keeps_ret keeps_fail keeps_bind keeps_map_err : etun.
