(* ===== verification/Limits.v ===== *)
(** * Protocol limits (crates/proto/src/limits.rs, lib.rs)

    The constants both halves of the protocol import.  Durations are in whole
    seconds. *)
From S2P Require Import Prelude.
Local Open Scope Z_scope.

Definition MAX_CONTROL_FRAME : Z := 64 * 1024.
Definition MAX_STREAM_HEADER : Z := 4 * 1024.
Definition STREAM_RECEIVE_WINDOW : Z := 256 * 1024.
Definition MAX_STREAMS_PER_CONNECTION : Z := 128.
Definition CONNECTION_RECEIVE_WINDOW : Z :=
  STREAM_RECEIVE_WINDOW * MAX_STREAMS_PER_CONNECTION.
Definition MAX_WS_MESSAGE : Z := 1024 * 1024.
Definition HEARTBEAT_INTERVAL : Z := 25.
Definition SESSION_DEAD_AFTER : Z := 90.
Definition HELLO_TIMEOUT : Z := 10.
Definition MAX_CLAIM_ENTRIES : nat := 256.
Definition TOKEN_REVALIDATE_INTERVAL : Z := 60.

Definition PROTOCOL_VERSION : Z := 3.
(** ASCII "ETUN". *)
Definition CONTROL_MAGIC : list byte :=
  [Byte.x45; Byte.x54; Byte.x55; Byte.x4e].
