(* ===== verification/Frames.v ===== *)
(** * Wire frames (crates/proto/src/frames.rs)

    The data that crosses the control stream and the preamble of a data
    stream, with the constructors and fields of the source.  [u16], [u64] and
    [i64] fields are [Z]; the ranges are stated where a claim depends on
    them. *)
From S2P Require Import Prelude.

(** [Secret]: a string whose [Debug] output is redacted. *)
Record Secret := mkSecret { expose : string }.

Inductive Resource :=
  | Host (h : string)
  | Port (p : Z).

Inductive DenyCode :=
  | AuthFailed | VersionUnsupported | NotOwner | UnknownHostname
  | PortNotReserved | PortUnavailable | LimitExceeded | ProtocolError.

Inductive ErrorCode := MalformedClaim | Internal.

Inductive ControlFrame :=
  | Hello (token : Secret) (agent_version : string) (proto_min proto_max : Z)
  | Welcome (proto : Z) (server_version : string) (session_id : Z)
  | Denied (code : DenyCode) (message : string)
  | Claim (hostnames : list string) (tcp_ports : list Z)
  | Granted (hostnames : list string) (tcp_ports : list Z)
  | Ping (nonce : Z)
  | Pong (nonce : Z)
  | Superseded (resource : Resource)
  | Goodbye
  | Shutdown (reason : string)
  | Error (code : ErrorCode) (message : string)
  | Release (hostnames : list string) (tcp_ports : list Z)
  | Released (hostnames : list string) (tcp_ports : list Z)
  | ListOwned
  | Owned (hostnames : list string) (tcp_ports : list Z) (max_tunnels : option Z).

(** [std::net::IpAddr]: an address is its octets. *)
Inductive IpAddr :=
  | V4 (octets : list byte)
  | V6 (octets : list byte).

Inductive StreamHeader :=
  | Http (host : string) (peer_ip : IpAddr) (peer_port : Z)
  | Tcp (port : Z) (peer_ip : IpAddr) (peer_port : Z).

#[export] Instance Secret_eq_dec : EqDecision Secret.
Proof. solve_decision. Defined.
#[export] Instance Resource_eq_dec : EqDecision Resource.
Proof. solve_decision. Defined.
#[export] Instance DenyCode_eq_dec : EqDecision DenyCode.
Proof. solve_decision. Defined.
#[export] Instance ErrorCode_eq_dec : EqDecision ErrorCode.
Proof. solve_decision. Defined.
#[export] Instance ControlFrame_eq_dec : EqDecision ControlFrame.
Proof. solve_decision. Defined.
#[export] Instance IpAddr_eq_dec : EqDecision IpAddr.
Proof. solve_decision. Defined.
#[export] Instance StreamHeader_eq_dec : EqDecision StreamHeader.
Proof. solve_decision. Defined.

(** [IpAddr] keys the limiter maps. *)
Definition ip_encode (ip : IpAddr) : bool * list N :=
  match ip with
  | V4 o => (false, Byte.to_N <$> o)
  | V6 o => (true, Byte.to_N <$> o)
  end.
Definition ip_decode (k : bool * list N) : option IpAddr :=
  (if k.1 then V6 else V4) <$> mapM Byte.of_N k.2.

Lemma ip_decode_encode (ip : IpAddr) : ip_decode (ip_encode ip) = Some ip.
Proof.
  assert (H : forall o : list byte, mapM Byte.of_N (Byte.to_N <$> o) = Some o).
  { intros o. apply mapM_Some. induction o; constructor; auto using Byte.of_to_N. }
  destruct ip; unfold ip_decode; cbn [ip_encode fst snd]; by rewrite H.
Qed.

#[export] Instance IpAddr_countable : Countable IpAddr :=
  inj_countable ip_encode ip_decode ip_decode_encode.
