(* ===== verification/Codec.v ===== *)
(** * Length-prefixed framing (crates/proto/src/codec.rs)

    A reader is the bytes still to come before the peer closes: [read_exact]
    takes a prefix or, when fewer bytes are left, consumes them and reports
    [UnexpectedEof].  A writer is the bytes sent so far plus its faults: it
    accepts [w_room] more bytes before the transport fails ([None]: it never
    does), and a flush succeeds iff [w_flush_ok].  The postcard
    encoder is a parameter of the model ([Wire]). *)
From S2P Require Import Prelude Limits Frames.
Local Open Scope Z_scope.

Inductive CodecError :=
  | Io (eof : bool)
  | Postcard
  | TooLarge (len max : Z)
  | BadMagic.
#[export] Instance CodecError_eq_dec : EqDecision CodecError.
Proof. solve_decision. Defined.

(** [CodecError::is_eof]. *)
Definition is_eof (e : CodecError) : bool :=
  match e with Io true => true | _ => false end.

(** The serde/postcard view of a frame type: [to_stdvec] and [from_bytes].
    [from_bytes] ignores trailing bytes, so the law is stated on the exact
    encoding only. *)
Class Wire (T : Type) := {
  to_stdvec : T -> result unit (list byte);
  from_bytes : list byte -> result unit T;
}.
(** Documented behaviour of postcard: what it encodes, it decodes. *)
Class WireLaw (T : Type) `{Wire T} :=
  wire_roundtrip : forall (x : T) bs, to_stdvec x = Ok bs -> from_bytes bs = Ok x.

(** ** Byte streams *)
Abbreviation reader := (list byte).
Record writer := mkWriter {
  w_sent : list byte;
  w_room : option nat;
  w_flush_ok : bool;
}.

Definition read_exact (n : nat) : st reader CodecError (list byte) :=
  fun r => if decide (n <= length r)%nat then (Ok (take n r), drop n r)
           else (Err (Io true), []).

Definition write_all (bs : list byte) : st writer CodecError unit :=
  fun w => match w_room w with
           | None => (Ok tt, mkWriter (w_sent w ++ bs) None (w_flush_ok w))
           | Some k =>
               if decide (length bs <= k)%nat
               then (Ok tt, mkWriter (w_sent w ++ bs) (Some (k - length bs)%nat)
                                     (w_flush_ok w))
               else (Err (Io false), mkWriter (w_sent w ++ take k bs) (Some 0%nat)
                                              (w_flush_ok w))
           end.

Definition flush : st writer CodecError unit :=
  fun w => (if w_flush_ok w then Ok tt else Err (Io false), w).

(** ** Frames *)
Section Framing.
Context {T : Type} `{Wire T}.

Definition write_frame (frame : T) (max : Z) : st writer CodecError unit :=
  match to_stdvec frame with
  | Err _ => st_fail Postcard
  | Ok bytes =>
      let len := Z.of_nat (length bytes) in
      if decide (max < len) then st_fail (TooLarge len max)
      else write_all (to_le_bytes 4 (len mod 2 ^ 32)) ;; write_all bytes ;; flush
  end.

Definition read_frame (max : Z) : st reader CodecError T :=
  len_buf ← read_exact 4;
  let len := from_le_bytes len_buf in
  if decide (max < len) then st_fail (TooLarge len max)
  else
    buf ← read_exact (Z.to_nat len);
    match from_bytes buf with
    | Ok x => mret x
    | Err _ => st_fail Postcard
    end.
End Framing.

Definition write_preamble : st writer CodecError unit :=
  write_all CONTROL_MAGIC ;; write_all (to_le_bytes 2 PROTOCOL_VERSION) ;; flush.

Definition read_preamble : st reader CodecError Z :=
  magic ← read_exact 4;
  if decide (magic = CONTROL_MAGIC) then
    ver ← read_exact 2;
    mret (from_le_bytes ver)
  else st_fail BadMagic.

(** The bytes one frame occupies on the wire. *)
Definition frame_bytes (bytes : list byte) : list byte :=
  to_le_bytes 4 (Z.of_nat (length bytes)) ++ bytes.

(** Several frames in a row: the loop both control tasks run. *)
Fixpoint write_frames {T : Type} `{Wire T} (fs : list T) (max : Z) :
    st writer CodecError unit :=
  match fs with
  | [] => mret tt
  | f :: fs' => write_frame f max ;; write_frames fs' max
  end.
Fixpoint read_frames {T : Type} `{Wire T} (n : nat) (max : Z) :
    st reader CodecError (list T) :=
  match n with
  | O => mret []
  | S n' => f ← read_frame max; fs ← read_frames n' max; mret (f :: fs)
  end.

(** ** Lemmas *)
Lemma read_exact_app (n : nat) (bs rest : list byte) :
  length bs = n -> read_exact n (bs ++ rest) = (Ok bs, rest).
Proof.
  intros <-. unfold read_exact. rewrite decide_True by (rewrite length_app; lia).
  by rewrite take_app_length, drop_app_length.
Qed.

Lemma read_exact_short (n : nat) (r : reader) :
  (length r < n)%nat -> read_exact n r = (Err (Io true), []).
Proof. intros ?. unfold read_exact. by rewrite decide_False by lia. Qed.

(** What [read_exact] leaves is what follows the bytes it used. *)
Lemma read_exact_used (n : nat) (r r' : reader) res :
  read_exact n r = (res, r') ->
  exists used, r = used ++ r' /\ (length used <= n)%nat /\
    match res with Ok bs => bs = used /\ length bs = n | Err e => e = Io true end.
Proof.
  unfold read_exact. case_decide; intros [= <- <-].
  - exists (take n r). rewrite take_drop, length_take. repeat split; lia.
  - exists r. rewrite app_nil_r. repeat split; lia.
Qed.

Lemma write_all_sent (bs : list byte) (w w' : writer) :
  write_all bs w = (Ok tt, w') -> w_sent w' = w_sent w ++ bs.
Proof. unfold write_all. split_matches; by intros [= <-]. Qed.

Lemma st_bind_Ok {S E A B : Type} (m : st S E A) (f : A -> st S E B) s b s' :
  (m ≫= f) s = (Ok b, s') -> exists a s1, m s = (Ok a, s1) /\ f a s1 = (Ok b, s').
Proof.
  unfold mbind, st_bind. destruct (m s) as [[a|e] s1]; intros E1; [eauto|done].
Qed.

Lemma frame_len_range (bytes : list byte) (max : Z) :
  max < 2 ^ 32 -> ~ max < Z.of_nat (length bytes) ->
  0 <= Z.of_nat (length bytes) < 256 ^ Z.of_nat 4.
Proof. change (256 ^ Z.of_nat 4) with (2 ^ 32). lia. Qed.

Section FramingLemmas.
Context {T : Type} `{WireLaw T}.

(** A successful write appends exactly one length-prefixed frame. *)
Lemma write_frame_Ok (x : T) (max : Z) (w w' : writer) :
  max < 2 ^ 32 -> write_frame x max w = (Ok tt, w') ->
  exists bytes, to_stdvec x = Ok bytes /\ Z.of_nat (length bytes) <= max /\
    w_sent w' = w_sent w ++ frame_bytes bytes.
Proof.
  intros Hmax. unfold write_frame. destruct (to_stdvec x) as [bytes|] eqn:E; [|done].
  case_decide as Hlen; [done|].
  pose proof (frame_len_range bytes max Hmax Hlen) as Hr.
  intros ([] & w1 & H1 & ([] & w2 & H2 & H3)%st_bind_Ok)%st_bind_Ok.
  apply write_all_sent in H1, H2.
  assert (w2 = w') as -> by (unfold flush in H3; destruct (w_flush_ok w2); by simplify_eq).
  exists bytes. split_and!; [done|lia|].
  unfold frame_bytes. by rewrite H2, H1, Z.mod_small, app_assoc by (exact Hr).
Qed.

Lemma read_frame_bytes (x : T) (max : Z) (bytes rest : list byte) :
  max < 2 ^ 32 -> Z.of_nat (length bytes) <= max -> to_stdvec x = Ok bytes ->
  read_frame max (frame_bytes bytes ++ rest) = (Ok x, rest).
Proof.
  intros Hmax Hlen Hx. pose proof (frame_len_range bytes max Hmax ltac:(lia)) as Hr.
  unfold read_frame, frame_bytes, mbind, st_bind. rewrite <- app_assoc.
  rewrite read_exact_app by apply length_to_le_bytes.
  rewrite from_to_le_bytes by done. rewrite decide_False by lia.
  rewrite read_exact_app by lia. by rewrite (wire_roundtrip x bytes Hx).
Qed.
End FramingLemmas.

(** ** Properties *)
Section FramingProperties.
Context {T : Type} `{WireLaw T}.

(** C32 Round trip of the framing layer: whatever sequence of frames one end
    writes successfully, the other end reads back as the same sequence, and
    the bytes that follow are left untouched in the stream. *)
Theorem frames_roundtrip (fs : list T) (max : Z) (w w' : writer) :
  max < 2 ^ 32 -> write_frames fs max w = (Ok tt, w') ->
  exists bs, w_sent w' = w_sent w ++ bs /\
    forall rest, read_frames (length fs) max (bs ++ rest) = (Ok fs, rest).
Proof.
  intros Hmax. revert w. induction fs as [|f fs IH]; intros w; simpl.
  - intros [= <-]. exists []. by rewrite app_nil_r.
  - intros ([] & w1 & (bytes & Hx & Hlen & Hs)%write_frame_Ok & Hrest)%st_bind_Ok; [|done].
    destruct (IH _ Hrest) as (bs & Hbs & Hread).
    exists (frame_bytes bytes ++ bs). split; [by rewrite Hbs, Hs, app_assoc|].
    intros rest. rewrite <- app_assoc. unfold mbind, st_bind.
    rewrite (read_frame_bytes f) by done. by rewrite Hread.
Qed.

(** C37 A reader is bounded by its ceiling on every input: it consumes a
    prefix of the stream of at most [4 + max] bytes, and a length prefix over
    the ceiling is refused after exactly those four bytes. *)
Theorem read_frame_bounded (max : Z) (r r' : reader) (res : result CodecError T) :
  0 <= max -> read_frame max r = (res, r') ->
  exists used, r = used ++ r' /\ Z.of_nat (length used) <= 4 + max /\
    forall len m, res = Err (TooLarge len m) ->
      length used = 4%nat /\ m = max /\ len = from_le_bytes used /\ max < len.
Proof.
  intros Hmax. unfold read_frame, mbind, st_bind.
  destruct (read_exact 4 r) as [[lb|e] r1] eqn:E1;
    apply read_exact_used in E1 as (u1 & -> & Hu1 & Hres1).
  - destruct Hres1 as [-> Hl1]. case_decide as Hlen.
    { intros [= <- <-]. exists u1. split_and!; [done|lia|]. by intros ?? [= <- <-]. }
    destruct (read_exact _ r1) as [[buf|e] r2] eqn:E2;
      apply read_exact_used in E2 as (u2 & -> & Hu2 & Hres2).
    + intros Hend.
      assert (r' = r2 /\ forall a b, res <> Err (TooLarge a b)) as [-> Hne].
      { destruct (from_bytes buf); unfold mret, st_ret, st_fail in Hend; naive_solver. }
      exists (u1 ++ u2). rewrite <- app_assoc, length_app.
      split_and!; [done|lia|]. naive_solver.
    + intros [= <- <-]. exists (u1 ++ u2). rewrite <- app_assoc, length_app.
      split_and!; [done|lia|]. naive_solver.
  - intros [= <- <-]. exists u1. split_and!; [done|lia|]. naive_solver.
Qed.

(** Oversized or unencodable values never reach the wire: a write that is
    refused for its size (or by the encoder) leaves the stream untouched. *)
Theorem write_frame_refused (x : T) (max : Z) (w : writer) :
  (forall bytes, to_stdvec x = Ok bytes -> max < Z.of_nat (length bytes)) ->
  exists e, write_frame x max w = (Err e, w) /\ is_eof e = false.
Proof.
  intros Hover. unfold write_frame. destruct (to_stdvec x) as [bytes|u].
  - rewrite decide_True by auto. eexists. by split.
  - eexists. by split.
Qed.

(** A peer that closes in the middle of a frame is always seen as
    end-of-stream, never as a value and never as a protocol violation. *)
Theorem truncated_frame_is_eof (x : T) (bytes : list byte) (max : Z) (k : nat) :
  max < 2 ^ 32 -> to_stdvec x = Ok bytes -> Z.of_nat (length bytes) <= max ->
  (k < length (frame_bytes bytes))%nat ->
  exists e, read_frame (T:=T) max (take k (frame_bytes bytes)) = (Err e, []) /\
    is_eof e = true.
Proof.
  intros Hmax Hx Hlen Hk. pose proof (frame_len_range bytes max Hmax ltac:(lia)) as Hr.
  exists (Io true). split; [|done]. unfold read_frame, mbind, st_bind.
  unfold frame_bytes in *. rewrite length_app, length_to_le_bytes in Hk.
  destruct (decide (k < 4)%nat) as [Hk4|Hk4].
  - rewrite read_exact_short; [done|]. rewrite length_take. lia.
  - rewrite take_app_ge by (rewrite length_to_le_bytes; lia).
    rewrite read_exact_app by apply length_to_le_bytes.
    rewrite from_to_le_bytes by done. rewrite decide_False by lia.
    rewrite read_exact_short; [done|].
    rewrite length_take, length_to_le_bytes. lia.
Qed.
End FramingProperties.

(** The control preamble: what [write_preamble] sends, [read_preamble]
    accepts as this build's version, leaving the rest of the stream; any other
    four leading bytes are refused as [BadMagic]. *)
Theorem preamble_roundtrip (w w' : writer) (rest : list byte) :
  write_preamble w = (Ok tt, w') ->
  (exists bs, w_sent w' = w_sent w ++ bs /\
     read_preamble (bs ++ rest) = (Ok PROTOCOL_VERSION, rest)) /\
  (forall magic, length magic = 4%nat -> magic <> CONTROL_MAGIC ->
     read_preamble (magic ++ rest) = (Err BadMagic, rest)).
Proof.
  intros ([] & w1 & H1 & ([] & w2 & H2 & H3)%st_bind_Ok)%st_bind_Ok.
  apply write_all_sent in H1, H2. split.
  - assert (w2 = w') as -> by (unfold flush in H3; destruct (w_flush_ok w2); by simplify_eq).
    exists (CONTROL_MAGIC ++ to_le_bytes 2 PROTOCOL_VERSION). rewrite H2, H1, app_assoc.
    split; [done|]. rewrite <- app_assoc. unfold read_preamble, mbind, st_bind.
    rewrite read_exact_app by done. rewrite decide_True by done.
    by rewrite read_exact_app.
  - intros magic Hl Hne. unfold read_preamble, mbind, st_bind.
    rewrite read_exact_app by done. by rewrite decide_False.
Qed.

(** ** Witnesses: the laws are satisfiable (raw byte payloads encode as
    themselves) and the properties apply to concrete streams. *)
Section CodecWitnesses.
#[local] Instance raw_wire : Wire (list byte) :=
  {| to_stdvec bs := Ok bs; from_bytes bs := Ok bs |}.
#[local] Instance raw_wire_law : WireLaw (list byte).
Proof. by intros x bs [= ->]. Qed.

Definition codec_w0 := mkWriter [] None true.
Definition two_frames : list (list byte) := [[Byte.x01]; [Byte.x02; Byte.x03]].
Definition wire_two : list byte :=
  frame_bytes [Byte.x01] ++ frame_bytes [Byte.x02; Byte.x03].

Lemma frames_roundtrip_witness :
  exists bs, wire_two = [] ++ bs /\
    forall rest, read_frames 2 MAX_CONTROL_FRAME (bs ++ rest) = (Ok two_frames, rest).
Proof.
  apply (frames_roundtrip two_frames MAX_CONTROL_FRAME codec_w0 (mkWriter wire_two None true)).
  - unfold MAX_CONTROL_FRAME; lia.
  - vm_compute. reflexivity.
Defined.

Lemma read_frame_bounded_witness :
  exists used : list byte, to_le_bytes 4 11 ++ [Byte.x01] = used ++ [Byte.x01] /\
    Z.of_nat (length used) <= 4 + 10 /\
    forall len m, @Err _ (list byte) (TooLarge 11 10) = Err (TooLarge len m) ->
      length used = 4%nat /\ m = 10 /\ len = from_le_bytes used /\ 10 < len.
Proof.
  apply (read_frame_bounded (T:=list byte) 10).
  - lia.
  - vm_compute. reflexivity.
Defined.

Lemma write_frame_refused_witness :
  exists e, write_frame [Byte.x01; Byte.x02] 1 codec_w0 = (Err e, codec_w0) /\ is_eof e = false.
Proof.
  apply (write_frame_refused (T:=list byte)).
  intros bytes [= <-]. simpl. lia.
Defined.

Lemma truncated_frame_is_eof_witness :
  exists e, read_frame (T:=list byte) 10 (take 5 (frame_bytes [Byte.x01; Byte.x02]))
              = (Err e, []) /\ is_eof e = true.
Proof.
  apply (truncated_frame_is_eof [Byte.x01; Byte.x02] [Byte.x01; Byte.x02] 10 5).
  - lia.
  - reflexivity.
  - simpl; lia.
  - vm_compute; lia.
Defined.

Lemma preamble_roundtrip_witness :
  (exists bs, CONTROL_MAGIC ++ to_le_bytes 2 3 = [] ++ bs /\
     read_preamble (bs ++ []) = (Ok PROTOCOL_VERSION, [])) /\
  (forall magic, length magic = 4%nat -> magic <> CONTROL_MAGIC ->
     read_preamble (magic ++ []) = (Err BadMagic, [])).
Proof.
  apply (preamble_roundtrip codec_w0 (mkWriter (CONTROL_MAGIC ++ to_le_bytes 2 3) None true)).
  vm_compute. reflexivity.
Defined.
End CodecWitnesses.
