(* ===== verification/Transport.v ===== *)
(** * The WebSocket byte stream (crates/proto/src/transport.rs)

    [WsByteStream] turns a WebSocket, a stream of messages, into the byte
    stream yamux runs on.  The WebSocket library is outside the sources: what
    it answers is an input.  [inbound] lists the answers successive [poll_next]
    calls will get (an exhausted list answers [Pending]: nothing has arrived
    yet), and the answers of the sink ([poll_ready], [start_send], [poll_flush],
    [poll_close]) are arguments of the operations that ask for them.  What the
    stream sends is collected in [sent]. *)
From S2P Require Import Prelude Limits.
Local Open Scope Z_scope.

(** [io::Error] and tungstenite's [Error] and [Message]. *)
Inductive IoError :=
  | Os (code : Z)
  | IoOther (what : string).
Inductive WsError :=
  | WsIo (e : IoError)
  | WsOther (what : string).
Inductive Message :=
  | Text (s : string)
  | Binary (data : list byte)
  | WsPing (data : list byte)
  | WsPong (data : list byte)
  | Close (code : option Z)
  | Frame (data : list byte).

(** What one [poll_next] answers. *)
Abbreviation WsPoll := (Poll (option (result WsError Message))).

Record WsByteStream := mkWsByteStream {
  inbound : list WsPoll;
  sent : list Message;
  read_buf : list byte;
  closed : bool;
}.

(** [WsByteStream::new] around a socket that will answer [inb]. *)
Definition ws_new (inb : list WsPoll) : WsByteStream := mkWsByteStream inb [] [] false.

(** The limits the two library configurations are given; the other fields keep
    the libraries' defaults. *)
Record WebSocketConfig := mkWebSocketConfig {
  max_message_size : option Z;
  max_frame_size : option Z;
}.
Definition ws_config : WebSocketConfig :=
  mkWebSocketConfig (Some MAX_WS_MESSAGE) (Some MAX_WS_MESSAGE).

Record YamuxConfig := mkYamuxConfig {
  max_num_streams : Z;
  max_connection_receive_window : option Z;
}.
Definition mux_connection_config (dflt : YamuxConfig) : YamuxConfig :=
  let cfg := mkYamuxConfig MAX_STREAMS_PER_CONNECTION (max_connection_receive_window dflt) in
  mkYamuxConfig (max_num_streams cfg) (Some CONNECTION_RECEIVE_WINDOW).

Definition ws_err (e : WsError) : IoError :=
  match e with
  | WsIo io => io
  | WsOther what => IoOther what
  end.

(** ** Reading *)

(** The head of the loop: hand out what is buffered. *)
Definition take_buffered (room : nat) (s : WsByteStream) : list byte * WsByteStream :=
  let n := Nat.min room (length (read_buf s)) in
  (take n (read_buf s),
   mkWsByteStream (inbound s) (sent s) (drop n (read_buf s)) (closed s)).

Definition set_inbound (inb : list WsPoll) (s : WsByteStream) : WsByteStream :=
  mkWsByteStream inb (sent s) (read_buf s) (closed s).
Definition set_read_buf (bs : list byte) (s : WsByteStream) : WsByteStream :=
  mkWsByteStream (inbound s) (sent s) bs (closed s).
Definition set_closed (s : WsByteStream) : WsByteStream :=
  mkWsByteStream (inbound s) (sent s) (read_buf s) true.

Definition oversized : IoError := IoOther "oversized WS message".

(** The loop of [poll_read] from the point where nothing is buffered and the
    stream is open: one turn per answer of the socket.  [room] is [buf.len()];
    the bytes of [Ready (Ok bs)] are what was copied into [buf]. *)
Fixpoint poll_next_loop (room : nat) (inb : list WsPoll) (s : WsByteStream) :
    Poll (result IoError (list byte)) * WsByteStream :=
  match inb with
  | [] => (Pending, set_inbound [] s)
  | Pending :: rest => (Pending, set_inbound rest s)
  | Ready None :: rest => (Ready (Ok []), set_closed (set_inbound rest s))
  | Ready (Some (Err e)) :: rest => (Ready (Err (ws_err e)), set_inbound rest s)
  | Ready (Some (Ok msg)) :: rest =>
      match msg with
      | Binary ((_ :: _) as data) =>
          if MAX_WS_MESSAGE <? Z.of_nat (length data)
          then (Ready (Err oversized), set_inbound rest s)
          else let (bs, s') := take_buffered room (set_read_buf data (set_inbound rest s)) in
               (Ready (Ok bs), s')
      | Close _ => (Ready (Ok []), set_closed (set_inbound rest s))
      | _ => poll_next_loop room rest s
      end
  end.

Definition poll_read (room : nat) (s : WsByteStream) :
    Poll (result IoError (list byte)) * WsByteStream :=
  match read_buf s with
  | _ :: _ => let (bs, s') := take_buffered room s in (Ready (Ok bs), s')
  | [] => if closed s then (Ready (Ok []), s)
          else poll_next_loop room (inbound s) s
  end.

(** ** Writing *)
Definition send (m : Message) (s : WsByteStream) : WsByteStream :=
  mkWsByteStream (inbound s) (sent s ++ [m]) (read_buf s) (closed s).

Definition poll_write (ready : Poll (result WsError unit)) (start_send : result WsError unit)
    (buf : list byte) (s : WsByteStream) : Poll (result IoError Z) * WsByteStream :=
  match ready with
  | Ready (Ok _) =>
      let n := Z.min (Z.of_nat (length buf)) MAX_WS_MESSAGE in
      let msg := Binary (take (Z.to_nat n) buf) in
      match start_send with
      | Ok _ => (Ready (Ok n), send msg s)
      | Err e => (Ready (Err (ws_err e)), s)
      end
  | Ready (Err e) => (Ready (Err (ws_err e)), s)
  | Pending => (Pending, s)
  end.

(** [poll_flush] and [poll_close] pass the socket's answer on. *)
Definition poll_pass (answer : Poll (result WsError unit)) : Poll (result IoError unit) :=
  match answer with
  | Ready r => Ready (map_err ws_err r)
  | Pending => Pending
  end.

(** ** Runs: a reader that polls with buffers of the given sizes, and a writer
    that offers what is left of its buffer at every poll. *)
Fixpoint reads (rooms : list nat) (s : WsByteStream) : list byte * WsByteStream :=
  match rooms with
  | [] => ([], s)
  | room :: rooms' =>
      let (r, s1) := poll_read room s in
      let (bs, s2) := reads rooms' s1 in
      (match r with Ready (Ok b) => b ++ bs | _ => bs end, s2)
  end.

Fixpoint writes (answers : list (Poll (result WsError unit) * result WsError unit))
    (buf : list byte) (s : WsByteStream) : list byte * WsByteStream :=
  match answers with
  | [] => (buf, s)
  | (rdy, snd) :: answers' =>
      match buf with
      | [] => ([], s)
      | _ :: _ =>
          match poll_write rdy snd buf s with
          | (Ready (Ok n), s') => writes answers' (drop (Z.to_nat n) buf) s'
          | (_, s') => writes answers' buf s'
          end
      end
  end.

(** ** The byte stream a reader is promised

    [ws_bytes inb]: the payloads of the binary messages up to the first close
    frame or end of stream, oversized messages excepted. *)
Fixpoint ws_bytes (inb : list WsPoll) : list byte :=
  match inb with
  | [] => []
  | Ready None :: _ | Ready (Some (Ok (Close _))) :: _ => []
  | Ready (Some (Ok (Binary data))) :: rest =>
      (if MAX_WS_MESSAGE <? Z.of_nat (length data) then [] else data) ++ ws_bytes rest
  | _ :: rest => ws_bytes rest
  end.
Definition stream_bytes (s : WsByteStream) : list byte :=
  read_buf s ++ if closed s then [] else ws_bytes (inbound s).

(** How many polls with non-empty buffers can still make progress. *)
Definition work (s : WsByteStream) : nat :=
  length (stream_bytes s) + length (inbound s).

(** The payloads a list of messages carries. *)
Definition payload (m : Message) : list byte :=
  match m with Binary data => data | _ => [] end.
(** The binary messages of what a socket delivers. *)
Definition binaries (inb : list WsPoll) : list Message :=
  omap (fun p => match p with Ready (Some (Ok (Binary d))) => Some (Binary d) | _ => None end) inb.
Definition open_ended (p : WsPoll) : bool :=
  match p with Ready None | Ready (Some (Ok (Close _))) => false | _ => true end.

(** ** Lemmas *)
Lemma take_buffered_spec (room : nat) (s : WsByteStream) :
  let (bs, s') := take_buffered room s in
  read_buf s = bs ++ read_buf s' /\ inbound s' = inbound s /\ closed s' = closed s /\
  sent s' = sent s /\ length bs = Nat.min room (length (read_buf s)).
Proof.
  unfold take_buffered. cbn. rewrite take_drop, length_take.
  repeat split; auto. lia.
Qed.

(** One turn from an empty buffer neither loses, reorders nor invents bytes. *)
Lemma poll_next_loop_bytes (room : nat) (inb : list WsPoll) (s : WsByteStream) :
  read_buf s = [] -> closed s = false ->
  let (r, s') := poll_next_loop room inb s in
  ws_bytes inb = match r with Ready (Ok bs) => bs | _ => [] end ++ stream_bytes s'.
Proof.
  intros Hb Hc. induction inb as [|p inb IH]; cbn -[take_buffered Z.ltb Z.of_nat].
  - unfold stream_bytes. cbn. by rewrite Hb, Hc.
  - destruct p as [[[msg|e]|]|]; try by (unfold stream_bytes; cbn; rewrite ?Hb, ?Hc).
    destruct msg as [t|[|b data]|d|d|c|d]; try exact IH;
      try by (unfold stream_bytes; cbn; rewrite ?Hb, ?Hc).
    destruct (_ <? _) eqn:Hsz; [by unfold stream_bytes; cbn; rewrite ?Hb, ?Hc|].
    pose proof (take_buffered_spec room (set_read_buf (b :: data) (set_inbound inb s))) as Ht.
    destruct (take_buffered _ _) as [bs s'] eqn:E. cbn in Ht.
    destruct Ht as (Hrd & Hin & Hcl & _). unfold stream_bytes.
    rewrite Hcl, Hc, Hin, app_assoc. by rewrite <- Hrd.
Qed.

Lemma poll_read_bytes (room : nat) (s : WsByteStream) :
  let (r, s') := poll_read room s in
  stream_bytes s = match r with Ready (Ok bs) => bs | _ => [] end ++ stream_bytes s'.
Proof.
  unfold poll_read. destruct (read_buf s) as [|b l] eqn:Hb.
  - destruct (closed s) eqn:Hc; [by unfold stream_bytes; rewrite Hb, Hc|].
    pose proof (poll_next_loop_bytes room (inbound s) s Hb Hc) as H.
    destruct (poll_next_loop _ _ _) as [r s'].
    unfold stream_bytes at 1. by rewrite Hb, Hc.
  - pose proof (take_buffered_spec room s) as Ht.
    destruct (take_buffered _ _) as [bs s'] eqn:E.
    destruct Ht as (Hrd & Hin & Hcl & _). unfold stream_bytes.
    by rewrite Hcl, Hin, app_assoc, Hrd.
Qed.

Lemma reads_bytes (rooms : list nat) (s : WsByteStream) :
  stream_bytes s = (reads rooms s).1 ++ stream_bytes (reads rooms s).2.
Proof.
  revert s. induction rooms as [|room rooms IH]; intros s; cbn; [done|].
  pose proof (poll_read_bytes room s) as Hr. destruct (poll_read room s) as [r s1].
  specialize (IH s1). destruct (reads rooms s1) as [bs s2]. cbn in *.
  rewrite Hr, IH. destruct r as [[b|e]|]; cbn; by rewrite ?app_assoc.
Qed.

Lemma poll_next_loop_inbound (room : nat) (inb : list WsPoll) (s : WsByteStream) :
  inb <> [] -> (length (inbound (poll_next_loop room inb s).2) < length inb)%nat.
Proof.
  induction inb as [|p inb IH]; [done|]. intros _.
  assert (Hrec : (length (inbound (poll_next_loop room inb s).2) < S (length inb))%nat).
  { destruct inb as [|q inb]; [cbn; lia|].
    assert (H : q :: inb <> []) by done. specialize (IH H). lia. }
  destruct p as [[[msg|e]|]|]; cbn -[take_buffered Z.ltb Z.of_nat]; try lia.
  destruct msg as [t|[|b data]|d|d|c|d]; try exact Hrec; cbn -[Z.ltb Z.of_nat]; try lia.
  destruct (_ <? _); cbn; lia.
Qed.

(** A poll with room makes progress, or there is nothing left to deliver. *)
Lemma poll_read_progress (room : nat) (s : WsByteStream) :
  (0 < room)%nat -> stream_bytes s = [] \/ (work (poll_read room s).2 < work s)%nat.
Proof.
  intros Hroom. pose proof (poll_read_bytes room s) as Hbytes. unfold work.
  unfold poll_read in *. destruct (read_buf s) as [|b l] eqn:Hb.
  - destruct (closed s) eqn:Hc; [by left; unfold stream_bytes; rewrite Hb, Hc|].
    destruct (inbound s) as [|p inb] eqn:Hin;
      [by left; unfold stream_bytes; rewrite Hb, Hc, Hin|]. right.
    pose proof (poll_next_loop_inbound room (p :: inb) s ltac:(done)) as Hlt.
    destruct (poll_next_loop _ _ _) as [r s']. cbn [snd] in *.
    rewrite Hbytes, length_app. lia.
  - right. pose proof (take_buffered_spec room s) as Ht.
    destruct (take_buffered room s) as [bs s'] eqn:E. cbn [snd] in *.
    destruct Ht as (_ & Hin & _ & _ & Hlen). rewrite Hb in Hlen. cbn in Hlen.
    rewrite Hbytes, length_app, Hin. lia.
Qed.

Lemma reads_done (rooms : list nat) (s : WsByteStream) :
  stream_bytes s = [] -> stream_bytes (reads rooms s).2 = [].
Proof.
  intros H. pose proof (reads_bytes rooms s) as Hr. rewrite H in Hr.
  symmetry in Hr. by apply app_eq_nil in Hr as [_ ->].
Qed.

Lemma reads_drain (rooms : list nat) (s : WsByteStream) :
  Forall (fun r => 0 < r)%nat rooms -> (work s <= length rooms)%nat ->
  stream_bytes (reads rooms s).2 = [].
Proof.
  intros Hr. revert s. induction Hr as [|room rooms Hpos _ IH]; intros s Hw.
  - cbn in *. apply length_zero_iff_nil. unfold work in Hw. lia.
  - destruct (poll_read_progress room s Hpos) as [E|Hlt]; [by apply reads_done|].
    cbn. destruct (poll_read room s) as [r s1]. cbn [length snd] in *.
    specialize (IH s1 ltac:(lia)). by destruct (reads rooms s1).
Qed.

(** C33 A reader that keeps polling gets everything: [work s] polls with
    non-empty buffers, of whatever sizes, deliver exactly the payload bytes of
    the binary messages the socket holds, in order, whatever control, text and
    empty messages lie between them, and then nothing is left. *)
Theorem reads_terminate (rooms : list nat) (s : WsByteStream) :
  Forall (fun r => 0 < r)%nat rooms -> (work s <= length rooms)%nat ->
  (reads rooms s).1 = stream_bytes s /\ stream_bytes (reads rooms s).2 = [].
Proof.
  intros Hr Hw. pose proof (reads_drain rooms s Hr Hw) as Hd. split; [|done].
  rewrite (reads_bytes rooms s), Hd. by rewrite app_nil_r.
Qed.

(** Two messages with a ping, an empty binary message and a wait between. *)
Definition demo_inbound : list WsPoll :=
  [Ready (Some (Ok (Binary [Byte.x01; Byte.x02; Byte.x03])));
   Ready (Some (Ok (WsPing [Byte.xff]))); Pending;
   Ready (Some (Ok (Binary []))); Ready (Some (Ok (Text "hi")));
   Ready (Some (Ok (Binary [Byte.x04]))); Ready (Some (Ok (Close None)))].
Lemma reads_terminate_witness :
  (reads (repeat 2%nat 11) (ws_new demo_inbound)).1 = [Byte.x01; Byte.x02; Byte.x03; Byte.x04] /\
  stream_bytes (reads (repeat 2%nat 11) (ws_new demo_inbound)).2 = [].
Proof.
  destruct (reads_terminate (repeat 2%nat 11) (ws_new demo_inbound)) as [H1 H2].
  - repeat constructor.
  - vm_compute. lia.
  - split; [rewrite H1; reflexivity|exact H2].
Defined.

(** End of file is genuine: a poll with room reports [Ok(0)] only when the
    peer closed and every byte it sent before was delivered, and from then on
    every poll reports it again. *)
Theorem eof_genuine (room : nat) (s s' : WsByteStream) :
  (0 < room)%nat -> poll_read room s = (Ready (Ok []), s') ->
  closed s' = true /\ stream_bytes s = [] /\
  forall room', poll_read room' s' = (Ready (Ok []), s').
Proof.
  intros Hroom E. pose proof (poll_read_bytes room s) as Hbytes. rewrite E in Hbytes.
  assert (H : closed s' = true /\ read_buf s' = []).
  { unfold poll_read in E. destruct (read_buf s) as [|b l] eqn:Hb.
    - destruct (closed s) eqn:Hc; [by injection E as <-|].
      revert E. clear Hbytes. generalize (inbound s) as inb. intros inb.
      induction inb as [|[[[msg|e]|]|] inb IH]; cbn -[Z.ltb Z.of_nat]; try done.
      + destruct msg as [t|[|b data]|d|d|c|d]; cbn -[Z.ltb Z.of_nat]; try done.
        * by destruct (_ <? _), room; [done|done|lia|].
        * by intros [= <-].
      + by intros [= <-].
    - unfold take_buffered in E. rewrite Hb in E. by destruct room; [lia|]. }
  destruct H as [Hc Hb]. split; [done|]. split.
  - rewrite Hbytes. unfold stream_bytes. by rewrite Hc, Hb.
  - intros room'. unfold poll_read. by rewrite Hb, Hc.
Qed.

Lemma eof_genuine_witness :
  closed (poll_read 4 (ws_new [Ready None; Pending])).2 = true /\
  stream_bytes (ws_new [Ready None; Pending]) = [] /\
  forall room', poll_read room' (poll_read 4 (ws_new [Ready None; Pending])).2 =
    (Ready (Ok []), (poll_read 4 (ws_new [Ready None; Pending])).2).
Proof.
  apply (eof_genuine 4 (ws_new [Ready None; Pending])); [lia|reflexivity].
Defined.

(** ** Writes *)
Definition accepts (a : Poll (result WsError unit) * result WsError unit) : bool :=
  match a with (Ready (Ok _), Ok _) => true | _ => false end.

Lemma poll_write_accepted (a : Poll (result WsError unit) * result WsError unit)
    (buf : list byte) (s : WsByteStream) :
  let n := Z.min (Z.of_nat (length buf)) MAX_WS_MESSAGE in
  poll_write a.1 a.2 buf s =
    if accepts a then (Ready (Ok n), send (Binary (take (Z.to_nat n) buf)) s)
    else ((poll_write a.1 a.2 buf s).1, s).
Proof. destruct a as [[[u|e]|] [v|e']]; reflexivity. Qed.

(** Every step of [writes]: an accepted poll sends one chunk, any other leaves
    buffer and socket as they were. *)
Lemma writes_cons (a : Poll (result WsError unit) * result WsError unit) answers buf s :
  buf <> [] ->
  let n := Z.to_nat (Z.min (Z.of_nat (length buf)) MAX_WS_MESSAGE) in
  writes (a :: answers) buf s =
    if accepts a then writes answers (drop n buf) (send (Binary (take n buf)) s)
    else writes answers buf s.
Proof.
  intros Hb n. destruct buf as [|b buf]; [done|].
  destruct a as [[[u|e]|] [v|e']]; reflexivity.
Qed.

Definition payloads (ms : list Message) : list byte := concat (payload <$> ms).

Lemma payloads_app (ms ns : list Message) : payloads (ms ++ ns) = payloads ms ++ payloads ns.
Proof. unfold payloads. by rewrite fmap_app, concat_app. Qed.

Definition well_sized (m : Message) : Prop :=
  match m with
  | Binary d => d <> [] /\ Z.of_nat (length d) <= MAX_WS_MESSAGE
  | _ => False
  end.

Lemma chunk_well_sized (buf : list byte) :
  buf <> [] ->
  well_sized (Binary (take (Z.to_nat (Z.min (Z.of_nat (length buf)) MAX_WS_MESSAGE)) buf)).
Proof.
  intros Hb. assert (0 < length buf)%nat by (destruct buf; [done|cbn; lia]).
  assert (0 < MAX_WS_MESSAGE) by done. split.
  - intros E%(f_equal length). rewrite length_take in E. cbn in E. lia.
  - rewrite length_take. lia.
Qed.

(** What is sent, with what is left over, is the buffer; every message is a
    non-empty binary one within the limit. *)
Lemma writes_sent answers (buf : list byte) (s : WsByteStream) :
  exists ms, sent (writes answers buf s).2 = sent s ++ ms /\ Forall well_sized ms /\
    payloads ms ++ (writes answers buf s).1 = buf.
Proof.
  revert buf s. induction answers as [|a answers IH]; intros buf s.
  { exists []. cbn. by rewrite app_nil_r. }
  destruct (decide (buf = [])) as [->|Hb].
  { exists []. destruct a. cbn. by rewrite app_nil_r. }
  rewrite writes_cons by done. destruct (accepts a); [|apply IH].
  edestruct IH as (ms & -> & Hws & E).
  eexists (_ :: ms). split; [by cbn; rewrite <- app_assoc|]. split.
  - constructor; [by apply chunk_well_sized|done].
  - unfold payloads in *. cbn -[Z.to_nat]. rewrite <- app_assoc, E. apply take_drop.
Qed.

Lemma writes_finish answers (buf : list byte) (s : WsByteStream) :
  Z.of_nat (length buf) <= MAX_WS_MESSAGE * Z.of_nat (length (filter accepts answers)) ->
  (writes answers buf s).1 = [].
Proof.
  assert (0 < MAX_WS_MESSAGE) by done.
  revert buf s. induction answers as [|a answers IH]; intros buf s Hlen.
  { cbn in *. apply length_zero_iff_nil. lia. }
  destruct (decide (buf = [])) as [->|Hb]; [by destruct a|].
  rewrite writes_cons by done. rewrite filter_cons in Hlen.
  destruct (accepts a) eqn:Ha; apply IH.
  - rewrite decide_True in Hlen by done. cbn [length] in Hlen. rewrite length_drop. lia.
  - by rewrite decide_False in Hlen by auto.
Qed.

Lemma ws_bytes_binaries (inb : list WsPoll) :
  forallb open_ended inb = true -> Forall well_sized (binaries inb) ->
  ws_bytes inb = payloads (binaries inb).
Proof.
  induction inb as [|p inb IH]; [done|]. cbn [forallb].
  intros [Hp Hrest]%andb_true_iff Hws.
  destruct p as [[[msg|e]|]|]; try done; cbn in *; try by apply IH.
  destruct msg; try done; cbn in *; try by apply IH.
  apply Forall_cons in Hws as [[_ Hsz] Hws'].
  destruct (Z.ltb_spec MAX_WS_MESSAGE (Z.of_nat (length data))); [lia|].
  unfold payloads in *. cbn. by rewrite IH.
Qed.

(** C21 The two adapters carry a byte stream: whatever a writer hands over is
    cut into binary messages of at most [MAX_WS_MESSAGE] bytes, once the socket
    has accepted enough of them nothing is left unsent, and a reader at the
    other end, with pings, pongs, texts, empty messages, errors and waits mixed
    in and buffers of any non-zero sizes, reads the same bytes in the same
    order. *)
Theorem transport_roundtrip answers (buf : list byte) (inb : list WsPoll) (rooms : list nat) :
  let (rest, w) := writes answers buf (ws_new []) in
  Z.of_nat (length buf) <= MAX_WS_MESSAGE * Z.of_nat (length (filter accepts answers)) ->
  binaries inb = sent w -> forallb open_ended inb = true ->
  Forall (fun r => 0 < r)%nat rooms -> (length buf + length inb <= length rooms)%nat ->
  rest = [] /\ (reads rooms (ws_new inb)).1 = buf.
Proof.
  pose proof (writes_sent answers buf (ws_new [])) as (ms & Hs & Hws & E).
  pose proof (writes_finish answers buf (ws_new [])) as Hfin.
  destruct (writes answers buf (ws_new [])) as [rest w]. cbn [fst snd] in *.
  intros Hacc Hbin Hopen Hrooms Hlen. rewrite (Hfin Hacc) in *. split; [done|].
  rewrite app_nil_r in E. cbn in Hs. rewrite Hs in Hbin. subst buf.
  assert (Hst : stream_bytes (ws_new inb) = payloads ms).
  { rewrite <- Hbin. apply ws_bytes_binaries; [done|by rewrite Hbin]. }
  assert (Hw : (work (ws_new inb) <= length rooms)%nat) by (unfold work; rewrite Hst; done).
  pose proof (reads_bytes rooms (ws_new inb)) as Hr.
  rewrite (reads_drain rooms (ws_new inb) Hrooms Hw), app_nil_r in Hr. congruence.
Qed.

Lemma transport_roundtrip_witness :
  let buf := [Byte.x01; Byte.x02; Byte.x03] in
  let answers := [(Pending, Ok ()); (Ready (Ok ()), Ok ())] in
  let inb := [Ready (Some (Ok (WsPing []))); Pending; Ready (Some (Ok (Binary buf)))] in
  (writes answers buf (ws_new [])).1 = [] /\ (reads (repeat 2%nat 6) (ws_new inb)).1 = buf.
Proof.
  apply (transport_roundtrip [(Pending, Ok ()); (Ready (Ok ()), Ok ())]
    [Byte.x01; Byte.x02; Byte.x03]
    [Ready (Some (Ok (WsPing []))); Pending;
     Ready (Some (Ok (Binary [Byte.x01; Byte.x02; Byte.x03])))] (repeat 2%nat 6)).
  - vm_compute. done.
  - reflexivity.
  - reflexivity.
  - repeat constructor.
  - vm_compute. lia.
Defined.
