(* ===== verification/Splice.v ===== *)
(** * The byte splice and the body timeout (crates/relay/src/proxy.rs)

    [copy_bidirectional_timeout] copies bytes both ways between a visitor and a
    daemon stream, with an idle bound shared by both directions and an absolute
    bound.  Times are whole milliseconds since the splice began, the resolution
    of the runtime's timers; configured bounds are whole seconds.

    A direction is a small machine ([Dir]): it waits for its reader, writes the
    chunk it read, shuts its writer down at end of file.  The runtime polls the
    splice when some I/O is possible or a timer fires: a poll is the time and the
    I/O that became possible, in the order the two directions took it up (the
    inner [select!] is unbiased).  When the next tick of tokio's [interval] comes
    due is the runtime's ([Ticker]); its documented behaviour is [TickerLaw]. *)
From S2P Require Import Prelude.
Local Open Scope Z_scope.

Inductive SpliceError :=
  | TimedOut (what : string)
  | StreamError (code : Z).
#[export] Instance SpliceError_eq_dec : EqDecision SpliceError.
Proof. solve_decision. Defined.

(** ** One direction: [copy_one] *)
Definition COPY_BUF : nat := 16 * 1024.

Inductive Phase :=
  | Reading
  | Writing (n : nat) (rest : list byte)
  | Closing
  | Finished (r : result SpliceError Z).

(** [src]: the bytes the reader has still to give before its end of file;
    [delivered]: what the writer has accepted; [shut]: the writer was asked to
    shut down. *)
Record Dir := mkDir {
  src : list byte;
  phase : Phase;
  delivered : list byte;
  total : Z;
  shut : bool;
}.
Definition dir_new (bytes : list byte) : Dir := mkDir bytes Reading [] 0 false.

(** What a poll can find: the reader has [S k] bytes or its end of file, the
    writer takes [S k] more bytes, the shutdown completed, or one of them
    failed. *)
Inductive IoEvent :=
  | Readable (k : nat)
  | ReadFail (code : Z)
  | Writable (k : nat)
  | WriteFail (code : Z)
  | ShutDone.

(** One suspension point of [copy_one] to the next; the flag tells whether the
    activity clock was bumped.  An event the direction does not wait for changes
    nothing. *)
Definition copy_one (e : IoEvent) (d : Dir) : Dir * bool :=
  match phase d, e with
  | Reading, ReadFail c =>
      (mkDir (src d) (Finished (Err (StreamError c))) (delivered d) (total d) (shut d), false)
  | Reading, Readable k =>
      let n := Nat.min (Nat.min (S k) COPY_BUF) (length (src d)) in
      if decide (n = 0)%nat
      then (mkDir (src d) Closing (delivered d) (total d) true, false)
      else (mkDir (drop n (src d)) (Writing n (take n (src d))) (delivered d) (total d) (shut d),
            true)
  | Writing n rest, WriteFail c =>
      (mkDir (src d) (Finished (Err (StreamError c))) (delivered d) (total d) (shut d), false)
  | Writing n rest, Writable k =>
      let rest' := drop (S k) rest in
      let delivered' := delivered d ++ take (S k) rest in
      match rest' with
      | [] => (mkDir (src d) Reading delivered' ((total d + Z.of_nat n) mod 2 ^ 64) (shut d), true)
      | _ :: _ => (mkDir (src d) (Writing n rest') delivered' (total d) (shut d), false)
      end
  | Closing, (ShutDone | WriteFail _) =>
      (mkDir (src d) (Finished (Ok (total d))) (delivered d) (total d) (shut d), false)
  | _, _ => (d, false)
  end.

(** ** Both directions and the deadlines *)
Inductive Side := AtoB | BtoA.

Record SpliceState := mkSpliceState {
  ab : Dir;
  ba : Dir;
  last_ms : Z;
  next_tick : Z;
  outcome : option (result SpliceError (Z * Z));
}.

(** The first tick of an interval is due at once. *)
Definition splice_new (a b : list byte) : SpliceState :=
  mkSpliceState (dir_new a) (dir_new b) 0 0 None.

Definition finish (r : result SpliceError (Z * Z)) (s : SpliceState) : SpliceState :=
  mkSpliceState (ab s) (ba s) (last_ms s) (next_tick s) (Some r).

(** [copy_both]: an error of either direction ends the copy, two clean ends give
    the two counts. *)
Definition copy_result (s : SpliceState) : option (result SpliceError (Z * Z)) :=
  match phase (ab s), phase (ba s) with
  | Finished (Err e), _ => Some (Err e)
  | _, Finished (Err e) => Some (Err e)
  | Finished (Ok n), Finished (Ok m) => Some (Ok (n, m))
  | _, _ => None
  end.

Definition side_step (side : Side) (e : IoEvent) (s : SpliceState) : SpliceState * bool :=
  match side with
  | AtoB => let (d, b) := copy_one e (ab s) in
            (mkSpliceState d (ba s) (last_ms s) (next_tick s) (outcome s), b)
  | BtoA => let (d, b) := copy_one e (ba s) in
            (mkSpliceState (ab s) d (last_ms s) (next_tick s) (outcome s), b)
  end.

(** [ActivityClock::bump]. *)
Definition bump (now : Z) (s : SpliceState) : SpliceState :=
  mkSpliceState (ab s) (ba s) now (next_tick s) (outcome s).
(** [ActivityClock::idle_for]: [u64::saturating_sub]. *)
Definition idle_for (now : Z) (s : SpliceState) : Z := Z.max 0 (now - last_ms s).

Definition copy_both (now : Z) (s : SpliceState) (ev : Side * IoEvent) : SpliceState :=
  match outcome s with
  | Some _ => s
  | None =>
      let (s1, bumped) := side_step ev.1 ev.2 s in
      let s2 := if bumped then bump now s1 else s1 in
      match copy_result s2 with Some r => finish r s2 | None => s2 end
  end.

Definition tick_period (idle : option Z) : Z :=
  match idle with
  | Some d => Z.min (Z.max (d / 4) 10) 1000
  | None => 1000
  end.

(** tokio's [Interval] with [MissedTickBehavior::Delay]: the deadline after a
    tick that was due at [due] and taken at [now]. *)
Class Ticker := next_timeout : Z -> Z -> Z -> Z.
(** Documented: the next tick is later than now, and at most one period away. *)
Class TickerLaw `{Ticker} :=
  next_timeout_bounds : forall due now period, 10 <= period -> due <= now ->
    now < next_timeout due now period <= now + period.

Section Timeouts.
Context `{Ticker}.
Context (idle absolute : option Z).

Definition expired (bound : option Z) (elapsed : Z) : bool :=
  match bound with Some d => d <=? elapsed | None => false end.

(** One poll of the splice: the copy first, then the absolute sleep, then the
    tick ([biased]). *)
Definition copy_bidirectional_timeout (now : Z) (ios : list (Side * IoEvent)) (s : SpliceState) : SpliceState :=
  let s1 := foldl (copy_both now) s ios in
  match outcome s1 with
  | Some _ => s1
  | None =>
      match idle, absolute with
      | None, None => s1
      | _, _ =>
          if expired absolute now then finish (Err (TimedOut "splice absolute timeout")) s1
          else if next_tick s1 <=? now then
            if expired idle (idle_for now s1)
            then finish (Err (TimedOut "splice idle timeout")) s1
            else mkSpliceState (ab s1) (ba s1) (last_ms s1)
                   (next_timeout (next_tick s1) now (tick_period idle)) (outcome s1)
          else s1
      end
  end.

(** A run: polls in the order the runtime makes them. *)
Definition splice_run (polls : list (Z * list (Side * IoEvent))) (s : SpliceState) : SpliceState :=
  foldl (fun s p => copy_bidirectional_timeout p.1 p.2 s) s polls.
End Timeouts.

(** Poll times never go backwards. *)
Fixpoint chronological (t : Z) (polls : list (Z * list (Side * IoEvent))) : Prop :=
  match polls with
  | [] => True
  | p :: rest => t <= p.1 /\ chronological p.1 rest
  end.
Definition last_time (t : Z) (polls : list (Z * list (Side * IoEvent))) : Z :=
  foldl (fun _ p => p.1) t polls.

(** ** What a direction delivers *)
Definition dir_inv (orig : list byte) (d : Dir) : Prop :=
  match phase d with
  | Reading =>
      delivered d ++ src d = orig /\ shut d = false /\
      total d = Z.of_nat (length (delivered d)) mod 2 ^ 64
  | Writing n rest =>
      delivered d ++ rest ++ src d = orig /\ shut d = false /\ rest <> [] /\
      (length rest <= n)%nat /\
      (total d + Z.of_nat n) mod 2 ^ 64 = Z.of_nat (length (delivered d ++ rest)) mod 2 ^ 64
  | Closing => delivered d = orig /\ shut d = true /\
      total d = Z.of_nat (length orig) mod 2 ^ 64
  | Finished (Ok n) => delivered d = orig /\ shut d = true /\
      n = Z.of_nat (length orig) mod 2 ^ 64
  | Finished (Err e) => delivered d `prefix_of` orig /\ shut d = false /\
      exists c, e = StreamError c
  end.

Lemma COPY_BUF_pos : (0 < COPY_BUF)%nat.
Proof. apply Nat.ltb_lt. reflexivity. Qed.

Lemma dir_new_inv (bytes : list byte) : dir_inv bytes (dir_new bytes).
Proof. done. Qed.

(** A chunk being written: the writer takes some of it, or the rest of it. *)
Lemma copy_one_writing (orig : list byte) (n : nat) (rest : list byte) (k : nat) (d : Dir) :
  phase d = Writing n rest -> dir_inv orig d -> dir_inv orig (copy_one (Writable k) d).1.
Proof.
  intros Hph. unfold dir_inv, copy_one. rewrite Hph. cbn [fst].
  intros (E & Hs & Hne & Hn & Ht).
  pose proof (take_drop (S k) rest) as Htd. destruct (drop (S k) rest) as [|b rest'] eqn:Hd;
    cbn [fst phase src delivered total shut].
  - rewrite app_nil_r in Htd. rewrite Htd, <- app_assoc, E. auto.
  - rewrite <- !app_assoc, (app_assoc (take _ _)), Htd. split_and!; auto.
    apply (f_equal length) in Hd. rewrite length_drop in Hd. lia.
Qed.

Lemma copy_one_inv (orig : list byte) (e : IoEvent) (d : Dir) :
  dir_inv orig d -> dir_inv orig (copy_one e d).1.
Proof.
  intros Hi. destruct (phase d) as [|n rest| |r] eqn:Hph.
  - pose proof COPY_BUF_pos.
    unfold copy_one, dir_inv in *. rewrite Hph in *. destruct Hi as (E & Hs & Ht).
    destruct e as [k|c|k|c|]; cbn [fst]; rewrite ?Hph; auto.
    + case_decide as Hn; cbn [fst phase src delivered total shut].
      * assert (src d = []) as Hsrc by (apply length_zero_iff_nil; lia).
        rewrite Hsrc, app_nil_r in E. by rewrite <- E.
      * rewrite take_drop, length_app, length_take. repeat split; auto; try lia.
        -- intros Hnil%(f_equal length). rewrite length_take in Hnil. cbn [length] in Hnil. lia.
        -- rewrite Ht, Zplus_mod_idemp_l. f_equal. lia.
    + split_and!; [by eexists|done|by eexists].
  - destruct e as [k|c|k|c|]; try (by unfold copy_one; rewrite Hph); [by eapply copy_one_writing|].
    unfold copy_one, dir_inv in *. rewrite Hph in *. cbn [fst phase delivered shut].
    destruct Hi as (<- & Hs & _). split_and!; [by eexists|done|by eexists].
  - unfold copy_one, dir_inv in *. rewrite Hph in *. by destruct e; cbn [fst]; rewrite ?Hph.
  - unfold copy_one. rewrite Hph. done.
Qed.

Definition splice_inv (a b : list byte) (s : SpliceState) : Prop :=
  dir_inv a (ab s) /\ dir_inv b (ba s) /\
  (forall n m, outcome s = Some (Ok (n, m)) ->
     phase (ab s) = Finished (Ok n) /\ phase (ba s) = Finished (Ok m)).

Lemma copy_result_ok (s : SpliceState) (n m : Z) :
  copy_result s = Some (Ok (n, m)) ->
  phase (ab s) = Finished (Ok n) /\ phase (ba s) = Finished (Ok m).
Proof. unfold copy_result. intros H. split_matches_in H; by simplify_eq. Qed.

Lemma copy_both_inv (a b : list byte) (now : Z) (s : SpliceState) (ev : Side * IoEvent) :
  splice_inv a b s -> splice_inv a b (copy_both now s ev).
Proof.
  intros (Ha & Hb & Ho). unfold copy_both.
  destruct (outcome s) eqn:Hout; [by unfold splice_inv; rewrite Hout|].
  assert (H : let (s1, bumped) := side_step ev.1 ev.2 s in
              let s2 := if bumped then bump now s1 else s1 in
              dir_inv a (ab s2) /\ dir_inv b (ba s2) /\ outcome s2 = None).
  { destruct ev as [[] e]; cbn [side_step fst snd];
      [pose proof (copy_one_inv a e (ab s) Ha) as Hi|pose proof (copy_one_inv b e (ba s) Hb) as Hi];
      by destruct (copy_one e _) as [d []]. }
  destruct (side_step _ _ s) as [s1 bumped]. cbn zeta in H.
  destruct H as (Ha' & Hb' & Ho').
  destruct (copy_result _) as [r|] eqn:Hr; split_and!; auto; [|congruence].
  cbn. intros n m [= ->]. by apply copy_result_ok in Hr.
Qed.

Section Watchdog.
Context `{TickerLaw}.
Context (idle absolute : option Z).
Local Abbreviation poll := (copy_bidirectional_timeout idle absolute).

Lemma poll_inv (a b : list byte) (now : Z) ios (s : SpliceState) :
  splice_inv a b s -> splice_inv a b (poll now ios s).
Proof using Type.
  intros Hs. unfold copy_bidirectional_timeout.
  assert (Hf : splice_inv a b (foldl (copy_both now) s ios)).
  { apply foldl_inv; [|done]. intros s' ev. apply copy_both_inv. }
  revert Hf. generalize (foldl (copy_both now) s ios). intros s1 Hf.
  destruct (outcome s1) eqn:Ho; [done|]. destruct Hf as (Ha & Hb & _).
  destruct idle, absolute; repeat case_match; split_and!; cbn; auto; congruence.
Qed.

Lemma run_inv (a b : list byte) polls (s : SpliceState) :
  splice_inv a b s -> splice_inv a b (splice_run idle absolute polls s).
Proof using Type. apply foldl_inv. intros s' p. apply poll_inv. Qed.

Lemma dir_inv_prefix (orig : list byte) (d : Dir) :
  dir_inv orig d -> delivered d `prefix_of` orig /\ (shut d = true -> delivered d = orig).
Proof using Type.
  unfold dir_inv. destruct (phase d) as [|n rest| |[n|e]].
  - intros (<- & -> & _). split; [by eexists|done].
  - intros (<- & -> & _). split; [by eexists|done].
  - by intros (-> & _).
  - by intros (-> & _).
  - by intros (? & -> & _).
Qed.

Lemma splice_new_inv (a b : list byte) : splice_inv a b (splice_new a b).
Proof using Type. split_and!; [apply dir_new_inv|apply dir_new_inv|done]. Qed.

(** C20 The splice carries bytes faithfully: whatever the order in which the two
    directions read, write, stall and fail, each side has been given a prefix of
    what the other sent; a writer is shut down only after everything sent to it
    was delivered; and a clean end means both sides have everything, reported
    with the exact byte counts. *)
Theorem splice_faithful (a b : list byte) polls :
  let s := splice_run idle absolute polls (splice_new a b) in
  delivered (ab s) `prefix_of` a /\ delivered (ba s) `prefix_of` b /\
  (shut (ab s) = true -> delivered (ab s) = a) /\
  (shut (ba s) = true -> delivered (ba s) = b) /\
  (forall n m, outcome s = Some (Ok (n, m)) ->
     delivered (ab s) = a /\ delivered (ba s) = b /\ shut (ab s) = true /\ shut (ba s) = true /\
     n = Z.of_nat (length a) mod 2 ^ 64 /\ m = Z.of_nat (length b) mod 2 ^ 64).
Proof using Type.
  intros s. destruct (run_inv a b polls (splice_new a b) (splice_new_inv a b)) as (Ha & Hb & Ho).
  fold s in Ha, Hb, Ho.
  pose proof (dir_inv_prefix _ _ Ha) as []. pose proof (dir_inv_prefix _ _ Hb) as [].
  split_and!; auto. intros n m [Hpa Hpb]%Ho. unfold dir_inv in Ha, Hb.
  rewrite Hpa in Ha. rewrite Hpb in Hb. naive_solver.
Qed.

(** *** The clock *)
Lemma tick_period_range : 10 <= tick_period idle <= 1000.
Proof using Type. unfold tick_period. destruct idle; lia. Qed.

Lemma copy_both_clock (now : Z) (s : SpliceState) (ev : Side * IoEvent) :
  last_ms s <= now ->
  last_ms s <= last_ms (copy_both now s ev) <= now /\
  next_tick (copy_both now s ev) = next_tick s.
Proof using Type.
  intros Hl. unfold copy_both. destruct (outcome s); [by split|].
  assert (Hs : last_ms (side_step ev.1 ev.2 s).1 = last_ms s /\
               next_tick (side_step ev.1 ev.2 s).1 = next_tick s).
  { destruct ev as [[] e]; cbn; by destruct (copy_one e _). }
  destruct (side_step _ _ _) as [s1 []]; cbn [fst] in Hs; destruct Hs;
    destruct (copy_result _); cbn; lia.
Qed.

Lemma copies_clock (now : Z) ios (s : SpliceState) :
  last_ms s <= now ->
  last_ms s <= last_ms (foldl (copy_both now) s ios) <= now /\
  next_tick (foldl (copy_both now) s ios) = next_tick s.
Proof using Type.
  revert s. induction ios as [|ev ios IH]; intros s Hl; cbn; [lia|].
  destruct (copy_both_clock now s ev Hl) as [Hl1 <-].
  destruct (IH (copy_both now s ev)) as [Hl2 ->]; lia.
Qed.

(** What a poll does to the clock and the timers. *)
Lemma poll_clock (now : Z) ios (s : SpliceState) :
  last_ms s <= now ->
  let s' := poll now ios s in
  last_ms s <= last_ms s' <= now /\
  (next_tick s' = next_tick s \/ now < next_tick s' <= now + tick_period idle) /\
  (outcome s' = None ->
     (forall m, absolute = Some m -> now < m) /\
     (forall d, idle = Some d -> now < next_tick s' /\
        (next_tick s' <> next_tick s -> now < last_ms s' + d))).
Proof.
  intros Hl. unfold copy_bidirectional_timeout.
  destruct (copies_clock now ios s Hl) as [Hl1 Hn1]. revert Hl1 Hn1.
  generalize (foldl (copy_both now) s ios). intros s1 Hl1 Hn1.
  pose proof tick_period_range.
  destruct (outcome s1) eqn:Ho; [split_and!; auto; try lia; congruence|].
  assert (Hnt : next_tick s1 <= now ->
    now < next_timeout (next_tick s1) now (tick_period idle) <= now + tick_period idle).
  { intros. apply next_timeout_bounds; lia. }
  unfold expired, idle_for.
  destruct idle as [d|], absolute as [m|]; cbn zeta;
    repeat (case_match; [|]); rewrite ?Z.leb_le, ?Z.leb_gt in *;
    cbn [finish last_ms next_tick outcome];
    split_and!; try lia; auto; try congruence;
    (split; intros; simplify_eq; try lia; split; lia).
Qed.
(** At every moment the next tick is at most an idle bound and a tick period
    after the last activity. *)
Definition clock_inv (t : Z) (s : SpliceState) : Prop :=
  last_ms s <= t /\
  forall d, idle = Some d -> outcome s = None -> next_tick s <= last_ms s + d + tick_period idle.

Lemma poll_clock_inv (t now : Z) ios (s : SpliceState) :
  t <= now -> outcome s = None \/ poll now ios s = s ->
  clock_inv t s -> clock_inv now (poll now ios s).
Proof.
  intros Ht Ho [Hl Hn]. destruct (poll_clock now ios s) as (Hl' & Hnt & Halive); [lia|].
  split; [lia|]. intros d Hd Ho'. destruct (Halive Ho') as [_ Hi]. specialize (Hi d Hd).
  destruct Ho as [Ho|Heq]; [|rewrite Heq in *; auto]. specialize (Hn d Hd Ho). lia.
Qed.

Lemma poll_ended (now : Z) ios (s : SpliceState) r :
  outcome s = Some r -> poll now ios s = s.
Proof using Type.
  intros Ho. unfold copy_bidirectional_timeout.
  assert (Hf : foldl (copy_both now) s ios = s).
  { induction ios as [|ev ios IH]; [done|]. cbn. unfold copy_both at 2. by rewrite Ho. }
  by rewrite Hf, Ho.
Qed.

Lemma run_snoc polls p (s : SpliceState) :
  splice_run idle absolute (polls ++ [p]) s = poll p.1 p.2 (splice_run idle absolute polls s).
Proof using Type. unfold splice_run. by rewrite foldl_app. Qed.

Lemma last_time_snoc t polls p : last_time t (polls ++ [p]) = p.1.
Proof using Type. unfold last_time. by rewrite foldl_app. Qed.

Lemma chronological_snoc t polls p :
  chronological t (polls ++ [p]) <-> chronological t polls /\ last_time t polls <= p.1.
Proof using Type.
  revert t. induction polls as [|q polls IH]; intros t; cbn; [unfold last_time; cbn; tauto|].
  rewrite IH. unfold last_time. cbn. tauto.
Qed.

Lemma run_clock_inv (a b : list byte) polls :
  (forall d, idle = Some d -> 0 <= d) -> chronological 0 polls ->
  clock_inv (last_time 0 polls) (splice_run idle absolute polls (splice_new a b)).
Proof.
  intros Hd. induction polls as [|p polls IH] using rev_ind.
  - intros _. pose proof tick_period_range. split; cbn; [lia|].
    intros d Hd' _. specialize (Hd d Hd'). lia.
  - rewrite chronological_snoc, run_snoc, last_time_snoc. intros [Hc Ht].
    apply (poll_clock_inv (last_time 0 polls)); [done| |auto].
    destruct (outcome _) eqn:Ho; [right; by eapply poll_ended|by left].
Qed.

(** The splice is always watched: as long as it lives, whatever the two
    directions did, the absolute bound has not passed, the next tick of the
    watchdog is in the future, and it comes at most the idle bound plus one tick
    period (at most a second) after the last activity. *)
Theorem splice_watched (a b : list byte) polls (now : Z) ios :
  (forall d, idle = Some d -> 0 <= d) -> chronological 0 (polls ++ [(now, ios)]) ->
  let s := splice_run idle absolute (polls ++ [(now, ios)]) (splice_new a b) in
  outcome s = None ->
  (forall m, absolute = Some m -> now < m) /\
  (forall d, idle = Some d ->
     now < next_tick s <= last_ms s + d + tick_period idle /\ tick_period idle <= 1000).
Proof.
  intros Hd Hc s Ho. pose proof (run_clock_inv a b _ Hd Hc) as [_ Hn]. fold s in Hn.
  apply chronological_snoc in Hc as [Hc Ht].
  pose proof (run_clock_inv a b _ Hd Hc) as [Hl _].
  subst s. rewrite run_snoc in *. cbn [fst snd] in *.
  destruct (poll_clock now ios (splice_run idle absolute polls (splice_new a b)))
    as (_ & _ & Halive); [lia|]. destruct (Halive Ho) as [Habs Hi]. split; [done|].
  intros d Hid. destruct (Hi d Hid) as [Hlt _]. pose proof tick_period_range.
  specialize (Hn d Hid Ho). lia.
Qed.

(** The runtime wakes the splice at its next tick and nothing else happens. *)
Definition wake (s : SpliceState) : SpliceState := poll (next_tick s) [] s.
Definition wakes (n : nat) (s : SpliceState) : SpliceState := Nat.iter n wake s.

Lemma wake_progress (s : SpliceState) (d : Z) :
  idle = Some d -> last_ms s <= next_tick s -> outcome (wake s) = None ->
  last_ms (wake s) = last_ms s /\ next_tick s < next_tick (wake s).
Proof.
  intros Hd Hl Ho. destruct (poll_clock (next_tick s) [] s Hl) as (_ & _ & Halive).
  destruct (Halive Ho) as [_ Hi]. destruct (Hi d Hd) as [Hlt _]. split; [|exact Hlt].
  unfold wake, copy_bidirectional_timeout. cbn [foldl].
  destruct (outcome s); [done|]. by repeat case_match.
Qed.

Lemma wake_outcome (s : SpliceState) :
  outcome s = None ->
  outcome (wake s) = None \/ exists what, outcome (wake s) = Some (Err (TimedOut what)).
Proof using Type.
  intros Ho. unfold wake, copy_bidirectional_timeout. cbn [foldl]. rewrite Ho.
  repeat case_match; cbn; eauto.
Qed.

Lemma wakes_outcome (n : nat) (s : SpliceState) :
  outcome s = None ->
  outcome (wakes n s) = None \/ exists what, outcome (wakes n s) = Some (Err (TimedOut what)).
Proof using Type.
  intros Ho. induction n as [|n IH]; [by left|]. cbn. fold (wakes n s).
  destruct IH as [Hn|[what Hw]]; [by apply wake_outcome|].
  right. exists what. unfold wake. by rewrite (poll_ended _ _ _ _ Hw).
Qed.

Lemma wakes_alive (n : nat) (s : SpliceState) (d : Z) :
  idle = Some d -> clock_inv (next_tick s) s -> outcome (wakes n s) = None ->
  last_ms (wakes n s) = last_ms s /\ next_tick s + Z.of_nat n <= next_tick (wakes n s) /\
  next_tick (wakes n s) <= last_ms s + d + tick_period idle.
Proof.
  intros Hd Hinv. induction n as [|n IH].
  - cbn. intros Ho. destruct Hinv as [_ Hn]. specialize (Hn d Hd Ho). lia.
  - change (wakes (S n) s) with (wake (wakes n s)). intros Ho.
    destruct (outcome (wakes n s)) as [r|] eqn:Hon.
    { unfold wake in Ho. rewrite (poll_ended _ _ _ _ Hon) in Ho. congruence. }
    destruct (IH eq_refl) as (Hl & Hge & Hle). destruct Hinv as [Hl0 _].
    destruct (wake_progress (wakes n s) d Hd ltac:(lia) Ho) as [Hl' Hlt].
    assert (Hw : clock_inv (next_tick (wakes n s)) (wake (wakes n s))).
    { apply (poll_clock_inv (next_tick (wakes n s))); [lia|by left|].
      split; [lia|]. intros d' Hd' _. simplify_eq. lia. }
    destruct Hw as [_ Hw]. specialize (Hw d Hd Ho). lia.
Qed.

(** C27 A silent splice is torn down: from any state a splice can reach, if
    nothing but the watchdog's timer happens, every wake-up comes no later than
    the idle bound plus one tick period after the last activity, and a bounded
    number of them ends the splice with a timeout. *)
Theorem silent_splice_ends (a b : list byte) polls (now : Z) ios (d : Z) :
  idle = Some d -> 0 <= d -> chronological 0 (polls ++ [(now, ios)]) ->
  let s := splice_run idle absolute (polls ++ [(now, ios)]) (splice_new a b) in
  outcome s = None ->
  (forall n, outcome (wakes n s) = None ->
     next_tick (wakes n s) <= last_ms s + d + tick_period idle) /\
  exists what, outcome (wakes (Z.to_nat (d + tick_period idle)) s) = Some (Err (TimedOut what)).
Proof.
  intros Hd Hpos Hc s Ho.
  assert (Hall : forall d', idle = Some d' -> 0 <= d') by (intros; congruence).
  pose proof (run_clock_inv a b _ Hall Hc) as [Hl Hn]. fold s in Hl, Hn.
  rewrite last_time_snoc in Hl. cbn [fst] in Hl.
  assert (Hlt : now < next_tick s).
  { apply chronological_snoc in Hc as [Hc Ht].
    pose proof (run_clock_inv a b _ Hall Hc) as [Hl0 _].
    subst s. rewrite run_snoc in *. cbn [fst snd] in *.
    destruct (poll_clock now ios (splice_run idle absolute polls (splice_new a b)))
      as (_ & _ & Halive); [lia|]. destruct (Halive Ho) as [_ Hi]. apply (Hi d Hd). }
  assert (Hinv : clock_inv (next_tick s) s) by (split; [lia|done]).
  split; [intros n Hon; by apply (wakes_alive n s d Hd Hinv)|].
  destruct (wakes_outcome (Z.to_nat (d + tick_period idle)) s Ho) as [Hon|]; [|done].
  destruct (wakes_alive _ s d Hd Hinv Hon) as (_ & Hge & Hle).
  pose proof tick_period_range. lia.
Qed.

(** *** Activity *)

(** The times at which the activity clock was bumped. *)
Fixpoint io_activity (now : Z) (ios : list (Side * IoEvent)) (s : SpliceState) : list Z :=
  match ios with
  | [] => []
  | ev :: ios' =>
      (if bool_decide (outcome s = None) && (side_step ev.1 ev.2 s).2 then [now] else [])
        ++ io_activity now ios' (copy_both now s ev)
  end.
Fixpoint activity (polls : list (Z * list (Side * IoEvent))) (s : SpliceState) : list Z :=
  match polls with
  | [] => []
  | p :: polls' => io_activity p.1 p.2 s ++ activity polls' (poll p.1 p.2 s)
  end.

Lemma activity_snoc polls p (s : SpliceState) :
  activity (polls ++ [p]) s =
    activity polls s ++ io_activity p.1 p.2 (splice_run idle absolute polls s).
Proof using Type.
  revert s. induction polls as [|q polls IH]; intros s; cbn; [by rewrite app_nil_r|].
  by rewrite IH, app_assoc.
Qed.

Lemma copy_both_bumped (now : Z) (s : SpliceState) (ev : Side * IoEvent) :
  outcome s = None -> (side_step ev.1 ev.2 s).2 = true -> last_ms (copy_both now s ev) = now.
Proof using Type.
  intros Ho Hb. unfold copy_both. rewrite Ho. destruct (side_step _ _ s) as [s1 b].
  cbn in Hb. subst b. by destruct (copy_result _).
Qed.

Lemma io_activity_last (now : Z) ios (s : SpliceState) (t : Z) :
  last_ms s <= now -> t ∈ io_activity now ios s ->
  t <= last_ms (foldl (copy_both now) s ios).
Proof using Type.
  revert s. induction ios as [|ev ios IH]; intros s Hl Ht; [by apply not_elem_of_nil in Ht|].
  cbn in *. destruct (copy_both_clock now s ev Hl) as [Hl1 _].
  apply elem_of_app in Ht as [Ht|Ht]; [|by apply IH; [lia|]].
  destruct (bool_decide _ && _) eqn:Hb; [|by apply not_elem_of_nil in Ht].
  apply andb_true_iff in Hb as [Ho%bool_decide_eq_true Hb].
  apply list_elem_of_singleton in Ht as ->.
  pose proof (copy_both_bumped now s ev Ho Hb) as E.
  destruct (copies_clock now ios (copy_both now s ev)) as [Hl2 _]; lia.
Qed.

Lemma poll_last_ms (now : Z) ios (s : SpliceState) :
  last_ms (poll now ios s) = last_ms (foldl (copy_both now) s ios).
Proof using Type.
  unfold copy_bidirectional_timeout. by repeat case_match.
Qed.

Lemma copy_both_no_timeout (a b : list byte) (now : Z) ios (s : SpliceState) what :
  splice_inv a b s -> outcome s = None ->
  outcome (foldl (copy_both now) s ios) <> Some (Err (TimedOut what)).
Proof using Type.
  revert s. induction ios as [|ev ios IH]; intros s Hi Ho; [cbn; congruence|]. cbn.
  pose proof (copy_both_inv a b now s ev Hi) as Hi'.
  destruct (outcome (copy_both now s ev)) as [r|] eqn:Hr; [|by apply IH].
  assert (Hf : foldl (copy_both now) (copy_both now s ev) ios = copy_both now s ev).
  { clear IH. induction ios as [|e2 ios IH2]; [done|]. cbn. unfold copy_both at 2. by rewrite Hr. }
  rewrite Hf, Hr. intros [= ->]. unfold copy_both in Hr, Hi'. rewrite Ho in Hr, Hi'.
  assert (Hs1 : outcome (side_step ev.1 ev.2 s).1 = None).
  { destruct ev as [[] e]; cbn; by destruct (copy_one e _). }
  destruct (side_step _ _ s) as [s1 bm]. cbn [fst] in Hs1.
  destruct (copy_result (if bm then _ else _)) as [r'|] eqn:Hcr; [|by destruct bm; cbn in Hr; congruence].
  cbn in Hr. injection Hr as ->. destruct Hi' as (Ha & Hb & _). unfold copy_result, finish in *.
  cbn [ab ba] in Ha, Hb. unfold dir_inv in Ha, Hb.
  split_matches_in Hcr; simplify_eq; naive_solver.
Qed.

Lemma poll_idle_timeout (a b : list byte) (now : Z) ios (s : SpliceState) :
  splice_inv a b s -> outcome s = None -> last_ms s <= now ->
  outcome (poll now ios s) = Some (Err (TimedOut "splice idle timeout")) ->
  exists d, idle = Some d /\ (0 < d -> last_ms (poll now ios s) + d <= now).
Proof using Type.
  intros Hi Ho Hl Hout. rewrite poll_last_ms.
  pose proof (copy_both_no_timeout a b now ios s "splice idle timeout" Hi Ho) as Hno.
  destruct (copies_clock now ios s Hl) as [Hl1 _]. revert Hout Hno Hl1.
  unfold copy_bidirectional_timeout. generalize (foldl (copy_both now) s ios). intros s1 Hout Hno Hl1.
  unfold expired, idle_for in *.
  repeat case_match; cbn in Hout; simplify_eq; try done; try congruence;
    eexists; (split; [done|]); intros; rewrite Z.leb_le in *; lia.
Qed.

Lemma activity_last (a b : list byte) polls (t : Z) :
  (forall d, idle = Some d -> 0 <= d) -> chronological 0 polls ->
  t ∈ activity polls (splice_new a b) ->
  t <= last_ms (splice_run idle absolute polls (splice_new a b)).
Proof.
  intros Hd. induction polls as [|q polls IH] using rev_ind; [by intros _ ?%not_elem_of_nil|].
  rewrite run_snoc, activity_snoc, poll_last_ms, chronological_snoc. intros [Hc Hlt] Ht.
  pose proof (run_clock_inv a b _ Hd Hc) as [Hl _].
  assert (Hq : last_ms (splice_run idle absolute polls (splice_new a b)) <= q.1) by lia.
  apply elem_of_app in Ht as [Ht|Ht]; [|by apply io_activity_last].
  specialize (IH Hc Ht). pose proof (copies_clock q.1 q.2 _ Hq). lia.
Qed.

Lemma idle_end (a b : list byte) polls :
  (forall d, idle = Some d -> 0 < d) -> chronological 0 polls ->
  let s := splice_run idle absolute polls (splice_new a b) in
  outcome s = Some (Err (TimedOut "splice idle timeout")) ->
  exists d, idle = Some d /\ last_ms s + d <= last_time 0 polls.
Proof.
  intros Hd. assert (Hd0 : forall d, idle = Some d -> 0 <= d).
  { intros d E. specialize (Hd d E). lia. }
  induction polls as [|p polls IH] using rev_ind; [done|]. cbn zeta in *.
  rewrite run_snoc, last_time_snoc, chronological_snoc. intros [Hc Hlt] Hout.
  pose proof (run_clock_inv a b _ Hd0 Hc) as [Hl _].
  destruct (outcome (splice_run idle absolute polls _)) as [r|] eqn:Ho.
  - rewrite (poll_ended _ _ _ _ Ho) in *. destruct (IH Hc ltac:(congruence)) as (d & E & Hle).
    exists d. split; [done|lia].
  - edestruct poll_idle_timeout as (d & E & Hle); [|exact Ho| |exact Hout|].
    + apply run_inv, splice_new_inv.
    + lia.
    + exists d. split; [done|]. apply Hle, Hd, E.
Qed.

(** A splice in use is never torn down as idle: if a run ends with the idle
    timeout, every read of bytes and every chunk written out, in either
    direction, lies at least the idle bound before the end. *)
Theorem busy_splice_survives (a b : list byte) polls (t : Z) :
  (forall d, idle = Some d -> 0 < d) -> chronological 0 polls ->
  let s := splice_run idle absolute polls (splice_new a b) in
  outcome s = Some (Err (TimedOut "splice idle timeout")) ->
  t ∈ activity polls (splice_new a b) ->
  exists d, idle = Some d /\ t + d <= last_time 0 polls.
Proof.
  intros Hd Hc s Hout Ht. destruct (idle_end a b polls Hd Hc Hout) as (d & E & Hle).
  exists d. split; [done|].
  assert (t <= last_ms s); [|fold s in Hle; lia].
  apply activity_last; auto. intros d' E'. specialize (Hd d' E'). lia.
Qed.
End Watchdog.

(** ** The body timeout: [IdleTimeout]

    The wrapper around the daemon's stream.  What the inner stream answers is an
    input; its [poll_flush] and [poll_shutdown] are passed through unchanged. *)
Module Body.
Record IdleTimeout := mkIdleTimeout { idle : option Z; deadline : Z }.

Definition a_year : Z := 60 * 60 * 24 * 365 * 1000.
Definition new (now : Z) (bound : option Z) : IdleTimeout :=
  mkIdleTimeout bound (now + default a_year bound).
Definition rearm (now : Z) (w : IdleTimeout) : IdleTimeout :=
  match idle w with
  | Some d => mkIdleTimeout (idle w) (now + d)
  | None => w
  end.
Definition poll_expired (now : Z) (w : IdleTimeout) : bool :=
  match idle w with
  | Some _ => deadline w <=? now
  | None => false
  end.

Section Polls.
Context {A : Type}.
Abbreviation answer := (Poll (result SpliceError A)).

(** [poll_read] with [A] the unit type, [poll_write] with [A] a byte count. *)
Definition poll (now : Z) (inner : answer) (w : IdleTimeout) : answer * IdleTimeout :=
  match inner with
  | Ready (Ok a) => (Ready (Ok a), rearm now w)
  | Ready (Err e) => (Ready (Err e), w)
  | Pending => (if poll_expired now w then Ready (Err (TimedOut "body idle timeout")) else Pending, w)
  end.

Fixpoint polls (ps : list (Z * answer)) (w : IdleTimeout) : list answer :=
  match ps with
  | [] => []
  | (now, inner) :: ps' => let (r, w') := poll now inner w in r :: polls ps' w'
  end.

(** What the wrapper promises: pending answers turn into a timeout once [bound]
    has passed since the last completed one. *)
Fixpoint promised (bound : option Z) (last : Z) (ps : list (Z * answer)) : list answer :=
  match ps with
  | [] => []
  | (now, inner) :: ps' =>
      match inner with
      | Pending =>
          (if expired bound (now - last) then Ready (Err (TimedOut "body idle timeout")) else Pending)
            :: promised bound last ps'
      | Ready (Ok _) => inner :: promised bound now ps'
      | Ready (Err _) => inner :: promised bound last ps'
      end
  end.

(** C36 The body wrapper implements its promise: through any sequence of reads
    and writes it answers as the inner stream does, except that a pending answer
    becomes a timeout exactly when the idle bound has passed since the stream
    last completed an operation, and never when the bound is off. *)
Theorem body_timeout_exact (bound : option Z) (start : Z) (ps : list (Z * answer)) :
  polls ps (new start bound) = promised bound start ps.
Proof using Type.
  destruct bound as [d|].
  - change (new start (Some d)) with (mkIdleTimeout (Some d) (start + d)).
    revert start. induction ps as [|[now inner] ps IH]; intros start; [done|].
    destruct inner as [[a|e]|]; cbn [polls poll promised rearm idle]; rewrite ?IH; [done|done|].
    unfold poll_expired, expired. cbn [idle deadline].
    by replace (start + d <=? now) with (d <=? now - start) by
      (apply eq_true_iff_eq; rewrite !Z.leb_le; lia).
  - assert (H : forall dl start, polls ps (mkIdleTimeout None dl) = promised None start ps); [|apply H].
    induction ps as [|[now inner] ps IH]; intros dl st; [done|].
    destruct inner as [[a|e]|]; cbn; f_equal; apply IH.
Qed.
End Polls.
End Body.

(** ** Concrete splices *)
Section Demo.
Local Instance demo_ticker : Ticker := fun _ now period => now + period.
Local Instance demo_ticker_law : TickerLaw.
Proof. intros due now period Hp Hd. unfold next_timeout, demo_ticker. lia. Qed.

(** One byte goes from the visitor to the daemon; then silence. *)
Definition one_byte : list (Z * list (Side * IoEvent)) :=
  [(0, []); (30, [(AtoB, Readable 5); (AtoB, Writable 0)])].

Lemma splice_watched_witness :
  let s := splice_run (Some 100) None (one_byte ++ [(50, [])]) (splice_new [Byte.x41; Byte.x42] []) in
  50 < next_tick s <= last_ms s + 100 + tick_period (Some 100) /\ tick_period (Some 100) <= 1000.
Proof.
  apply (splice_watched (Some 100) None [Byte.x41; Byte.x42] [] one_byte 50 []).
  - intros d [= <-]. lia.
  - cbn. lia.
  - reflexivity.
  - reflexivity.
Defined.

Lemma silent_splice_ends_witness :
  let s := splice_run (Some 100) None (one_byte ++ [(50, [])]) (splice_new [Byte.x41; Byte.x42] []) in
  (forall n, outcome (wakes (Some 100) None n s) = None ->
     next_tick (wakes (Some 100) None n s) <= last_ms s + 100 + tick_period (Some 100)) /\
  exists what, outcome (wakes (Some 100) None (Z.to_nat (100 + tick_period (Some 100))) s) =
    Some (Err (TimedOut what)).
Proof.
  apply (silent_splice_ends (Some 100) None [Byte.x41; Byte.x42] [] one_byte 50 [] 100).
  - reflexivity.
  - lia.
  - cbn. lia.
  - reflexivity.
Defined.

(** The whole life of it: both bytes over, then idle. *)
Definition idle_life : list (Z * list (Side * IoEvent)) :=
  one_byte ++ [(60, []); (90, []); (120, []); (150, [])].
Lemma busy_splice_survives_witness :
  30 ∈ activity (Some 100) None idle_life (splice_new [Byte.x41] []) /\
  exists d, Some 100 = Some d /\ 30 + d <= last_time 0 idle_life.
Proof.
  assert (Ht : 30 ∈ activity (Some 100) None idle_life (splice_new [Byte.x41] [])).
  { vm_compute. constructor. }
  split; [exact Ht|].
  apply (busy_splice_survives (Some 100) None [Byte.x41] [] idle_life 30).
  - intros d [= <-]. lia.
  - cbn. lia.
  - vm_compute. reflexivity.
  - exact Ht.
Defined.

(** Only a whole chunk counts as activity: a peer that takes one byte of a chunk
    every 20 ms is cut off by an idle bound of 100 ms while bytes still flow. *)
Definition slow_peer : list (Z * list (Side * IoEvent)) :=
  (0, [(AtoB, Readable 9)]) ::
  ((fun t => (t, [(AtoB, Writable 0)])) <$> [20; 40; 60; 80; 100; 120]).
Lemma slow_peer_cut :
  let s := splice_run (Some 100) None slow_peer (splice_new (repeat Byte.x41 10) []) in
  outcome s = Some (Err (TimedOut "splice idle timeout")) /\ length (delivered (ab s)) = 6%nat.
Proof. vm_compute. auto. Qed.
End Demo.
