(* ===== verification/Router.v ===== *)
(** * The routing table (crates/relay/src/router.rs)

    [RouterInner] is the state behind the [RwLock]; every operation below is
    one critical section.  A [SessionHandle] is identified by its session id;
    its two channels are the state of the session it belongs to and are
    modelled with it. *)
From S2P Require Import Prelude Frames.
Local Open Scope Z_scope.

Record SessionHandle := mkHandle { sh_session_id : Z; sh_user_id : Z }.
#[export] Instance SessionHandle_eq_dec : EqDecision SessionHandle.
Proof. solve_decision. Defined.

Record ClaimSet := mkClaimSet { cs_hosts : gset string; cs_ports : gset Z }.
Definition ClaimSet_default : ClaimSet := mkClaimSet ∅ ∅.

Record RouterInner := mkRouter {
  http : gmap string SessionHandle;
  tcp : gmap Z SessionHandle;
  by_session : gmap Z ClaimSet;
}.
Definition Router_new : RouterInner := mkRouter ∅ ∅ ∅.

Definition lookup_http (r : RouterInner) (host : string) : option SessionHandle :=
  http r !! host.
Definition lookup_tcp (r : RouterInner) (port : Z) : option SessionHandle :=
  tcp r !! port.

Definition insert_host (h : string) (cs : ClaimSet) : ClaimSet :=
  mkClaimSet ({[h]} ∪ cs_hosts cs) (cs_ports cs).
Definition remove_host (h : string) (cs : ClaimSet) : ClaimSet :=
  mkClaimSet (cs_hosts cs ∖ {[h]}) (cs_ports cs).
Definition insert_port (p : Z) (cs : ClaimSet) : ClaimSet :=
  mkClaimSet (cs_hosts cs) ({[p]} ∪ cs_ports cs).
Definition remove_port_cs (p : Z) (cs : ClaimSet) : ClaimSet :=
  mkClaimSet (cs_hosts cs) (cs_ports cs ∖ {[p]}).

(** [by_session.entry(sid).or_default()] followed by an update. *)
Definition entry_or_default (f : ClaimSet -> ClaimSet) (sid : Z)
    (m : gmap Z ClaimSet) : gmap Z ClaimSet :=
  partial_alter (fun o => Some (f (default ClaimSet_default o))) sid m.

(** One iteration of the hostname loop of [claim]: insert the route, take the
    host out of the previous holder's reverse index if it was another session,
    and record it under the claiming session. *)
Definition claim_host (session : SessionHandle)
    (acc : RouterInner * list (SessionHandle * Resource)) (host : string) :
    RouterInner * list (SessionHandle * Resource) :=
  let '(inner, superseded) := acc in
  let http' := <[host := session]> (http inner) in
  let '(by', superseded') :=
    match http inner !! host with
    | Some prev =>
        if decide (sh_session_id prev <> sh_session_id session) then
          (alter (remove_host host) (sh_session_id prev) (by_session inner),
           superseded ++ [(prev, Host host)])
        else (by_session inner, superseded)
    | None => (by_session inner, superseded)
    end in
  (mkRouter http' (tcp inner)
     (entry_or_default (insert_host host) (sh_session_id session) by'),
   superseded').

Definition claim_port (session : SessionHandle)
    (acc : RouterInner * list (SessionHandle * Resource)) (port : Z) :
    RouterInner * list (SessionHandle * Resource) :=
  let '(inner, superseded) := acc in
  let tcp' := <[port := session]> (tcp inner) in
  let '(by', superseded') :=
    match tcp inner !! port with
    | Some prev =>
        if decide (sh_session_id prev <> sh_session_id session) then
          (alter (remove_port_cs port) (sh_session_id prev) (by_session inner),
           superseded ++ [(prev, Port port)])
        else (by_session inner, superseded)
    | None => (by_session inner, superseded)
    end in
  (mkRouter (http inner) tcp'
     (entry_or_default (insert_port port) (sh_session_id session) by'),
   superseded').

Definition claim (session : SessionHandle) (hosts : list string) (ports : list Z)
    (r : RouterInner) : RouterInner * list (SessionHandle * Resource) :=
  foldl (claim_port session) (foldl (claim_host session) (r, []) hosts) ports.

(** The guarded removals of [remove_session]. *)
Definition drop_of {K : Type} `{Countable K} (sid : Z) (m : gmap K SessionHandle)
    (k : K) : gmap K SessionHandle :=
  match m !! k with
  | Some h => if decide (sh_session_id h = sid) then delete k m else m
  | None => m
  end.

Definition remove_session (session_id : Z) (r : RouterInner) : RouterInner :=
  match by_session r !! session_id with
  | None => r
  | Some set =>
      mkRouter (foldl (drop_of session_id) (http r) (elements (cs_hosts set)))
               (foldl (drop_of session_id) (tcp r) (elements (cs_ports set)))
               (delete session_id (by_session r))
  end.

Definition evict_host (acc : RouterInner * list (SessionHandle * Resource))
    (host : string) : RouterInner * list (SessionHandle * Resource) :=
  let '(inner, evicted) := acc in
  match http inner !! host with
  | Some handle =>
      (mkRouter (delete host (http inner)) (tcp inner)
         (alter (remove_host host) (sh_session_id handle) (by_session inner)),
       evicted ++ [(handle, Host host)])
  | None => (inner, evicted)
  end.
Definition evict_port (acc : RouterInner * list (SessionHandle * Resource))
    (port : Z) : RouterInner * list (SessionHandle * Resource) :=
  let '(inner, evicted) := acc in
  match tcp inner !! port with
  | Some handle =>
      (mkRouter (http inner) (delete port (tcp inner))
         (alter (remove_port_cs port) (sh_session_id handle) (by_session inner)),
       evicted ++ [(handle, Port port)])
  | None => (inner, evicted)
  end.

Definition evict_routes (hosts : list string) (ports : list Z) (r : RouterInner) :
    RouterInner * list (SessionHandle * Resource) :=
  foldl evict_port (foldl evict_host (r, []) hosts) ports.

Definition hostname_count (r : RouterInner) : nat := size (http r).

Definition hostnames_of (session_id : Z) (r : RouterInner) : list string :=
  match by_session r !! session_id with
  | Some set => elements (cs_hosts set)
  | None => []
  end.

Definition projected_tunnel_count (user_id : Z) (new_hosts : list string)
    (new_ports : list Z) (r : RouterInner) : nat :=
  let hosts : gset string :=
    dom (filter (fun kv : string * SessionHandle => sh_user_id kv.2 = user_id) (http r))
    ∪ list_to_set new_hosts in
  let ports : gset Z :=
    dom (filter (fun kv : Z * SessionHandle => sh_user_id kv.2 = user_id) (tcp r))
    ∪ list_to_set new_ports in
  (size hosts + size ports)%nat.

(** ** Abstract routing table

    What the routing table promises: two maps from resource to serving
    session, newest claim wins, teardown removes exactly the session's own
    entries. *)
Record Routes := mkRoutes { r_http : gmap string SessionHandle; r_tcp : gmap Z SessionHandle }.
Definition abs (r : RouterInner) : Routes := mkRoutes (http r) (tcp r).

Inductive RouterOp :=
  | OpClaim (s : SessionHandle) (hosts : list string) (ports : list Z)
  | OpRemove (sid : Z)
  | OpEvict (hosts : list string) (ports : list Z).

Definition run_op (r : RouterInner) (op : RouterOp) : RouterInner :=
  match op with
  | OpClaim s hosts ports => (claim s hosts ports r).1
  | OpRemove sid => remove_session sid r
  | OpEvict hosts ports => (evict_routes hosts ports r).1
  end.

Definition insert_all {K : Type} `{Countable K} (s : SessionHandle) (ks : list K)
    (m : gmap K SessionHandle) : gmap K SessionHandle :=
  foldl (fun m k => <[k := s]> m) m ks.
Definition not_of {K : Type} (sid : Z) (kv : K * SessionHandle) : Prop :=
  sh_session_id kv.2 <> sid.
#[export] Instance not_of_dec {K : Type} (sid : Z) (kv : K * SessionHandle) :
  Decision (not_of sid kv).
Proof. unfold not_of. apply _. Defined.

Definition spec_op (a : Routes) (op : RouterOp) : Routes :=
  match op with
  | OpClaim s hosts ports =>
      mkRoutes (insert_all s hosts (r_http a)) (insert_all s ports (r_tcp a))
  | OpRemove sid =>
      mkRoutes (filter (not_of sid) (r_http a)) (filter (not_of sid) (r_tcp a))
  | OpEvict hosts ports =>
      mkRoutes (foldl (fun m k => delete k m) (r_http a) hosts)
               (foldl (fun m k => delete k m) (r_tcp a) ports)
  end.

(** ** The invariant: the reverse index is exactly the inverse of the table *)
Definition hosts_in (m : gmap Z ClaimSet) (sid : Z) : gset string :=
  default ∅ (cs_hosts <$> m !! sid).
Definition ports_in (m : gmap Z ClaimSet) (sid : Z) : gset Z :=
  default ∅ (cs_ports <$> m !! sid).

Record router_wf (r : RouterInner) : Prop := {
  wf_hosts : forall sid h,
    h ∈ hosts_in (by_session r) sid <-> sh_session_id <$> http r !! h = Some sid;
  wf_ports : forall sid p,
    p ∈ ports_in (by_session r) sid <-> sh_session_id <$> tcp r !! p = Some sid;
}.

(** ** Index lemmas *)
Lemma hosts_in_alter (m : gmap Z ClaimSet) (h x : string) (sid sid' : Z) :
  x ∈ hosts_in (alter (remove_host h) sid m) sid' <->
  x ∈ hosts_in m sid' /\ ~ (sid = sid' /\ x = h).
Proof.
  unfold hosts_in. rewrite lookup_alter. case_decide; subst; [|naive_solver].
  destruct (m !! sid'); simpl; set_solver.
Qed.
Lemma ports_in_alter (m : gmap Z ClaimSet) (p x : Z) (sid sid' : Z) :
  x ∈ ports_in (alter (remove_port_cs p) sid m) sid' <->
  x ∈ ports_in m sid' /\ ~ (sid = sid' /\ x = p).
Proof.
  unfold ports_in. rewrite lookup_alter. case_decide; subst; [|naive_solver].
  destruct (m !! sid'); simpl; set_solver.
Qed.
Lemma hosts_in_entry (m : gmap Z ClaimSet) (h x : string) (sid sid' : Z) :
  x ∈ hosts_in (entry_or_default (insert_host h) sid m) sid' <->
  x ∈ hosts_in m sid' \/ (sid = sid' /\ x = h).
Proof.
  unfold hosts_in, entry_or_default. rewrite lookup_partial_alter.
  case_decide; subst; [|naive_solver].
  destruct (m !! sid'); simpl; set_solver.
Qed.
Lemma ports_in_entry (m : gmap Z ClaimSet) (p x : Z) (sid sid' : Z) :
  x ∈ ports_in (entry_or_default (insert_port p) sid m) sid' <->
  x ∈ ports_in m sid' \/ (sid = sid' /\ x = p).
Proof.
  unfold ports_in, entry_or_default. rewrite lookup_partial_alter.
  case_decide; subst; [|naive_solver].
  destruct (m !! sid'); simpl; set_solver.
Qed.

(** A host update leaves every session's ports alone, and conversely. *)
Lemma ports_in_alter_host (m : gmap Z ClaimSet) (h : string) (sid sid' : Z) :
  ports_in (alter (remove_host h) sid m) sid' = ports_in m sid'.
Proof.
  unfold ports_in. rewrite lookup_alter.
  case_decide; subst; [|done]. by destruct (m !! sid').
Qed.
Lemma ports_in_entry_host (m : gmap Z ClaimSet) (h : string) (sid sid' : Z) :
  ports_in (entry_or_default (insert_host h) sid m) sid' = ports_in m sid'.
Proof.
  unfold ports_in, entry_or_default. rewrite lookup_partial_alter.
  case_decide; subst; [|done]. by destruct (m !! sid').
Qed.
Lemma hosts_in_alter_port (m : gmap Z ClaimSet) (p : Z) (sid sid' : Z) :
  hosts_in (alter (remove_port_cs p) sid m) sid' = hosts_in m sid'.
Proof.
  unfold hosts_in. rewrite lookup_alter.
  case_decide; subst; [|done]. by destruct (m !! sid').
Qed.
Lemma hosts_in_entry_port (m : gmap Z ClaimSet) (p : Z) (sid sid' : Z) :
  hosts_in (entry_or_default (insert_port p) sid m) sid' = hosts_in m sid'.
Proof.
  unfold hosts_in, entry_or_default. rewrite lookup_partial_alter.
  case_decide; subst; [|done]. by destruct (m !! sid').
Qed.

Create Rewrite HintDb router.
#[export] Hint Rewrite ports_in_alter_host ports_in_entry_host
  hosts_in_alter_port hosts_in_entry_port
  hosts_in_alter ports_in_alter hosts_in_entry ports_in_entry : router.

(** Rewrite index membership with the update lemmas and the invariant, split
    on the touched key and close by first-order reasoning. *)
Ltac index_solve Hh Hp :=
  constructor; simpl; intros ? x; autorewrite with router;
  rewrite ?lookup_insert, ?lookup_delete, ?Hh, ?Hp;
  repeat case_decide; simplify_eq/=;
  try match goal with E : _ !! x = _ |- _ => rewrite E; simpl end;
  try match goal with E : sh_session_id _ = sh_session_id _ |- _ => rewrite E end;
  naive_solver.

(** ** Preservation, one loop body at a time *)
Lemma claim_host_wf (s : SessionHandle) r sup h :
  router_wf r -> router_wf (claim_host s (r, sup) h).1.
Proof.
  intros [Hh Hp]. unfold claim_host.
  destruct (http r !! h) as [prev|] eqn:E; [case_decide|]; simpl; index_solve Hh Hp.
Qed.
Lemma claim_port_wf (s : SessionHandle) r sup p :
  router_wf r -> router_wf (claim_port s (r, sup) p).1.
Proof.
  intros [Hh Hp]. unfold claim_port.
  destruct (tcp r !! p) as [prev|] eqn:E; [case_decide|]; simpl; index_solve Hh Hp.
Qed.
Lemma evict_host_wf r ev h : router_wf r -> router_wf (evict_host (r, ev) h).1.
Proof.
  intros [Hh Hp]. unfold evict_host.
  destruct (http r !! h) as [prev|] eqn:E; [|done]; simpl; index_solve Hh Hp.
Qed.
Lemma evict_port_wf r ev p : router_wf r -> router_wf (evict_port (r, ev) p).1.
Proof.
  intros [Hh Hp]. unfold evict_port.
  destruct (tcp r !! p) as [prev|] eqn:E; [|done]; simpl; index_solve Hh Hp.
Qed.

Lemma claim_wf s hosts ports r : router_wf r -> router_wf (claim s hosts ports r).1.
Proof.
  intros Hwf. unfold claim. apply (foldl_inv (fun a => router_wf a.1)).
  { intros [] ?. apply claim_port_wf. }
  apply (foldl_inv (fun a => router_wf a.1)); [|done].
  intros [] ?. apply claim_host_wf.
Qed.
Lemma evict_routes_wf hosts ports r :
  router_wf r -> router_wf (evict_routes hosts ports r).1.
Proof.
  intros Hwf. unfold evict_routes. apply (foldl_inv (fun a => router_wf a.1)).
  { intros [] ?. apply evict_port_wf. }
  apply (foldl_inv (fun a => router_wf a.1)); [|done].
  intros [] ?. apply evict_host_wf.
Qed.

(** ** The tables after each loop *)
Lemma claim_host_tables s acc h :
  http (claim_host s acc h).1 = <[h := s]> (http acc.1) /\
  tcp (claim_host s acc h).1 = tcp acc.1.
Proof. destruct acc as [r sup]. unfold claim_host. by split_matches. Qed.
Lemma claim_port_tables s acc p :
  tcp (claim_port s acc p).1 = <[p := s]> (tcp acc.1) /\
  http (claim_port s acc p).1 = http acc.1.
Proof. destruct acc as [r sup]. unfold claim_port. by split_matches. Qed.

Lemma claim_hosts_tables s hosts acc :
  http (foldl (claim_host s) acc hosts).1 = insert_all s hosts (http acc.1) /\
  tcp (foldl (claim_host s) acc hosts).1 = tcp acc.1.
Proof.
  revert acc. induction hosts as [|h hosts IH]; intros acc; [done|]. simpl.
  destruct (IH (claim_host s acc h)) as [-> ->].
  by destruct (claim_host_tables s acc h) as [-> ->].
Qed.
Lemma claim_ports_tables s ports acc :
  tcp (foldl (claim_port s) acc ports).1 = insert_all s ports (tcp acc.1) /\
  http (foldl (claim_port s) acc ports).1 = http acc.1.
Proof.
  revert acc. induction ports as [|p ports IH]; intros acc; [done|]. simpl.
  destruct (IH (claim_port s acc p)) as [-> ->].
  by destruct (claim_port_tables s acc p) as [-> ->].
Qed.
Lemma claim_abs s hosts ports r :
  abs (claim s hosts ports r).1 = spec_op (abs r) (OpClaim s hosts ports).
Proof.
  unfold claim, abs.
  destruct (claim_ports_tables s ports (foldl (claim_host s) (r, []) hosts)) as [-> ->].
  by destruct (claim_hosts_tables s hosts (r, [])) as [-> ->].
Qed.

Lemma evict_hosts_tables hosts acc :
  http (foldl evict_host acc hosts).1 = foldl (fun m k => delete k m) (http acc.1) hosts /\
  tcp (foldl evict_host acc hosts).1 = tcp acc.1.
Proof.
  revert acc. induction hosts as [|h hosts IH]; intros [r ev]; [done|]. simpl.
  destruct (http r !! h) eqn:E; rewrite (proj1 (IH _)), (proj2 (IH _)); [done|].
  by rewrite delete_id.
Qed.
Lemma evict_ports_tables ports acc :
  tcp (foldl evict_port acc ports).1 = foldl (fun m k => delete k m) (tcp acc.1) ports /\
  http (foldl evict_port acc ports).1 = http acc.1.
Proof.
  revert acc. induction ports as [|p ports IH]; intros [r ev]; [done|]. simpl.
  destruct (tcp r !! p) eqn:E; rewrite (proj1 (IH _)), (proj2 (IH _)); [done|].
  by rewrite delete_id.
Qed.
Lemma evict_abs hosts ports r :
  abs (evict_routes hosts ports r).1 = spec_op (abs r) (OpEvict hosts ports).
Proof.
  unfold evict_routes, abs.
  destruct (evict_ports_tables ports (foldl evict_host (r, []) hosts)) as [-> ->].
  by destruct (evict_hosts_tables hosts (r, [])) as [-> ->].
Qed.

(** The guarded removal loop drops exactly the listed keys that still point at
    the session. *)
Lemma drop_of_lookup {K : Type} `{Countable K} sid (m : gmap K SessionHandle) x k :
  drop_of sid m x !! k =
  if decide (k = x /\ sh_session_id <$> m !! k = Some sid) then None else m !! k.
Proof.
  unfold drop_of. destruct (m !! x) as [hd|] eqn:E; [case_decide as Hd|];
    rewrite ?lookup_delete; repeat case_decide; destruct_and?; simplify_eq;
    rewrite ?E in *; naive_solver.
Qed.
Lemma drop_all_lookup {K : Type} `{Countable K} sid l (m : gmap K SessionHandle) k :
  foldl (drop_of sid) m l !! k =
  if decide (k ∈ l /\ sh_session_id <$> m !! k = Some sid) then None else m !! k.
Proof.
  revert m. induction l as [|x l IH]; intros m; cbn [foldl].
  { case_decide; set_solver. }
  rewrite IH, drop_of_lookup.
  repeat case_decide; set_solver.
Qed.

(** Under the invariant, teardown leaves exactly the entries of the other
    sessions. *)
Lemma drop_indexed {K : Type} `{Countable K} sid (idx : gset K) (m : gmap K SessionHandle) :
  (forall k, k ∈ idx <-> sh_session_id <$> m !! k = Some sid) ->
  foldl (drop_of sid) m (elements idx) = filter (not_of sid) m.
Proof.
  intros Hidx. apply map_eq. intros k. rewrite drop_all_lookup, map_lookup_filter.
  destruct (m !! k) as [hd|] eqn:E; case_decide as Hd; simpl; try done;
    rewrite elem_of_elements, Hidx, E in Hd; simpl in Hd.
  - rewrite option_guard_False; [done|]. unfold not_of. naive_solver.
  - rewrite option_guard_True; [done|]. unfold not_of. simpl. intros Hs. rewrite Hs in Hd. naive_solver.
Qed.

Lemma remove_session_abs sid r :
  router_wf r -> abs (remove_session sid r) = spec_op (abs r) (OpRemove sid).
Proof.
  intros [Hh Hp]. unfold remove_session, abs, spec_op; simpl.
  specialize (Hh sid). specialize (Hp sid). unfold hosts_in, ports_in in *.
  destruct (by_session r !! sid) as [cs|]; simpl in *.
  - by rewrite !drop_indexed.
  - f_equal; symmetry; apply map_filter_id; unfold not_of; simpl; intros k hd E ?;
      [destruct (Hh k) as [_ Hk] | destruct (Hp k) as [_ Hk]]; rewrite E in Hk; set_solver.
Qed.

Lemma remove_session_wf sid r : router_wf r -> router_wf (remove_session sid r).
Proof.
  intros Hwf. pose proof (remove_session_abs sid r Hwf) as Habs.
  unfold abs, spec_op in Habs. simpl in Habs. injection Habs as Eh Ep.
  destruct Hwf as [Hh Hp].
  assert (Hb : forall sid', by_session (remove_session sid r) !! sid' =
    if decide (sid = sid') then None else by_session r !! sid').
  { intros sid'. unfold remove_session. destruct (by_session r !! sid) eqn:E; simpl.
    - by rewrite lookup_delete.
    - case_decide; by subst. }
  constructor; intros sid' k; rewrite ?Eh, ?Ep, map_lookup_filter;
    unfold hosts_in, ports_in, not_of in *; rewrite Hb.
  - specialize (Hh sid' k). case_decide; subst; destruct (http r !! k) eqn:E; simpl in *;
      try case_guard; simpl; set_solver.
  - specialize (Hp sid' k). case_decide; subst; destruct (tcp r !! k) eqn:E; simpl in *;
      try case_guard; simpl; set_solver.
Qed.

(** ** The lists returned to the caller *)
Lemma insert_all_lookup {K : Type} `{Countable K} s (ks : list K) m k :
  insert_all s ks m !! k = if decide (k ∈ ks) then Some s else m !! k.
Proof.
  unfold insert_all. revert m. induction ks as [|x ks IH]; intros m; cbn [foldl].
  { case_decide; set_solver. }
  rewrite IH, lookup_insert. repeat case_decide; set_solver.
Qed.
Lemma delete_all_lookup {K V : Type} `{Countable K} (ks : list K) (m : gmap K V) k :
  foldl (fun m k => delete k m) m ks !! k = if decide (k ∈ ks) then None else m !! k.
Proof.
  revert m. induction ks as [|x ks IH]; intros m; cbn [foldl].
  { case_decide; set_solver. }
  rewrite IH, lookup_delete. repeat case_decide; set_solver.
Qed.

(** What a claim of [ks] by [s] takes over from [m]. *)
Definition taken_over {K : Type} `{Countable K} (f : K -> Resource) (s : SessionHandle)
    (m : gmap K SessionHandle) (ks : list K) (x : SessionHandle * Resource) : Prop :=
  exists k, x.2 = f k /\ k ∈ ks /\ m !! k = Some x.1 /\ sh_session_id x.1 <> sh_session_id s.

Lemma taken_over_step {K : Type} `{Countable K} (f : K -> Resource) s m k ks
    (P Q : Prop) (x : SessionHandle * Resource) :
  (Q <-> P \/ (x.2 = f k /\ m !! k = Some x.1 /\ sh_session_id x.1 <> sh_session_id s)) ->
  Q \/ taken_over f s (<[k := s]> m) ks x <-> P \/ taken_over f s m (k :: ks) x.
Proof.
  intros ->. unfold taken_over. setoid_rewrite lookup_insert. setoid_rewrite elem_of_cons.
  split.
  - intros [[?|?]|(k' & ? & ? & Hk & ?)]; [naive_solver|naive_solver|].
    case_decide; naive_solver.
  - intros [?|(k' & ? & [->|Hin] & Hk & ?)]; [naive_solver|naive_solver|].
    destruct (decide (k = k')) as [->|Hne]; [naive_solver|].
    right. exists k'. by rewrite decide_False.
Qed.

Lemma claim_hosts_superseded s hosts r sup x :
  x ∈ (foldl (claim_host s) (r, sup) hosts).2 <->
  x ∈ sup \/ taken_over Host s (http r) hosts x.
Proof.
  revert r sup. induction hosts as [|h hosts IH]; intros r sup; cbn [foldl].
  { unfold taken_over. set_solver. }
  pose proof (proj1 (claim_host_tables s (r, sup) h)) as Hh.
  destruct (claim_host s (r, sup) h) as [r1 sup1] eqn:E. simpl in Hh.
  rewrite IH, Hh. apply taken_over_step. unfold claim_host in E. destruct x as [p res]. simpl.
  destruct (http r !! h) as [prev|] eqn:Eh; [case_decide|]; simplify_eq;
    rewrite ?elem_of_app, ?list_elem_of_singleton; naive_solver.
Qed.
Lemma claim_ports_superseded s ports r sup x :
  x ∈ (foldl (claim_port s) (r, sup) ports).2 <->
  x ∈ sup \/ taken_over Port s (tcp r) ports x.
Proof.
  revert r sup. induction ports as [|p ports IH]; intros r sup; cbn [foldl].
  { unfold taken_over. set_solver. }
  pose proof (proj1 (claim_port_tables s (r, sup) p)) as Hp.
  destruct (claim_port s (r, sup) p) as [r1 sup1] eqn:E. simpl in Hp.
  rewrite IH, Hp. apply taken_over_step. unfold claim_port in E. destruct x as [q res]. simpl.
  destruct (tcp r !! p) as [prev|] eqn:Ep; [case_decide|]; simplify_eq;
    rewrite ?elem_of_app, ?list_elem_of_singleton; naive_solver.
Qed.
Lemma claim_superseded s hosts ports r x :
  x ∈ (claim s hosts ports r).2 <->
  taken_over Host s (http r) hosts x \/ taken_over Port s (tcp r) ports x.
Proof.
  unfold claim. destruct (foldl (claim_host s) (r, []) hosts) as [r1 sup1] eqn:E.
  rewrite claim_ports_superseded.
  pose proof (claim_hosts_superseded s hosts r [] x) as Hh. rewrite E in Hh. simpl in Hh.
  pose proof (proj2 (claim_hosts_tables s hosts (r, []))) as Ht. rewrite E in Ht.
  simpl in Ht. rewrite Ht, Hh. set_solver.
Qed.

Lemma evict_hosts_evicted hosts r ev x :
  x ∈ (foldl evict_host (r, ev) hosts).2 <->
  x ∈ ev \/ exists h, x.2 = Host h /\ h ∈ hosts /\ http r !! h = Some x.1.
Proof.
  revert r ev. induction hosts as [|h hosts IH]; intros r ev; cbn [foldl]; [set_solver|].
  unfold evict_host at 2. destruct (http r !! h) as [hd|] eqn:E; rewrite IH; simpl.
  - setoid_rewrite lookup_delete. setoid_rewrite elem_of_cons.
    rewrite elem_of_app, list_elem_of_singleton. destruct x as [q res]; simpl. split.
    + intros [[?|?]|(k & ? & ? & Hk)]; [naive_solver|naive_solver|].
      case_decide; naive_solver.
    + intros [?|(k & ? & [->|?] & Hk)]; [naive_solver|naive_solver|].
      destruct (decide (h = k)) as [->|]; [naive_solver|].
      right. exists k. by rewrite decide_False.
  - setoid_rewrite elem_of_cons. naive_solver.
Qed.
Lemma evict_ports_evicted ports r ev x :
  x ∈ (foldl evict_port (r, ev) ports).2 <->
  x ∈ ev \/ exists p, x.2 = Port p /\ p ∈ ports /\ tcp r !! p = Some x.1.
Proof.
  revert r ev. induction ports as [|p ports IH]; intros r ev; cbn [foldl]; [set_solver|].
  unfold evict_port at 2. destruct (tcp r !! p) as [hd|] eqn:E; rewrite IH; simpl.
  - setoid_rewrite lookup_delete. setoid_rewrite elem_of_cons.
    rewrite elem_of_app, list_elem_of_singleton. destruct x as [q res]; simpl. split.
    + intros [[?|?]|(k & ? & ? & Hk)]; [naive_solver|naive_solver|].
      case_decide; naive_solver.
    + intros [?|(k & ? & [->|?] & Hk)]; [naive_solver|naive_solver|].
      destruct (decide (p = k)) as [->|]; [naive_solver|].
      right. exists k. by rewrite decide_False.
  - setoid_rewrite elem_of_cons. naive_solver.
Qed.

Lemma run_ops_refine ops r a :
  router_wf r -> abs r = a ->
  router_wf (foldl run_op r ops) /\ abs (foldl run_op r ops) = foldl spec_op a ops.
Proof.
  revert r a. induction ops as [|op ops IH]; intros r a Hwf <-; [done|]. simpl.
  apply IH; destruct op; simpl; auto using claim_wf, evict_routes_wf, remove_session_wf,
    claim_abs, evict_abs, remove_session_abs.
Qed.
Lemma Router_new_wf : router_wf Router_new.
Proof. constructor; unfold hosts_in, ports_in; simpl; set_solver. Qed.
#[export] Hint Resolve Router_new_wf claim_wf evict_routes_wf remove_session_wf : etun.

(** ** Properties *)

(** C12 The routing table refines its abstract specification: after any
    sequence of claims, session teardowns and evictions, the two tables hold
    exactly what the newest-wins specification says, and the reverse index is
    exactly the inverse of the tables. *)
Theorem router_refines_spec (ops : list RouterOp) :
  let r := foldl run_op Router_new ops in
  router_wf r /\ abs r = foldl spec_op (mkRoutes ∅ ∅) ops.
Proof. apply run_ops_refine; [apply Router_new_wf|done]. Qed.

(** Newest wins, and a stale session cannot evict its successor: once a
    session claims a resource, the teardown of any other session leaves the
    route in place, while its own teardown removes it. *)
Theorem stale_teardown_safe (r : RouterInner) (s : SessionHandle) (hosts : list string)
    (ports : list Z) (sid : Z) :
  router_wf r ->
  let r' := remove_session sid (claim s hosts ports r).1 in
  (forall h, h ∈ hosts -> lookup_http r' h =
     if decide (sid = sh_session_id s) then None else Some s) /\
  (forall p, p ∈ ports -> lookup_tcp r' p =
     if decide (sid = sh_session_id s) then None else Some s).
Proof.
  intros Hwf r'. pose proof (remove_session_abs sid _ (claim_wf s hosts ports r Hwf)) as Ha.
  rewrite claim_abs in Ha. unfold abs in Ha. simpl in Ha. injection Ha as Eh Ep.
  unfold lookup_http, lookup_tcp, r'. rewrite Eh, Ep.
  split; intros k Hk; rewrite map_lookup_filter, insert_all_lookup, decide_True by done;
    simpl; case_decide; subst.
  1, 3: rewrite option_guard_False; [done|]; unfold not_of; simpl; congruence.
  1, 2: rewrite option_guard_True; [done|]; unfold not_of; simpl; congruence.
Qed.

(** [claim] reports exactly the takeovers: a pair is returned iff the
    resource was claimed and was held by a different session, so every
    superseded session is notified and a re-claim by the holder notifies
    nobody. *)
Theorem claim_reports_takeovers (s : SessionHandle) (hosts : list string)
    (ports : list Z) (r : RouterInner) (prev : SessionHandle) :
  (forall h, (prev, Host h) ∈ (claim s hosts ports r).2 <->
     h ∈ hosts /\ lookup_http r h = Some prev /\
     sh_session_id prev <> sh_session_id s) /\
  (forall p, (prev, Port p) ∈ (claim s hosts ports r).2 <->
     p ∈ ports /\ lookup_tcp r p = Some prev /\
     sh_session_id prev <> sh_session_id s).
Proof.
  unfold lookup_http, lookup_tcp.
  split; intros k; rewrite claim_superseded; unfold taken_over; naive_solver.
Qed.

Lemma evict_evicted hosts ports r x :
  x ∈ (evict_routes hosts ports r).2 <->
  (exists h, x.2 = Host h /\ h ∈ hosts /\ http r !! h = Some x.1) \/
  (exists p, x.2 = Port p /\ p ∈ ports /\ tcp r !! p = Some x.1).
Proof.
  unfold evict_routes. destruct (foldl evict_host (r, []) hosts) as [r1 ev1] eqn:E.
  rewrite evict_ports_evicted.
  pose proof (evict_hosts_evicted hosts r [] x) as Hh. rewrite E in Hh. simpl in Hh.
  pose proof (proj2 (evict_hosts_tables hosts (r, []))) as Ht. rewrite E in Ht.
  simpl in Ht. rewrite Ht, Hh. set_solver.
Qed.

(** [evict_routes] stops exactly the named live routes: afterwards none of
    the named resources is routed, every other route is unchanged, and the
    returned pairs are exactly the live routes that were torn down. *)
Theorem evict_routes_exact (hosts : list string) (ports : list Z) (r : RouterInner) :
  let '(r', evicted) := evict_routes hosts ports r in
  (forall h, lookup_http r' h = if decide (h ∈ hosts) then None else lookup_http r h) /\
  (forall p, lookup_tcp r' p = if decide (p ∈ ports) then None else lookup_tcp r p) /\
  (forall hd h, (hd, Host h) ∈ evicted <-> h ∈ hosts /\ lookup_http r h = Some hd) /\
  (forall hd p, (hd, Port p) ∈ evicted <-> p ∈ ports /\ lookup_tcp r p = Some hd).
Proof.
  pose proof (evict_abs hosts ports r) as Ha.
  pose proof (fun x => evict_evicted hosts ports r x) as Hev.
  destruct (evict_routes hosts ports r) as [r' evicted]. unfold abs in Ha.
  simpl in *. injection Ha as Eh Ep. unfold lookup_http, lookup_tcp. rewrite Eh, Ep.
  split_and!.
  - intros h. apply delete_all_lookup.
  - intros p. apply delete_all_lookup.
  - intros hd h. rewrite Hev. naive_solver.
  - intros hd p. rewrite Hev. naive_solver.
Qed.

Lemma dom_user_insert_all {K : Type} `{Countable K} (s : SessionHandle) (ks : list K) m :
  dom (filter (fun kv : K * SessionHandle => sh_user_id kv.2 = sh_user_id s)
         (insert_all s ks m)) =
  dom (filter (fun kv : K * SessionHandle => sh_user_id kv.2 = sh_user_id s) m)
  ∪ list_to_set ks :> gset K.
Proof.
  apply set_eq. intros k. rewrite elem_of_union, elem_of_list_to_set, !elem_of_dom.
  unfold is_Some. setoid_rewrite map_lookup_filter_Some.
  setoid_rewrite insert_all_lookup. simpl. case_decide; naive_solver.
Qed.

(** The projected tunnel count is exact at the table it was computed on:
    it is the number of distinct resources the claiming user holds once the
    claim is applied. *)
Theorem projected_count_exact (s : SessionHandle) (hosts : list string) (ports : list Z)
    (r : RouterInner) :
  projected_tunnel_count (sh_user_id s) hosts ports r =
  projected_tunnel_count (sh_user_id s) [] [] (claim s hosts ports r).1.
Proof.
  pose proof (claim_abs s hosts ports r) as Ha. unfold abs in Ha. simpl in Ha.
  injection Ha as Eh Ep. unfold projected_tunnel_count. rewrite Eh, Ep.
  rewrite !dom_user_insert_all. f_equal; f_equal; set_solver.
Qed.

Lemma hostnames_of_routed (r : RouterInner) (sid : Z) (h : string) :
  router_wf r ->
  h ∈ hostnames_of sid r <-> sh_session_id <$> lookup_http r h = Some sid.
Proof.
  intros [Hh _]. unfold lookup_http. rewrite <- Hh. unfold hostnames_of, hosts_in.
  destruct (by_session r !! sid); simpl; [apply elem_of_elements|set_solver].
Qed.
(** [hostnames_of] lists exactly the hostnames routed to the session, so
    the ownership re-validation tick examines every live route of a session
    and no other. *)
Theorem hostnames_of_exact (r : RouterInner) (sid : Z) (h : string) :
  router_wf r ->
  h ∈ hostnames_of sid r <-> sh_session_id <$> lookup_http r h = Some sid.
Proof. apply hostnames_of_routed. Qed.

(** ** Witnesses *)
Definition wit_s1 := mkHandle 1 100.
Definition wit_s2 := mkHandle 2 100.
Definition wit_r1 := (claim wit_s1 ["a.example.com"] [20000] Router_new).1.

Lemma stale_teardown_safe_witness :
  (forall h, h ∈ ["a.example.com"] ->
     lookup_http (remove_session 1 (claim wit_s2 ["a.example.com"] [] wit_r1).1) h
     = if decide (1 = 2) then None else Some wit_s2) /\
  (forall p, p ∈ @nil Z ->
     lookup_tcp (remove_session 1 (claim wit_s2 ["a.example.com"] [] wit_r1).1) p
     = if decide (1 = 2) then None else Some wit_s2).
Proof.
  apply (stale_teardown_safe wit_r1 wit_s2 ["a.example.com"] [] 1).
  apply claim_wf, Router_new_wf.
Defined.

Lemma hostnames_of_exact_witness :
  "a.example.com" ∈ hostnames_of 1 wit_r1 <->
  sh_session_id <$> lookup_http wit_r1 "a.example.com" = Some 1.
Proof. apply (hostnames_of_exact wit_r1 1). apply claim_wf, Router_new_wf. Defined.

Example newest_session_supersedes :
  lookup_http (remove_session 1 (claim wit_s2 ["a.example.com"] [] wit_r1).1)
    "a.example.com" = Some wit_s2.
Proof. vm_compute. reflexivity. Qed.

(** ** Lookups after a claim and after an eviction *)
Lemma claim_lookup (hd : SessionHandle) (hs : list string) (ps : list Z) (r : RouterInner) :
  (forall h, http (claim hd hs ps r).1 !! h = if decide (h ∈ hs) then Some hd else http r !! h) /\
  (forall p, tcp (claim hd hs ps r).1 !! p = if decide (p ∈ ps) then Some hd else tcp r !! p).
Proof.
  pose proof (claim_abs hd hs ps r) as Ha. unfold abs in Ha. cbn in Ha. injection Ha as Hh Hp.
  rewrite Hh, Hp. split; intros k; apply insert_all_lookup.
Qed.
Lemma evict_lookup (hs : list string) (ps : list Z) (r : RouterInner) :
  (forall h, http (evict_routes hs ps r).1 !! h = if decide (h ∈ hs) then None else http r !! h) /\
  (forall p, tcp (evict_routes hs ps r).1 !! p = if decide (p ∈ ps) then None else tcp r !! p).
Proof.
  pose proof (evict_abs hs ps r) as Ha. unfold abs in Ha. cbn in Ha. injection Ha as Hh Hp.
  rewrite Hh, Hp. split; intros k; apply delete_all_lookup.
Qed.
