(* ===== verification/F64.v ===== *)
(** * Rust's [f64] and [Duration::as_secs_f64]

    IEEE 754 binary64 as the specification floats of the Standard Library
    (53-bit precision, maximal exponent 1024, round to nearest even), with the
    operations the token buckets use.  Instants and durations are whole
    nanoseconds. *)
From Stdlib Require Import SpecFloat.
From S2P Require Import Prelude.
Local Open Scope Z_scope.

Abbreviation f64 := spec_float.
Definition f64_add : f64 -> f64 -> f64 := SFadd 53 1024.
Definition f64_sub : f64 -> f64 -> f64 := SFsub 53 1024.
Definition f64_mul : f64 -> f64 -> f64 := SFmul 53 1024.
Definition f64_div : f64 -> f64 -> f64 := SFdiv 53 1024.
Definition f64_ltb : f64 -> f64 -> bool := SFltb.
Definition f64_leb : f64 -> f64 -> bool := SFleb.
(** [n as f64] for an unsigned integer. *)
Definition f64_of (n : Z) : f64 := binary_normalize 53 1024 n 0 false.
Definition f64_zero : f64 := S754_zero false.
Definition f64_one : f64 := f64_of 1.

Definition is_nan (x : f64) : bool :=
  match x with S754_nan => true | _ => false end.
(** [f64::min]: a NaN operand is ignored. *)
Definition f64_min (a b : f64) : f64 :=
  if is_nan a then b else if is_nan b then a
  else if f64_ltb a b then a else b.

(** [now.saturating_duration_since(last)] and [Duration::as_secs_f64]. *)
Definition saturating_duration_since (now last : Z) : Z := Z.max 0 (now - last).
Definition as_secs_f64 (nanos : Z) : f64 :=
  f64_add (f64_of (nanos / 1000000000))
          (f64_div (f64_of (nanos mod 1000000000)) (f64_of 1000000000)).

(** The values an unsigned conversion produces: zero or a positive finite
    number. *)
Definition f64_nonneg_finite (x : f64) : bool :=
  match x with
  | S754_zero false | S754_finite false _ _ => true
  | _ => false
  end.

Lemma f64_add_zero_r (x : f64) : f64_nonneg_finite x = true -> f64_add x f64_zero = x.
Proof. by destruct x as [[]|[]| |[]]. Qed.
Lemma f64_mul_zero_l (x : f64) :
  f64_nonneg_finite x = true -> f64_mul f64_zero x = f64_zero.
Proof. by destruct x as [[]|[]| |[]]. Qed.
Lemma as_secs_f64_zero : as_secs_f64 0 = f64_zero.
Proof. reflexivity. Qed.

Lemma f64_ltb_irrefl (x : f64) : f64_ltb x x = false.
Proof.
  unfold f64_ltb, SFltb, SFcompare. destruct x as [s|s| |s m e]; try done.
  - by destruct s.
  - rewrite Z.compare_refl.
    change (PosDef.Pos.compare_cont Eq m m) with (Pos.compare m m).
    rewrite Pos.compare_refl. by destruct s.
Qed.
Lemma f64_leb_refl (x : f64) : is_nan x = false -> f64_leb x x = true.
Proof.
  unfold f64_leb, SFleb, SFcompare. destruct x as [s|s| |s m e]; try done.
  - by destruct s.
  - rewrite Z.compare_refl.
    change (PosDef.Pos.compare_cont Eq m m) with (Pos.compare m m).
    rewrite Pos.compare_refl. by destruct s.
Qed.
Lemma f64_ltb_leb (x y : f64) : f64_ltb x y = true -> f64_leb x y = true.
Proof.
  unfold f64_ltb, f64_leb, SFltb, SFleb. by destruct (SFcompare x y) as [[]|].
Qed.

(** The capped refill never exceeds the cap, and is the cap whenever the
    refill is not strictly below it. *)
Lemma f64_min_leb_r (a b : f64) : is_nan b = false -> f64_leb (f64_min a b) b = true.
Proof.
  intros Hb. unfold f64_min. rewrite Hb. destruct (is_nan a); [by apply f64_leb_refl|].
  destruct (f64_ltb a b) eqn:E; [by apply f64_ltb_leb|by apply f64_leb_refl].
Qed.
Lemma f64_min_ge (a b : f64) :
  is_nan b = false -> f64_ltb a b = false -> f64_min a b = b.
Proof. intros Hb E. unfold f64_min. rewrite Hb, E. by destruct (is_nan a). Qed.
Lemma f64_min_self (b : f64) : f64_min b b = b.
Proof. unfold f64_min. rewrite f64_ltb_irrefl. by destruct (is_nan b). Qed.
Lemma nonneg_not_nan (x : f64) : f64_nonneg_finite x = true -> is_nan x = false.
Proof. by destruct x. Qed.

(** ** Exactness on integers

    Integers below [2^53] convert without rounding and stay exact under
    decrement, which is what the buckets rely on when no time passes. *)
Lemma digits2_log2 (m : positive) : Zpos (digits2_pos m) = Z.log2 (Zpos m) + 1.
Proof.
  induction m as [m IH|m IH|]; simpl digits2_pos; [| |done]; rewrite Pos2Z.inj_succ, IH.
  - change (Zpos m~1) with (2 * Zpos m + 1). rewrite Z.log2_succ_double by lia. lia.
  - change (Zpos m~0) with (2 * Zpos m). rewrite Z.log2_double by lia. lia.
Qed.

Lemma iter_xO (m d : positive) : Zpos (Pos.iter xO m d) = Zpos m * 2 ^ Zpos d.
Proof.
  induction d as [|d IH] using Pos.peano_ind; [simpl; lia|].
  rewrite Pos.iter_succ, Pos2Z.inj_succ, Z.pow_succ_r by lia.
  change (Zpos (Pos.iter xO m d)~0) with (2 * Zpos (Pos.iter xO m d)). lia.
Qed.

Lemma iter_pos_nat {A : Type} (f : A -> A) (p : positive) (x : A) :
  SpecFloat.iter_pos f p x = Nat.iter (Pos.to_nat p) f x.
Proof.
  revert x. induction p as [p IH|p IH|]; intros x; cbn [SpecFloat.iter_pos]; rewrite ?IH; [| |done].
  - rewrite Pos2Nat.inj_xI, <- Nat.iter_add, Nat.iter_succ_r. f_equal. lia.
  - rewrite Pos2Nat.inj_xO, <- Nat.iter_add. f_equal. lia.
Qed.

(** Shifting out zeros loses nothing. *)
Lemma shr_exact (m M : positive) (p : positive) :
  Zpos m = Zpos M * 2 ^ Zpos p ->
  SpecFloat.iter_pos shr_1 p (Build_shr_record (Zpos m) false false)
  = Build_shr_record (Zpos M) false false.
Proof.
  rewrite iter_pos_nat, <- (positive_nat_Z p). generalize (Pos.to_nat p) as n. clear p.
  intros n. revert m. induction n as [|n IH]; intros m Hm.
  - simpl in *. f_equal. lia.
  - rewrite Nat.iter_succ_r. rewrite Nat2Z.inj_succ, Z.pow_succ_r in Hm by lia.
    destruct m as [m|m|]; [lia| |nia]. simpl. apply IH. nia.
Qed.

Definition normal (M : positive) (E : Z) : Prop :=
  2 ^ 52 <= Zpos M < 2 ^ 53 /\ -1074 <= E <= 971.

Lemma normal_log2 (M : positive) (E : Z) : normal M E -> Z.log2 (Zpos M) = 52.
Proof. intros [HM _]. apply Z.log2_unique; lia. Qed.

Lemma shr_fexp_normal (M : positive) (E : Z) :
  normal M E ->
  shr_fexp 53 1024 (Zpos M) E loc_Exact = (Build_shr_record (Zpos M) false false, E).
Proof.
  intros HN. unfold shr_fexp, Zdigits2. rewrite digits2_log2, (normal_log2 M E HN).
  unfold fexp, emin. replace (Z.max _ _ - E) with 0; [done|]. destruct HN. lia.
Qed.

Lemma binary_round_shl (sx : bool) (m M : positive) (e E j : Z) :
  normal M E -> 0 <= j -> Zpos m * 2 ^ j = Zpos M -> e = E + j ->
  binary_round 53 1024 sx m e = S754_finite sx M E.
Proof.
  intros HN Hj Hm ->. pose proof (normal_log2 M E HN) as Hlog.
  rewrite <- Hm, Z.log2_mul_pow2 in Hlog by lia.
  unfold binary_round. rewrite digits2_log2. unfold fexp, emin.
  replace (Z.max _ _) with E by (destruct HN; lia). unfold shl_align.
  assert (Hend : binary_round_aux 53 1024 sx (Zpos M) E loc_Exact = S754_finite sx M E).
  { unfold binary_round_aux. rewrite shr_fexp_normal by done. simpl round_nearest_even.
    rewrite shr_fexp_normal by done. simpl. rewrite (proj2 (Z.leb_le _ _)); [done|].
    destruct HN; lia. }
  replace (E - (E + j)) with (- j) by lia. destruct j as [|j|j]; [| |lia]; simpl.
  - replace m with M by lia. by rewrite Z.add_0_r.
  - replace (Pos.iter xO m j) with M; [done|]. pose proof (iter_xO m j). lia.
Qed.

Lemma shl_align_ge (m : positive) (e ex : Z) : e <= ex -> shl_align m e ex = (m, e).
Proof. intros H. unfold shl_align. destruct (ex - e) eqn:D; [done|done|lia]. Qed.

Lemma fexp_normal (M : positive) (E : Z) : normal M E -> fexp 53 1024 (53 + E) = E.
Proof. intros HN. unfold fexp, emin. destruct HN. lia. Qed.

Lemma binary_round_shr (sx : bool) (m M : positive) (e E j : Z) :
  normal M E -> 0 <= j -> Zpos m = Zpos M * 2 ^ j -> e = E - j ->
  binary_round 53 1024 sx m e = S754_finite sx M E.
Proof.
  intros HN Hj Hm ->. pose proof (normal_log2 M E HN) as Hlog.
  assert (Hdig : Zpos (digits2_pos m) + (E - j) = 53 + E).
  { rewrite digits2_log2, Hm, Z.log2_mul_pow2 by lia. lia. }
  unfold binary_round. rewrite Hdig, (fexp_normal M) by done.
  rewrite shl_align_ge by lia. unfold binary_round_aux, shr_fexp at 1, Zdigits2.
  rewrite Hdig, (fexp_normal M) by done. replace (E - (E - j)) with j by lia.
  assert (Hs : shr (shr_record_of_loc (Zpos m) loc_Exact) (E - j) j
               = (Build_shr_record (Zpos M) false false, E)).
  { destruct j as [|j|j]; [| |lia]; simpl.
    - replace m with M by lia. f_equal. lia.
    - rewrite (shr_exact m M) by done. f_equal. lia. }
  rewrite Hs. simpl round_nearest_even. rewrite shr_fexp_normal by done. simpl.
  rewrite (proj2 (Z.leb_le _ _)); [done|]. destruct HN; lia.
Qed.

(** The normal form of an integer below [2^53]. *)
Definition mant (k : Z) : positive := Z.to_pos (k * 2 ^ (52 - Z.log2 k)).
Definition expo (k : Z) : Z := Z.log2 k - 52.

Lemma mant_normal (k : Z) :
  1 <= k < 2 ^ 53 ->
  normal (mant k) (expo k) /\ Zpos (mant k) = k * 2 ^ (52 - Z.log2 k)
  /\ 0 <= Z.log2 k <= 52.
Proof.
  intros Hk. pose proof (Z.log2_spec k ltac:(lia)) as [L U].
  assert (Hl : 0 <= Z.log2 k <= 52).
  { split; [apply Z.log2_nonneg|]. pose proof (Z.log2_lt_pow2 k 53). lia. }
  assert (HP : Zpos (mant k) = k * 2 ^ (52 - Z.log2 k)).
  { unfold mant. apply Z2Pos.id. pose proof (Z.pow_pos_nonneg 2 (52 - Z.log2 k)). nia. }
  split; [|done]. split; [|unfold expo; lia]. rewrite HP.
  pose proof (Z.pow_pos_nonneg 2 (52 - Z.log2 k)).
  replace (2 ^ 52) with (2 ^ Z.log2 k * 2 ^ (52 - Z.log2 k))
    by (rewrite <- Z.pow_add_r by lia; f_equal; lia).
  replace (2 ^ 53) with (2 ^ Z.succ (Z.log2 k) * 2 ^ (52 - Z.log2 k))
    by (rewrite <- Z.pow_add_r by lia; f_equal; lia).
  nia.
Qed.

Lemma f64_of_exact (k : Z) :
  1 <= k < 2 ^ 53 -> f64_of k = S754_finite false (mant k) (expo k).
Proof.
  intros Hk. destruct (mant_normal k Hk) as (HN & HM & Hl).
  destruct k as [|p|p]; try lia. unfold f64_of, binary_normalize.
  apply (binary_round_shl false p _ 0 _ (52 - Z.log2 (Zpos p))); [done|lia|done|].
  unfold expo. lia.
Qed.

Lemma f64_of_nonneg_finite (k : Z) :
  0 <= k < 2 ^ 53 -> f64_nonneg_finite (f64_of k) = true.
Proof.
  intros Hk. destruct (decide (k = 0)) as [->|]; [done|]. by rewrite f64_of_exact by lia.
Qed.

Lemma f64_one_exact : f64_one = S754_finite false (mant 1) (-52).
Proof. reflexivity. Qed.

Lemma shl_align_mul (m : positive) (e ex : Z) :
  ex <= e -> Zpos (shl_align m e ex).1 = Zpos m * 2 ^ (e - ex).
Proof.
  intros H. unfold shl_align. destruct (ex - e) eqn:D; [|lia|].
  - simpl. replace (e - ex) with 0 by lia. lia.
  - cbn [fst]. rewrite iter_xO. do 2 f_equal. lia.
Qed.

(** Taking one token from a whole number of them is exact. *)
Lemma f64_sub_one (k : Z) : 1 <= k < 2 ^ 53 -> f64_sub (f64_of k) f64_one = f64_of (k - 1).
Proof.
  intros Hk. destruct (mant_normal k Hk) as (_ & HM & Hl).
  rewrite f64_of_exact, f64_one_exact by done. unfold f64_sub, SFsub.
  assert (He : -52 <= expo k) by (unfold expo; lia).
  replace (Z.min (expo k) (-52)) with (-52) by lia. unfold cond_Zopp.
  rewrite !shl_align_mul by lia. rewrite HM.
  change (Zpos (mant 1) * 2 ^ (-52 - -52)) with (2 ^ 52).
  assert (Hd : k * 2 ^ (52 - Z.log2 k) * 2 ^ (expo k - -52) - 2 ^ 52 = (k - 1) * 2 ^ 52).
  { rewrite <- Z.mul_assoc, <- Z.pow_add_r by (unfold expo; lia). unfold expo.
    replace (52 - Z.log2 k + (Z.log2 k - 52 - -52)) with 52 by lia. ring. }
  rewrite Hd. destruct (decide (k = 1)) as [->|Hk1]; [done|].
  destruct (mant_normal (k - 1) ltac:(lia)) as (HN & HM' & Hl').
  rewrite f64_of_exact by lia. destruct ((k - 1) * 2 ^ 52) as [|p|p] eqn:Dp; [lia| |lia].
  unfold binary_normalize.
  apply (binary_round_shr false p _ _ _ (Z.log2 (k - 1))); [done|lia| |unfold expo; lia].
  rewrite HM', <- Dp, <- Z.mul_assoc, <- Z.pow_add_r by lia. do 2 f_equal. lia.
Qed.

Lemma f64_one_le (k : Z) : 1 <= k < 2 ^ 53 -> f64_leb f64_one (f64_of k) = true.
Proof.
  intros Hk. destruct (decide (k = 1)) as [->|]; [done|].
  rewrite f64_of_exact, f64_one_exact by done. unfold f64_leb, SFleb, SFcompare.
  assert (1 <= Z.log2 k) by (apply Z.log2_le_pow2; lia).
  rewrite (proj2 (Z.compare_lt_iff _ _)); [done|]. unfold expo. lia.
Qed.

Lemma f64_of_ltb (a b : Z) : 0 <= a < b -> b < 2 ^ 53 -> f64_ltb (f64_of a) (f64_of b) = true.
Proof.
  intros Ha Hb. rewrite (f64_of_exact b) by lia.
  destruct (decide (a = 0)) as [->|Ha0]; [done|]. rewrite f64_of_exact by lia.
  unfold f64_ltb, SFltb, SFcompare.
  assert (Hle : expo a <= expo b).
  { unfold expo. pose proof (Z.log2_le_mono a b). lia. }
  destruct (decide (expo a = expo b)) as [He|He].
  - rewrite He, Z.compare_refl.
    change (PosDef.Pos.compare_cont Eq (mant a) (mant b)) with (Pos.compare (mant a) (mant b)).
    rewrite (proj2 (Pos.compare_lt_iff _ _)); [done|].
    destruct (mant_normal a ltac:(lia)) as (_ & HA & _).
    destruct (mant_normal b ltac:(lia)) as (_ & HB & Hl).
    unfold expo in He. replace (Z.log2 a) with (Z.log2 b) in HA by lia.
    pose proof (Z.pow_pos_nonneg 2 (52 - Z.log2 b)).
    assert (Zpos (mant a) < Zpos (mant b)); [nia|lia].
  - by rewrite (proj2 (Z.compare_lt_iff _ _)) by lia.
Qed.

Lemma f64_one_zero : f64_leb f64_one (f64_of 0) = false.
Proof. reflexivity. Qed.
