(* ===== verification/RateLimit.v ===== *)
(** * Admission control (crates/relay/src/ratelimit.rs)

    The per-source token bucket ([RateLimiter]) and the concurrent-connection
    cap ([ConnLimiter]). *)
From stdpp Require Import gmultiset.
From S2P Require Import Prelude Frames F64.
Local Open Scope Z_scope.

(** [limiter_key]: IPv4 whole, IPv6 masked to its /64. *)
Definition limiter_key (ip : IpAddr) : IpAddr :=
  match ip with
  | V4 _ => ip
  | V6 octets => V6 (imap (fun i b => if decide (8 <= i)%nat then Byte.x00 else b) octets)
  end.

(** ** Token bucket *)
Record Bucket := mkBucket { tokens : f64; last : Z }.
Record RateLimiter := mkRateLimiter {
  rate : f64;
  burst : f64;
  buckets : gmap IpAddr Bucket;
  max_entries : Z;
}.

Definition RateLimiter_new (rate_per_sec burst : Z) : RateLimiter :=
  mkRateLimiter (f64_of rate_per_sec) (f64_of burst) ∅ 65536.

(** [b.tokens + elapsed * rate], before the cap. *)
Definition refilled (rl : RateLimiter) (now : Z) (b : Bucket) : f64 :=
  f64_add (tokens b)
    (f64_mul (as_secs_f64 (saturating_duration_since now (last b))) (rate rl)).

(** The [retain] predicate: keep a bucket that is not yet full. *)
Definition not_idle (rl : RateLimiter) (now : Z) (kv : IpAddr * Bucket) : Prop :=
  f64_ltb (refilled rl now kv.2) (burst rl) = true.
#[export] Instance not_idle_dec rl now kv : Decision (not_idle rl now kv).
Proof. unfold not_idle. apply _. Defined.

Definition retain_busy (rl : RateLimiter) (now : Z) : gmap IpAddr Bucket :=
  filter (not_idle rl now) (buckets rl).

Definition check_at (ip : IpAddr) (now : Z) (rl : RateLimiter) : bool * RateLimiter :=
  let map := if decide (max_entries rl <= Z.of_nat (size (buckets rl)))
             then retain_busy rl now else buckets rl in
  let bucket := default (mkBucket (burst rl) now) (map !! ip) in
  let t := f64_min (refilled rl now bucket) (burst rl) in
  if f64_leb f64_one t
  then (true, mkRateLimiter (rate rl) (burst rl)
                (<[ip := mkBucket (f64_sub t f64_one) now]> map) (max_entries rl))
  else (false, mkRateLimiter (rate rl) (burst rl)
                (<[ip := mkBucket t now]> map) (max_entries rl)).

Definition check (ip : IpAddr) (now : Z) (rl : RateLimiter) : bool * RateLimiter :=
  check_at (limiter_key ip) now rl.

Definition sweep (now : Z) (rl : RateLimiter) : RateLimiter :=
  mkRateLimiter (rate rl) (burst rl) (retain_busy rl now) (max_entries rl).

(** ** Connection cap *)
Record ConnLimiter := mkConnLimiter {
  available : Z;                  (* permits left in the global semaphore *)
  per_key : gmap IpAddr Z;
  per_key_max : Z;
}.
(** [Semaphore::MAX_PERMITS] on a 64-bit target: [usize::MAX >> 3]. *)
Definition MAX_PERMITS : Z := 2 ^ 61 - 1.
Definition clamp_global (global_max : Z) : Z := Z.max 1 (Z.min global_max MAX_PERMITS).
Definition ConnLimiter_new (global_max per_key_max : Z) : ConnLimiter :=
  mkConnLimiter (clamp_global global_max) ∅ (Z.max per_key_max 1).

(** [try_admit] in its two critical sections: the semaphore, then the per-key
    count under the mutex. *)
Definition acquire_global (cl : ConnLimiter) : option ConnLimiter :=
  if decide (0 < available cl)
  then Some (mkConnLimiter (available cl - 1) (per_key cl) (per_key_max cl))
  else None.
Definition release_global (cl : ConnLimiter) : ConnLimiter :=
  mkConnLimiter (available cl + 1) (per_key cl) (per_key_max cl).
Definition admit_key (key : IpAddr) (cl : ConnLimiter) : bool * ConnLimiter :=
  let count := default 0 (per_key cl !! key) in
  if decide (per_key_max cl <= count)
  then (false, mkConnLimiter (available cl) (<[key := count]> (per_key cl)) (per_key_max cl))
  else (true, mkConnLimiter (available cl) (<[key := count + 1]> (per_key cl)) (per_key_max cl)).

(** A permit is the key it was admitted under. *)
Definition try_admit (ip : IpAddr) (cl : ConnLimiter) : option IpAddr * ConnLimiter :=
  match acquire_global cl with
  | None => (None, cl)
  | Some cl1 =>
      let key := limiter_key ip in
      match admit_key key cl1 with
      | (true, cl2) => (Some key, cl2)
      | (false, cl2) => (None, release_global cl2)
      end
  end.

(** [Drop for ConnPermit]: the body, then the semaphore permit field. *)
Definition drop_key (key : IpAddr) (cl : ConnLimiter) : ConnLimiter :=
  match per_key cl !! key with
  | None => cl
  | Some count =>
      let count' := count - 1 in
      mkConnLimiter (available cl)
        (if decide (count' = 0) then delete key (per_key cl)
         else <[key := count']> (per_key cl))
        (per_key_max cl)
  end.
Definition drop_permit (key : IpAddr) (cl : ConnLimiter) : ConnLimiter :=
  release_global (drop_key key cl).

(** ** Interleavings

    The relay runs many admissions and drops at once.  A system state is the
    limiter with, for each task, where it is: [pending] tasks hold a global
    permit and have not yet taken the mutex, [live] ones hold a [ConnPermit],
    and [releasing] ones still have to return their global permit. *)
Record Sys := mkSys {
  lim : ConnLimiter;
  pending : gmultiset IpAddr;
  live : gmultiset IpAddr;
  releasing : nat;
}.

Inductive cl_step : Sys -> Sys -> Prop :=
  | step_acquire s ip cl' :
      acquire_global (lim s) = Some cl' ->
      cl_step s (mkSys cl' ({[+ limiter_key ip +]} ⊎ pending s) (live s) (releasing s))
  | step_admit s k cl' :
      k ∈ pending s -> admit_key k (lim s) = (true, cl') ->
      cl_step s (mkSys cl' (pending s ∖ {[+ k +]}) ({[+ k +]} ⊎ live s) (releasing s))
  | step_reject s k cl' :
      k ∈ pending s -> admit_key k (lim s) = (false, cl') ->
      cl_step s (mkSys cl' (pending s ∖ {[+ k +]}) (live s) (S (releasing s)))
  | step_drop s k :
      k ∈ live s ->
      cl_step s (mkSys (drop_key k (lim s)) (pending s) (live s ∖ {[+ k +]})
                       (S (releasing s)))
  | step_release s n :
      releasing s = S n ->
      cl_step s (mkSys (release_global (lim s)) (pending s) (live s) n).

Definition Sys_new (global_max per_key_max : Z) : Sys :=
  mkSys (ConnLimiter_new global_max per_key_max) ∅ ∅ 0.

(** The counting invariant. *)
Record cl_inv (global_max : Z) (s : Sys) : Prop := {
  inv_global : available (lim s) + Z.of_nat (size (pending s)) + Z.of_nat (size (live s))
               + Z.of_nat (releasing s) = global_max;
  inv_avail : 0 <= available (lim s);
  inv_max : 1 <= per_key_max (lim s);
  inv_keys : forall k, per_key (lim s) !! k =
    if decide (multiplicity k (live s) = 0%nat) then None
    else Some (Z.of_nat (multiplicity k (live s)));
  inv_bound : forall k, Z.of_nat (multiplicity k (live s)) <= per_key_max (lim s);
}.

(** ** Rate limiter: lemmas *)
Section bucket.
Context (rl : RateLimiter) (now : Z).
Context (Hrate : f64_nonneg_finite (rate rl) = true).

Lemma refilled_now (t : f64) :
  f64_nonneg_finite t = true -> refilled rl now (mkBucket t now) = t.
Proof using Hrate.
  intros Ht. unfold refilled. cbn [tokens last].
  unfold saturating_duration_since. rewrite Z.sub_diag, Z.max_id, as_secs_f64_zero.
  by rewrite f64_mul_zero_l, f64_add_zero_r.
Qed.

Lemma retain_busy_lookup (ip : IpAddr) (b : Bucket) :
  retain_busy rl now !! ip = Some b <->
  buckets rl !! ip = Some b /\ not_idle rl now (ip, b).
Proof using. unfold retain_busy. apply map_lookup_filter_Some. Qed.

(** What [check_at] refills the bucket of [ip] to does not depend on whether
    the idle buckets were dropped first. *)
Lemma retain_same_refill (ip : IpAddr) :
  f64_nonneg_finite (burst rl) = true ->
  let fill (m : gmap IpAddr Bucket) :=
    f64_min (refilled rl now (default (mkBucket (burst rl) now) (m !! ip))) (burst rl) in
  fill (retain_busy rl now) = fill (buckets rl).
Proof using Hrate.
  intros Hb. cbv zeta beta. destruct (buckets rl !! ip) as [b|] eqn:E.
  - destruct (decide (not_idle rl now (ip, b))) as [Hn|Hn].
    + assert (retain_busy rl now !! ip = Some b) as -> by by apply retain_busy_lookup.
      done.
    + assert (retain_busy rl now !! ip = None) as ->.
      { unfold retain_busy. apply map_lookup_filter_None. right. naive_solver. }
      cbn [from_option id]. rewrite refilled_now by done. rewrite f64_min_self. symmetry.
      apply f64_min_ge; [by apply nonneg_not_nan|].
      unfold not_idle in Hn. cbn [snd] in Hn. by apply not_true_is_false.
  - assert (retain_busy rl now !! ip = None) as ->; [|done].
    unfold retain_busy. apply map_lookup_filter_None. by left.
Qed.
End bucket.

(** The verdict and the new bucket of a check, on every branch. *)
Definition fill_at (ip : IpAddr) (now : Z) (rl : RateLimiter) : f64 :=
  f64_min (refilled rl now (default (mkBucket (burst rl) now) (buckets rl !! ip))) (burst rl).
Definition spend (t : f64) : f64 := if f64_leb f64_one t then f64_sub t f64_one else t.

Lemma check_at_result (ip : IpAddr) (now : Z) (rl : RateLimiter) :
  f64_nonneg_finite (rate rl) = true -> f64_nonneg_finite (burst rl) = true ->
  (check_at ip now rl).1 = f64_leb f64_one (fill_at ip now rl) /\
  rate (check_at ip now rl).2 = rate rl /\ burst (check_at ip now rl).2 = burst rl /\
  buckets (check_at ip now rl).2 !! ip = Some (mkBucket (spend (fill_at ip now rl)) now).
Proof.
  intros Hr Hb. unfold check_at, spend. cbn zeta.
  assert (Hf : f64_min (refilled rl now (default (mkBucket (burst rl) now)
      ((if decide (max_entries rl <= Z.of_nat (size (buckets rl)))
        then retain_busy rl now else buckets rl) !! ip))) (burst rl) = fill_at ip now rl).
  { case_decide; [by apply retain_same_refill|done]. }
  rewrite Hf. destruct (f64_leb f64_one (fill_at ip now rl)); cbn;
    by rewrite lookup_insert_eq.
Qed.

Lemma check_at_other (ip k : IpAddr) (now : Z) (rl : RateLimiter) (b : Bucket) :
  k <> ip ->
  (buckets (check_at ip now rl).2 !! k = Some b -> buckets rl !! k = Some b) /\
  (buckets rl !! k = Some b -> not_idle rl now (k, b) ->
   buckets (check_at ip now rl).2 !! k = Some b).
Proof.
  intros Hk. unfold check_at. cbn zeta.
  destruct (f64_leb _ _); cbn; rewrite lookup_insert_ne by done;
    case_decide; rewrite ?retain_busy_lookup; naive_solver.
Qed.

(** ** Rate limiter: properties *)

(** A run of checks, all of them at the instant [now]. *)
Fixpoint check_all (ips : list IpAddr) (now : Z) (rl : RateLimiter) : list bool * RateLimiter :=
  match ips with
  | [] => ([], rl)
  | ip :: rest =>
      let (v, rl1) := check ip now rl in
      let (vs, rl2) := check_all rest now rl1 in (v :: vs, rl2)
  end.
(** The verdicts a per-source quota of [b] gives, [seen] being the attempts so
    far. *)
Fixpoint quota (b : nat) (seen ips : list IpAddr) : list bool :=
  match ips with
  | [] => []
  | ip :: rest =>
      let k := limiter_key ip in
      bool_decide (length (filter (eq k) seen) < b)%nat :: quota b (k :: seen) rest
  end.

(** After [seen] attempts at one instant a source has spent that many tokens. *)
Definition spent (b : nat) (seen : list IpAddr) (now : Z) (rl : RateLimiter) : Prop :=
  forall k, let c := length (filter (eq k) seen) in
    buckets rl !! k = Some (mkBucket (f64_of (Z.of_nat (b - c))) now) /\ (0 < c)%nat
    \/ buckets rl !! k = None /\ (c = 0 \/ b = 0)%nat.

Lemma fill_spent (b : nat) (seen : list IpAddr) (now : Z) (rl : RateLimiter) (k : IpAddr) :
  f64_nonneg_finite (rate rl) = true -> burst rl = f64_of (Z.of_nat b) ->
  Z.of_nat b < 2 ^ 53 -> spent b seen now rl ->
  fill_at k now rl = f64_of (Z.of_nat (b - length (filter (eq k) seen))).
Proof.
  intros Hr Hb Hlt Hs. unfold fill_at.
  pose proof (f64_of_nonneg_finite (Z.of_nat (b - length (filter (eq k) seen)))) as Hc.
  pose proof (f64_of_nonneg_finite (Z.of_nat b)) as Hbf.
  destruct (Hs k) as [[-> Hp]|[-> Hz]]; cbn [from_option id]; rewrite refilled_now by (rewrite ?Hb; auto with lia).
  - rewrite Hb. destruct (decide (b = 0%nat)) as [->|]; [done|].
    unfold f64_min. rewrite !nonneg_not_nan by auto with lia.
    by rewrite f64_of_ltb by lia.
  - rewrite f64_min_self, Hb. do 2 f_equal. lia.
Qed.

Lemma spend_tokens (n : nat) :
  Z.of_nat n < 2 ^ 53 ->
  f64_leb f64_one (f64_of (Z.of_nat n)) = bool_decide (0 < n)%nat /\
  spend (f64_of (Z.of_nat n)) = f64_of (Z.of_nat (n - 1)).
Proof.
  intros Hn. unfold spend. destruct n as [|n]; [done|].
  rewrite f64_one_le by lia. rewrite f64_sub_one by lia.
  rewrite bool_decide_true by lia. split; [done|]. f_equal. lia.
Qed.

Lemma check_spent (b : nat) (seen : list IpAddr) (now : Z) (rl : RateLimiter) (ip : IpAddr) :
  f64_nonneg_finite (rate rl) = true -> burst rl = f64_of (Z.of_nat b) ->
  Z.of_nat b < 2 ^ 53 -> spent b seen now rl ->
  (check ip now rl).1
    = bool_decide (length (filter (eq (limiter_key ip)) seen) < b)%nat /\
  rate (check ip now rl).2 = rate rl /\ burst (check ip now rl).2 = burst rl /\
  spent b (limiter_key ip :: seen) now (check ip now rl).2.
Proof.
  intros Hr Hb Hlt Hs. unfold check. set (k := limiter_key ip).
  pose proof (f64_of_nonneg_finite (Z.of_nat b)) as Hbf.
  destruct (check_at_result k now rl Hr) as (Hv & Hr' & Hb' & Hk); [rewrite Hb; auto with lia|].
  rewrite (fill_spent b seen) in Hv, Hk by done.
  destruct (spend_tokens (b - length (filter (eq k) seen))) as [E1 E2]; [lia|].
  rewrite E1 in Hv. rewrite E2 in Hk. rewrite Hv. split_and!; [|done|done|].
  { apply bool_decide_ext. lia. }
  intros k'. cbn zeta. rewrite filter_cons. destruct (decide (k' = k)) as [->|Hne].
  - left. cbn [length]. split; [|lia]. rewrite Hk. do 3 f_equal. lia.
  - destruct (check_at_other k k' now rl (mkBucket (f64_of (Z.of_nat (b - length (filter (eq k') seen)))) now) Hne) as [_ Hkeep].
    destruct (Hs k') as [[Hl Hp]|[Hl Hz]].
    + destruct (decide (b = 0%nat)) as [->|Hb0].
      * destruct (buckets (check_at k now rl).2 !! k') as [b'|] eqn:E; [|right; auto].
        apply check_at_other in E; [|done]. left. split; [|done]. congruence.
      * left. split; [|done]. apply Hkeep; [done|]. unfold not_idle. cbn [snd].
        rewrite refilled_now by (done || apply f64_of_nonneg_finite; lia).
        rewrite Hb. apply f64_of_ltb; lia.
    + right. split; [|done]. apply eq_None_not_Some. intros [b' E].
      apply check_at_other in E; [|done]. congruence.
Qed.

Lemma check_all_quota (b : nat) (ips : list IpAddr) (now : Z) :
  Z.of_nat b < 2 ^ 53 -> forall (seen : list IpAddr) (rl : RateLimiter),
  f64_nonneg_finite (rate rl) = true -> burst rl = f64_of (Z.of_nat b) ->
  spent b seen now rl -> (check_all ips now rl).1 = quota b seen ips.
Proof.
  intros Hlt. induction ips as [|ip ips IH]; intros seen rl Hr Hb Hs; [done|].
  cbn [check_all quota]. destruct (check_spent b seen now rl ip) as (Hv & Hr' & Hb' & Hs'); [done..|].
  destruct (check ip now rl) as [v rl1]. cbn [fst snd] in *.
  specialize (IH (limiter_key ip :: seen) rl1 ltac:(congruence) ltac:(congruence) Hs').
  destruct (check_all ips now rl1) as [vs rl2]. cbn [fst] in *. by rewrite Hv, IH.
Qed.

(** At any one instant a new limiter admits, whatever the order and mix of
    sources, exactly the first [burst] attempts of each source and refuses all
    later ones of that source: floating-point rounding, the sweep triggered by a
    full map and the other sources never add or lose an admission. *)
Theorem burst_exact (rate_per_sec b : nat) (ips : list IpAddr) (now : Z) :
  Z.of_nat rate_per_sec < 2 ^ 32 -> Z.of_nat b < 2 ^ 32 ->
  (check_all ips now (RateLimiter_new (Z.of_nat rate_per_sec) (Z.of_nat b))).1
  = quota b [] ips.
Proof.
  intros Hr Hb. apply check_all_quota; [lia|apply f64_of_nonneg_finite; lia|done|].
  intros k. right. split; [done|by left].
Qed.

Definition ip_a : IpAddr := V4 [Byte.x0a; Byte.x00; Byte.x00; Byte.x01].
Definition ip_b : IpAddr := V4 [Byte.x0a; Byte.x00; Byte.x00; Byte.x02].
Definition v6_net (tail : list byte) : IpAddr :=
  V6 ([Byte.x20; Byte.x01; Byte.x0d; Byte.xb8; Byte.x00; Byte.x00; Byte.x00; Byte.x07] ++ tail).

Lemma burst_exact_witness :
  (check_all [ip_a; ip_b; ip_a; ip_a; ip_b] 7
     (RateLimiter_new (Z.of_nat 10) (Z.of_nat 2))).1
  = quota 2 [] [ip_a; ip_b; ip_a; ip_a; ip_b]
  /\ quota 2 [] [ip_a; ip_b; ip_a; ip_a; ip_b] = [true; true; true; false; true].
Proof. split; [apply (burst_exact 10 2); lia|vm_compute; reflexivity]. Defined.

(** Reclaiming memory is invisible to the clients: a check made right after
    [sweep] (or after the sweep a full map triggers inside the check) gives the
    same verdict and leaves the source the same bucket as without it. *)
Theorem sweep_transparent (rl : RateLimiter) (ip : IpAddr) (now : Z) :
  f64_nonneg_finite (rate rl) = true -> f64_nonneg_finite (burst rl) = true ->
  (check ip now (sweep now rl)).1 = (check ip now rl).1 /\
  buckets (check ip now (sweep now rl)).2 !! limiter_key ip
  = buckets (check ip now rl).2 !! limiter_key ip.
Proof.
  intros Hr Hb. unfold check. set (k := limiter_key ip).
  destruct (check_at_result k now rl Hr Hb) as (-> & _ & _ & ->).
  destruct (check_at_result k now (sweep now rl) Hr Hb) as (-> & _ & _ & ->).
  assert (fill_at k now (sweep now rl) = fill_at k now rl) as ->; [|done].
  apply (retain_same_refill rl now Hr k Hb).
Qed.

(** A limiter whose source [ip_a] has fully refilled and [ip_b] has not. *)
Definition demo_rl : RateLimiter :=
  mkRateLimiter (f64_of 10) (f64_of 5)
    (<[ip_a := mkBucket (f64_of 0) 0]> (<[ip_b := mkBucket (f64_of 0) 900000000]> ∅)) 65536.

Lemma sweep_transparent_witness :
  (check ip_a 1000000000 (sweep 1000000000 demo_rl)).1 = true
  /\ buckets (sweep 1000000000 demo_rl) !! ip_a = None.
Proof.
  split; [|vm_compute; reflexivity].
  rewrite (proj1 (sweep_transparent demo_rl ip_a 1000000000 eq_refl eq_refl)).
  vm_compute. reflexivity.
Defined.

(** The key a source is limited under: an IPv4 address is its own key, two
    IPv6 addresses share one exactly when their /64 prefixes agree, and
    collapsing twice changes nothing. *)
Theorem limiter_key_prefix (a b : list byte) :
  length a = 16%nat -> length b = 16%nat ->
  (limiter_key (V6 a) = limiter_key (V6 b) <-> take 8 a = take 8 b) /\
  limiter_key (limiter_key (V6 a)) = limiter_key (V6 a) /\
  (forall v4, limiter_key (V4 v4) = V4 v4 /\ V4 v4 <> limiter_key (V6 a)).
Proof.
  intros Ha Hb. split_and!.
  - do 17 (destruct a as [|? a]; try (simpl in Ha; lia)).
    do 17 (destruct b as [|? b]; try (simpl in Hb; lia)). vm_compute. naive_solver.
  - do 17 (destruct a as [|? a]; try (simpl in Ha; lia)). reflexivity.
  - done.
Qed.

Lemma limiter_key_prefix_witness :
  limiter_key (v6_net (replicate 8 Byte.x11)) = limiter_key (v6_net (replicate 8 Byte.x99)).
Proof. apply limiter_key_prefix; reflexivity. Defined.

(** The bucket map after a check: it grows by at most one entry, and when the
    map was at its limit by at most one beyond the buckets that are not idle. *)
Theorem map_growth (rl : RateLimiter) (ip : IpAddr) (now : Z) :
  let n' := Z.of_nat (size (buckets (check ip now rl).2)) in
  n' <= Z.of_nat (size (buckets rl)) + 1 /\
  n' <= Z.max (max_entries rl) (Z.of_nat (size (retain_busy rl now)) + 1).
Proof.
  unfold check, check_at. cbn zeta.
  assert (Hsub : (size (retain_busy rl now) <= size (buckets rl))%nat)
    by (apply map_subseteq_size, map_filter_subseteq).
  assert (Hins : forall (m : gmap IpAddr Bucket) b,
    (size (<[limiter_key ip := b]> m) <= S (size m))%nat).
  { intros m b. rewrite map_size_insert. destruct (m !! limiter_key ip); unfold id; lia. }
  case_decide; destruct (f64_leb _ _); cbn [snd buckets];
    match goal with |- context [size (<[_ := ?b]> ?m)] => specialize (Hins m b) end; lia.
Qed.

(** The limit on the bucket map is soft: with every bucket still busy, a check
    from a new source grows the map past [max_entries]. *)
Theorem map_cap_soft (rl : RateLimiter) (ip : IpAddr) (now : Z) :
  buckets rl !! limiter_key ip = None -> retain_busy rl now = buckets rl ->
  size (buckets (check ip now rl).2) = S (size (buckets rl)).
Proof.
  intros Hnew Hbusy. unfold check, check_at. cbn zeta. rewrite Hbusy.
  destruct (decide (max_entries rl <= _)); destruct (f64_leb _ _); cbn [snd buckets];
    by rewrite map_size_insert_None.
Qed.

Definition full_rl : RateLimiter :=
  mkRateLimiter (f64_of 10) (f64_of 5) (<[ip_a := mkBucket (f64_of 4) 0]> ∅) 1.
Lemma map_cap_soft_witness :
  max_entries full_rl = 1 /\ size (buckets (check ip_b 0 full_rl).2) = 2%nat.
Proof.
  split; [reflexivity|].
  etransitivity; [apply (map_cap_soft full_rl ip_b 0)|].
  - vm_compute. reflexivity.
  - apply map_filter_id. intros k x Hx. change (buckets full_rl) with ({[ip_a := mkBucket (f64_of 4) 0]} : gmap IpAddr Bucket) in Hx.
    apply lookup_singleton_Some in Hx as [<- <-]. vm_compute. reflexivity.
  - vm_compute. reflexivity.
Defined.

(** ** Connection limiter: properties *)
Lemma inv_count (g : Z) (s : Sys) (k : IpAddr) :
  cl_inv g s -> default 0 (per_key (lim s) !! k) = Z.of_nat (multiplicity k (live s)).
Proof. intros Hi. rewrite (inv_keys g s Hi k). case_decide; cbn; lia. Qed.

Lemma size_remove (k : IpAddr) (X : gmultiset IpAddr) :
  k ∈ X -> size X = S (size (X ∖ {[+ k +]})).
Proof.
  intros Hk. rewrite (gmultiset_disj_union_difference' k X) at 1 by done.
  by rewrite gmultiset_size_disj_union, gmultiset_size_singleton.
Qed.
Lemma mult_add (k k' : IpAddr) (X : gmultiset IpAddr) :
  multiplicity k' ({[+ k +]} ⊎ X)
  = ((if decide (k' = k) then 1 else 0) + multiplicity k' X)%nat.
Proof. rewrite multiplicity_disj_union, multiplicity_singleton. done. Qed.
Lemma mult_remove (k k' : IpAddr) (X : gmultiset IpAddr) :
  multiplicity k' (X ∖ {[+ k +]})
  = (multiplicity k' X - if decide (k' = k) then 1 else 0)%nat.
Proof. rewrite multiplicity_difference, multiplicity_singleton. done. Qed.

Lemma admit_inv (g : Z) (s : Sys) (k : IpAddr) (cl' : ConnLimiter) :
  cl_inv g s -> k ∈ pending s -> admit_key k (lim s) = (true, cl') ->
  cl_inv g (mkSys cl' (pending s ∖ {[+ k +]}) ({[+ k +]} ⊎ live s) (releasing s)).
Proof.
  intros Hi Hk Ha. unfold admit_key in Ha. rewrite (inv_count g s k Hi) in Ha.
  destruct (decide (per_key_max (lim s) <= _)) as [|Hlt]; simplify_eq.
  pose proof (size_remove k (pending s) Hk). destruct Hi as [H1 H2 H3 H4 H5].
  split; cbn [lim pending live releasing available per_key per_key_max].
  - rewrite gmultiset_size_disj_union, gmultiset_size_singleton. lia.
  - done.
  - done.
  - intros k'. rewrite mult_add. destruct (decide (k' = k)) as [->|].
    + rewrite lookup_insert_eq. case_decide; [lia|]. f_equal. lia.
    + by rewrite lookup_insert_ne, H4.
  - intros k'. rewrite mult_add. specialize (H5 k'). case_decide; subst; lia.
Qed.

Lemma reject_inv (g : Z) (s : Sys) (k : IpAddr) (cl' : ConnLimiter) :
  cl_inv g s -> k ∈ pending s -> admit_key k (lim s) = (false, cl') ->
  cl' = lim s /\ cl_inv g (mkSys cl' (pending s ∖ {[+ k +]}) (live s) (S (releasing s))).
Proof.
  intros Hi Hk Ha. unfold admit_key in Ha. rewrite (inv_count g s k Hi) in Ha.
  destruct (decide (per_key_max (lim s) <= _)) as [Hge|]; simplify_eq.
  pose proof (size_remove k (pending s) Hk). destruct Hi as [H1 H2 H3 H4 H5].
  assert (Hsame : <[k := Z.of_nat (multiplicity k (live s))]> (per_key (lim s)) = per_key (lim s)).
  { apply insert_id. rewrite H4. case_decide; [lia|done]. }
  rewrite Hsame. split; [by destruct (lim s)|]. split; cbn; try done. lia.
Qed.

Lemma drop_inv (g : Z) (s : Sys) (k : IpAddr) :
  cl_inv g s -> k ∈ live s ->
  cl_inv g (mkSys (drop_key k (lim s)) (pending s) (live s ∖ {[+ k +]}) (S (releasing s))).
Proof.
  intros Hi Hk. pose proof (size_remove k (live s) Hk).
  assert (Hm : (0 < multiplicity k (live s))%nat) by (by apply elem_of_multiplicity).
  destruct Hi as [H1 H2 H3 H4 H5]. unfold drop_key. rewrite H4.
  destruct (decide (multiplicity k (live s) = 0%nat)) as [|Hnz]; [lia|].
  split; cbn [lim pending live releasing available per_key per_key_max]; [lia|done|done| |].
  - intros k'. rewrite mult_remove. destruct (decide (k' = k)) as [->|Hne].
    + repeat case_decide; try lia; [by rewrite lookup_delete_eq|].
      rewrite lookup_insert_eq. f_equal. lia.
    + rewrite Nat.sub_0_r, <- H4. case_decide; [by rewrite lookup_delete_ne|].
      by rewrite lookup_insert_ne.
  - intros k'. rewrite mult_remove. specialize (H5 k'). case_decide; lia.
Qed.

Lemma cl_step_inv (g : Z) (s s' : Sys) : cl_inv g s -> cl_step s s' -> cl_inv g s'.
Proof.
  intros Hi Hst. destruct Hst as [s ip cl' Ha|s k cl' Hk Ha|s k cl' Hk Ha|s k Hk|s n Hn].
  - unfold acquire_global in Ha. destruct (decide (0 < _)); simplify_eq.
    destruct Hi as [H1 H2 H3 H4 H5].
    split; cbn [lim pending live releasing available per_key per_key_max]; try done; [|lia].
    rewrite gmultiset_size_disj_union, gmultiset_size_singleton. lia.
  - by apply admit_inv.
  - by eapply reject_inv.
  - by apply drop_inv.
  - destruct Hi as [H1 H2 H3 H4 H5]. split; cbn; try done; lia.
Qed.

Lemma Sys_new_inv (g m : Z) : cl_inv (clamp_global g) (Sys_new g m).
Proof.
  split; cbn [Sys_new lim pending live releasing ConnLimiter_new available per_key per_key_max].
  - rewrite gmultiset_size_empty. lia.
  - unfold clamp_global. lia.
  - lia.
  - intros k. by rewrite multiplicity_empty.
  - intros k. rewrite multiplicity_empty. lia.
Qed.

(** Under every interleaving of admissions, refusals and drops, the live
    connections never exceed the process-wide ceiling nor, for any source key,
    the per-key ceiling; the per-key map records exactly the live connections,
    and no permit is lost: the free permits and those held add up to the
    ceiling. *)
Theorem conn_limits_hold (g m : Z) (s : Sys) :
  rtc cl_step (Sys_new g m) s ->
  Z.of_nat (size (live s)) <= clamp_global g /\
  (forall k, Z.of_nat (multiplicity k (live s)) <= Z.max m 1) /\
  (forall k, default 0 (per_key (lim s) !! k) = Z.of_nat (multiplicity k (live s))) /\
  available (lim s) + Z.of_nat (size (pending s)) + Z.of_nat (size (live s))
    + Z.of_nat (releasing s) = clamp_global g.
Proof.
  intros Hr.
  assert (Hi : cl_inv (clamp_global g) s /\ per_key_max (lim s) = Z.max m 1).
  { remember (Sys_new g m) as s0 eqn:E0.
    assert (H0 : cl_inv (clamp_global g) s0 /\ per_key_max (lim s0) = Z.max m 1)
      by (subst; split; [apply Sys_new_inv|done]).
    clear E0. induction Hr as [|x y z Hst _ IH]; [done|]. apply IH. destruct H0 as [H0 Hmax].
    split; [by eapply cl_step_inv|]. rewrite <- Hmax. clear IH.
    destruct Hst as [? ? ? Ha|? ? ? ? Ha|? ? ? ? Ha| |]; cbn [lim]; try done;
      unfold acquire_global, admit_key, drop_key in *; repeat case_match; by simplify_eq. }
  destruct Hi as [Hi Hmax]. pose proof (fun k => inv_count _ _ k Hi) as Hc. destruct Hi as [H1 H2 H3 H4 H5].
  split_and!; [lia| |done|done]. intros k. rewrite <- Hmax. apply H5.
Qed.

Lemma conn_limits_hold_witness :
  let s1 := mkSys (mkConnLimiter 0 ∅ 1) ({[+ limiter_key ip_a +]} ⊎ ∅) ∅ 0 in
  rtc cl_step (Sys_new 1 0) s1 /\ Z.of_nat (size (live s1)) <= 1.
Proof.
  intros s1.
  assert (H : rtc cl_step (Sys_new 1 0) s1).
  { apply rtc_once. apply (step_acquire (Sys_new 1 0) ip_a (mkConnLimiter 0 ∅ 1)). reflexivity. }
  split; [exact H|]. exact (proj1 (conn_limits_hold 1 0 s1 H)).
Defined.

(** The limiter as it is between calls: only sources with a live connection
    have an entry. *)
Definition cl_ok (cl : ConnLimiter) : Prop :=
  1 <= per_key_max cl /\ forall k n, per_key cl !! k = Some n -> 1 <= n.

(** An admission succeeds exactly when a global permit is free and the source
    is below its ceiling; a refusal leaves the limiter as it was, and dropping
    the permit of an admission restores the limiter exactly, for any source. *)
Theorem try_admit_exact (cl : ConnLimiter) (ip : IpAddr) :
  cl_ok cl ->
  (is_Some (try_admit ip cl).1 <->
     0 < available cl /\ default 0 (per_key cl !! limiter_key ip) < per_key_max cl) /\
  match try_admit ip cl with
  | (None, cl') => cl' = cl
  | (Some k, cl') => k = limiter_key ip /\ drop_permit k cl' = cl
  end.
Proof.
  intros [Hmax Hpos]. unfold try_admit, acquire_global, admit_key. set (k := limiter_key ip).
  destruct (decide (0 < available cl)) as [Hav|Hav]; cbn [per_key per_key_max available];
    [|split; [split; [by intros []|lia]|done]].
  destruct (decide (per_key_max cl <= default 0 (per_key cl !! k))) as [Hge|Hlt].
  - split; [split; [by intros []|lia]|].
    rewrite insert_id by (destruct (per_key cl !! k) eqn:E; cbn in *; [done|lia]).
    unfold release_global. destruct cl; cbn. f_equal. lia.
  - split; [split; [lia|done]|]. split; [done|].
    unfold drop_permit, drop_key. cbn [per_key]. rewrite lookup_insert_eq.
    unfold release_global. destruct cl as [a m x]; cbn in *. f_equal; [lia|].
    destruct (m !! k) as [n|] eqn:E; cbn.
    + specialize (Hpos k n E). case_decide; [lia|]. rewrite insert_insert_eq.
      apply insert_id. rewrite E. f_equal. lia.
    + rewrite decide_True by lia. by apply delete_insert_id.
Qed.

Lemma try_admit_exact_witness :
  is_Some (try_admit ip_a (ConnLimiter_new 5 2)).1 /\
  drop_permit ip_a (try_admit ip_a (ConnLimiter_new 5 2)).2 = ConnLimiter_new 5 2.
Proof.
  assert (Hok : cl_ok (ConnLimiter_new 5 2)) by (split; [done|intros k n; done]).
  destruct (try_admit_exact (ConnLimiter_new 5 2) ip_a Hok) as [H1 H2].
  split; [apply H1; split; reflexivity|exact (proj2 H2)].
Defined.
