(* ===== verification/Auth.v ===== *)
(** * Authentication and ownership (crates/relay/src/auth.rs)

    The [Authenticator] trait as an operational class over the store it
    mutates, the laws a session relies on ([AuthenticatorLaws]), and the
    in-memory implementation [MemoryAuth] with the proof that it meets them. *)
From S2P Require Import Prelude.
Local Open Scope Z_scope.

Record AuthedUser := mkAuthedUser { user_id : Z; name : string }.
#[export] Instance AuthedUser_eq_dec : EqDecision AuthedUser.
Proof. solve_decision. Defined.

Inductive ClaimOutcome :=
  | Owned
  | Taken
  | Invalid (why : string)
  | CapExceeded
  | Error.
#[export] Instance ClaimOutcome_eq_dec : EqDecision ClaimOutcome.
Proof. solve_decision. Defined.

(** The trait: every method may also change the store (a read of a database
    consumes an interaction with its engine). *)
Class Authenticator (S : Type) := {
  authenticate : string -> S -> option AuthedUser * S;
  owns_hostname : Z -> string -> S -> bool * S;
  owns_port : Z -> Z -> S -> bool * S;
  claim_hostname : Z -> string -> option Z -> S -> ClaimOutcome * S;
  owned_hostnames : Z -> S -> list string * S;
  owned_ports : Z -> S -> list Z * S;
  release_hostname : Z -> string -> S -> bool * S;
  release_port : Z -> Z -> S -> bool * S;
}.

(** An implementation that gives the three required methods only has the trait's
    defaults for the others: it never creates, lists or releases anything. *)
Definition with_defaults {S : Type} (auth : string -> S -> option AuthedUser * S)
    (owns_h : Z -> string -> S -> bool * S) (owns_p : Z -> Z -> S -> bool * S) : Authenticator S := {|
  authenticate := auth;
  owns_hostname := owns_h;
  owns_port := owns_p;
  claim_hostname u h max s := let (b, s') := owns_h u h s in (if b then Owned else Taken, s');
  owned_hostnames u s := ([], s);
  owned_ports u s := ([], s);
  release_hostname u h s := (false, s);
  release_port u p s := (false, s);
|}.

(** Who holds what in a store, and the measure of the cap. *)
Class OwnerView (S : Type) := {
  auth_inv : S -> Prop;
  host_owner : S -> string -> option Z;
  port_owner : S -> Z -> option Z;
  owned_count : S -> Z -> Z;
}.
Definition same_owners {S : Type} `{!OwnerView S} (s s' : S) : Prop :=
  (forall h, host_owner s' h = host_owner s h) /\
  (forall p, port_owner s' p = port_owner s p) /\
  (forall u, owned_count s' u = owned_count s u).

Lemma same_owners_refl {S : Type} `{!OwnerView S} (s : S) : same_owners s s.
Proof. by split_and!. Qed.
Lemma same_owners_trans {S : Type} `{!OwnerView S} (s1 s2 s3 : S) :
  same_owners s1 s2 -> same_owners s2 s3 -> same_owners s1 s3.
Proof.
  intros (A1 & A2 & A3) (B1 & B2 & B3). split_and!; intros x.
  - by rewrite B1.
  - by rewrite B2.
  - by rewrite B3.
Qed.
#[export] Hint Resolve same_owners_refl : etun.

(** What a session may assume of the store behind the trait. *)
Class AuthenticatorLaws (S : Type) `{!Authenticator S, !OwnerView S} : Prop := {
  authenticate_law : forall tok s, auth_inv s ->
    auth_inv (authenticate tok s).2 /\ same_owners s (authenticate tok s).2;
  owns_hostname_law : forall u h s, auth_inv s ->
    auth_inv (owns_hostname u h s).2 /\ same_owners s (owns_hostname u h s).2 /\
    ((owns_hostname u h s).1 = true -> host_owner s h = Some u);
  owns_port_law : forall u p s, auth_inv s ->
    auth_inv (owns_port u p s).2 /\ same_owners s (owns_port u p s).2 /\
    ((owns_port u p s).1 = true -> port_owner s p = Some u);
  claim_hostname_law : forall u h max s, auth_inv s ->
    let s' := (claim_hostname u h max s).2 in
    auth_inv s' /\
    match (claim_hostname u h max s).1 with
    | Owned =>
        (forall p, port_owner s' p = port_owner s p) /\
        (host_owner s h = Some u /\ same_owners s s' \/
         host_owner s h = None /\
         (forall h', host_owner s' h' = if decide (h' = h) then Some u else host_owner s h') /\
         (forall u', owned_count s' u' = owned_count s u' + if decide (u' = u) then 1 else 0) /\
         match max with Some m => owned_count s' u <= m | None => True end)
    | _ => same_owners s s'
    end;
  owned_hostnames_law : forall u s, auth_inv s ->
    auth_inv (owned_hostnames u s).2 /\ same_owners s (owned_hostnames u s).2;
  owned_ports_law : forall u s, auth_inv s ->
    auth_inv (owned_ports u s).2 /\ same_owners s (owned_ports u s).2;
  release_hostname_law : forall u h s, auth_inv s ->
    let s' := (release_hostname u h s).2 in
    auth_inv s' /\ (forall p, port_owner s' p = port_owner s p) /\
    (forall u', owned_count s' u' <= owned_count s u') /\
    if (release_hostname u h s).1
    then host_owner s h = Some u /\
         (forall h', host_owner s' h' = if decide (h' = h) then None else host_owner s h')
    else forall h', host_owner s' h' = host_owner s h';
  release_port_law : forall u p s, auth_inv s ->
    let s' := (release_port u p s).2 in
    auth_inv s' /\ (forall h, host_owner s' h = host_owner s h) /\
    (forall u', owned_count s' u' <= owned_count s u') /\
    if (release_port u p s).1
    then port_owner s p = Some u /\
         (forall p', port_owner s' p' = if decide (p' = p) then None else port_owner s p')
    else forall p', port_owner s' p' = port_owner s p';
}.

(** ** The in-memory implementation *)
Module Memory.
Record MemoryInner := mkMemoryInner {
  next_user_id : Z;
  tokens : gmap string Z;
  users : gmap Z string;
  hostnames : gmap Z (gset string);
  ports : gmap Z (gset Z);
}.
Definition MemoryAuth_new : MemoryInner := mkMemoryInner 0 ∅ ∅ ∅ ∅.

Definition add_user (nm token : string) (g : MemoryInner) : Z * MemoryInner :=
  let id := i64_add (next_user_id g) 1 in
  (id, mkMemoryInner id (<[token := id]> (tokens g)) (<[id := nm]> (users g))
         (hostnames g) (ports g)).
Definition set_hosts (m : gmap Z (gset string)) (g : MemoryInner) : MemoryInner :=
  mkMemoryInner (next_user_id g) (tokens g) (users g) m (ports g).
Definition set_ports (m : gmap Z (gset Z)) (g : MemoryInner) : MemoryInner :=
  mkMemoryInner (next_user_id g) (tokens g) (users g) (hostnames g) m.
Definition grant_hostname (u : Z) (h : string) (g : MemoryInner) : MemoryInner :=
  set_hosts (<[u := {[h]} ∪ default ∅ (hostnames g !! u)]> (hostnames g)) g.
Definition revoke (token : string) (g : MemoryInner) : bool * MemoryInner :=
  (bool_decide (is_Some (tokens g !! token)),
   mkMemoryInner (next_user_id g) (delete token (tokens g)) (users g) (hostnames g) (ports g)).
Definition grant_port (u p : Z) (g : MemoryInner) : MemoryInner :=
  set_ports (<[u := {[p]} ∪ default ∅ (ports g !! u)]> (ports g)) g.

Definition mem_authenticate (token : string) (g : MemoryInner) : option AuthedUser :=
  u ← tokens g !! token; nm ← users g !! u; Some (mkAuthedUser u nm).
Definition mem_owns_hostname (u : Z) (h : string) (g : MemoryInner) : bool :=
  match hostnames g !! u with Some s => bool_decide (h ∈ s) | None => false end.
Definition mem_owns_port (u p : Z) (g : MemoryInner) : bool :=
  match ports g !! u with Some s => bool_decide (p ∈ s) | None => false end.

(** The first user, in the map's iteration order, whose set has the name. *)
Definition find_owner {K : Type} `{Countable K} (m : gmap Z (gset K)) (k : K) : option Z :=
  (fun p => p.2.1) <$> list_find (fun kv : Z * gset K => k ∈ kv.2) (map_to_list m).
Definition set_len {K : Type} `{Countable K} (m : gmap Z (gset K)) (u : Z) : Z :=
  match m !! u with Some s => Z.of_nat (size s) | None => 0 end.

Definition mem_claim_hostname (u : Z) (h : string) (max : option Z) (g : MemoryInner) :
    ClaimOutcome * MemoryInner :=
  match find_owner (hostnames g) h with
  | Some uid => if decide (uid = u) then (Owned, g) else (Taken, g)
  | None =>
      let over := match max with
                  | Some m => bool_decide (m <= set_len (hostnames g) u + set_len (ports g) u)
                  | None => false
                  end in
      if over then (CapExceeded, g) else (Owned, grant_hostname u h g)
  end.

Definition mem_owned_hostnames (u : Z) (g : MemoryInner) : list string :=
  sort_by String.leb (elements (default ∅ (hostnames g !! u))).
Definition mem_owned_ports (u : Z) (g : MemoryInner) : list Z :=
  sort_by Z.leb (elements (default ∅ (ports g !! u))).
Definition mem_release_hostname (u : Z) (h : string) (g : MemoryInner) : bool * MemoryInner :=
  match hostnames g !! u with
  | None => (false, g)
  | Some s => (bool_decide (h ∈ s), set_hosts (<[u := s ∖ {[h]}]> (hostnames g)) g)
  end.
Definition mem_release_port (u p : Z) (g : MemoryInner) : bool * MemoryInner :=
  match ports g !! u with
  | None => (false, g)
  | Some s => (bool_decide (p ∈ s), set_ports (<[u := s ∖ {[p]}]> (ports g)) g)
  end.

#[export] Instance MemoryAuth : Authenticator MemoryInner := {
  authenticate tok g := (mem_authenticate tok g, g);
  owns_hostname u h g := (mem_owns_hostname u h g, g);
  owns_port u p g := (mem_owns_port u p g, g);
  claim_hostname := mem_claim_hostname;
  owned_hostnames u g := (mem_owned_hostnames u g, g);
  owned_ports u g := (mem_owned_ports u g, g);
  release_hostname := mem_release_hostname;
  release_port := mem_release_port;
}.

(** No two users hold the same name. *)
Definition disjoint_sets {K : Type} `{Countable K} (m : gmap Z (gset K)) : Prop :=
  forall u1 u2 s1 s2 k, m !! u1 = Some s1 -> m !! u2 = Some s2 -> k ∈ s1 -> k ∈ s2 -> u1 = u2.
#[export] Instance MemoryView : OwnerView MemoryInner := {
  auth_inv g := disjoint_sets (hostnames g) /\ disjoint_sets (ports g);
  host_owner g h := find_owner (hostnames g) h;
  port_owner g p := find_owner (ports g) p;
  owned_count g u := set_len (hostnames g) u + set_len (ports g) u;
}.

Section owner.
Context {K : Type} `{Countable K}.
Implicit Types (m : gmap Z (gset K)).
Lemma find_owner_Some m k u :
  disjoint_sets m -> find_owner m k = Some u <-> exists s, m !! u = Some s /\ k ∈ s.
Proof using.
  intros Hd. unfold find_owner. split.
  - intros ([i [u' s]] & (Hl & Hk & _)%list_find_Some & ->)%fmap_Some.
    exists s. split; [|done]. by apply elem_of_map_to_list, (list_elem_of_lookup_2 _ i).
  - intros (s & Hl & Hk).
    destruct (list_find (fun kv : Z * gset K => k ∈ kv.2) (map_to_list m))
      as [[i [u' s']]|] eqn:E; cbn.
    + apply list_find_Some in E as (Hi & Hk' & _). f_equal.
      apply list_elem_of_lookup_2, elem_of_map_to_list in Hi. eauto.
    + exfalso. apply list_find_None in E. rewrite Forall_forall in E.
      apply (E (u, s)); [by apply elem_of_map_to_list|done].
Qed.
Lemma find_owner_ext m' k (o : option Z) :
  disjoint_sets m' ->
  (forall u, (exists s, m' !! u = Some s /\ k ∈ s) <-> o = Some u) ->
  find_owner m' k = o.
Proof using.
  intros Hd Hu. apply option_eq. intros u. by rewrite find_owner_Some, Hu.
Qed.
Lemma find_owner_None m k u s :
  disjoint_sets m -> find_owner m k = None -> m !! u = Some s -> k ∉ s.
Proof using.
  intros Hd Hn Hs Hk. assert (find_owner m k = Some u) by (apply find_owner_Some; eauto).
  congruence.
Qed.

Lemma grant_disjoint m u k :
  disjoint_sets m -> find_owner m k = None ->
  disjoint_sets (<[u := {[k]} ∪ default ∅ (m !! u)]> m) /\
  (forall k', find_owner (<[u := {[k]} ∪ default ∅ (m !! u)]> m) k'
              = if decide (k' = k) then Some u else find_owner m k') /\
  set_len (<[u := {[k]} ∪ default ∅ (m !! u)]> m) u = set_len m u + 1.
Proof using.
  intros Hd Hn.
  assert (Hin : forall u' s' k', <[u := {[k]} ∪ default ∅ (m !! u)]> m !! u' = Some s' -> k' ∈ s' ->
            (k' = k /\ u' = u) \/ exists s0, m !! u' = Some s0 /\ k' ∈ s0).
  { intros u' s' k' [[<- <-]|[Hne Hl]]%lookup_insert_Some Hk; [|eauto].
    apply elem_of_union in Hk as [->%elem_of_singleton|Hk]; [by left|right].
    destruct (m !! u) eqn:E; cbn in Hk; [eauto|set_solver]. }
  assert (Hd' : disjoint_sets (<[u := {[k]} ∪ default ∅ (m !! u)]> m)).
  { intros u1 u2 s1 s2 k' H1 H2 K1 K2.
    destruct (Hin _ _ _ H1 K1) as [[-> ->]|(t1 & T1 & T1k)],
             (Hin _ _ _ H2 K2) as [[? ->]|(t2 & T2 & T2k)]; subst; try done.
    - by destruct (find_owner_None m k u2 t2 Hd Hn T2).
    - by destruct (find_owner_None m k u1 t1 Hd Hn T1).
    - by eapply Hd. }
  split_and!; [done| |].
  - intros k'. apply (find_owner_ext _ k'); [done|]. intros u'. split.
    + intros (s' & Hl & Hk). destruct (Hin _ _ _ Hl Hk) as [[-> ->]|(s0 & Hs0 & Hk0)].
      * by rewrite decide_True.
      * rewrite decide_False; [apply find_owner_Some; eauto|]. intros ->.
        by apply (find_owner_None m k u' s0).
    + case_decide as Hk; [intros [= <-]|intros (s0 & Hs0 & Hk0)%find_owner_Some; [|done]].
      * exists ({[k]} ∪ default ∅ (m !! u)). rewrite lookup_insert_eq. set_solver.
      * destruct (decide (u' = u)) as [->|].
        -- exists ({[k]} ∪ default ∅ (m !! u)). rewrite lookup_insert_eq, Hs0. set_solver.
        -- exists s0. by rewrite lookup_insert_ne.
  - unfold set_len. rewrite lookup_insert_eq.
    assert (k ∉ default ∅ (m !! u)).
    { destruct (m !! u) eqn:E; cbn; [exact (find_owner_None m k u _ Hd Hn E)|set_solver]. }
    rewrite size_union by set_solver. rewrite size_singleton.
    destruct (m !! u); cbn; [lia|]. rewrite size_empty. lia.
Qed.

Lemma release_disjoint m u s k :
  disjoint_sets m -> m !! u = Some s ->
  disjoint_sets (<[u := s ∖ {[k]}]> m) /\
  (forall k', find_owner (<[u := s ∖ {[k]}]> m) k'
              = if decide (k' = k /\ k ∈ s) then None else find_owner m k') /\
  (forall u', set_len (<[u := s ∖ {[k]}]> m) u' <= set_len m u').
Proof using.
  intros Hd Hs.
  assert (Hin : forall u' k', (exists s', <[u := s ∖ {[k]}]> m !! u' = Some s' /\ k' ∈ s')
    <-> (exists s', m !! u' = Some s' /\ k' ∈ s') /\ ~ (u' = u /\ k' = k)).
  { intros u' k'. destruct (decide (u' = u)) as [->|Hne].
    - rewrite lookup_insert_eq, Hs. split.
      + intros (s' & [= <-] & Hk'). split; [exists s|]; set_solver.
      + intros ((s' & [= <-] & Hk') & Hn). exists (s ∖ {[k]}). set_solver.
    - rewrite lookup_insert_ne by done. naive_solver. }
  assert (Hd' : disjoint_sets (<[u := s ∖ {[k]}]> m)).
  { intros u1 u2 s1 s2 k' H1 H2 K1 K2.
    destruct (proj1 (Hin u1 k')) as [(t1 & ? & ?) _]; [eauto|].
    destruct (proj1 (Hin u2 k')) as [(t2 & ? & ?) _]; [eauto|]. by eapply Hd. }
  split_and!; [done| |].
  - intros k'. apply (find_owner_ext _ k'); [done|]. intros u'. rewrite Hin.
    case_decide as Hk.
    + destruct Hk as [-> Hk]. split; [|done]. intros [(s' & Hs' & Hk') Hn]. exfalso.
      apply Hn. split; [by eapply Hd|done].
    + rewrite find_owner_Some by done. split; [by intros [? _]|]. intros (s' & Hs' & Hk').
      split; [eauto|]. intros [-> ->]. apply Hk. split; [done|]. congruence.
  - intros u'. unfold set_len. destruct (decide (u' = u)) as [->|].
    + rewrite lookup_insert_eq, Hs. pose proof (subseteq_size (s ∖ {[k]}) s ltac:(set_solver)). lia.
    + by rewrite lookup_insert_ne.
Qed.
End owner.

Lemma mem_claim_law (u : Z) (h : string) (max : option Z) (g : MemoryInner) :
  auth_inv g ->
  match mem_claim_hostname u h max g with
  | (Owned, g') =>
      host_owner g h = Some u /\ g' = g \/
      host_owner g h = None /\ g' = grant_hostname u h g /\
      match max with Some m => owned_count g u < m | None => True end
  | (_, g') => g' = g
  end.
Proof.
  intros [Hd _]. unfold mem_claim_hostname. cbn [host_owner MemoryView owned_count].
  destruct (find_owner (hostnames g) h) as [o|] eqn:E.
  - case_decide; subst; auto.
  - destruct max as [m|]; [case_bool_decide|]; try done; right; split_and!; try done. lia.
Qed.

(** [MemoryAuth] meets the contract of the trait: lookups change nothing, a
    claim grants exactly a free or already held name and respects the cap, and
    a release frees exactly a name its caller holds. *)
Theorem memory_auth_lawful : AuthenticatorLaws MemoryInner.
Proof.
  split; try done.
  - intros u h g Hi. split; [done|]. split; [apply same_owners_refl|]. destruct Hi as [Hd _]. cbn. unfold mem_owns_hostname.
    destruct (hostnames g !! u) eqn:E; [|done]. intros ?%bool_decide_eq_true.
    apply find_owner_Some; [done|eauto].
  - intros u p g Hi. split; [done|]. split; [apply same_owners_refl|]. destruct Hi as [_ Hd]. cbn. unfold mem_owns_port.
    destruct (ports g !! u) eqn:E; [|done]. intros ?%bool_decide_eq_true.
    apply find_owner_Some; [done|eauto].
  - intros u h max g Hi. cbn [claim_hostname MemoryAuth]. pose proof (mem_claim_law u h max g Hi) as Hc.
    destruct (mem_claim_hostname u h max g) as [[] g']; subst; cbn [fst snd]; try by auto with etun.
    destruct Hc as [[Ho ->]|(Ho & -> & Hm)]; [split; [done|]; split; [done|]; left; auto with etun|].
    destruct Hi as [Hd Hp]. destruct (grant_disjoint (hostnames g) u h Hd Ho) as (H1 & H2 & H3).
    split; [done|]. split; [done|]. right.
    assert (Hc : forall u', owned_count (grant_hostname u h g) u'
                            = owned_count g u' + if decide (u' = u) then 1 else 0).
    { intros u'. cbn. case_decide; subst; [lia|]. unfold set_len at 1. rewrite lookup_insert_ne by done.
      unfold set_len. lia. }
    split_and!; try done. destruct max as [m|]; [|done]. rewrite Hc, decide_True by done. lia.
  - intros u h g [Hd Hp]. cbn. unfold mem_release_hostname.
    destruct (hostnames g !! u) as [s|] eqn:E; [|done].
    destruct (release_disjoint (hostnames g) u s h Hd E) as (H1 & H2 & H3). cbn.
    split_and!; try done; [intros u'; specialize (H3 u'); lia|].
    case_bool_decide as Hh.
    + split; [apply find_owner_Some; [done|eauto]|]. intros h'. rewrite H2. destruct (decide (h' = _)); [rewrite decide_True|rewrite decide_False]; done || tauto.
    + intros h'. rewrite H2. by rewrite decide_False by tauto.
  - intros u p g [Hd Hp]. cbn. unfold mem_release_port.
    destruct (ports g !! u) as [s|] eqn:E; [|done].
    destruct (release_disjoint (ports g) u s p Hp E) as (H1 & H2 & H3). cbn.
    split_and!; try done; [intros u'; specialize (H3 u'); lia|].
    case_bool_decide as Hh.
    + split; [apply find_owner_Some; [done|eauto]|]. intros h'. rewrite H2. destruct (decide (h' = _)); [rewrite decide_True|rewrite decide_False]; done || tauto.
    + intros h'. rewrite H2. by rewrite decide_False by tauto.
Qed.
End Memory.
