(* ===== verification/Registry.v ===== *)
(** * The hostname and token registry (crates/relay/src/registry.rs)

    The SQLite tables as lists of rows in row-id order, with the schema's
    UNIQUE, PRIMARY KEY and REFERENCES constraints checked by the statements.
    A statement of the engine may fail at any point and then changes nothing;
    a transaction that is dropped before [commit] restores the tables it began
    with.  The engine's failures, the wall clock, the random source and the two
    library functions (SHA-256, URL-safe base64) are the parameters [Engine]. *)
From Stdlib Require Import Ascii.
From S2P Require Import Prelude Auth.
Local Open Scope Z_scope.

Inductive SqlError := ConstraintViolation | EngineFailure.
#[export] Instance SqlError_eq_dec : EqDecision SqlError.
Proof. solve_decision. Defined.

Inductive RegistryError :=
  | Db (e : SqlError)
  | NoSuchUser (user : string)
  | UserExists (user : string)
  | UserNotEmpty (user : string)
  | InvalidLabel (label why : string)
  | LabelTaken (label : string)
  | PortTaken (port : Z)
  | CapExceededErr
  | InvalidUser (why : string).
#[export] Instance RegistryError_eq_dec : EqDecision RegistryError.
Proof. solve_decision. Defined.

(** What the registry takes from outside: whether the [n]-th interaction with
    the engine fails, the clock and the random bytes at that point, the hash of
    a credential and the text encoding of random bytes. *)
Class Engine := {
  engine_fails : nat -> bool;
  clock : nat -> Z;
  os_rng : nat -> list byte;
  sha256 : string -> list byte;
  base64url : list byte -> string;
}.

(** ** Labels *)
Definition RESERVED_LABELS : list string :=
  ["connect"; "www"; "admin"; "api"; "docs"; "status"; "mail"]%string.
Definition ok_edge (c : Ascii.ascii) : bool := is_ascii_lowercase c || is_ascii_digit c.
Definition ok_inner (c : Ascii.ascii) : bool := ok_edge c || Ascii.eqb c "-"%char.

Definition validate_label (label : string) : result string () :=
  match label with
  | EmptyString => Err "must be 1..=63 characters"%string
  | String c0 _ =>
      if decide (63 < String.length label)%nat then Err "must be 1..=63 characters"%string
      else if negb (ok_edge c0) || negb (match last_char label with Some c => ok_edge c | None => false end)
      then Err "must start and end with a-z0-9"%string
      else if negb (str_forall ok_inner label)
      then Err "only a-z, 0-9 and '-' are allowed"%string
      else if bool_decide (label ∈ RESERVED_LABELS) then Err "this label is reserved"%string
      else Ok ()
  end.

(** ** Tables *)
Record UserRow := mkUserRow { u_id : Z; u_name : string; u_created : Z }.
Record TokRow := mkTokRow {
  t_id : Z; t_user : Z; t_hash : list byte; t_label : option string;
  t_created : Z; t_revoked : option Z }.
Record HostRow := mkHostRow { h_id : Z; h_user : Z; h_label : string; h_created : Z }.
Record PortRow := mkPortRow { p_port : Z; p_user : Z; p_created : Z }.
Record Tables := mkTables {
  users : list UserRow;
  tokens : list TokRow;
  hostnames : list HostRow;
  tcp_ports : list PortRow;
}.
Definition no_tables : Tables := mkTables [] [] [] [].
Definition set_users x t := mkTables x (tokens t) (hostnames t) (tcp_ports t).
Definition set_tokens x t := mkTables (users t) x (hostnames t) (tcp_ports t).
Definition set_hostnames x t := mkTables (users t) (tokens t) x (tcp_ports t).
Definition set_tcp_ports x t := mkTables (users t) (tokens t) (hostnames t) x.

(** The connection: the tables, those at the start of the open transaction if
    there is one, and how many interactions there have been. *)
Record Conn := mkConn { db : Tables; saved : option Tables; tick : nat }.

(** [INTEGER PRIMARY KEY] without AUTOINCREMENT: one past the largest. *)
Definition next_rowid (ids : list Z) : Z := foldr Z.max 0 ids + 1.
Definition user_exists (id : Z) (t : Tables) : bool :=
  bool_decide (id ∈ u_id <$> users t).

Definition insert_user (nm : string) (now : Z) (t : Tables) : result SqlError Z * Tables :=
  if bool_decide (nm ∈ u_name <$> users t) then (Err ConstraintViolation, t)
  else let id := next_rowid (u_id <$> users t) in
       (Ok id, set_users (users t ++ [mkUserRow id nm now]) t).
Definition insert_token (uid : Z) (hash : list byte) (label : option string) (now : Z)
    (t : Tables) : result SqlError Z * Tables :=
  if bool_decide (hash ∈ t_hash <$> tokens t) || negb (user_exists uid t)
  then (Err ConstraintViolation, t)
  else let id := next_rowid (t_id <$> tokens t) in
       (Ok id, set_tokens (tokens t ++ [mkTokRow id uid hash label now None]) t).
Definition insert_hostname (uid : Z) (label : string) (now : Z) (t : Tables) :
    result SqlError Z * Tables :=
  if bool_decide (label ∈ h_label <$> hostnames t) || negb (user_exists uid t)
  then (Err ConstraintViolation, t)
  else let id := next_rowid (h_id <$> hostnames t) in
       (Ok id, set_hostnames (hostnames t ++ [mkHostRow id uid label now]) t).
(** [port] is the row id, so the table is in port order. *)
Definition port_le (a b : PortRow) : bool := p_port a <=? p_port b.
Definition insert_port (port uid now : Z) (t : Tables) : result SqlError Z * Tables :=
  if bool_decide (port ∈ p_port <$> tcp_ports t) || negb (user_exists uid t)
  then (Err ConstraintViolation, t)
  else (Ok port, set_tcp_ports (insert_by port_le (mkPortRow port uid now) (tcp_ports t)) t).

(** [DELETE] statements return the number of rows removed. *)
Definition delete_where {R : Type} (P : R -> Prop) `{!forall r, Decision (P r)} (l : list R) :
    nat * list R :=
  (length (filter P l), filter (fun r => ~ P r) l).
Definition delete_tokens (P : TokRow -> Prop) `{!forall r, Decision (P r)} (t : Tables) :
    result SqlError nat * Tables :=
  let (n, l) := delete_where P (tokens t) in (Ok n, set_tokens l t).
Definition delete_hostnames (P : HostRow -> Prop) `{!forall r, Decision (P r)} (t : Tables) :
    result SqlError nat * Tables :=
  let (n, l) := delete_where P (hostnames t) in (Ok n, set_hostnames l t).
Definition delete_ports (P : PortRow -> Prop) `{!forall r, Decision (P r)} (t : Tables) :
    result SqlError nat * Tables :=
  let (n, l) := delete_where P (tcp_ports t) in (Ok n, set_tcp_ports l t).
Definition delete_user (id : Z) (t : Tables) : result SqlError nat * Tables :=
  if bool_decide (id ∈ t_user <$> tokens t) || bool_decide (id ∈ h_user <$> hostnames t)
     || bool_decide (id ∈ p_user <$> tcp_ports t)
  then (Err ConstraintViolation, t)
  else let (n, l) := delete_where (fun r => u_id r = id) (users t) in (Ok n, set_users l t).
(** [UPDATE tokens SET revoked_at = now WHERE P AND revoked_at IS NULL]. *)
Definition revoke_row (P : TokRow -> Prop) `{!forall r, Decision (P r)} (now : Z) (r : TokRow) :
    TokRow :=
  if decide (P r /\ t_revoked r = None)
  then mkTokRow (t_id r) (t_user r) (t_hash r) (t_label r) (t_created r) (Some now) else r.
Definition revoke_where (P : TokRow -> Prop) `{!forall r, Decision (P r)} (now : Z) (t : Tables) :
    result SqlError nat * Tables :=
  (Ok (length (filter (fun r => P r /\ t_revoked r = None) (tokens t))),
   set_tokens (revoke_row P now <$> tokens t) t).

(** ** Statements and transactions *)
Section registry.
Context `{!Engine} (domain : string).

Definition suffix : string := "." +:+ domain.

(** One statement: it fails without effect, or runs at the clock's reading. *)
Definition statement {A : Type} (run : Z -> Tables -> result SqlError A * Tables) :
    st Conn SqlError A :=
  fun c =>
    if engine_fails (tick c) then (Err EngineFailure, mkConn (db c) (saved c) (S (tick c)))
    else let (r, t) := run (clock (tick c)) (db c) in (r, mkConn t (saved c) (S (tick c))).
Definition query {A : Type} (f : Tables -> A) : st Conn SqlError A :=
  statement (fun _ t => (Ok (f t), t)).
Definition exec {A : Type} (run : Tables -> result SqlError A * Tables) : st Conn SqlError A :=
  statement (fun _ => run).
(** The [?] that turns a database error into a [RegistryError]. *)
Definition q {A : Type} (m : st Conn SqlError A) : st Conn RegistryError A := st_map_err Db m.

Definition begin_tx : st Conn RegistryError () := fun c =>
  if engine_fails (tick c) then (Err (Db EngineFailure), mkConn (db c) (saved c) (S (tick c)))
  else (Ok (), mkConn (db c) (Some (db c)) (S (tick c))).
Definition commit : st Conn RegistryError () := fun c =>
  if engine_fails (tick c) then (Err (Db EngineFailure), mkConn (db c) (saved c) (S (tick c)))
  else (Ok (), mkConn (db c) None (S (tick c))).
(** [Drop for Transaction]: roll back unless committed. *)
Definition drop_tx (c : Conn) : Conn :=
  match saved c with
  | Some t => mkConn t None (tick c)
  | None => c
  end.
Definition transaction {A : Type} (body : st Conn RegistryError A) : st Conn RegistryError A :=
  fun c => match begin_tx c with
           | (Err e, c') => (Err e, c')
           | (Ok _, c') => let (r, c2) := body c' in (r, drop_tx c2)
           end.

Definition fail {A : Type} (e : RegistryError) : st Conn RegistryError A := st_fail e.

(** ** Queries *)
Definition user_by_name (nm : string) (t : Tables) : option Z :=
  u_id <$> head (filter (fun r => u_name r = nm) (users t)).
Definition count_hosts (uid : Z) (t : Tables) : Z :=
  Z.of_nat (length (filter (fun r => h_user r = uid) (hostnames t))).
Definition count_ports (uid : Z) (t : Tables) : Z :=
  Z.of_nat (length (filter (fun r => p_user r = uid) (tcp_ports t))).
Definition count_tokens (uid : Z) (t : Tables) : Z :=
  Z.of_nat (length (filter (fun r => t_user r = uid) (tokens t))).
Definition owned_rows (uid : Z) (t : Tables) : Z := count_hosts uid t + count_ports uid t.
Definition label_owner (label : string) (t : Tables) : option Z :=
  h_user <$> head (filter (fun r => h_label r = label) (hostnames t)).
Definition port_holder (port : Z) (t : Tables) : option Z :=
  p_user <$> head (filter (fun r => p_port r = port) (tcp_ports t)).

(** ** Tokens *)
Definition generate_token : st Conn RegistryError string := fun c =>
  (Ok ("etun_" +:+ base64url (os_rng (tick c))), mkConn (db c) (saved c) (S (tick c))).
Definition hash_token (token : string) : list byte := sha256 token.

(** ** Admin operations *)
Definition lookup_user_id (nm : string) : st Conn RegistryError (option Z) :=
  q (query (user_by_name nm)).
Definition user_id (nm : string) : st Conn RegistryError Z :=
  r ← q (query (user_by_name nm));
  match r with Some id => mret id | None => fail (NoSuchUser nm) end.

Definition add_user (nm : string) : st Conn RegistryError Z :=
  if is_empty nm then fail (InvalidUser "must not be empty"%string)
  else if decide (200 < String.length nm)%nat
  then fail (InvalidUser "must be at most 200 bytes"%string)
  else
    exists_ ← q (query (user_by_name nm));
    match exists_ with
    | Some _ => fail (UserExists nm)
    | None => q (statement (insert_user nm))
    end.

Definition name_le (a b : UserRow) : bool := String.leb (u_name a) (u_name b).
Definition list_users : st Conn RegistryError (list (Z * string * Z)) :=
  q (query (fun t => (fun r => (u_id r, u_name r, u_created r)) <$> sort_by name_le (users t))).

Definition remove_user (nm : string) (force : bool) : st Conn RegistryError () :=
  id ← user_id nm;
  owns ← q (query (fun t => count_tokens id t + count_hosts id t + count_ports id t));
  if bool_decide (0 < owns) && negb force then fail (UserNotEmpty nm)
  else
    q (exec (delete_tokens (fun r => t_user r = id)));;
    q (exec (delete_hostnames (fun r => h_user r = id)));;
    q (exec (delete_ports (fun r => p_user r = id)));;
    q (exec (delete_user id));;
    mret ().

Definition provision_user_token (nm : string) : st Conn RegistryError (string * bool) :=
  existing ← q (query (user_by_name nm));
  '(id, created) ← match existing with
                   | Some id => mret (id, false)
                   | None => id ← q (statement (insert_user nm)); mret (id, true)
                   end;
  token ← generate_token;
  q (statement (insert_token id (hash_token token) (Some "self-serve"%string)));;
  mret (token, created).

Definition rotate_user_token (nm : string) : st Conn RegistryError (string * nat) :=
  existing ← q (query (user_by_name nm));
  id ← match existing with
       | Some id => mret id
       | None => q (statement (insert_user nm))
       end;
  revoked ← q (statement (revoke_where (fun r => t_user r = id)));
  token ← generate_token;
  q (statement (insert_token id (hash_token token) (Some "self-serve-recovery"%string)));;
  mret (token, revoked).

(** [as u16] on a stored integer. *)
Definition as_u16 (z : Z) : Z := z mod 65536.
Definition release_user_hostnames (nm : string) (release_ports : bool) :
    st Conn RegistryError (list string * list Z) :=
  transaction (
    id ← user_id nm;
    hosts ← q (query (fun t => h_label <$> filter (fun r => h_user r = id) (hostnames t)));
    q (exec (delete_hostnames (fun r => h_user r = id)));;
    ports ← (if release_ports : bool then
               ps ← q (query (fun t => (fun r => as_u16 (p_port r)) <$>
                                       filter (fun r => p_user r = id) (tcp_ports t)));
               q (exec (delete_ports (fun r => p_user r = id)));;
               mret ps
             else mret []);
    commit;;
    mret (hosts, ports)).

Definition count_owned_resources (uid : Z) : st Conn RegistryError Z :=
  q (query (owned_rows uid)).
Definition host_le (a b : HostRow) : bool :=
  (h_created a <? h_created b) || ((h_created a =? h_created b) && (h_id a <=? h_id b)).
Definition reg_owned_hostnames (uid : Z) : st Conn RegistryError (list string) :=
  q (query (fun t => (fun r => h_label r +:+ suffix) <$>
     sort_by host_le (filter (fun r => h_user r = uid) (hostnames t)))).
Definition reg_owned_ports (uid : Z) : st Conn RegistryError (list Z) :=
  q (query (fun t => (fun r => as_u16 (p_port r)) <$>
     sort_by port_le (filter (fun r => p_user r = uid) (tcp_ports t)))).

(** [label_of]: the label of a name directly under the apex. *)
Definition label_of (fqdn : string) : option string :=
  label ← strip_suffix suffix fqdn;
  if is_empty label || contains_char "."%char label then None
  else if is_ok (validate_label label) then Some label else None.

Definition release_hostname_owned (uid : Z) (fqdn : string) : st Conn RegistryError bool :=
  match label_of fqdn with
  | None => mret false
  | Some label =>
      n ← q (exec (delete_hostnames (fun r => h_label r = label /\ h_user r = uid)));
      mret (bool_decide (0 < n)%nat)
  end.
Definition release_port_owned (uid port : Z) : st Conn RegistryError bool :=
  n ← q (exec (delete_ports (fun r => p_port r = port /\ p_user r = uid)));
  mret (bool_decide (0 < n)%nat).

Definition claim_label_capped (uid : Z) (label : string) (max : option Z) :
    st Conn RegistryError bool :=
  match validate_label label with
  | Err why => fail (InvalidLabel label why)
  | Ok _ =>
      transaction (
        owner ← q (query (label_owner label));
        match owner with
        | Some owner_id =>
            if decide (owner_id = uid) then mret false else fail (LabelTaken label)
        | None =>
            over ← match max with
                   | Some m => owned ← q (query (owned_rows uid)); mret (bool_decide (m <= owned))
                   | None => mret false
                   end;
            if (over : bool) then fail CapExceededErr
            else fun c =>
              match statement (insert_hostname uid label) c with
              | (Ok _, c') => (commit ;; mret true) c'
              | (Err ConstraintViolation, c') => (Err (LabelTaken label), c')
              | (Err e, c') => (Err (Db e), c')
              end
        end)
  end.
Definition claim_label (uid : Z) (label : string) : st Conn RegistryError bool :=
  claim_label_capped uid label None.

(** The pooled owned set of a user: creation time, tie-break key, resource. *)
Inductive OwnedRes := OwnedHost (label : string) | OwnedPort (port : Z).
#[export] Instance OwnedRes_eq_dec : EqDecision OwnedRes.
Proof. solve_decision. Defined.
Record OwnedEntry := mkOwned { o_created : Z; o_key : Z; o_res : OwnedRes }.
Definition owned_le (a b : OwnedEntry) : bool :=
  (o_created a <? o_created b) || ((o_created a =? o_created b) && (o_key a <=? o_key b)).
Definition host_entry (r : HostRow) : OwnedEntry :=
  mkOwned (h_created r) (h_id r) (OwnedHost (h_label r)).
Definition port_entry (r : PortRow) : OwnedEntry :=
  mkOwned (p_created r) (as_u16 (p_port r)) (OwnedPort (as_u16 (p_port r))).
Definition hosts_of (l : list OwnedEntry) : list string :=
  omap (fun e => match o_res e with OwnedHost s => Some s | _ => None end) l.
Definition ports_of (l : list OwnedEntry) : list Z :=
  omap (fun e => match o_res e with OwnedPort p => Some p | _ => None end) l.

Definition over_cap (uid cap : Z) : st Conn RegistryError (list string * list Z) :=
  let cap := Z.max cap 0 in
  hs ← q (query (fun t => host_entry <$> filter (fun r => h_user r = uid) (hostnames t)));
  ps ← q (query (fun t => port_entry <$> filter (fun r => p_user r = uid) (tcp_ports t)));
  let owned := sort_by owned_le (hs ++ ps) in
  if decide (Z.of_nat (length owned) <= cap) then mret ([], [])
  else let over := drop (Z.to_nat cap) owned in mret (hosts_of over, ports_of over).

Fixpoint delete_each {K : Type} (stmt : K -> Tables -> result SqlError nat * Tables)
    (ks : list K) : st Conn RegistryError () :=
  match ks with
  | [] => mret ()
  | k :: ks' => q (exec (stmt k));; delete_each stmt ks'
  end.
Definition prune_owned_to_cap (uid cap : Z) : st Conn RegistryError (list string * list Z) :=
  '(removed_hosts, removed_ports) ← over_cap uid cap;
  match removed_hosts, removed_ports with
  | [], [] => mret ([], [])
  | _, _ =>
      transaction (
        delete_each (fun label => delete_hostnames (fun r => h_label r = label /\ h_user r = uid))
          removed_hosts;;
        delete_each (fun port => delete_ports (fun r => p_port r = port /\ p_user r = uid))
          removed_ports;;
        commit;;
        mret (removed_hosts, removed_ports))
  end.
Definition owned_over_cap (uid cap : Z) : st Conn RegistryError (list string * list Z) :=
  over_cap uid cap.

Definition create_token (user : string) (label : option string) : st Conn RegistryError string :=
  id ← user_id user;
  token ← generate_token;
  q (statement (insert_token id (hash_token token) label));;
  mret token.

Record TokenRow := mkTokenRow {
  tr_id : Z; tr_user : string; tr_label : option string; tr_created_at : Z; tr_revoked : bool }.
Definition wanted (user : option string) (nm : string) : bool :=
  match user with None => true | Some u => bool_decide (nm = u) end.
Definition token_id_le (a b : TokenRow) : bool := tr_id a <=? tr_id b.
Definition list_tokens (user : option string) : st Conn RegistryError (list TokenRow) :=
  q (query (fun t => sort_by token_id_le (
    r ← tokens t;
    u ← filter (fun u => u_id u = t_user r /\ wanted user (u_name u) = true) (users t);
    [mkTokenRow (t_id r) (u_name u) (t_label r) (t_created r) (bool_decide (is_Some (t_revoked r)))]))).

Definition revoke_token (id : Z) : st Conn RegistryError bool :=
  n ← q (statement (revoke_where (fun r => t_id r = id)));
  mret (bool_decide (0 < n)%nat).

Definition add_hostname (label user : string) : st Conn RegistryError () :=
  match validate_label label with
  | Err why => fail (InvalidLabel label why)
  | Ok _ =>
      id ← user_id user;
      taken ← q (query (label_owner label));
      match taken with
      | Some _ => fail (LabelTaken label)
      | None => q (statement (insert_hostname id label));; mret ()
      end
  end.
Definition pair_le {B : Type} (a b : string * B) : bool := String.leb a.1 b.1.
Definition list_hostnames (user : option string) : st Conn RegistryError (list (string * string)) :=
  q (query (fun t => sort_by pair_le (
    h ← hostnames t;
    u ← filter (fun u => u_id u = h_user h /\ wanted user (u_name u) = true) (users t);
    [(h_label h, u_name u)]))).
Definition remove_hostname (label : string) : st Conn RegistryError bool :=
  n ← q (exec (delete_hostnames (fun r => h_label r = label)));
  mret (bool_decide (0 < n)%nat).

Definition add_port (port : Z) (user : string) : st Conn RegistryError () :=
  transaction (
    id ← user_id user;
    taken ← q (query (port_holder port));
    match taken with
    | Some _ => fail (PortTaken port)
    | None => q (statement (insert_port port id));; commit;; mret ()
    end).
Definition zpair_le {B : Type} (a b : Z * B) : bool := a.1 <=? b.1.
Definition list_ports : st Conn RegistryError (list (Z * string)) :=
  q (query (fun t => (fun p => (as_u16 p.1, p.2)) <$> sort_by zpair_le (
    p ← tcp_ports t;
    u ← filter (fun u => u_id u = p_user p) (users t);
    [(p_port p, u_name u)]))).
Definition remove_port (port : Z) : st Conn RegistryError bool :=
  n ← q (exec (delete_ports (fun r => p_port r = port)));
  mret (bool_decide (0 < n)%nat).

(** ** The [Authenticator] implementation *)
Definition auth_rows (hash : list byte) (t : Tables) : list (Z * string * list byte) :=
  r ← filter (fun r => t_hash r = hash /\ t_revoked r = None) (tokens t);
  u ← filter (fun u => u_id u = t_user r) (users t);
  [(u_id u, u_name u, t_hash r)].
Definition reg_authenticate (token : string) (c : Conn) : option AuthedUser * Conn :=
  let hash := hash_token token in
  match query (fun t => head (auth_rows hash t)) c with
  | (Ok (Some (uid, nm, h)), c') =>
      (if decide (h = hash) then Some (mkAuthedUser uid nm) else None, c')
  | (_, c') => (None, c')
  end.
Definition reg_owns_hostname (uid : Z) (hostname : string) (c : Conn) : bool * Conn :=
  match label_of hostname with
  | None => (false, c)
  | Some label =>
      let (r, c') := query (fun t => head (filter
        (fun r => h_label r = label /\ h_user r = uid) (hostnames t))) c in
      (unwrap_or false (map_ok (fun o => bool_decide (is_Some o)) r), c')
  end.
Definition reg_owns_port (uid port : Z) (c : Conn) : bool * Conn :=
  let (r, c') := query (fun t => head (filter
    (fun r => p_port r = port /\ p_user r = uid) (tcp_ports t))) c in
  (unwrap_or false (map_ok (fun o => bool_decide (is_Some o)) r), c').
Definition reg_claim_hostname (uid : Z) (hostname : string) (max : option Z) (c : Conn) :
    ClaimOutcome * Conn :=
  match label_of hostname with
  | None => (Invalid "not a valid hostname under this relay"%string, c)
  | Some label =>
      let (r, c') := claim_label_capped uid label max c in
      (match r with
       | Ok _ => Owned
       | Err (LabelTaken _) => Taken
       | Err CapExceededErr => CapExceeded
       | Err (InvalidLabel _ why) => Invalid why
       | Err _ => Error
       end, c')
  end.
(** [unwrap_or_else]: a failed query yields the default. *)
Definition or_else {A : Type} (d : A) (m : st Conn RegistryError A) (c : Conn) : A * Conn :=
  let (r, c') := m c in (unwrap_or d r, c').

#[export] Instance RegistryAuth : Authenticator Conn := {
  authenticate := reg_authenticate;
  owns_hostname := reg_owns_hostname;
  owns_port := reg_owns_port;
  claim_hostname := reg_claim_hostname;
  owned_hostnames uid := or_else [] (reg_owned_hostnames uid);
  owned_ports uid := or_else [] (reg_owned_ports uid);
  release_hostname uid hostname := or_else false (release_hostname_owned uid hostname);
  release_port uid port := or_else false (release_port_owned uid port);
}.
End registry.
