(* ===== verification/RegistryInv.v ===== *)
(** * The registry's integrity (crates/relay/src/registry.rs)

    Every operation of the registry, run against an engine that may fail at any
    statement, keeps the tables well formed and leaves no transaction open.
    The file also gives the generic lemma behind it: a property of the tables
    kept by each statement is kept by every operation. *)
From S2P Require Import Prelude Auth Registry.
Local Open Scope Z_scope.

(** ** Lists of rows *)
Lemma next_rowid_above (ids : list Z) (x : Z) : x ∈ ids -> x < next_rowid ids.
Proof.
  unfold next_rowid. induction ids as [|y ids IH]; [by intros ?%not_elem_of_nil|].
  intros [->|Hx]%elem_of_cons; cbn; [lia|]. specialize (IH Hx). lia.
Qed.
Lemma next_rowid_fresh (ids : list Z) : next_rowid ids ∉ ids.
Proof. intros H%next_rowid_above. lia. Qed.
Lemma NoDup_fmap_snoc {R K : Type} (f : R -> K) (l : list R) (r : R) :
  NoDup (f <$> l) -> f r ∉ (f <$> l) -> NoDup (f <$> (l ++ [r])).
Proof.
  intros Hl Hr. rewrite fmap_app. apply NoDup_app. split; [done|]. split; [|apply NoDup_singleton].
  intros k Hk ->%list_elem_of_singleton. done.
Qed.
Lemma NoDup_fmap_filter {R K : Type} (f : R -> K) (P : R -> Prop) `{!forall r, Decision (P r)}
    (l : list R) :
  NoDup (f <$> l) -> NoDup (f <$> filter P l).
Proof. intros Hl. eapply sublist_NoDup; [done|]. apply fmap_sublist, sublist_filter. Qed.
Lemma Forall_filtered {R : Type} (Q P : R -> Prop) `{!forall r, Decision (P r)} (l : list R) :
  Forall Q l -> Forall Q (filter P l).
Proof.
  rewrite !Forall_forall. intros Hl r Hr. apply list_elem_of_filter in Hr. apply Hl. tauto.
Qed.
#[export] Hint Resolve Forall_filtered next_rowid_fresh NoDup_fmap_snoc NoDup_fmap_filter : etun.

(** With unique keys, the first row with a key is the row with that key. *)
Lemma head_filter_unique {R K : Type} `{EqDecision K} (f : R -> K) (k : K) (l : list R) (r : R) :
  NoDup (f <$> l) ->
  head (filter (fun r => f r = k) l) = Some r <-> r ∈ l /\ f r = k.
Proof.
  intros Hn. split.
  - intros Hh. apply head_Some_elem_of, list_elem_of_filter in Hh. tauto.
  - intros [Hr <-]. induction l as [|y l IH]; [by apply not_elem_of_nil in Hr|].
    rewrite fmap_cons, NoDup_cons in Hn. destruct Hn as [Hy Hn]. rewrite filter_cons.
    destruct (decide (f y = f r)) as [E|E].
    + apply elem_of_cons in Hr as [->|Hr]; [done|]. exfalso. apply Hy. rewrite E.
      by apply list_elem_of_fmap_2.
    + apply elem_of_cons in Hr as [->|Hr]; [done|auto].
Qed.
Lemma head_filter_None {R K : Type} `{EqDecision K} (f : R -> K) (k : K) (l : list R) :
  head (filter (fun r => f r = k) l) = None <-> k ∉ (f <$> l).
Proof.
  rewrite head_None. split.
  - intros Hf Hk. apply list_elem_of_fmap in Hk as (r & -> & Hr).
    assert (Hin : r ∈ filter (fun r' => f r' = f r) l) by (by apply list_elem_of_filter).
    rewrite Hf in Hin. by apply not_elem_of_nil in Hin.
  - intros Hk. apply elem_of_nil_inv. intros r [<- Hr]%list_elem_of_filter.
    apply Hk. by apply list_elem_of_fmap_2.
Qed.

(** ** Properties of the tables kept by a transaction *)
Section tables.
Context `{!Engine} (TP : Tables -> Prop).

(** Between operations, and inside a transaction. *)
Definition idle (c : Conn) : Prop := TP (db c) /\ saved c = None.
Definition in_tx (c : Conn) : Prop := TP (db c) /\ (forall t, saved c = Some t -> TP t).
Definition preserves {A : Type} (run : Z -> Tables -> result SqlError A * Tables) : Prop :=
  forall now t, TP t -> TP (run now t).2.

Lemma statement_idle {A : Type} (run : Z -> Tables -> result SqlError A * Tables) :
  preserves run -> keeps idle (q (statement run)).
Proof using.
  intros Hp. apply keeps_map_err. intros c [Ht Hs]. unfold statement, idle.
  destruct (engine_fails (tick c)); [done|]. specialize (Hp (clock (tick c)) (db c) Ht).
  by destruct (run _ _).
Qed.
Lemma statement_in_tx {A : Type} (run : Z -> Tables -> result SqlError A * Tables) :
  preserves run -> keeps in_tx (statement run).
Proof using.
  intros Hp c [Ht Hs]. unfold statement, in_tx.
  destruct (engine_fails (tick c)); [done|]. specialize (Hp (clock (tick c)) (db c) Ht).
  by destruct (run _ _).
Qed.
Lemma q_in_tx {A : Type} (m : st Conn SqlError A) : keeps in_tx m -> keeps in_tx (q m).
Proof using. apply keeps_map_err. Qed.
Lemma query_preserves {A : Type} (f : Tables -> A) :
  preserves (fun _ t => (Ok (f t), t)).
Proof using. by intros now t Ht. Qed.
Lemma commit_in_tx : keeps in_tx commit.
Proof using. intros c [Ht Hs]. unfold commit, in_tx. by destruct (engine_fails (tick c)). Qed.
Lemma generate_token_idle : keeps idle generate_token.
Proof using. by intros c. Qed.
Lemma transaction_idle {A : Type} (body : st Conn RegistryError A) :
  keeps in_tx body -> keeps idle (transaction body).
Proof using.
  intros Hb c [Ht Hs]. unfold transaction, begin_tx.
  destruct (engine_fails (tick c)); [done|].
  specialize (Hb (mkConn (db c) (Some (db c)) (S (tick c)))).
  destruct (body _) as [r c2]. cbn in *. destruct Hb as [H1 H2].
  { split; [done|]. by intros t [= <-]. }
  unfold drop_tx, idle. destruct (saved c2) as [t|] eqn:E; [|done]. auto.
Qed.
End tables.
#[export] Hint Resolve statement_idle statement_in_tx q_in_tx query_preserves commit_in_tx
  generate_token_idle transaction_idle : etun.

(** Walks an operation down to its statements. *)
Ltac keeps_step :=
  lazymatch goal with
  | |- keeps _ (mret _) => apply keeps_ret
  | |- keeps _ (fail _) => apply keeps_fail
  | |- keeps _ (st_fail _) => apply keeps_fail
  | |- keeps _ (transaction _) => apply transaction_idle
  | |- keeps _ (q _) => first [apply statement_idle | apply q_in_tx, statement_in_tx]
  | |- keeps _ commit => apply commit_in_tx
  | |- keeps _ generate_token => apply generate_token_idle
  | |- keeps _ (_ ≫= _) => apply keeps_bind; [|intros ?]
  | |- keeps _ (match ?x with _ => _ end) => destruct x
  | |- keeps _ (let (_, _) := ?x in _) => destruct x
  | |- preserves _ (fun _ t => (Ok _, t)) => apply query_preserves
  end.
Ltac keeps_tac := repeat keeps_step.

(** ** Well-formed tables *)
Record tables_wf (t : Tables) : Prop := {
  wf_user_id : NoDup (u_id <$> users t);
  wf_user_name : NoDup (u_name <$> users t);
  wf_tok_id : NoDup (t_id <$> tokens t);
  wf_tok_hash : NoDup (t_hash <$> tokens t);
  wf_tok_user : Forall (fun r => t_user r ∈ u_id <$> users t) (tokens t);
  wf_host_id : NoDup (h_id <$> hostnames t);
  wf_host_label : NoDup (h_label <$> hostnames t);
  wf_host_user : Forall (fun r => h_user r ∈ u_id <$> users t) (hostnames t);
  wf_host_valid : Forall (fun r => is_ok (validate_label (h_label r)) = true) (hostnames t);
  wf_port : NoDup (p_port <$> tcp_ports t);
  wf_port_user : Forall (fun r => p_user r ∈ u_id <$> users t) (tcp_ports t);
}.

Lemma user_exists_true (id : Z) (t : Tables) :
  user_exists id t = true <-> id ∈ u_id <$> users t.
Proof. apply bool_decide_eq_true. Qed.

Ltac wf_split :=
  split; cbn; try done; try (apply NoDup_fmap_snoc; [done|cbn; solve [done | apply next_rowid_fresh]]).

Lemma user_added {R : Type} (f : R -> Z) (us : list UserRow) (u : UserRow) (l : list R) :
  Forall (fun r => f r ∈ u_id <$> us) l -> Forall (fun r => f r ∈ u_id <$> (us ++ [u])) l.
Proof. intros Hl. eapply Forall_impl; [exact Hl|]. intros r Hr. rewrite fmap_app, elem_of_app. by left. Qed.
Lemma insert_user_wf (nm : string) : preserves tables_wf (insert_user nm).
Proof.
  intros now t []. unfold insert_user. case_bool_decide; [done|]. wf_split.
  all: by apply user_added.
Qed.
Lemma insert_token_wf (uid : Z) (hash : list byte) (label : option string) :
  preserves tables_wf (insert_token uid hash label).
Proof.
  intros now t []. unfold insert_token. case_bool_decide; [done|]. cbn [orb].
  destruct (user_exists uid t) eqn:E; [|done]. apply user_exists_true in E.
  wf_split. by apply Forall_app_2; [|apply Forall_singleton].
Qed.
Lemma insert_hostname_wf (uid : Z) (label : string) :
  is_ok (validate_label label) = true -> preserves tables_wf (insert_hostname uid label).
Proof.
  intros Hl now t []. unfold insert_hostname. case_bool_decide; [done|]. cbn [orb].
  destruct (user_exists uid t) eqn:E; [|done]. apply user_exists_true in E.
  wf_split; by apply Forall_app_2; [|apply Forall_singleton].
Qed.
Lemma insert_port_wf (port uid : Z) : preserves tables_wf (insert_port port uid).
Proof.
  intros now t []. unfold insert_port. case_bool_decide; [done|]. cbn [orb].
  destruct (user_exists uid t) eqn:E; [|done]. apply user_exists_true in E.
  wf_split.
  - rewrite insert_by_perm. cbn. by constructor.
  - rewrite insert_by_perm. by constructor.
Qed.
Lemma delete_tokens_wf (P : TokRow -> Prop) `{!forall r, Decision (P r)} :
  preserves tables_wf (fun _ => delete_tokens P).
Proof. intros now t []. split; cbn; auto with etun. Qed.
Lemma delete_hostnames_wf (P : HostRow -> Prop) `{!forall r, Decision (P r)} :
  preserves tables_wf (fun _ => delete_hostnames P).
Proof. intros now t []. split; cbn; auto with etun. Qed.
Lemma delete_ports_wf (P : PortRow -> Prop) `{!forall r, Decision (P r)} :
  preserves tables_wf (fun _ => delete_ports P).
Proof. intros now t []. split; cbn; auto with etun. Qed.

Lemma user_kept {R : Type} (f : R -> Z) (id : Z) (us : list UserRow) (l : list R) :
  Forall (fun r => f r ∈ u_id <$> us) l -> id ∉ f <$> l ->
  Forall (fun r => f r ∈ u_id <$> filter (fun u => ~ u_id u = id) us) l.
Proof.
  intros Hl Hid. rewrite Forall_forall in *. intros r Hr.
  destruct (proj1 (list_elem_of_fmap _ _ _) (Hl r Hr)) as (u & Hu & Hin).
  rewrite Hu. apply list_elem_of_fmap_2, list_elem_of_filter. split; [|done].
  intros He. apply Hid. rewrite <- He, <- Hu. by apply list_elem_of_fmap_2.
Qed.
Lemma delete_user_wf (id : Z) : preserves tables_wf (fun _ => delete_user id).
Proof.
  intros now t []. unfold delete_user. repeat case_bool_decide; try done. cbn.
  split; cbn; auto using user_kept with etun.
Qed.
Lemma revoke_row_same (P : TokRow -> Prop) `{!forall r, Decision (P r)} (now : Z) (r : TokRow) :
  t_id (revoke_row P now r) = t_id r /\ t_hash (revoke_row P now r) = t_hash r /\
  t_user (revoke_row P now r) = t_user r.
Proof. unfold revoke_row. by case_decide. Qed.
Lemma revoke_where_wf (P : TokRow -> Prop) `{!forall r, Decision (P r)} :
  preserves tables_wf (revoke_where P).
Proof.
  intros now t []. split; cbn; try done.
  - rewrite <- list_fmap_compose. erewrite list_fmap_ext; [done|]. intros i r _. apply revoke_row_same.
  - rewrite <- list_fmap_compose. erewrite list_fmap_ext; [done|]. intros i r _. apply revoke_row_same.
  - apply Forall_fmap. eapply Forall_impl; [done|]. intros r Hr. cbn.
    by destruct (revoke_row_same P now r) as (_ & _ & ->).
Qed.
#[export] Hint Resolve insert_user_wf insert_token_wf insert_hostname_wf insert_port_wf
  delete_tokens_wf delete_hostnames_wf delete_ports_wf delete_user_wf revoke_where_wf : etun.

(** ** Every operation *)
Inductive RegOp :=
  | OpLookupUser (nm : string) | OpAddUser (nm : string) | OpListUsers
  | OpRemoveUser (nm : string) (force : bool)
  | OpProvision (nm : string) | OpRotate (nm : string)
  | OpReleaseUser (nm : string) (release_ports : bool)
  | OpCount (uid : Z) | OpOwnedHosts (uid : Z) | OpOwnedPorts (uid : Z)
  | OpReleaseHost (uid : Z) (fqdn : string) | OpReleasePort (uid port : Z)
  | OpClaim (uid : Z) (label : string) (max : option Z)
  | OpPrune (uid cap : Z) | OpOverCap (uid cap : Z)
  | OpCreateToken (user : string) (label : option string)
  | OpListTokens (user : option string) | OpRevoke (id : Z)
  | OpAddHost (label user : string) | OpListHosts (user : option string)
  | OpRemoveHost (label : string)
  | OpAddPort (port : Z) (user : string) | OpListPorts | OpRemovePort (port : Z)
  | OpAuthenticate (token : string) | OpOwnsHost (uid : Z) (fqdn : string)
  | OpOwnsPort (uid port : Z).

Section ops.
Context `{!Engine} (domain : string).

Definition run_reg (op : RegOp) (c : Conn) : Conn :=
  match op with
  | OpLookupUser nm => (lookup_user_id nm c).2
  | OpAddUser nm => (add_user nm c).2
  | OpListUsers => (list_users c).2
  | OpRemoveUser nm force => (remove_user nm force c).2
  | OpProvision nm => (provision_user_token nm c).2
  | OpRotate nm => (rotate_user_token nm c).2
  | OpReleaseUser nm rp => (release_user_hostnames nm rp c).2
  | OpCount uid => (count_owned_resources uid c).2
  | OpOwnedHosts uid => (reg_owned_hostnames domain uid c).2
  | OpOwnedPorts uid => (reg_owned_ports uid c).2
  | OpReleaseHost uid fqdn => (release_hostname_owned domain uid fqdn c).2
  | OpReleasePort uid port => (release_port_owned uid port c).2
  | OpClaim uid label max => (claim_label_capped uid label max c).2
  | OpPrune uid cap => (prune_owned_to_cap uid cap c).2
  | OpOverCap uid cap => (owned_over_cap uid cap c).2
  | OpCreateToken user label => (create_token user label c).2
  | OpListTokens user => (list_tokens user c).2
  | OpRevoke id => (revoke_token id c).2
  | OpAddHost label user => (add_hostname label user c).2
  | OpListHosts user => (list_hostnames user c).2
  | OpRemoveHost label => (remove_hostname label c).2
  | OpAddPort port user => (add_port port user c).2
  | OpListPorts => (list_ports c).2
  | OpRemovePort port => (remove_port port c).2
  | OpAuthenticate token => (reg_authenticate token c).2
  | OpOwnsHost uid fqdn => (reg_owns_hostname domain uid fqdn c).2
  | OpOwnsPort uid port => (reg_owns_port uid port c).2
  end.

(** A query only consumes an interaction. *)
Lemma query_db {A : Type} (f : Tables -> A) (c : Conn) :
  db (query f c).2 = db c /\ saved (query f c).2 = saved c /\
  (forall a, (query f c).1 = Ok a -> a = f (db c)).
Proof using.
  unfold query, statement. destruct (engine_fails (tick c)); cbn; [done|].
  split_and!; [done..|]. by intros a [= <-].
Qed.
Lemma reads_db (op : RegOp) (c : Conn) :
  match op with
  | OpAuthenticate _ | OpOwnsHost _ _ | OpOwnsPort _ _ =>
      db (run_reg op c) = db c /\ saved (run_reg op c) = saved c
  | _ => True
  end.
Proof using.
  destruct op as [| | | | | | | | | | | | | | | | | | | | | | | |token|uid fqdn|uid port]; try done; cbn.
  - unfold reg_authenticate. match goal with |- context [query ?f c] => destruct (query_db f c) as (H1 & H2 & _) end.
    destruct (query _ c) as [[[[[? ?] ?]|]|] c']; done.
  - unfold reg_owns_hostname. destruct (label_of domain fqdn); [|done].
    match goal with |- context [query ?f c] => destruct (query_db f c) as (H1 & H2 & _) end.
    by destruct (query _ c).
  - unfold reg_owns_port.
    match goal with |- context [query ?f c] => destruct (query_db f c) as (H1 & H2 & _) end.
    by destruct (query _ c).
Qed.

Lemma over_cap_keeps (TP : Tables -> Prop) (uid cap : Z) : keeps (idle TP) (over_cap uid cap).
Proof using. unfold over_cap. keeps_tac. Qed.
Lemma delete_each_keeps {K : Type} (TP : Tables -> Prop)
    (stmt : K -> Tables -> result SqlError nat * Tables) (ks : list K) :
  (forall k, preserves TP (fun _ => stmt k)) -> keeps (in_tx TP) (delete_each stmt ks).
Proof using. intros Hp. induction ks; cbn [delete_each]; keeps_tac; auto. Qed.
Lemma prune_keeps (TP : Tables -> Prop) (uid cap : Z) :
  (forall label, preserves TP (fun _ => delete_hostnames
     (fun r => h_label r = label /\ h_user r = uid))) ->
  (forall port, preserves TP (fun _ => delete_ports
     (fun r => p_port r = port /\ p_user r = uid))) ->
  keeps (idle TP) (prune_owned_to_cap uid cap).
Proof using.
  intros Hh Hp. unfold prune_owned_to_cap. apply keeps_bind; [apply over_cap_keeps|].
  intros [[|h hs] [|p ps]]; keeps_tac; by apply delete_each_keeps.
Qed.
Lemma claim_keeps (TP : Tables -> Prop) (uid : Z) (label : string) (max : option Z) :
  (is_ok (validate_label label) = true -> preserves TP (insert_hostname uid label)) ->
  keeps (idle TP) (claim_label_capped uid label max).
Proof using.
  intros Hi. unfold claim_label_capped. destruct (validate_label label) eqn:E; keeps_tac.
  intros c Hc. pose proof (statement_in_tx TP _ (Hi eq_refl) c Hc) as Hs.
  destruct (statement (insert_hostname uid label) c) as [[?|[]] c']; [|done|done].
  assert (Hk : keeps (in_tx TP) (commit ;; mret (M:=st Conn RegistryError) true)) by keeps_tac. by apply Hk.
Qed.

(** The statements an operation may write with keep [TP]. *)
Definition op_writes (TP : Tables -> Prop) (op : RegOp) : Prop :=
  match op with
  | OpAddUser nm => preserves TP (insert_user nm)
  | OpRemoveUser _ _ =>
      (forall id, preserves TP (fun _ => delete_tokens (fun r => t_user r = id))) /\
      (forall id, preserves TP (fun _ => delete_hostnames (fun r => h_user r = id))) /\
      (forall id, preserves TP (fun _ => delete_ports (fun r => p_user r = id))) /\
      (forall id, preserves TP (fun _ => delete_user id))
  | OpProvision nm =>
      preserves TP (insert_user nm) /\ (forall id h l, preserves TP (insert_token id h l))
  | OpRotate nm =>
      preserves TP (insert_user nm) /\ (forall id h l, preserves TP (insert_token id h l)) /\
      (forall id, preserves TP (revoke_where (fun r => t_user r = id)))
  | OpReleaseUser _ _ =>
      (forall id, preserves TP (fun _ => delete_hostnames (fun r => h_user r = id))) /\
      (forall id, preserves TP (fun _ => delete_ports (fun r => p_user r = id)))
  | OpReleaseHost uid _ => forall label, preserves TP (fun _ => delete_hostnames
      (fun r => h_label r = label /\ h_user r = uid))
  | OpReleasePort uid port => preserves TP (fun _ => delete_ports
      (fun r => p_port r = port /\ p_user r = uid))
  | OpClaim uid label _ =>
      is_ok (validate_label label) = true -> preserves TP (insert_hostname uid label)
  | OpPrune uid _ =>
      (forall label, preserves TP (fun _ => delete_hostnames
         (fun r => h_label r = label /\ h_user r = uid))) /\
      (forall port, preserves TP (fun _ => delete_ports
         (fun r => p_port r = port /\ p_user r = uid)))
  | OpCreateToken _ l => forall id h, preserves TP (insert_token id h l)
  | OpRevoke id => preserves TP (revoke_where (fun r => t_id r = id))
  | OpAddHost label _ =>
      is_ok (validate_label label) = true -> forall id, preserves TP (insert_hostname id label)
  | OpRemoveHost label => preserves TP (fun _ => delete_hostnames (fun r => h_label r = label))
  | OpAddPort port _ => forall id, preserves TP (insert_port port id)
  | OpRemovePort port => preserves TP (fun _ => delete_ports (fun r => p_port r = port))
  | _ => True
  end.

(** A property of the tables kept by the statements an operation writes with
    is kept by the operation, on every path. *)
Lemma run_reg_keeps (TP : Tables -> Prop) (op : RegOp) (c : Conn) :
  op_writes TP op -> idle TP c -> idle TP (run_reg op c).
Proof using.
  intros Hop Hc. pose proof (reads_db op c) as Hr.
  assert (Hid : db (run_reg op c) = db c /\ saved (run_reg op c) = saved c ->
                idle TP (run_reg op c)) by (unfold idle; intros [-> ->]; apply Hc).
  destruct op; try (by apply Hid); clear Hr Hid; cbn [run_reg op_writes] in *;
    match goal with |- idle _ (?m c).2 => cut (keeps (idle TP) m); [by intros Hk; apply Hk|] end;
    first [ apply over_cap_keeps | by apply claim_keeps | by apply prune_keeps; apply Hop | idtac ].
  all: cbv delta [lookup_user_id add_user list_users remove_user provision_user_token
    rotate_user_token release_user_hostnames count_owned_resources reg_owned_hostnames
    reg_owned_ports release_hostname_owned release_port_owned create_token list_tokens
    revoke_token add_hostname list_hostnames remove_hostname add_port list_ports remove_port
    Registry.user_id query exec]; cbv beta.
  all: try match goal with |- context [validate_label ?l] => destruct (validate_label l) eqn:E end.
  all: keeps_tac; solve [apply Hop; by rewrite ?E].
Qed.

Lemma run_reg_wf (op : RegOp) (c : Conn) :
  idle tables_wf c -> idle tables_wf (run_reg op c).
Proof using. apply run_reg_keeps. destruct op; cbn; auto 6 with etun. Qed.
End ops.
