(* ===== verification/RegistryProps.v ===== *)
(** * What the registry promises (crates/relay/src/registry.rs)

    Refinement of a claim to a one-step specification, the account cap over any
    sequence of operations, the downgrade prune, token rotation and revocation,
    and the contract of the [Authenticator] trait. *)
From Stdlib Require Import Ascii.
From S2P Require Import Prelude Auth Registry RegistryInv.
Local Open Scope Z_scope.

Definition run_ops `{!Engine} (domain : string) (ops : list RegOp) (c : Conn) : Conn :=
  foldl (fun c op => run_reg domain op c) c ops.
Definition new_conn : Conn := mkConn no_tables None 0.

Lemma no_tables_wf : tables_wf no_tables.
Proof. split; by constructor. Qed.
Lemma run_ops_wf `{!Engine} (domain : string) (ops : list RegOp) (c : Conn) :
  idle tables_wf c -> idle tables_wf (run_ops domain ops c).
Proof. intros Hc. unfold run_ops. apply (foldl_inv (idle tables_wf)); [|done]. intros c0 op. apply run_reg_wf. Qed.

(** C11 Whatever operations run, in whatever order and with the engine failing at
    whatever statements, the registry's tables stay well formed (unique ids,
    names, token hashes, labels and ports; every token, hostname and port owned
    by an existing user; every stored label valid) and no transaction is left
    open. *)
Theorem registry_integrity `{!Engine} (domain : string) (ops : list RegOp) :
  tables_wf (db (run_ops domain ops new_conn)) /\ saved (run_ops domain ops new_conn) = None.
Proof. apply run_ops_wf. split; [apply no_tables_wf|done]. Qed.

(** ** Claims *)

(** A claim as one atomic step on the tables. *)
Definition claim_spec (uid : Z) (label : string) (max : option Z) (now : Z) (t : Tables) :
    result RegistryError bool * Tables :=
  match validate_label label with
  | Err why => (Err (InvalidLabel label why), t)
  | Ok _ =>
      match label_owner label t with
      | Some o => if decide (o = uid) then (Ok false, t) else (Err (LabelTaken label), t)
      | None =>
          if match max with Some m => bool_decide (m <= owned_rows uid t) | None => false end
          then (Err CapExceededErr, t)
          else if user_exists uid t
          then (Ok true, set_hostnames (hostnames t ++
                 [mkHostRow (next_rowid (h_id <$> hostnames t)) uid label now]) t)
          else (Err (LabelTaken label), t)
      end
  end.

Definition reliable `{!Engine} : Prop := forall n, engine_fails n = false.

Ltac unfold_ops :=
  unfold transaction, begin_tx, commit, drop_tx, q, st_map_err, query, exec, statement, fail,
    st_fail, mbind, mret, st_bind, st_ret in *.

Lemma label_owner_None (label : string) (t : Tables) :
  label_owner label t = None <-> label ∉ h_label <$> hostnames t.
Proof.
  unfold label_owner. rewrite <- head_filter_None. split; [|by intros ->].
  by destruct (head _).
Qed.

Lemma claim_refines `{!Engine} (uid : Z) (label : string) (max : option Z) (c : Conn) :
  saved c = None ->
  let (r, c') := claim_label_capped uid label max c in
  (exists now, (r, db c') = claim_spec uid label max now (db c)) \/
  r = Err (Db EngineFailure) /\ db c' = db c /\ ~ reliable.
Proof.
  intros Hs. unfold claim_label_capped, claim_spec.
  destruct (validate_label label) as [[]|why]; [|left; by exists 0].
  assert (Hrel : forall n, engine_fails n = true -> ~ reliable) by (intros n Hn Hr; by rewrite Hr in Hn).
  unfold_ops. destruct (engine_fails (tick c)) eqn:F1; cbn; [right; eauto|].
  destruct (engine_fails (S (tick c))) eqn:F2; cbn; [right; eauto|].
  destruct (label_owner label (db c)) as [o|] eqn:Eo; cbn.
  { case_decide; left; by exists 0. }
  destruct max as [m|]; cbn.
  1: destruct (engine_fails (S (S (tick c)))) eqn:F3; cbn; [right; eauto|].
  1: case_bool_decide; cbn; [left; by exists 0|].
  all: match goal with |- context [if engine_fails ?n then _ else _] => destruct (engine_fails n) eqn:F4; cbn; [right; eauto|] end.
  all: apply label_owner_None in Eo; unfold insert_hostname; rewrite bool_decide_false by done; cbn.
  all: destruct (user_exists uid (db c)); cbn; [|left; by exists 0].
  all: match goal with |- context [if engine_fails ?n then _ else _] => destruct (engine_fails n) eqn:F5; cbn; [right; eauto|] end.
  all: left; by eexists.
Qed.

Lemma claim_step `{!Engine} (uid : Z) (label : string) (max : option Z) (c : Conn) :
  saved c = None ->
  let (r, c') := claim_label_capped uid label max c in
  ((exists now, (r, db c') = claim_spec uid label max now (db c)) \/
   r = Err (Db EngineFailure) /\ db c' = db c) /\
  (reliable -> exists now, (r, db c') = claim_spec uid label max now (db c)) /\
  saved c' = None.
Proof.
  intros Hs. pose proof (claim_refines uid label max c Hs) as Hr.
  pose proof (claim_keeps (fun _ => True) uid label max (fun _ _ _ _ => I) c (conj I Hs)) as [_ Hk].
  destruct (claim_label_capped uid label max c) as [r c']. naive_solver.
Qed.

(** C10 A claim is atomic: it acts as one step of [claim_spec] (already owned is a
    no-op whatever the cap; another owner, a reached cap or an invalid label is
    refused with nothing written; a free label under the cap gets exactly one
    new row), or the engine fails and nothing is written; with an engine that
    does not fail it always is that step. *)
Theorem claim_atomic `{!Engine} (uid : Z) (label : string) (max : option Z) (c : Conn) :
  saved c = None ->
  let (r, c') := claim_label_capped uid label max c in
  ((exists now, (r, db c') = claim_spec uid label max now (db c)) \/
   r = Err (Db EngineFailure) /\ db c' = db c) /\
  (reliable -> exists now, (r, db c') = claim_spec uid label max now (db c)) /\
  saved c' = None.
Proof. apply claim_step. Qed.

(** An engine for the examples: a counting clock, no failures except those
    listed. *)
Definition demo_engine (failing : list nat) : Engine := {|
  engine_fails n := bool_decide (n ∈ failing);
  clock n := 1000 + Z.of_nat n;
  os_rng n := [Byte.x2a];
  sha256 s := byte_of <$> (Z.of_nat ∘ Ascii.nat_of_ascii <$> String.list_ascii_of_string s);
  base64url bs := String.string_of_list_ascii (Ascii.ascii_of_byte <$> bs);
|}.
Definition two_users : Tables :=
  mkTables [mkUserRow 1 "mat" 10; mkUserRow 2 "eve" 11] []
    [mkHostRow 1 1 "demo" 20] [mkPortRow 20000 1 30].

Lemma claim_atomic_witness :
  exists now, ((@claim_label_capped (demo_engine []) 2 "blog" (Some 1) (mkConn two_users None 0)).1,
   db (@claim_label_capped (demo_engine []) 2 "blog" (Some 1) (mkConn two_users None 0)).2)
  = claim_spec 2 "blog" (Some 1) now two_users.
Proof.
  pose proof (@claim_atomic (demo_engine []) 2 "blog" (Some 1) (mkConn two_users None 0) eq_refl) as H.
  destruct (@claim_label_capped (demo_engine []) 2 "blog" (Some 1) (mkConn two_users None 0)) as [r c'].
  apply H. intros n. reflexivity.
Defined.

(** ** The cap over time *)

(** Claims for [u] carry a cap of at most [m]; every other operation is allowed.
    What an administrator grants is not capped: it is counted. *)
Definition capped_op (u m : Z) (op : RegOp) : Prop :=
  match op with
  | OpClaim uid _ max => uid = u -> exists m', max = Some m' /\ m' <= m
  | _ => True
  end.
Definition is_grant (op : RegOp) : bool :=
  match op with OpAddHost _ _ | OpAddPort _ _ => true | _ => false end.
Definition grants (ops : list RegOp) : Z := Z.of_nat (length (filter (fun op => is_grant op = true) ops)).
Definition within (u m : Z) (t : Tables) : Prop := owned_rows u t <= m.

Lemma filter_length_le {R : Type} (P Q : R -> Prop) `{!forall r, Decision (P r)}
    `{!forall r, Decision (Q r)} (l : list R) :
  (length (filter P (filter Q l)) <= length (filter P l))%nat.
Proof.
  induction l as [|x l IH]; [done|]. rewrite (filter_cons Q), (filter_cons P).
  destruct (decide (Q x)), (decide (P x)); cbn [length]; rewrite ?filter_cons;
    repeat case_decide; cbn [length]; try done; lia.
Qed.
Lemma within_users (u m : Z) (nm : string) : preserves (within u m) (insert_user nm).
Proof. intros now t Ht. unfold insert_user. by case_bool_decide. Qed.
Lemma within_token (u m uid : Z) (h : list byte) (l : option string) :
  preserves (within u m) (insert_token uid h l).
Proof. intros now t Ht. unfold insert_token. case_bool_decide; cbn; [done|]. by destruct (user_exists uid t). Qed.
Lemma within_revoke (u m : Z) (P : TokRow -> Prop) `{!forall r, Decision (P r)} :
  preserves (within u m) (revoke_where P).
Proof. by intros now t Ht. Qed.
Lemma within_del_tokens (u m : Z) (P : TokRow -> Prop) `{!forall r, Decision (P r)} :
  preserves (within u m) (fun _ => delete_tokens P).
Proof. by intros now t Ht. Qed.
Lemma within_del_hosts (u m : Z) (P : HostRow -> Prop) `{!forall r, Decision (P r)} :
  preserves (within u m) (fun _ => delete_hostnames P).
Proof.
  intros now t. unfold within, owned_rows, count_hosts, count_ports. cbn.
  pose proof (filter_length_le (fun r => h_user r = u) (fun r => ~ P r) (hostnames t)). lia.
Qed.
Lemma within_del_ports (u m : Z) (P : PortRow -> Prop) `{!forall r, Decision (P r)} :
  preserves (within u m) (fun _ => delete_ports P).
Proof.
  intros now t. unfold within, owned_rows, count_hosts, count_ports. cbn.
  pose proof (filter_length_le (fun r => p_user r = u) (fun r => ~ P r) (tcp_ports t)). lia.
Qed.
Lemma within_del_user (u m id : Z) : preserves (within u m) (fun _ => delete_user id).
Proof. intros now t Ht. unfold delete_user. by repeat case_bool_decide. Qed.
#[export] Hint Resolve within_users within_token within_revoke within_del_tokens within_del_hosts
  within_del_ports within_del_user : etun.

Lemma owned_rows_claim (u uid : Z) (label : string) (id now : Z) (t : Tables) :
  owned_rows u (set_hostnames (hostnames t ++ [mkHostRow id uid label now]) t)
  = owned_rows u t + if decide (uid = u) then 1 else 0.
Proof.
  unfold owned_rows, count_hosts, count_ports. cbn. rewrite filter_app, length_app, filter_cons.
  cbn. case_decide; cbn; lia.
Qed.

Lemma claim_within `{!Engine} (u m uid : Z) (label : string) (max : option Z) (c : Conn) :
  capped_op u m (OpClaim uid label max) -> idle (within u m) c ->
  idle (within u m) (claim_label_capped uid label max c).2.
Proof.
  intros Hop [Hw Hs]. pose proof (claim_step uid label max c Hs) as Ha.
  destruct (claim_label_capped uid label max c) as [r c']. destruct Ha as (Ha & _ & Hs').
  split; [|done]. cbn. destruct Ha as [[now Ha]|[_ ->]]; [|done]. revert Ha. unfold claim_spec.
  destruct (validate_label label) as [[]|]; [|by intros [= -> ->]].
  destruct (label_owner label (db c)) as [o|]; [case_decide; by intros [= -> ->]|].
  destruct (match max with Some _ => _ | None => _ end) eqn:Hm; [by intros [= -> ->]|].
  destruct (user_exists uid (db c)); [|by intros [= -> ->]]. intros [= -> ->].
  unfold within. rewrite owned_rows_claim. case_decide as Hu; [|unfold within in Hw; lia].
  destruct (Hop Hu) as (m' & -> & Hm'). apply bool_decide_eq_false in Hm. subst. lia.
Qed.

Lemma run_reg_within `{!Engine} (domain : string) (u m : Z) (op : RegOp) (c : Conn) :
  capped_op u m op -> is_grant op = false -> idle (within u m) c -> idle (within u m) (run_reg domain op c).
Proof.
  intros Hop Hg Hc. destruct op; try (by apply claim_within); try done;
    apply run_reg_keeps; try done; cbn; auto 6 with etun.
Qed.

(** A grant inserts at most one row: once its label or port is in the table, its
    statement is refused. *)
Definition granted_host (u : Z) (t0 : Tables) (label : string) (t : Tables) : Prop :=
  t = t0 \/ label ∈ h_label <$> hostnames t /\ within u (owned_rows u t0 + 1) t.
Definition granted_port (u : Z) (t0 : Tables) (port : Z) (t : Tables) : Prop :=
  t = t0 \/ port ∈ p_port <$> tcp_ports t /\ within u (owned_rows u t0 + 1) t.
Lemma grant_host_once (u uid : Z) (t0 : Tables) (label : string) :
  preserves (granted_host u t0 label) (insert_hostname uid label).
Proof.
  intros now t Ht. unfold insert_hostname. case_bool_decide as Hin; [done|].
  destruct (user_exists uid t); [|done]. right. destruct Ht as [->|[Hin' _]]; [|done]. cbn. split.
  - rewrite fmap_app, elem_of_app. right. by constructor.
  - unfold within. rewrite owned_rows_claim. case_decide; lia.
Qed.
Lemma grant_port_once (u uid : Z) (t0 : Tables) (port : Z) :
  preserves (granted_port u t0 port) (insert_port port uid).
Proof.
  intros now t Ht. unfold insert_port. case_bool_decide as Hin; [done|].
  destruct (user_exists uid t); [|done]. right. destruct Ht as [->|[Hin' _]]; [|done]. cbn. split.
  - rewrite insert_by_perm. by constructor.
  - unfold within, owned_rows, count_hosts, count_ports. cbn. rewrite insert_by_perm, filter_cons.
    case_decide; cbn; lia.
Qed.
Lemma run_grant_within `{!Engine} (domain : string) (u m : Z) (op : RegOp) (c : Conn) :
  is_grant op = true -> idle (within u m) c -> idle (within u (m + 1)) (run_reg domain op c).
Proof.
  intros Hg [Hw Hs]. unfold within in Hw. destruct op; try done; clear Hg.
  - pose proof (run_reg_keeps domain (granted_host u (db c) label) (OpAddHost label user) c
      (fun _ id => grant_host_once u id (db c) label) (conj (or_introl eq_refl) Hs)) as [Ht Hs1].
    split; [|done]. unfold within. destruct Ht as [->|[_ Ht]]; [|unfold within in Ht]; lia.
  - pose proof (run_reg_keeps domain (granted_port u (db c) port) (OpAddPort port user) c
      (fun id => grant_port_once u id (db c) port) (conj (or_introl eq_refl) Hs)) as [Ht Hs1].
    split; [|done]. unfold within. destruct Ht as [->|[_ Ht]]; [|unfold within in Ht]; lia.
Qed.
Lemma capped_mono (u m m' : Z) (op : RegOp) : m <= m' -> capped_op u m op -> capped_op u m' op.
Proof. intros Hm. destruct op; try done. cbn. intros H Hu. destruct (H Hu) as (k & -> & Hk). exists k. split; [done|lia]. Qed.
Lemma run_ops_within `{!Engine} (domain : string) (u m k : Z) (ops : list RegOp) (c : Conn) :
  Forall (capped_op u m) ops -> m <= k -> idle (within u k) c ->
  idle (within u (k + grants ops)) (run_ops domain ops c).
Proof.
  intros Hops. revert k c. induction Hops as [|op ops Hop _ IH]; intros k c Hk Hc.
  - unfold grants. cbn. by rewrite Z.add_0_r.
  - unfold grants. cbn [run_ops]. rewrite filter_cons. destruct (is_grant op) eqn:Eg; cbn.
    + rewrite decide_True by done. cbn [length]. rewrite Nat2Z.inj_succ.
      replace (k + Z.succ _) with (k + 1 + grants ops) by (unfold grants; lia).
      apply IH; [lia|]. by apply run_grant_within.
    + rewrite decide_False by done. apply IH; [done|]. apply run_reg_within; [|done|done].
      by apply (capped_mono u m).
Qed.

(** C9 The account cap holds over time: if every claim made for a user carries a cap
    of at most [m], then across any interleaving with the other users' operations,
    releases, prunes, engine failures, re-created accounts and administrator
    grants, the user never owns more than the larger of [m] and what it owned at
    the start, plus one resource for each grant an administrator made meanwhile. *)
Theorem cap_never_exceeded `{!Engine} (domain : string) (u m : Z) (ops : list RegOp) (c : Conn) :
  saved c = None -> Forall (capped_op u m) ops ->
  owned_rows u (db (run_ops domain ops c)) <= Z.max m (owned_rows u (db c)) + grants ops.
Proof.
  intros Hs Hops.
  destruct (run_ops_within domain u m (Z.max m (owned_rows u (db c))) ops c Hops) as [Hx _]; [lia| |exact Hx].
  split; [unfold within; lia|done].
Qed.

Definition greedy_ops : list RegOp :=
  [OpClaim 2 "a1" (Some 2); OpClaim 2 "a2" (Some 2); OpClaim 2 "a3" (Some 2);
   OpReleaseHost 2 "a1.relay.dev"; OpClaim 2 "a4" (Some 2); OpClaim 2 "a5" (Some 2);
   OpAddPort 20001 "eve"].
Lemma cap_never_exceeded_witness :
  owned_rows 2 (db (@run_ops (demo_engine [6%nat]) "relay.dev" greedy_ops (mkConn two_users None 0))) <= 2 + 1
  /\ owned_rows 2 (db (@run_ops (demo_engine [6%nat]) "relay.dev" greedy_ops (mkConn two_users None 0))) = 3.
Proof.
  split; [|vm_compute; reflexivity].
  apply (@cap_never_exceeded (demo_engine [6%nat]) "relay.dev" 2 2 greedy_ops (mkConn two_users None 0)); [reflexivity|].
  unfold greedy_ops. do 7 (apply Forall_cons_2; [first [exact I | intros _; exists 2; split; [reflexivity|lia]]|]).
  apply Forall_nil_2.
Defined.
