(* ===== verification/RegistryAuth.v ===== *)
(** * The registry behind the [Authenticator] trait

    Labels and names, who owns what, and the proof that the registry meets the
    contract sessions are verified against. *)
From Stdlib Require Import Ascii.
From S2P Require Import Prelude Auth Registry RegistryInv RegistryProps.
Local Open Scope Z_scope.

(** ** Labels *)
Lemma str_forall_impl (p p' : ascii -> bool) (s : string) :
  (forall c, p c = true -> p' c = true) -> str_forall p s = true -> str_forall p' s = true.
Proof.
  intros Hp. induction s as [|c s IH]; [done|]. cbn. rewrite !andb_true_iff. intuition.
Qed.
Lemma ok_inner_no_dot (c : ascii) : ok_inner c = true -> negb (Ascii.eqb "."%char c) = true.
Proof. by destruct c as [[] [] [] [] [] [] [] []]. Qed.
Lemma valid_label_shape (label : string) :
  is_ok (validate_label label) = true ->
  is_empty label = false /\ contains_char "."%char label = false.
Proof.
  unfold validate_label. destruct label as [|c s]; [done|].
  case_decide; [done|]. destruct (negb (ok_edge c) || _); [done|].
  destruct (str_forall ok_inner (String c s)) eqn:E; [|done]. intros _. split; [done|].
  unfold contains_char. rewrite (str_forall_impl _ _ _ ok_inner_no_dot E). done.
Qed.
Lemma label_of_Some (domain fqdn label : string) :
  label_of domain fqdn = Some label <->
  fqdn = label +:+ suffix domain /\ is_ok (validate_label label) = true.
Proof.
  unfold label_of. split.
  - intros (l & Hl & Hk)%bind_Some. destruct (is_empty l || contains_char "."%char l); [done|].
    destruct (is_ok (validate_label l)) eqn:E; [|done]. injection Hk as <-.
    apply strip_suffix_Some in Hl. done.
  - intros [-> Hv]. rewrite strip_suffix_app. cbn [mbind option_bind].
    destruct (valid_label_shape label Hv) as [-> ->]. cbn [orb]. by rewrite Hv.
Qed.

(** A name resolves to a label exactly when it is that label directly under
    the relay's apex and the label is valid and not reserved; so names and
    labels correspond one to one, and a deeper, foreign, reserved or malformed
    name resolves to nothing. *)
Theorem label_of_exact (domain fqdn label : string) :
  label_of domain fqdn = Some label <->
  fqdn = label +:+ suffix domain /\ is_ok (validate_label label) = true.
Proof. apply label_of_Some. Qed.

(** ** Owners *)
Section owners.
Context `{!Engine} (domain : string).

Definition fqdn_owner (t : Tables) (h : string) : option Z :=
  label ← label_of domain h; label_owner label t.

#[export] Instance RegistryView : OwnerView Conn := {
  auth_inv := idle tables_wf;
  host_owner c := fqdn_owner (db c);
  port_owner c p := port_holder p (db c);
  owned_count c u := owned_rows u (db c);
}.

Lemma label_owner_Some (label : string) (u : Z) (t : Tables) :
  tables_wf t ->
  label_owner label t = Some u <->
  exists r, r ∈ hostnames t /\ h_label r = label /\ h_user r = u.
Proof using.
  intros Ht. unfold label_owner. rewrite fmap_Some. split.
  - intros (r & Hh & ->). apply head_filter_unique in Hh; [|by apply wf_host_label]. naive_solver.
  - intros (r & Hr & Hl & <-). exists r. split; [|done].
    apply head_filter_unique; [by apply wf_host_label|done].
Qed.
Lemma port_holder_Some (port u : Z) (t : Tables) :
  tables_wf t ->
  port_holder port t = Some u <->
  exists r, r ∈ tcp_ports t /\ p_port r = port /\ p_user r = u.
Proof using.
  intros Ht. unfold port_holder. rewrite fmap_Some. split.
  - intros (r & Hh & ->). apply head_filter_unique in Hh; [|by apply wf_port]. naive_solver.
  - intros (r & Hr & Hl & <-). exists r. split; [|done].
    apply head_filter_unique; [by apply wf_port|done].
Qed.

Lemma same_db_owners (c c' : Conn) : db c' = db c -> same_owners c c'.
Proof using. intros E. split_and!; intros x; cbn; by rewrite E. Qed.
Lemma same_db_inv (c c' : Conn) :
  db c' = db c -> saved c' = saved c -> idle tables_wf c -> idle tables_wf c'.
Proof using. unfold idle. by intros -> ->. Qed.

(** A lookup through [or_else] is a query. *)
Lemma or_else_query {A : Type} (d : A) (f : Tables -> A) (c : Conn) :
  idle tables_wf c ->
  idle tables_wf (or_else d (q (query f)) c).2 /\ same_owners c (or_else d (q (query f)) c).2.
Proof using.
  intros Hc. destruct (query_db f c) as (H1 & H2 & _). unfold or_else, q, st_map_err.
  destruct (query f c) as [r c']. split; [by eapply same_db_inv|by apply same_db_owners].
Qed.
Lemma head_filter_is_Some {R : Type} (P : R -> Prop) `{!forall r, Decision (P r)} (l : list R) :
  is_Some (head (filter P l)) -> exists r, r ∈ l /\ P r.
Proof using.
  intros [r Hr]. apply head_Some_elem_of, list_elem_of_filter in Hr. exists r. tauto.
Qed.
Lemma owns_query {R : Type} (P : R -> Prop) `{!forall r, Decision (P r)} (tab : Tables -> list R)
    (c : Conn) (r : result SqlError (option R)) (c' : Conn) :
  query (fun t => head (filter P (tab t))) c = (r, c') ->
  db c' = db c /\ saved c' = saved c /\
  (unwrap_or false (map_ok (fun o => bool_decide (is_Some o)) r) = true ->
   exists x, x ∈ tab (db c) /\ P x).
Proof using.
  intros Hq. destruct (query_db (fun t => head (filter P (tab t))) c) as (H1 & H2 & H3).
  rewrite Hq in H1, H2, H3. split_and!; try done. destruct r as [o|e]; [|done]. cbn.
  rewrite (H3 o eq_refl). intros Hs%bool_decide_eq_true. exact (head_filter_is_Some P _ Hs).
Qed.

(** Claims through the trait. *)
Lemma fqdn_owner_claim (t : Tables) (h label h' : string) (id uid now : Z) :
  tables_wf t -> label_of domain h = Some label -> label_owner label t = None ->
  fqdn_owner (set_hostnames (hostnames t ++ [mkHostRow id uid label now]) t) h'
  = if decide (h' = h) then Some uid else fqdn_owner t h'.
Proof using.
  intros Ht Hl Hn. unfold fqdn_owner, label_owner in *. cbn [hostnames set_hostnames].
  destruct (label_of domain h') as [l'|] eqn:El'; cbn [mbind option_bind].
  - rewrite filter_app, filter_cons. cbn [h_label]. destruct (decide (label = l')) as [->|Hne].
    + apply label_of_Some in Hl as [-> _], El' as [-> _]. rewrite decide_True by done.
      destruct (filter _ (hostnames t)); [done|]. cbn in Hn. done.
    + rewrite app_nil_r. rewrite decide_False; [done|]. congruence.
  - rewrite decide_False; [done|]. congruence.
Qed.
Lemma claim_law (uid : Z) (h : string) (max : option Z) (c : Conn) :
  idle tables_wf c ->
  let s' := (reg_claim_hostname domain uid h max c).2 in
  idle tables_wf s' /\
  match (reg_claim_hostname domain uid h max c).1 with
  | Owned =>
      (forall p, port_owner s' p = port_owner c p) /\
      (host_owner c h = Some uid /\ same_owners c s' \/
       host_owner c h = None /\
       (forall h', host_owner s' h' = if decide (h' = h) then Some uid else host_owner c h') /\
       (forall u', owned_count s' u' = owned_count c u' + if decide (u' = uid) then 1 else 0) /\
       match max with Some m => owned_count s' uid <= m | None => True end)
  | _ => same_owners c s'
  end.
Proof using.
  intros Hc. unfold reg_claim_hostname.
  destruct (label_of domain h) as [label|] eqn:El; [|split; [done|apply same_owners_refl]].
  pose proof (run_reg_wf domain (OpClaim uid label max) c Hc) as Hw. cbn in Hw.
  pose proof (claim_step uid label max c (proj2 Hc)) as Ha.
  destruct (claim_label_capped uid label max c) as [r c']. cbn in *. split; [done|].
  destruct Ha as ([[now Ha]|[-> Hd]] & _ & _); [|by apply same_db_owners].
  unfold claim_spec in Ha. destruct (validate_label label) as [[]|why];
    [|injection Ha as -> Hd; by apply same_db_owners].
  destruct (label_owner label (db c)) as [o|] eqn:Eo.
  { case_decide; injection Ha as -> Hd; [|by apply same_db_owners]. subst.
    pose proof (same_db_owners c c' Hd) as Hso. split; [apply Hso|]. left. split; [|done].
    unfold fqdn_owner. by rewrite El. }
  destruct (match max with Some _ => _ | None => _ end) eqn:Hm;
    [injection Ha as -> Hd; by apply same_db_owners|].
  destruct (user_exists uid (db c)); injection Ha as -> Hd; [|by apply same_db_owners].
  rewrite Hd. split; [done|]. right. split; [unfold fqdn_owner; by rewrite El|].
  split; [intros h'; apply (fqdn_owner_claim _ h); done || apply Hc|].
  split; [intros u'; rewrite owned_rows_claim; by repeat case_decide|].
  destruct max as [m|]; [|done]. rewrite owned_rows_claim, decide_True by done.
  apply bool_decide_eq_false in Hm. lia.
Qed.

(** Releases through the trait. *)
Lemma filter_negb_id {R : Type} (P : R -> Prop) `{!forall r, Decision (P r)} (l : list R) :
  length (filter P l) = 0%nat -> filter (fun r => ~ P r) l = l.
Proof using.
  intros Hl. induction l as [|x l IH]; [done|]. rewrite filter_cons in Hl |- *.
  destruct (decide (P x)); cbn in Hl; [done|].
  destruct (decide (~ P x)); [|done]. f_equal. auto.
Qed.
Lemma label_owner_delete (t : Tables) (l l' : string) (uid : Z) :
  tables_wf t ->
  label_owner l' (set_hostnames (filter (fun r => ~ (h_label r = l /\ h_user r = uid)) (hostnames t)) t)
  = if decide (l' = l /\ label_owner l t = Some uid) then None else label_owner l' t.
Proof using.
  intros Ht. apply option_eq. intros u.
  rewrite label_owner_Some by (apply (delete_hostnames_wf
    (fun r => h_label r = l /\ h_user r = uid) 0 t Ht)).
  cbn [hostnames set_hostnames]. setoid_rewrite list_elem_of_filter.
  destruct (decide (l' = l /\ label_owner l t = Some uid)) as [[-> Hl]|Hn].
  - split; [|done]. intros (r & [Hr1 Hr2] & <- & <-). exfalso.
    assert (Hu : label_owner (h_label r) t = Some (h_user r)) by (apply label_owner_Some; eauto).
    rewrite Hu in Hl. naive_solver.
  - rewrite label_owner_Some by done. split; [naive_solver|].
    intros (r & Hr & <- & <-). exists r. split_and!; try done. intros [<- <-].
    apply Hn. split; [done|]. apply label_owner_Some; eauto.
Qed.
Lemma port_holder_delete (t : Tables) (l l' : Z) (uid : Z) :
  tables_wf t ->
  port_holder l' (set_tcp_ports (filter (fun r => ~ (p_port r = l /\ p_user r = uid)) (tcp_ports t)) t)
  = if decide (l' = l /\ port_holder l t = Some uid) then None else port_holder l' t.
Proof using.
  intros Ht. apply option_eq. intros u.
  rewrite port_holder_Some by (apply (delete_ports_wf
    (fun r => p_port r = l /\ p_user r = uid) 0 t Ht)).
  cbn [tcp_ports set_tcp_ports]. setoid_rewrite list_elem_of_filter.
  destruct (decide (l' = l /\ port_holder l t = Some uid)) as [[-> Hl]|Hn].
  - split; [|done]. intros (r & [Hr1 Hr2] & <- & <-). exfalso.
    assert (Hu : port_holder (p_port r) t = Some (p_user r)) by (apply port_holder_Some; eauto).
    rewrite Hu in Hl. naive_solver.
  - rewrite port_holder_Some by done. split; [naive_solver|].
    intros (r & Hr & <- & <-). exists r. split_and!; try done. intros [<- <-].
    apply Hn. split; [done|]. apply port_holder_Some; eauto.
Qed.

Lemma filter_pos {R : Type} (P : R -> Prop) `{!forall r, Decision (P r)} (l : list R) :
  (0 < length (filter P l))%nat -> exists r, r ∈ l /\ P r.
Proof using.
  destruct (filter P l) as [|r k] eqn:E; cbn; [lia|]. intros _. exists r.
  assert (Hr : r ∈ filter P l) by (rewrite E; by constructor).
  apply list_elem_of_filter in Hr. tauto.
Qed.
Lemma filter_pos_2 {R : Type} (P : R -> Prop) `{!forall r, Decision (P r)} (l : list R) (r : R) :
  r ∈ l -> P r -> (0 < length (filter P l))%nat.
Proof using.
  intros Hr HP. assert (Hin : r ∈ filter P l) by (by apply list_elem_of_filter).
  destruct (filter P l); [by apply not_elem_of_nil in Hin|cbn; lia].
Qed.
Lemma owned_rows_delete_hosts (P : HostRow -> Prop) `{!forall r, Decision (P r)} (u : Z) (t : Tables) :
  owned_rows u (set_hostnames (filter P (hostnames t)) t) <= owned_rows u t.
Proof using.
  unfold owned_rows, count_hosts, count_ports. cbn.
  pose proof (filter_length_le (fun r => h_user r = u) P (hostnames t)). lia.
Qed.
Lemma owned_rows_delete_ports (P : PortRow -> Prop) `{!forall r, Decision (P r)} (u : Z) (t : Tables) :
  owned_rows u (set_tcp_ports (filter P (tcp_ports t)) t) <= owned_rows u t.
Proof using.
  unfold owned_rows, count_hosts, count_ports. cbn.
  pose proof (filter_length_le (fun r => p_user r = u) P (tcp_ports t)). lia.
Qed.

Lemma release_hostname_owned_law (u : Z) (h : string) (c : Conn) :
  idle tables_wf c ->
  let s' := (or_else false (release_hostname_owned domain u h) c).2 in
  idle tables_wf s' /\ (forall p, port_owner s' p = port_owner c p) /\
  (forall u', owned_count s' u' <= owned_count c u') /\
  if (or_else false (release_hostname_owned domain u h) c).1
  then host_owner c h = Some u /\
       (forall h', host_owner s' h' = if decide (h' = h) then None else host_owner c h')
  else forall h', host_owner s' h' = host_owner c h'.
Proof using.
  intros Hc. pose proof (run_reg_wf domain (OpReleaseHost u h) c Hc) as Hw. cbn in Hw.
  unfold or_else, release_hostname_owned in *.
  destruct (label_of domain h) as [label|] eqn:El; [|done].
  unfold_ops. destruct (engine_fails (tick c)); cbn in *; [done|]. split; [done|].
  split; [done|]. split; [intros u'; apply owned_rows_delete_hosts|].
  assert (Hdel : forall h', fqdn_owner (set_hostnames (filter
      (fun r => ~ (h_label r = label /\ h_user r = u)) (hostnames (db c))) (db c)) h'
    = if decide (h' = h /\ label_owner label (db c) = Some u) then None else fqdn_owner (db c) h').
  { intros h'. unfold fqdn_owner. destruct (label_of domain h') as [l'|] eqn:El'; cbn [mbind option_bind].
    - rewrite label_owner_delete by apply Hc.
      destruct (decide (l' = label /\ _)) as [[-> ?]|Hn]; destruct (decide (h' = h /\ _)) as [[-> ?]|Hn'];
        try done; exfalso; [apply Hn'|apply Hn; split; congruence].
      split; [|done]. apply label_of_Some in El as [-> _], El' as [-> _]. done.
    - by destruct (decide _). }
  case_bool_decide as Hn.
  - apply filter_pos in Hn as (r & Hr & Hl & Hu).
    assert (Ho : label_owner label (db c) = Some u) by (apply label_owner_Some; [apply Hc|eauto]).
    split; [unfold fqdn_owner; by rewrite El|]. intros h'. rewrite Hdel.
    destruct (decide (h' = h)); [rewrite decide_True|rewrite decide_False]; tauto.
  - intros h'. rewrite Hdel. rewrite decide_False; [done|]. intros [-> Ho]. apply Hn.
    apply label_owner_Some in Ho as (r & Hr & Hl & Hu); [|apply Hc].
    by apply (filter_pos_2 _ _ r).
Qed.

Lemma release_port_owned_law (u p : Z) (c : Conn) :
  idle tables_wf c ->
  let s' := (or_else false (release_port_owned u p) c).2 in
  idle tables_wf s' /\ (forall h, host_owner s' h = host_owner c h) /\
  (forall u', owned_count s' u' <= owned_count c u') /\
  if (or_else false (release_port_owned u p) c).1
  then port_owner c p = Some u /\
       (forall p', port_owner s' p' = if decide (p' = p) then None else port_owner c p')
  else forall p', port_owner s' p' = port_owner c p'.
Proof using.
  intros Hc. pose proof (run_reg_wf domain (OpReleasePort u p) c Hc) as Hw. cbn in Hw.
  unfold or_else, release_port_owned in *.
  unfold_ops. destruct (engine_fails (tick c)); cbn in *; [done|]. split; [done|].
  split; [done|]. split; [intros u'; apply owned_rows_delete_ports|].
  case_bool_decide as Hn.
  - apply filter_pos in Hn as (r & Hr & Hl & Hu).
    assert (Ho : port_holder p (db c) = Some u) by (apply port_holder_Some; [apply Hc|eauto]).
    split; [done|]. intros p'. rewrite port_holder_delete by apply Hc.
    destruct (decide (p' = p)); [rewrite decide_True|rewrite decide_False]; tauto.
  - intros p'. rewrite port_holder_delete by apply Hc. rewrite decide_False; [done|].
    intros [-> Ho]. apply Hn. apply port_holder_Some in Ho as (r & Hr & Hl & Hu); [|apply Hc].
    by apply (filter_pos_2 _ _ r).
Qed.

Lemma registry_laws : @AuthenticatorLaws Conn (RegistryAuth domain) RegistryView.
Proof using.
  split.
  - intros tok c Hc. destruct (reads_db domain (OpAuthenticate tok) c) as [H1 H2].
    split; [by eapply same_db_inv|by apply same_db_owners].
  - intros u h c Hc. destruct (reads_db domain (OpOwnsHost u h) c) as [H1 H2].
    split; [by eapply same_db_inv|]. split; [by apply same_db_owners|].
    cbn. unfold reg_owns_hostname. destruct (label_of domain h) as [l|] eqn:El; [|done].
    destruct (query _ c) as [r c'] eqn:Hq. apply owns_query in Hq as (_ & _ & Hq).
    intros (x & Hx & Hl & Hu)%Hq. unfold fqdn_owner. rewrite El. cbn.
    apply label_owner_Some; [apply Hc|eauto].
  - intros u p c Hc. destruct (reads_db domain (OpOwnsPort u p) c) as [H1 H2].
    split; [by eapply same_db_inv|]. split; [by apply same_db_owners|].
    cbn. unfold reg_owns_port. destruct (query _ c) as [r c'] eqn:Hq.
    apply owns_query in Hq as (_ & _ & Hq). intros (x & Hx & Hl & Hu)%Hq.
    apply port_holder_Some; [apply Hc|eauto].
  - intros u h max c. apply claim_law.
  - intros u c. apply or_else_query.
  - intros u c. apply or_else_query.
  - intros u h c. apply release_hostname_owned_law.
  - intros u p c. apply release_port_owned_law.
Qed.
(** The SQLite registry meets the contract sessions rely on, whatever the
    engine does: lookups change no ownership and never claim an ownership that
    is not there; a claim grants exactly a free or already held name and, when
    capped, only below the cap; a release frees exactly a resource its caller
    holds; a failed statement changes nothing. *)
Theorem registry_lawful : @AuthenticatorLaws Conn (RegistryAuth domain) RegistryView.
Proof using. apply registry_laws. Qed.
End owners.
