(* ===== verification/RegistryTokens.v ===== *)
(** * Tokens and accounts of the registry

    Who a bearer token authenticates as, what rotation and revocation leave
    behind, and what removing a user does. *)
From S2P Require Import Prelude Auth Registry RegistryInv RegistryProps.
Local Open Scope Z_scope.

(** A row of [tokens] that is not revoked, joined with its user. *)
Definition valid_token (t : Tables) (hash : list byte) (uid : Z) (nm : string) : Prop :=
  exists r u, r ∈ tokens t /\ t_hash r = hash /\ t_revoked r = None /\
              u ∈ users t /\ u_id u = t_user r /\ uid = u_id u /\ nm = u_name u.

Lemma head_unique {A : Type} (l : list A) (x : A) :
  (forall y, y ∈ l -> y = x) -> head l = Some x <-> x ∈ l.
Proof.
  intros Hu. split; [apply head_Some_elem_of|]. destruct l as [|y l]; [by intros ?%not_elem_of_nil|].
  intros _. cbn. f_equal. apply Hu. by constructor.
Qed.
Lemma unique_row {R K : Type} (f : R -> K) (l : list R) (r r' : R) :
  NoDup (f <$> l) -> r ∈ l -> r' ∈ l -> f r = f r' -> r = r'.
Proof.
  intros Hn Hr Hr' He. induction l as [|y l IH]; [by apply not_elem_of_nil in Hr|].
  rewrite fmap_cons, NoDup_cons in Hn. destruct Hn as [Hy Hn].
  apply elem_of_cons in Hr as [->|Hr], Hr' as [->|Hr']; try done; [| |auto];
    exfalso; apply Hy; [rewrite He|rewrite <- He]; by apply list_elem_of_fmap_2.
Qed.
Lemma auth_rows_elem (hash : list byte) (t : Tables) (uid : Z) (nm : string) (h : list byte) :
  (uid, nm, h) ∈ auth_rows hash t <-> h = hash /\ valid_token t hash uid nm.
Proof.
  unfold auth_rows, valid_token. rewrite list_elem_of_bind. split.
  - intros (r & Hin & [[Hh Hr] Ht]%list_elem_of_filter).
    apply list_elem_of_bind in Hin as (u & Hx & [Hu Hus]%list_elem_of_filter).
    apply list_elem_of_singleton in Hx. simplify_eq. split; [done|]. by exists r, u.
  - intros (-> & r & u & Hr & Hh & Hv & Hu & He & -> & ->). exists r. split; [|by apply list_elem_of_filter].
    apply list_elem_of_bind. exists u. split; [|by apply list_elem_of_filter].
    apply list_elem_of_singleton. congruence.
Qed.
Lemma valid_token_fun (t : Tables) (hash : list byte) (uid uid' : Z) (nm nm' : string) :
  tables_wf t -> valid_token t hash uid nm -> valid_token t hash uid' nm' ->
  uid = uid' /\ nm = nm'.
Proof.
  intros Ht (r & u & H1 & H2 & H3 & H4 & H5 & -> & ->) (r' & u' & K1 & K2 & K3 & K4 & K5 & -> & ->).
  assert (r = r') as <- by (eapply (unique_row t_hash); [apply Ht|done..|congruence]).
  assert (u = u') as <- by (eapply (unique_row u_id); [apply Ht|done..|congruence]). done.
Qed.
Lemma auth_rows_head (hash : list byte) (t : Tables) (uid : Z) (nm : string) (h : list byte) :
  tables_wf t ->
  head (auth_rows hash t) = Some (uid, nm, h) <-> h = hash /\ valid_token t hash uid nm.
Proof.
  intros Ht. rewrite <- auth_rows_elem. split; [apply head_Some_elem_of|].
  intros Hin. apply head_unique; [|done]. intros [[uid' nm'] h'] Hin'.
  apply auth_rows_elem in Hin as [-> Hv], Hin' as [-> Hv'].
  destruct (valid_token_fun t hash uid uid' nm nm' Ht Hv Hv') as [-> ->]. done.
Qed.

Section tokens.
Context `{!Engine}.

Lemma authenticate_sound (tok : string) (c : Conn) (uid : Z) (nm : string) :
  tables_wf (db c) -> (reg_authenticate tok c).1 = Some (mkAuthedUser uid nm) ->
  valid_token (db c) (sha256 tok) uid nm.
Proof using.
  intros Ht. unfold reg_authenticate. destruct (query_db (fun t => head (auth_rows (hash_token tok) t)) c) as (_ & _ & H3).
  destruct (query _ c) as [[[[[uid' nm'] h]|]|] c']; cbn; try done.
  case_decide; [|done]. intros [= -> ->]. specialize (H3 _ eq_refl). symmetry in H3.
  apply auth_rows_head in H3; [|done]. apply H3.
Qed.
Lemma authenticate_complete (tok : string) (c : Conn) (uid : Z) (nm : string) :
  tables_wf (db c) -> engine_fails (tick c) = false ->
  valid_token (db c) (sha256 tok) uid nm ->
  (reg_authenticate tok c).1 = Some (mkAuthedUser uid nm).
Proof using.
  intros Ht Hf Hv. unfold reg_authenticate, query, statement. rewrite Hf.
  rewrite (proj2 (auth_rows_head (hash_token tok) (db c) uid nm _ Ht)) by done.
  by rewrite decide_True.
Qed.

(** A token authenticates as a user only if the user's account exists and has
    an unrevoked row with the token's hash, and then, unless the engine fails,
    it does, as exactly that user. *)
Theorem authenticate_exact (tok : string) (c : Conn) (uid : Z) (nm : string) :
  tables_wf (db c) ->
  ((reg_authenticate tok c).1 = Some (mkAuthedUser uid nm) -> valid_token (db c) (sha256 tok) uid nm) /\
  (engine_fails (tick c) = false -> valid_token (db c) (sha256 tok) uid nm ->
   (reg_authenticate tok c).1 = Some (mkAuthedUser uid nm)).
Proof using.
  intros Ht. split; [by apply authenticate_sound|by apply authenticate_complete].
Qed.

(** A statement that succeeded ran on the tables. *)
Lemma statement_ok {A : Type} (run : Z -> Tables -> result SqlError A * Tables) (c c' : Conn) (a : A) :
  q (statement run) c = (Ok a, c') ->
  saved c' = saved c /\ exists now, run now (db c) = (Ok a, db c').
Proof using.
  unfold_ops. destruct (engine_fails (tick c)); cbn; [done|].
  destruct (run (clock (tick c)) (db c)) as [[a'|e] t] eqn:E; cbn; [|done]. intros [= -> <-].
  split; [done|]. by eexists.
Qed.
Lemma ret_ok {A : Type} (a b : A) (c c' : Conn) :
  (mret a : st Conn RegistryError A) c = (Ok b, c') -> a = b /\ c' = c.
Proof using. unfold mret, st_ret. by intros [= -> ->]. Qed.
End tokens.

(** [run_ok] with the names of this file. *)
Ltac reg_ok H :=
  let a := fresh "a" in let c := fresh "c" in let R := fresh "R" in
  apply st_bind_ok in H as (a & c & R & H).

Section accounts.
Context `{!Engine}.

Lemma query_ok {A : Type} (f : Tables -> A) (c c' : Conn) (a : A) :
  q (query f) c = (Ok a, c') -> saved c' = saved c /\ a = f (db c) /\ db c' = db c.
Proof using. unfold query. intros (Hs & now & [= -> ->])%statement_ok. done. Qed.

Lemma user_by_name_Some (nm : string) (t : Tables) (id : Z) :
  tables_wf t ->
  user_by_name nm t = Some id <-> exists u, u ∈ users t /\ u_name u = nm /\ u_id u = id.
Proof using.
  intros Ht. unfold user_by_name. rewrite fmap_Some. split.
  - intros (u & Hh & ->). apply head_filter_unique in Hh; [|by apply wf_user_name]. naive_solver.
  - intros (u & Hr & Hl & <-). exists u. split; [|done].
    apply head_filter_unique; [by apply wf_user_name|done].
Qed.

(** Find the account or create it. *)
Definition ensure (nm : string) (existing : option Z) : st Conn RegistryError Z :=
  match existing with Some id => mret id | None => q (statement (insert_user nm)) end.
Lemma ensure_ok (nm : string) (c c' : Conn) (id : Z) :
  idle tables_wf c -> ensure nm (user_by_name nm (db c)) c = (Ok id, c') ->
  idle tables_wf c' /\ user_by_name nm (db c') = Some id /\
  tokens (db c') = tokens (db c) /\ hostnames (db c') = hostnames (db c) /\
  tcp_ports (db c') = tcp_ports (db c) /\
  (users (db c') = users (db c) \/
   exists now, users (db c') = users (db c) ++ [mkUserRow id nm now] /\ id ∉ u_id <$> users (db c)).
Proof using.
  intros Hc. unfold ensure. destruct (user_by_name nm (db c)) as [i|] eqn:E.
  - intros [-> ->]%ret_ok. auto 7.
  - intros Hrun. pose proof (statement_idle tables_wf _ (insert_user_wf nm) c Hc) as Hk.
    rewrite Hrun in Hk. cbn in Hk. split; [done|].
    apply statement_ok in Hrun as (Hs & now & Hrun). unfold insert_user in Hrun.
    case_bool_decide; [done|]. injection Hrun as <- Hd. rewrite <- Hd. split.
    + apply user_by_name_Some; [rewrite Hd; apply Hk|].
      exists (mkUserRow (next_rowid (u_id <$> users (db c))) nm now). split; [|done]. cbn.
      apply elem_of_app. right. by constructor.
    + split_and!; try done. right. exists now. split; [done|]. apply next_rowid_fresh.
Qed.

Lemma valid_token_other (t t' : Tables) (hash : list byte) (u : Z) (nm : string) (new : list UserRow) :
  users t' = users t ++ new -> (forall x, x ∈ new -> u_id x <> u) ->
  (forall r, t_user r = u -> r ∈ tokens t' <-> r ∈ tokens t) ->
  valid_token t' hash u nm <-> valid_token t hash u nm.
Proof using.
  intros Hu Hne Htok. unfold valid_token. split.
  - intros (r & x & Hr & Hh & Hv & Hx & He & -> & ->). exists r, x. rewrite Hu, elem_of_app in Hx.
    split_and!; try done; [by apply Htok|]. destruct Hx as [|Hx]; [done|].
    by destruct (Hne x Hx).
  - intros (r & x & Hr & Hh & Hv & Hx & He & -> & ->). exists r, x.
    split_and!; try done; [by apply Htok|]. rewrite Hu, elem_of_app. by left.
Qed.

Lemma revoke_row_user (id now : Z) (r : TokRow) :
  t_user (revoke_row (fun r => t_user r = id) now r) = id ->
  t_revoked (revoke_row (fun r => t_user r = id) now r) <> None.
Proof using. unfold revoke_row. case_decide as Hd; [done|]. intros Hu Hr. by apply Hd. Qed.
Lemma revoke_row_other (id now : Z) (r : TokRow) :
  t_user r <> id -> revoke_row (fun r => t_user r = id) now r = r.
Proof using. intros Hu. unfold revoke_row. rewrite decide_False; [done|]. tauto. Qed.

(** What a successful rotation did to the tables. *)
Lemma rotate_run (nm tok : string) (n : nat) (c c' : Conn) :
  idle tables_wf c -> rotate_user_token nm c = (Ok (tok, n), c') ->
  exists uid now r0 new,
    users (db c') = users (db c) ++ new /\ (forall x, x ∈ new -> u_id x = uid) /\
    user_by_name nm (db c') = Some uid /\
    tokens (db c') = (revoke_row (fun r => t_user r = uid) now <$> tokens (db c)) ++ [r0] /\
    t_user r0 = uid /\ t_hash r0 = sha256 tok /\ t_revoked r0 = None /\
    n = length (filter (fun r => t_user r = uid /\ t_revoked r = None) (tokens (db c))).
Proof using.
  intros Hc Hrun. unfold rotate_user_token in Hrun. reg_ok Hrun.
  apply query_ok in R as (Hs & -> & Hdb). change (match _ with Some id => _ | None => _ end)
    with (ensure nm (user_by_name nm (db c))) in Hrun. reg_ok Hrun.
  assert (Hc0 : idle tables_wf c0) by (unfold idle; by rewrite Hdb, Hs).
  rewrite <- Hdb in R. apply ensure_ok in R as (_ & Huid & Htok & _ & _ & Hus); [|done].
  rewrite Hdb in Htok, Hus. rename a into uid. reg_ok Hrun. reg_ok Hrun. reg_ok Hrun.
  apply ret_ok in Hrun as [Heq ->]. injection Heq as -> ->.
  apply statement_ok in R as (_ & now & R). unfold revoke_where in R. injection R as <- Hd2.
  assert (Hd3 : db c3 = db c2) by (by injection R0 as _ <-).
  apply statement_ok in R1 as (_ & now' & R1). unfold insert_token in R1.
  case_bool_decide; [done|]. destruct (user_exists uid (db c3)); [|done]. cbn in R1.
  injection R1 as _ Hd4. rewrite Hd3, <- Hd2 in Hd4. cbn in Hd4.
  assert (Husers : users (db c4) = users (db c1)) by (by rewrite <- Hd4).
  assert (Hu4 : user_by_name nm (db c4) = Some uid) by (unfold user_by_name; by rewrite Husers).
  assert (Hn : exists new, users (db c4) = users (db c) ++ new /\ forall x, x ∈ new -> u_id x = uid).
  { rewrite Husers. destruct Hus as [->|(now1 & -> & _)]; [exists []|eexists; split; [done|]].
    - rewrite app_nil_r. split; [done|]. by intros x ?%not_elem_of_nil.
    - by intros x ->%list_elem_of_singleton. }
  destruct Hn as (new & Hn1 & Hn2). eexists uid, now, _, new. split_and!; try done.
  - rewrite <- Hd4, <- Htok. done.
  - done.
  - done.
  - done.
  - by rewrite Htok.
Qed.

(** Rotation leaves exactly one working credential: when it returns a token,
    that token's hash is the only one valid for the account (every earlier token
    of it is dead), the count it reports is the number of tokens it killed, and
    no token of any other account changes. *)
Theorem rotate_exact (nm tok : string) (n : nat) (c c' : Conn) :
  idle tables_wf c -> rotate_user_token nm c = (Ok (tok, n), c') ->
  exists uid, user_by_name nm (db c') = Some uid /\
    (forall hash, valid_token (db c') hash uid nm <-> hash = sha256 tok) /\
    n = length (filter (fun r => t_user r = uid /\ t_revoked r = None) (tokens (db c))) /\
    (forall hash u' nm', u' <> uid ->
       valid_token (db c') hash u' nm' <-> valid_token (db c) hash u' nm').
Proof using.
  intros Hc Hrun. pose proof (run_reg_wf EmptyString (OpRotate nm) c Hc) as [Hw _]. cbn in Hw.
  rewrite Hrun in Hw. cbn in Hw.
  destruct (rotate_run nm tok n c c' Hc Hrun) as (uid & now & r0 & new & Hu & Hnew & Hnm & Ht & H1 & H2 & H3 & Hcount).
  exists uid. split_and!; [done| |done|].
  - apply user_by_name_Some in Hnm as (u & Hin & Hnu & Hid); [|done]. intros hash. split.
    + intros (r & x & Hr & <- & Hv & Hx & He & Hxid & _). rewrite Ht, elem_of_app in Hr.
      destruct Hr as [(r1 & -> & _)%list_elem_of_fmap|Hlast%list_elem_of_singleton]; [|by subst r].
      exfalso. apply (revoke_row_user uid now r1); [congruence|done].
    + intros ->. exists r0, u. split_and!; try done; [|congruence].
      rewrite Ht. apply elem_of_app. right. by constructor.
  - intros hash u' nm' Hne. apply (valid_token_other _ _ hash u' nm' new Hu); [intros x Hx; rewrite (Hnew x Hx); congruence|].
    intros r Hr. rewrite Ht, elem_of_app. split.
    + intros [(r1 & -> & Hr1)%list_elem_of_fmap|Hlast%list_elem_of_singleton]; [|subst r; congruence].
      destruct (revoke_row_same (fun r => t_user r = uid) now r1) as (_ & _ & E).
      rewrite revoke_row_other; [done|]. congruence.
    + intros Hin. left. apply list_elem_of_fmap. exists r. split; [|done].
      rewrite revoke_row_other; [done|congruence].
Qed.
(** What a created token did to the tables. *)
Lemma create_token_run (user : string) (label : option string) (c c' : Conn) (tok : string) :
  idle tables_wf c -> create_token user label c = (Ok tok, c') ->
  exists uid, user_by_name user (db c') = Some uid /\ valid_token (db c') (sha256 tok) uid user /\
    forall hash u nm, hash <> sha256 tok ->
      valid_token (db c') hash u nm <-> valid_token (db c) hash u nm.
Proof using.
  intros [Hw _] Hrun. unfold create_token, user_id in Hrun. reg_ok Hrun. reg_ok R.
  apply query_ok in R0 as (_ & -> & Hd1). destruct (user_by_name user (db c)) as [uid|] eqn:Hu; [|done].
  apply ret_ok in R as [<- ->]. reg_ok Hrun. reg_ok Hrun. apply ret_ok in Hrun as [-> ->].
  injection R as _ Hc0. apply statement_ok in R0 as (_ & now & R0). unfold insert_token in R0.
  case_bool_decide; [done|]. destruct (user_exists uid (db c0)); [|done]. cbn in R0.
  injection R0 as _ Hd4. assert (Hd2 : db c0 = db c) by (by rewrite <- Hc0).
  rewrite Hd2 in Hd4. exists uid. rewrite <- Hd4. split; [done|]. split.
  - apply user_by_name_Some in Hu as (u & Hin & <- & <-); [|done]. eexists _, u. cbn.
    split_and!; try done; [apply elem_of_app; right; by apply list_elem_of_singleton|..]; done.
  - intros hash u nm Hne. unfold valid_token. cbn. setoid_rewrite elem_of_app.
    setoid_rewrite list_elem_of_singleton. split.
    + intros (r & x & [Hr| ->] & Hh & Hrest); [by exists r, x|]. by destruct Hne.
    + intros (r & x & Hr & Hrest). exists r, x. by split; [left|].
Qed.
End accounts.

(** An account with one working token, whose plain text is ["k"]. *)
Definition one_token : Tables :=
  mkTables [mkUserRow 1 "mat" 10] [mkTokRow 1 1 (@sha256 (demo_engine []) "k") None 11 None]
    [mkHostRow 1 1 "demo" 12] [].
Lemma one_token_wf : tables_wf one_token.
Proof.
  split; cbn; repeat constructor; try done; by intros ?%not_elem_of_nil.
Qed.

Lemma authenticate_exact_witness :
  (@reg_authenticate (demo_engine []) "k" (mkConn one_token None 0)).1 = Some (mkAuthedUser 1 "mat").
Proof.
  apply (@authenticate_exact (demo_engine []) "k" (mkConn one_token None 0) 1 "mat" one_token_wf).
  - reflexivity.
  - exists (mkTokRow 1 1 (@sha256 (demo_engine []) "k") None 11 None), (mkUserRow 1 "mat" 10).
    split_and!; try reflexivity; by constructor.
Defined.

Definition rotated : result RegistryError (string * nat) * Conn :=
  Eval vm_compute in @rotate_user_token (demo_engine []) "mat" (mkConn one_token None 0).
Lemma rotate_exact_witness :
  exists uid, user_by_name "mat" (db rotated.2) = Some uid /\
    ~ valid_token (db rotated.2) (@sha256 (demo_engine []) "k") uid "mat".
Proof.
  destruct (@rotate_exact (demo_engine []) "mat" "etun_*" 1 (mkConn one_token None 0) rotated.2)
    as (uid & Hu & Hv & _); [split; [apply one_token_wf|reflexivity]|vm_compute; reflexivity|].
  exists uid. split; [exact Hu|]. intros H%Hv. discriminate.
Defined.

(** Rotation is not one transaction: when the engine fails between the
    revocation and the insertion of the new token, [rotate_user_token] returns
    an error and leaves the account with no working credential at all. *)
Theorem rotate_failure_locks_out :
  let E := demo_engine [3%nat] in
  let (r, c') := @rotate_user_token E "mat" (mkConn one_token None 0) in
  r = Err (Db EngineFailure) /\
  (exists nm, valid_token one_token (@sha256 E "k") 1 nm) /\
  (forall hash nm, ~ valid_token (db c') hash 1 nm).
Proof.
  vm_compute. split; [done|]. split.
  - exists "mat". eexists _, _. split_and!; try done; by constructor.
  - intros hash nm (r & u & [->|Hr]%elem_of_cons & Hh & Hv & _); [done|by apply not_elem_of_nil in Hr].
Qed.

(** ** Revocation is permanent *)
Definition revoked_hash (hash : list byte) (t : Tables) : Prop :=
  tables_wf t /\ exists r, r ∈ tokens t /\ t_hash r = hash /\ t_revoked r <> None.
Definition not_remove_user (op : RegOp) : Prop :=
  match op with OpRemoveUser _ _ => False | _ => True end.

Lemma revoked_same_tokens {A : Type} (hash : list byte)
    (run : Z -> Tables -> result SqlError A * Tables) :
  preserves tables_wf run -> (forall now t, tokens (run now t).2 = tokens t) ->
  preserves (revoked_hash hash) run.
Proof.
  intros Hp Ht now t [Hw Hr]. split; [by apply Hp|]. by rewrite Ht.
Qed.
Lemma revoked_insert_token (hash h : list byte) (uid : Z) (l : option string) :
  preserves (revoked_hash hash) (insert_token uid h l).
Proof.
  intros now t [Hw (r & Hr & Hh & Hv)]. split; [by apply insert_token_wf|]. exists r. split; [|done].
  unfold insert_token. case_bool_decide; cbn; [done|]. destruct (user_exists uid t); cbn; [|done].
  apply elem_of_app. by left.
Qed.
Lemma revoked_revoke (hash : list byte) (P : TokRow -> Prop) `{!forall r, Decision (P r)} :
  preserves (revoked_hash hash) (revoke_where P).
Proof.
  intros now t [Hw (r & Hr & Hh & Hv)]. split; [by apply revoke_where_wf|]. exists r. split; [|done].
  cbn. apply list_elem_of_fmap. exists r. split; [|done]. unfold revoke_row.
  rewrite decide_False; [done|]. tauto.
Qed.
Lemma revoked_insert_user (hash : list byte) (nm : string) :
  preserves (revoked_hash hash) (insert_user nm).
Proof.
  apply revoked_same_tokens; [apply insert_user_wf|]. intros now t. unfold insert_user. by case_bool_decide.
Qed.
Lemma revoked_insert_hostname (hash : list byte) (uid : Z) (label : string) :
  is_ok (validate_label label) = true -> preserves (revoked_hash hash) (insert_hostname uid label).
Proof.
  intros Hl. apply revoked_same_tokens; [by apply insert_hostname_wf|]. intros now t.
  unfold insert_hostname. by destruct (_ || _).
Qed.
Lemma revoked_insert_port (hash : list byte) (port uid : Z) :
  preserves (revoked_hash hash) (insert_port port uid).
Proof.
  apply revoked_same_tokens; [apply insert_port_wf|]. intros now t. unfold insert_port. by destruct (_ || _).
Qed.
Lemma revoked_del_hosts (hash : list byte) (P : HostRow -> Prop) `{!forall r, Decision (P r)} :
  preserves (revoked_hash hash) (fun _ => delete_hostnames P).
Proof. by apply revoked_same_tokens; [apply delete_hostnames_wf; apply _|]. Qed.
Lemma revoked_del_ports (hash : list byte) (P : PortRow -> Prop) `{!forall r, Decision (P r)} :
  preserves (revoked_hash hash) (fun _ => delete_ports P).
Proof. by apply revoked_same_tokens; [apply delete_ports_wf; apply _|]. Qed.
#[export] Hint Resolve revoked_insert_token revoked_revoke revoked_insert_user
  revoked_insert_hostname revoked_insert_port revoked_del_hosts revoked_del_ports : etun.

Lemma run_reg_revoked `{!Engine} (domain : string) (hash : list byte) (op : RegOp) (c : Conn) :
  not_remove_user op -> idle (revoked_hash hash) c -> idle (revoked_hash hash) (run_reg domain op c).
Proof. intros Hop. apply run_reg_keeps. destruct op; try done; cbn; auto 6 with etun. Qed.

(** ** Interactions only go up

    [generate_token] mints from the interaction's own randomness, so a token minted
    from now on comes from an interaction that is still to come. *)
Section ticks.
Context `{!Engine}.
Definition minted (n : nat) : string := "etun_" +:+ base64url (os_rng n).
Definition since (n0 : nat) (c : Conn) : Prop := (n0 <= tick c)%nat.
Lemma statement_since {A : Type} (n0 : nat) (run : Z -> Tables -> result SqlError A * Tables) :
  keeps (since n0) (statement run).
Proof using. intros c Hc. unfold statement, since in *. destruct (engine_fails _); [cbn; lia|]. destruct (run _ _). cbn. lia. Qed.
Lemma q_since {A : Type} (n0 : nat) (run : Z -> Tables -> result SqlError A * Tables) :
  keeps (since n0) (q (statement run)).
Proof using. apply keeps_map_err, statement_since. Qed.
Lemma commit_since (n0 : nat) : keeps (since n0) commit.
Proof using. intros c Hc. unfold commit, since in *. destruct (engine_fails _); cbn; lia. Qed.
Lemma generate_since (n0 : nat) : keeps (since n0) generate_token.
Proof using. intros c Hc. unfold since in *. cbn. lia. Qed.
Lemma transaction_since {A : Type} (n0 : nat) (body : st Conn RegistryError A) :
  keeps (since n0) body -> keeps (since n0) (transaction body).
Proof using.
  intros Hb c Hc. unfold transaction, begin_tx, since in *. destruct (engine_fails (tick c)); [cbn; lia|].
  specialize (Hb (mkConn (db c) (Some (db c)) (S (tick c)))). destruct (body _) as [r c2]. cbn in *.
  unfold drop_tx. destruct (saved c2); cbn; apply Hb; lia.
Qed.
Lemma delete_each_since {K : Type} (n0 : nat) (stmt : K -> Tables -> result SqlError nat * Tables) (ks : list K) :
  keeps (since n0) (delete_each stmt ks).
Proof using.
  induction ks; cbn [delete_each]; [apply keeps_ret|]. apply keeps_bind; [apply q_since|]. by intros _.
Qed.
End ticks.
Ltac since_step :=
  lazymatch goal with
  | |- keeps _ (mret _) => apply keeps_ret
  | |- keeps _ (fail _) => apply keeps_fail
  | |- keeps _ (st_fail _) => apply keeps_fail
  | |- keeps _ (transaction _) => apply transaction_since
  | |- keeps _ (delete_each _ _) => apply delete_each_since
  | |- keeps _ (q _) => apply q_since
  | |- keeps _ commit => apply commit_since
  | |- keeps _ generate_token => apply generate_since
  | |- keeps _ (_ ≫= _) => apply keeps_bind; [|intros ?]
  | |- keeps _ (match ?x with _ => _ end) => destruct x
  | |- keeps _ (let (_, _) := ?x in _) => destruct x
  end.

Section revocation.
Context `{!Engine} (domain : string).
Lemma claim_since (n0 : nat) (uid : Z) (label : string) (max : option Z) :
  keeps (since n0) (claim_label_capped uid label max).
Proof using.
  unfold claim_label_capped. repeat since_step.
  intros c Hc. pose proof (statement_since n0 (insert_hostname uid label) c Hc) as Hs.
  destruct (statement (insert_hostname uid label) c) as [[?|[]] c']; [|done|done].
  assert (Hk : keeps (since n0) (commit ;; mret (M:=st Conn RegistryError) true)) by (repeat since_step). by apply Hk.
Qed.
Lemma over_cap_since (n0 : nat) (uid cap : Z) : keeps (since n0) (over_cap uid cap).
Proof using. unfold over_cap, query. cbv zeta. repeat since_step. Qed.
Lemma prune_since (n0 : nat) (uid cap : Z) : keeps (since n0) (prune_owned_to_cap uid cap).
Proof using.
  unfold prune_owned_to_cap. apply keeps_bind; [apply over_cap_since|]. intros [hs ps]. repeat since_step.
Qed.
Lemma query_since {A : Type} (n0 : nat) (f : Tables -> A) : keeps (since n0) (query f).
Proof using. apply statement_since. Qed.
Lemma run_reg_since (n0 : nat) (op : RegOp) (c : Conn) : since n0 c -> since n0 (run_reg domain op c).
Proof using.
  intros Hc. destruct op; cbn [run_reg];
    try match goal with |- since _ (?m c).2 => cut (keeps (since n0) m); [by intros Hk; apply Hk|] end.
  all: try first [apply claim_since | apply prune_since | apply over_cap_since].
  all: try (cbv delta [lookup_user_id add_user list_users remove_user provision_user_token
    rotate_user_token release_user_hostnames count_owned_resources reg_owned_hostnames
    reg_owned_ports release_hostname_owned release_port_owned create_token list_tokens
    revoke_token add_hostname list_hostnames remove_hostname add_port list_ports remove_port
    Registry.user_id query exec]; cbv beta; by repeat since_step).
  - unfold reg_authenticate. match goal with |- context [query ?f c] => pose proof (query_since n0 f c Hc) as Hq end.
    by destruct (query _ c) as [[[[[? ?] ?]|]|] c'].
  - unfold reg_owns_hostname. destruct (label_of domain fqdn); [|done].
    match goal with |- context [query ?f c] => pose proof (query_since n0 f c Hc) as Hq end. by destruct (query _ c).
  - unfold reg_owns_port. match goal with |- context [query ?f c] => pose proof (query_since n0 f c Hc) as Hq end.
    by destruct (query _ c).
Qed.

(** No live row carries the hash, and none minted from [n0] on will. *)
Definition dead_hash (hash : list byte) (t : Tables) : Prop :=
  forall r, r ∈ tokens t -> t_hash r = hash -> t_revoked r <> None.
Definition never_minted (hash : list byte) (n0 : nat) : Prop :=
  forall n, (n0 <= n)%nat -> sha256 (minted n) <> hash.
Definition mints (op : RegOp) : bool :=
  match op with OpProvision _ | OpRotate _ | OpCreateToken _ _ => true | _ => false end.
Lemma dead_same {A : Type} (hash : list byte) (run : Z -> Tables -> result SqlError A * Tables) :
  (forall now t, tokens (run now t).2 = tokens t) -> preserves (dead_hash hash) run.
Proof using. intros Ht now t Hd r. rewrite Ht. apply Hd. Qed.
Lemma dead_insert_user (hash : list byte) (nm : string) : preserves (dead_hash hash) (insert_user nm).
Proof using. apply dead_same. intros now t. unfold insert_user. by case_bool_decide. Qed.
Lemma dead_insert_hostname (hash : list byte) (uid : Z) (label : string) :
  preserves (dead_hash hash) (insert_hostname uid label).
Proof using. apply dead_same. intros now t. unfold insert_hostname. by destruct (_ || _). Qed.
Lemma dead_insert_port (hash : list byte) (port uid : Z) : preserves (dead_hash hash) (insert_port port uid).
Proof using. apply dead_same. intros now t. unfold insert_port. by destruct (_ || _). Qed.
Lemma dead_delete_user (hash : list byte) (id : Z) : preserves (dead_hash hash) (fun _ => delete_user id).
Proof using. apply dead_same. intros now t. unfold delete_user. by repeat case_bool_decide. Qed.
Lemma dead_insert_token (hash h : list byte) (uid : Z) (l : option string) :
  h <> hash -> preserves (dead_hash hash) (insert_token uid h l).
Proof using.
  intros Hne now t Hd. unfold insert_token. destruct (_ || _); [done|]. intros r. cbn.
  rewrite elem_of_app, list_elem_of_singleton. intros [Hr| ->]; [by apply Hd|]. cbn. congruence.
Qed.
Lemma dead_revoke (hash : list byte) (P : TokRow -> Prop) `{!forall r, Decision (P r)} :
  preserves (dead_hash hash) (revoke_where P).
Proof using.
  intros now t Hd r. cbn. intros (r0 & -> & Hr)%list_elem_of_fmap.
  unfold revoke_row. case_decide; cbn; [done|]. by apply Hd.
Qed.
Lemma dead_del_tokens (hash : list byte) (P : TokRow -> Prop) `{!forall r, Decision (P r)} :
  preserves (dead_hash hash) (fun _ => delete_tokens P).
Proof using. intros now t Hd r. cbn. intros [_ Hr]%list_elem_of_filter. by apply Hd. Qed.
Lemma dead_del_hosts (hash : list byte) (P : HostRow -> Prop) `{!forall r, Decision (P r)} :
  preserves (dead_hash hash) (fun _ => delete_hostnames P).
Proof using. by apply dead_same. Qed.
Lemma dead_del_ports (hash : list byte) (P : PortRow -> Prop) `{!forall r, Decision (P r)} :
  preserves (dead_hash hash) (fun _ => delete_ports P).
Proof using. by apply dead_same. Qed.
Hint Resolve dead_insert_user dead_insert_hostname dead_insert_port dead_delete_user dead_revoke
  dead_del_tokens dead_del_hosts dead_del_ports : etun.

(** The minting operations: the token comes from an interaction after [n0]. *)
Definition dead_since (hash : list byte) (n0 : nat) (c : Conn) : Prop := idle (dead_hash hash) c /\ since n0 c.
Lemma dead_statement {A : Type} (hash : list byte) (n0 : nat) (run : Z -> Tables -> result SqlError A * Tables) :
  preserves (dead_hash hash) run -> keeps (dead_since hash n0) (q (statement run)).
Proof using. intros Hp c [Hi Hn]. split; [by apply statement_idle|by apply q_since]. Qed.
Lemma dead_generate {A : Type} (hash : list byte) (n0 : nat) (k : string -> st Conn RegistryError A) :
  (forall n, (n0 <= n)%nat -> keeps (dead_since hash n0) (k (minted n))) ->
  keeps (dead_since hash n0) (generate_token ≫= k).
Proof using.
  intros Hk c [Hi Hn]. unfold mbind, st_bind, generate_token. cbn. apply (Hk (tick c) Hn).
  split; [done|]. unfold since in *. cbn. lia.
Qed.
Lemma insert_minted (hash : list byte) (n0 n : nat) (uid : Z) (l : option string) :
  never_minted hash n0 -> (n0 <= n)%nat ->
  keeps (dead_since hash n0) (q (statement (insert_token uid (hash_token (minted n)) l))).
Proof using. intros Hm Hn. apply dead_statement, dead_insert_token. by apply Hm. Qed.
Lemma mint_dead (hash : list byte) (n0 : nat) (op : RegOp) (c : Conn) :
  never_minted hash n0 -> mints op = true -> dead_since hash n0 c -> dead_since hash n0 (run_reg domain op c).
Proof using.
  intros Hm Hop Hc. destruct op; try done; cbn [run_reg];
    match goal with |- dead_since _ _ (?m c).2 => cut (keeps (dead_since hash n0) m); [by intros Hk; apply Hk|] end;
    unfold provision_user_token, rotate_user_token, create_token, Registry.user_id, query.
  all: repeat lazymatch goal with
    | |- keeps _ (mret _) => apply keeps_ret
    | |- keeps _ (fail _) => apply keeps_fail
    | |- keeps _ (generate_token ≫= _) => apply dead_generate; intros n Hn
    | |- keeps _ (_ ≫= _) => apply keeps_bind; [|intros ?]
    | |- keeps _ (q (statement (insert_token _ _ _))) => by apply insert_minted
    | |- keeps _ (q (statement _)) => apply dead_statement
    | |- keeps _ (match ?x with _ => _ end) => destruct x
    | |- keeps _ (let (_, _) := ?x in _) => destruct x
    end; auto using query_preserves with etun.
Qed.
Lemma run_reg_dead (hash : list byte) (n0 : nat) (op : RegOp) (c : Conn) :
  never_minted hash n0 -> dead_since hash n0 c -> dead_since hash n0 (run_reg domain op c).
Proof using.
  intros Hm Hc. destruct (mints op) eqn:E; [by apply mint_dead|]. destruct Hc as [Hi Hn].
  split; [|by apply run_reg_since]. apply run_reg_keeps; [|done]. destruct op; try done; cbn; auto 8 with etun.
Qed.

Lemma revoked_dead (hash : list byte) (t : Tables) : revoked_hash hash t -> dead_hash hash t.
Proof using.
  intros [Hw (r & Hr & Hh & Hv)] r' Hr' Hh'.
  assert (r' = r) as -> by (eapply (unique_row t_hash); [apply Hw|done..|congruence]). done.
Qed.
Lemma dead_not_authentic (tok : string) (c : Conn) :
  tables_wf (db c) -> dead_hash (sha256 tok) (db c) -> (reg_authenticate tok c).1 = None.
Proof using.
  intros Hw Hd. destruct ((reg_authenticate tok c).1) as [[uid nm]|] eqn:E; [|done].
  apply authenticate_sound in E as (r & u & Hr & Hh & Hv & _); [|done]. by destruct (Hd r Hr Hh).
Qed.
Lemma run_ops_revoked (hash : list byte) (ops : list RegOp) (c : Conn) :
  idle (revoked_hash hash) c -> Forall not_remove_user ops -> idle (revoked_hash hash) (run_ops domain ops c).
Proof using.
  intros Hc Hops. revert c Hc. induction Hops as [|op ops Hop _ IH]; intros c Hc; [done|].
  cbn. apply IH. by apply run_reg_revoked.
Qed.
Lemma run_ops_dead (hash : list byte) (n0 : nat) (ops : list RegOp) (c : Conn) :
  never_minted hash n0 -> dead_since hash n0 c -> dead_since hash n0 (run_ops domain ops c).
Proof using.
  intros Hm. revert c. induction ops as [|op ops IH]; intros c Hc; [done|]. cbn. by apply IH, run_reg_dead.
Qed.

(** C31 Revocation is permanent: once a token's row is revoked, no later sequence of
    registry operations makes the token authenticate again, as anyone, provided
    either that the sequence removes no account (the revoked row then stays, and
    the unique hash keeps a second one out), or that the random generator does not
    return the same token again (an account's removal deletes its revoked rows). *)
Theorem revoked_never_authenticates (tok : string) (ops : list RegOp) (c : Conn) :
  idle (revoked_hash (sha256 tok)) c ->
  Forall not_remove_user ops \/ never_minted (sha256 tok) (tick c) ->
  (reg_authenticate tok (run_ops domain ops c)).1 = None.
Proof using.
  intros Hc [Hops|Hm].
  - destruct (run_ops_revoked _ ops c Hc Hops) as [Hr _].
    apply dead_not_authentic; [apply Hr|by apply revoked_dead].
  - assert (Hw : idle tables_wf c) by (by destruct Hc as [[Hw _] Hs]).
    apply dead_not_authentic; [apply (run_ops_wf domain ops c Hw)|].
    apply (run_ops_dead _ (tick c)); [done|]. split; [|by unfold since].
    destruct Hc as [Hr Hs]. split; [by apply revoked_dead|done].
Qed.
End revocation.

Definition revoked_conn : Conn := (@revoke_token (demo_engine []) 1 (mkConn one_token None 0)).2.
Lemma revoked_conn_ok : idle (revoked_hash (@sha256 (demo_engine []) "k")) revoked_conn.
Proof.
  split; [|reflexivity]. split.
  - exact (proj1 (@run_reg_wf (demo_engine []) EmptyString (OpRevoke 1) (mkConn one_token None 0)
             (conj one_token_wf eq_refl))).
  - vm_compute. eexists. split; [by constructor|]. done.
Qed.
Lemma revoked_never_authenticates_witness :
  (@reg_authenticate (demo_engine []) "k"
     (@run_ops (demo_engine []) "relay.dev" [OpProvision "mat"; OpClaim 1 "blog" None] revoked_conn)).1 = None /\
  (@reg_authenticate (demo_engine []) "k"
     (@run_ops (demo_engine []) "relay.dev" [OpRemoveUser "mat" true; OpProvision "mat"] revoked_conn)).1 = None.
Proof.
  split.
  - apply (@revoked_never_authenticates (demo_engine []) "relay.dev" "k"); [exact revoked_conn_ok|].
    left. repeat constructor.
  - apply (@revoked_never_authenticates (demo_engine []) "relay.dev" "k"); [exact revoked_conn_ok|].
    right. intros n _. vm_compute. discriminate.
Defined.

(** ** Removing a user *)
Definition without_user (id : Z) (t : Tables) : Tables :=
  mkTables (filter (fun r => ~ u_id r = id) (users t)) (filter (fun r => ~ t_user r = id) (tokens t))
    (filter (fun r => ~ h_user r = id) (hostnames t)) (filter (fun r => ~ p_user r = id) (tcp_ports t)).
Definition holdings (id : Z) (t : Tables) : Z :=
  count_tokens id t + count_hosts id t + count_ports id t.

Lemma not_in_filtered {R : Type} (f : R -> Z) (id : Z) (l : list R) :
  bool_decide (id ∈ f <$> filter (fun r => ~ f r = id) l) = false.
Proof.
  apply bool_decide_eq_false. intros (r & -> & [Hr _]%list_elem_of_filter)%list_elem_of_fmap. done.
Qed.

(** Removing a user: on success the account and everything it owned are gone
    and no other row is touched; without [force] an account that still owns
    something is refused untouched; an unknown name is refused; the foreign keys
    never get in the way.  Only an engine failure can end it half-way. *)
Theorem remove_user_exact `{!Engine} (nm : string) (force : bool) (c : Conn) :
  let (r, c') := remove_user nm force c in
  match r with
  | Ok _ => exists id, user_by_name nm (db c) = Some id /\ db c' = without_user id (db c) /\
      (force = false -> holdings id (db c) <= 0)
  | Err (NoSuchUser n) => n = nm /\ user_by_name nm (db c) = None /\ db c' = db c
  | Err (UserNotEmpty n) => n = nm /\ force = false /\ db c' = db c /\
      exists id, user_by_name nm (db c) = Some id /\ 0 < holdings id (db c)
  | Err (Db EngineFailure) => ~ reliable
  | Err _ => False
  end.
Proof.
  assert (Hrel : forall n, engine_fails n = true -> ~ reliable) by (intros n Hn Hr; by rewrite Hr in Hn).
  unfold remove_user, Registry.user_id. unfold_ops.
  destruct (engine_fails (tick c)) eqn:F1; cbn; [eauto|].
  destruct (user_by_name nm (db c)) as [id|] eqn:Eu; cbn; [|done].
  destruct (engine_fails (S (tick c))) eqn:F2; cbn; [eauto|].
  fold (holdings id (db c)).
  destruct (bool_decide (0 < holdings id (db c)) && negb force) eqn:Eb; cbn.
  { apply andb_true_iff in Eb as [Eb Ef]. apply bool_decide_eq_true in Eb.
    destruct force; [done|]. eauto 7. }
  destruct (engine_fails (S (S (tick c)))) eqn:F3; cbn; [eauto|].
  destruct (engine_fails (S (S (S (tick c))))) eqn:F4; cbn; [eauto|].
  destruct (engine_fails (S (S (S (S (tick c)))))) eqn:F5; cbn; [eauto|].
  destruct (engine_fails (S (S (S (S (S (tick c))))))) eqn:F6; cbn; [eauto|].
  unfold delete_user. cbn. rewrite !not_in_filtered. cbn. exists id. split_and!; try done.
  intros ->. rewrite andb_true_r in Eb. apply bool_decide_eq_false in Eb. lia.
Qed.

(** Removing a user is not one transaction: an engine failure part-way returns
    an error with the account still there but its tokens and names deleted. *)
Theorem remove_user_partial :
  let E := demo_engine [4%nat] in
  let (r, c') := @remove_user E "mat" true (mkConn one_token None 0) in
  r = Err (Db EngineFailure) /\ user_by_name "mat" (db c') = Some 1 /\
  tokens (db c') = [] /\ hostnames (db c') = [].
Proof. vm_compute. done. Qed.
