(* ===== verification/RegistryPrune.v ===== *)
(** * The downgrade prune (crates/relay/src/registry.rs, prune_owned_to_cap)

    Which of an account's resources survive a lowered cap. *)
From S2P Require Import Prelude Auth Registry RegistryInv RegistryProps RegistryTokens.
Local Open Scope Z_scope.

#[export] Instance OwnedEntry_eq_dec : EqDecision OwnedEntry.
Proof. solve_decision. Defined.

(** What a user owns, hostnames and ports pooled. *)
Definition host_entries (uid : Z) (t : Tables) : list OwnedEntry :=
  host_entry <$> filter (fun r => h_user r = uid) (hostnames t).
Definition port_entries (uid : Z) (t : Tables) : list OwnedEntry :=
  port_entry <$> filter (fun r => p_user r = uid) (tcp_ports t).
Definition entries (uid : Z) (t : Tables) : list OwnedEntry :=
  host_entries uid t ++ port_entries uid t.
(** Oldest first. *)
Definition by_age (uid : Z) (t : Tables) : list OwnedEntry := sort_by owned_le (entries uid t).
Definition keep_n (cap : Z) : nat := Z.to_nat (Z.max cap 0).
Definition surplus (uid cap : Z) (t : Tables) : list OwnedEntry := drop (keep_n cap) (by_age uid t).
Definition ports_u16 (t : Tables) : Prop := Forall (fun r => 0 <= p_port r < 65536) (tcp_ports t).

Lemma owned_le_total (a b : OwnedEntry) : owned_le a b = true \/ owned_le b a = true.
Proof. unfold owned_le. rewrite !orb_true_iff, !andb_true_iff, !Z.ltb_lt, !Z.eqb_eq, !Z.leb_le. lia. Qed.
Lemma owned_le_trans (a b c : OwnedEntry) :
  owned_le a b = true -> owned_le b c = true -> owned_le a c = true.
Proof. unfold owned_le. rewrite !orb_true_iff, !andb_true_iff, !Z.ltb_lt, !Z.eqb_eq, !Z.leb_le. lia. Qed.

Lemma length_entries (uid : Z) (t : Tables) : Z.of_nat (length (entries uid t)) = owned_rows uid t.
Proof. unfold entries, host_entries, port_entries, owned_rows, count_hosts, count_ports.
  rewrite length_app, !length_fmap. lia. Qed.

Lemma over_cap_ok `{!Engine} (uid cap : Z) (c c' : Conn) (hs : list string) (ps : list Z) :
  over_cap uid cap c = (Ok (hs, ps), c') ->
  db c' = db c /\ saved c' = saved c /\
  hs = hosts_of (surplus uid cap (db c)) /\ ps = ports_of (surplus uid cap (db c)).
Proof.
  unfold over_cap. intros Hrun. reg_ok Hrun. apply query_ok in R as (S1 & -> & D1).
  reg_ok Hrun. apply query_ok in R as (S2 & -> & D2). rewrite D1 in Hrun.
  fold (host_entries uid (db c)) (port_entries uid (db c)) in Hrun. cbv zeta in Hrun.
  fold (entries uid (db c)) in Hrun. fold (by_age uid (db c)) (keep_n cap) in Hrun.
  fold (surplus uid cap (db c)) in Hrun.
  case_decide as Hle; apply ret_ok in Hrun as [Heq ->].
  - injection Heq as <- <-. unfold surplus. rewrite drop_ge by (unfold keep_n; lia).
    split_and!; congruence || done.
  - injection Heq as <- <-. split_and!; congruence || done.
Qed.

(** ** The deletions *)
Lemma filter_id {R : Type} (P : R -> Prop) `{!forall r, Decision (P r)} (l : list R) :
  (forall r, r ∈ l -> P r) -> filter P l = l.
Proof.
  induction l as [|x l IH]; intros Hp; [done|]. rewrite filter_cons, decide_True by (apply Hp; by constructor).
  f_equal. apply IH. intros r Hr. apply Hp. by constructor.
Qed.
Section deletions.
Context {R K : Type} `{EqDecision K} (f : R -> K) (g : R -> Z) (uid : Z).
Lemma survivors_nil (l : list R) : filter (fun r => ~ (f r ∈ [] /\ g r = uid)) l = l.
Proof using. apply filter_id. intros r _ [Hr _]. by apply not_elem_of_nil in Hr. Qed.
Lemma survivors_cons (k : K) (ks : list K) (l : list R) :
  filter (fun r => ~ (f r ∈ ks /\ g r = uid)) (filter (fun r => ~ (f r = k /\ g r = uid)) l)
  = filter (fun r => ~ (f r ∈ k :: ks /\ g r = uid)) l.
Proof using.
  rewrite list_filter_filter. apply list_filter_iff. intros r. rewrite elem_of_cons. tauto.
Qed.
End deletions.
Lemma delete_hosts_ok `{!Engine} (uid : Z) (ks : list string) (c c' : Conn) :
  delete_each (fun label => delete_hostnames (fun r => h_label r = label /\ h_user r = uid)) ks c
    = (Ok (), c') ->
  db c' = set_hostnames (filter (fun r => ~ (h_label r ∈ ks /\ h_user r = uid)) (hostnames (db c))) (db c).
Proof.
  revert c. induction ks as [|k ks IH]; intros c; cbn [delete_each].
  - intros [_ ->]%ret_ok. rewrite (survivors_nil h_label h_user). by destruct (db c).
  - intros Hrun. reg_ok Hrun. unfold exec in R. apply statement_ok in R as (_ & now & R).
    apply IH in Hrun as ->. injection R as _ <-. unfold set_hostnames. cbn.
    by rewrite (survivors_cons h_label h_user).
Qed.
Lemma delete_ports_ok `{!Engine} (uid : Z) (ks : list Z) (c c' : Conn) :
  delete_each (fun port => delete_ports (fun r => p_port r = port /\ p_user r = uid)) ks c
    = (Ok (), c') ->
  db c' = set_tcp_ports (filter (fun r => ~ (p_port r ∈ ks /\ p_user r = uid)) (tcp_ports (db c))) (db c).
Proof.
  revert c. induction ks as [|k ks IH]; intros c; cbn [delete_each].
  - intros [_ ->]%ret_ok. rewrite (survivors_nil p_port p_user). by destruct (db c).
  - intros Hrun. reg_ok Hrun. unfold exec in R. apply statement_ok in R as (_ & now & R).
    apply IH in Hrun as ->. injection R as _ <-. unfold set_tcp_ports. cbn.
    by rewrite (survivors_cons p_port p_user).
Qed.

(** The tables after a prune that removed [hs] and [ps]. *)
Definition pruned (uid : Z) (hs : list string) (ps : list Z) (t : Tables) : Tables :=
  mkTables (users t) (tokens t)
    (filter (fun r => ~ (h_label r ∈ hs /\ h_user r = uid)) (hostnames t))
    (filter (fun r => ~ (p_port r ∈ ps /\ p_user r = uid)) (tcp_ports t)).
Lemma transaction_err `{!Engine} {A : Type} (body : st Conn RegistryError A) (c : Conn) :
  saved c = None ->
  match transaction body c with
  | (Ok a, c') => exists c1 c2, db c1 = db c /\ saved c1 = Some (db c) /\ body c1 = (Ok a, c2) /\
      c' = drop_tx c2
  | (Err _, c') => (exists e c1 c2, db c1 = db c /\ saved c1 = Some (db c) /\
      body c1 = (Err e, c2) /\ c' = drop_tx c2) \/ db c' = db c
  end.
Proof.
  intros Hs. unfold transaction, begin_tx. destruct (engine_fails (tick c)); [by right|].
  destruct (body (mkConn (db c) (Some (db c)) (S (tick c)))) as [[a|e] c2] eqn:E.
  - eexists _, c2. split_and!; [..|exact E|done]; done.
  - left. eexists _, _, c2. split_and!; [..|exact E|done]; done.
Qed.

(** Until it commits, a body leaves the snapshot in place. *)
Lemma delete_each_saved `{!Engine} {K : Type} (stmt : K -> Tables -> result SqlError nat * Tables)
    (ks : list K) (o : option Tables) :
  keeps (fun c => saved c = o) (delete_each stmt ks).
Proof.
  induction ks as [|k ks IH]; cbn [delete_each]; [apply keeps_ret|].
  apply keeps_bind; [|done]. apply keeps_map_err. intros c Hc. unfold exec, statement.
  destruct (engine_fails (tick c)); [done|]. by destruct (stmt k (db c)).
Qed.
Lemma commit_last `{!Engine} {A : Type} (a : A) (c c' : Conn) (r : result RegistryError A) :
  (commit ;; mret (M:=st Conn RegistryError) a) c = (r, c') ->
  db c' = db c /\ match r with Ok b => b = a /\ saved c' = None | Err _ => saved c' = saved c end.
Proof.
  unfold_ops. destruct (engine_fails (tick c)); intros [= <- <-]; done.
Qed.

(** The transaction of a prune. *)
Definition prune_body `{!Engine} (uid : Z) (hs : list string) (ps : list Z) :
    st Conn RegistryError (list string * list Z) :=
  delete_each (fun label => delete_hostnames (fun r => h_label r = label /\ h_user r = uid)) hs;;
  delete_each (fun port => delete_ports (fun r => p_port r = port /\ p_user r = uid)) ps;;
  commit;; mret (hs, ps).
Lemma prune_body_run `{!Engine} (uid : Z) (hs : list string) (ps : list Z) (c c' : Conn)
    (r : result RegistryError (list string * list Z)) :
  prune_body uid hs ps c = (r, c') ->
  match r with
  | Ok x => x = (hs, ps) /\ saved c' = None /\ db c' = pruned uid hs ps (db c)
  | Err _ => saved c' = saved c
  end.
Proof.
  intros E. unfold prune_body, mbind, st_bind at 1 in E.
  pose proof (delete_each_saved (fun label => delete_hostnames (fun r => h_label r = label /\ h_user r = uid)) hs _ c eq_refl) as K1.
  destruct (delete_each _ hs c) as [[[]|e] c4] eqn:E1; [|by injection E as <- <-].
  apply delete_hosts_ok in E1. unfold st_bind at 1 in E.
  pose proof (delete_each_saved (fun port => delete_ports (fun r => p_port r = port /\ p_user r = uid)) ps _ c4 eq_refl) as K2.
  destruct (delete_each _ ps c4) as [[[]|e] c5] eqn:E2; [|injection E as <- <-; cbn in *; congruence].
  apply delete_ports_ok in E2. apply commit_last in E as [Dc Hr]. cbn in K1, K2.
  destruct r as [x|e]; [|congruence]. destruct Hr as [-> Hn]. split_and!; [done..|].
  rewrite Dc, E2, E1. done.
Qed.

Lemma prune_run `{!Engine} (uid cap : Z) (c : Conn) :
  saved c = None ->
  match prune_owned_to_cap uid cap c with
  | (Ok (hs, ps), c') => db c' = pruned uid hs ps (db c) /\
      hs = hosts_of (surplus uid cap (db c)) /\ ps = ports_of (surplus uid cap (db c))
  | (Err _, c') => db c' = db c
  end.
Proof.
  intros Hs. destruct (prune_owned_to_cap uid cap c) as [r c'] eqn:E.
  unfold prune_owned_to_cap, mbind, st_bind in E.
  destruct (over_cap uid cap c) as [[[hs ps]|e] c1] eqn:Eo.
  2:{ pose proof (over_cap_keeps (fun t => t = db c) uid cap c (conj eq_refl Hs)) as [Hk _].
      rewrite Eo in Hk. by injection E as <- <-. }
  apply over_cap_ok in Eo as (D1 & S1 & Eh & Ep).
  assert (Hmain : (hs, ps) = ([], []) /\ r = Ok ([], []) /\ c' = c1 \/
                  transaction (prune_body uid hs ps) c1 = (r, c')).
  { destruct hs, ps; [left|by right..]. by injection E as <- <-. }
  clear E. destruct Hmain as [(E & -> & ->)|E].
  - injection E as -> ->. rewrite D1. split_and!; [|done..]. unfold pruned.
    rewrite (survivors_nil h_label h_user), (survivors_nil p_port p_user). by destruct (db c).
  - pose proof (transaction_err (prune_body uid hs ps) c1 (eq_trans S1 Hs)) as Ht. rewrite E, D1 in Ht.
    destruct r as [[hs' ps']|e].
    + destruct Ht as (c2 & c3 & D2 & S2 & Eb & ->). apply prune_body_run in Eb as (Heq & Hn & Hd).
      injection Heq as -> ->. unfold drop_tx. rewrite Hn, Hd, D2. done.
    + destruct Ht as [(e' & c2 & c3 & D2 & S2 & Eb & ->)|Hd]; [|done].
      apply prune_body_run in Eb. unfold drop_tx. by rewrite Eb, S2.
Qed.

(** ** What is left *)
Lemma hosts_of_elem (l : list OwnedEntry) (s : string) :
  s ∈ hosts_of l <-> exists e, e ∈ l /\ o_res e = OwnedHost s.
Proof.
  unfold hosts_of. rewrite list_elem_of_omap. split.
  - intros (e & He & Hr). exists e. split; [done|]. destruct (o_res e); congruence.
  - intros (e & He & Hr). exists e. by rewrite Hr.
Qed.
Lemma ports_of_elem (l : list OwnedEntry) (p : Z) :
  p ∈ ports_of l <-> exists e, e ∈ l /\ o_res e = OwnedPort p.
Proof.
  unfold ports_of. rewrite list_elem_of_omap. split.
  - intros (e & He & Hr). exists e. split; [done|]. destruct (o_res e); congruence.
  - intros (e & He & Hr). exists e. by rewrite Hr.
Qed.
Lemma as_u16_id (z : Z) : 0 <= z < 65536 -> as_u16 z = z.
Proof. apply Z.mod_small. Qed.

Lemma entry_unique (uid : Z) (t : Tables) (e e' : OwnedEntry) :
  tables_wf t -> ports_u16 t -> e ∈ entries uid t -> e' ∈ entries uid t -> o_res e = o_res e' -> e = e'.
Proof.
  intros Ht Hp. unfold entries, host_entries, port_entries. rewrite !elem_of_app, !list_elem_of_fmap.
  unfold ports_u16 in Hp. rewrite Forall_forall in Hp.
  intros [(r & -> & [_ Hr]%list_elem_of_filter)|(r & -> & [_ Hr]%list_elem_of_filter)]
         [(r' & -> & [_ Hr']%list_elem_of_filter)|(r' & -> & [_ Hr']%list_elem_of_filter)];
    cbn; intros Heq; try done; injection Heq as Heq.
  - f_equal. eapply (unique_row h_label); [apply Ht|done..].
  - rewrite !as_u16_id in Heq by auto. f_equal. eapply (unique_row p_port); [apply Ht|done..].
Qed.
Lemma filter_fmap_swap {R S : Type} (f : R -> S) (P : R -> Prop) (Q : S -> Prop)
    `{!forall r, Decision (P r)} `{!forall s, Decision (Q s)} (l : list R) :
  (forall r, r ∈ l -> P r <-> Q (f r)) -> f <$> filter P l = filter Q (f <$> l).
Proof.
  induction l as [|x l IH]; intros HPQ; [done|]. rewrite fmap_cons, !filter_cons.
  assert (Hx : P x <-> Q (f x)) by (apply HPQ; by constructor).
  assert (IH' : f <$> filter P l = filter Q (f <$> l)) by (apply IH; intros; apply HPQ; by constructor).
  destruct (decide (P x)), (decide (Q (f x))); try tauto; rewrite ?fmap_cons, IH'; done.
Qed.

Lemma pruned_entries (uid : Z) (t : Tables) (D : list OwnedEntry) :
  tables_wf t -> ports_u16 t -> (forall e, e ∈ D -> e ∈ entries uid t) ->
  entries uid (pruned uid (hosts_of D) (ports_of D) t) = filter (fun e => e ∉ D) (entries uid t).
Proof.
  intros Ht Hp HD. unfold entries at 2. rewrite filter_app. unfold entries at 1. f_equal.
  - unfold host_entries, pruned. cbn. rewrite list_filter_filter.
    rewrite (list_filter_iff _ (fun r => (h_label r ∉ hosts_of D) /\ h_user r = uid)) by tauto.
    rewrite <- list_filter_filter. apply filter_fmap_swap. intros r Hr.
    assert (He : host_entry r ∈ entries uid t)
      by (unfold entries, host_entries; apply elem_of_app; left; by apply list_elem_of_fmap_2).
    rewrite hosts_of_elem. split; [intros Hn Hin; apply Hn; by exists (host_entry r)|].
    intros Hn (e & Hin & Hres). apply Hn.
    by rewrite <- (entry_unique uid t e (host_entry r)) by auto.
  - unfold port_entries, pruned. cbn. rewrite list_filter_filter.
    rewrite (list_filter_iff _ (fun r => (p_port r ∉ ports_of D) /\ p_user r = uid)) by tauto.
    rewrite <- list_filter_filter. apply filter_fmap_swap. intros r Hr.
    assert (He : port_entry r ∈ entries uid t)
      by (unfold entries, port_entries; apply elem_of_app; right; by apply list_elem_of_fmap_2).
    assert (Hu : as_u16 (p_port r) = p_port r).
    { apply as_u16_id. unfold ports_u16 in Hp. rewrite Forall_forall in Hp. apply Hp.
      apply list_elem_of_filter in Hr. tauto. }
    rewrite ports_of_elem. split.
    + intros Hn Hin. apply Hn. exists (port_entry r). split; [done|]. cbn. by rewrite Hu.
    + intros Hn (e & Hin & Hres). apply Hn.
      rewrite <- (entry_unique uid t e (port_entry r)); auto. cbn. by rewrite Hu.
Qed.

Lemma NoDup_entries (uid : Z) (t : Tables) : tables_wf t -> ports_u16 t -> NoDup (entries uid t).
Proof.
  intros Ht Hp. apply NoDup_app. split_and!.
  - apply (NoDup_fmap_1 (fun e => match o_res e with OwnedHost s => s | _ => EmptyString end)).
    unfold host_entries. rewrite <- list_fmap_compose. apply (NoDup_fmap_filter h_label), Ht.
  - intros e. unfold host_entries, port_entries. rewrite !list_elem_of_fmap.
    by intros (r & -> & _) (r' & ? & _).
  - unfold port_entries, ports_u16 in *. rewrite Forall_forall in Hp. apply NoDup_fmap_2_strong.
    + intros r r' [_ Hr]%list_elem_of_filter [_ Hr']%list_elem_of_filter [= _ Hq].
      rewrite !as_u16_id in Hq by auto. eapply (unique_row p_port); [apply Ht|done..].
    + apply (NoDup_fmap_1 p_port), NoDup_fmap_filter, Ht.
Qed.
Lemma filter_notin_app {A : Type} `{EqDecision A} (k l : list A) :
  NoDup (k ++ l) -> filter (fun e => e ∉ l) (k ++ l) = k.
Proof.
  intros (_ & Hd & _)%NoDup_app. rewrite filter_app, (filter_id _ k) by auto.
  rewrite <- (app_nil_r k) at 2. f_equal. apply elem_of_nil_inv.
  intros x [Hx Hx']%list_elem_of_filter. done.
Qed.
Lemma filter_notin_drop {A : Type} `{EqDecision A} (n : nat) (l : list A) :
  NoDup l -> filter (fun e => e ∉ drop n l) l = take n l.
Proof.
  intros Hn. pose proof (filter_notin_app (take n l) (drop n l)) as H. rewrite take_drop in H. auto.
Qed.

(** C30 A prune keeps exactly the oldest resources: when it succeeds, the account is
    left with the [cap] oldest of its hostnames and ports pooled (all of them if
    it has no more than that, none if the cap is not positive), everything it
    reports as removed is newer than, or tied with, everything it keeps, and no
    other account, user or token is touched; when it fails nothing is removed. *)
Theorem prune_keeps_oldest `{!Engine} (uid cap : Z) (c : Conn) :
  idle tables_wf c -> ports_u16 (db c) ->
  match prune_owned_to_cap uid cap c with
  | (Ok (hs, ps), c') =>
      hs = hosts_of (surplus uid cap (db c)) /\ ps = ports_of (surplus uid cap (db c)) /\
      entries uid (db c') ≡ₚ take (keep_n cap) (by_age uid (db c)) /\
      owned_rows uid (db c') = Z.min (Z.max cap 0) (owned_rows uid (db c)) /\
      (forall kept removed, kept ∈ entries uid (db c') -> removed ∈ surplus uid cap (db c) ->
         owned_le kept removed = true) /\
      (forall u, u <> uid -> entries u (db c') = entries u (db c)) /\
      users (db c') = users (db c) /\ tokens (db c') = tokens (db c)
  | (Err _, c') => db c' = db c
  end.
Proof.
  intros [Ht Hs] Hp. pose proof (prune_run uid cap c Hs) as Hr.
  destruct (prune_owned_to_cap uid cap c) as [[[hs ps]|e] c']; [|done].
  destruct Hr as (Hd & -> & ->). split; [done|]. split; [done|]. rewrite Hd.
  pose proof (sort_by_perm owned_le (entries uid (db c))) as Hperm. fold (by_age uid (db c)) in Hperm.
  assert (HD : forall e, e ∈ surplus uid cap (db c) -> e ∈ entries uid (db c)).
  { intros e He. rewrite <- Hperm. rewrite <- (take_drop (keep_n cap)). apply elem_of_app. by right. }
  assert (Hent : entries uid (pruned uid (hosts_of (surplus uid cap (db c)))
                   (ports_of (surplus uid cap (db c))) (db c)) ≡ₚ take (keep_n cap) (by_age uid (db c))).
  { rewrite pruned_entries by done. rewrite <- Hperm. unfold surplus. rewrite filter_notin_drop; [done|].
    rewrite Hperm. by apply NoDup_entries. }
  split_and!; [done| | | |done|done].
  - rewrite <- !length_entries, Hent, length_take, Hperm. unfold keep_n. lia.
  - intros k d Hk Hd'. rewrite Hent in Hk.
    apply (StronglySorted_take_drop (fun a b => owned_le a b = true) (keep_n cap)
             (by_age uid (db c)) k d); [|exact Hk|exact Hd'].
    apply sort_by_sorted; [apply owned_le_total|apply owned_le_trans].
  - intros u Hu. unfold entries, host_entries, port_entries, pruned. cbn.
    rewrite !list_filter_filter. f_equal; f_equal; apply list_filter_iff; intros r; naive_solver.
Qed.

Definition four_owned : Tables :=
  mkTables [mkUserRow 1 "mat" 1] []
    [mkHostRow 1 1 "old" 10; mkHostRow 2 1 "mid" 20; mkHostRow 3 1 "new" 40] [mkPortRow 20000 1 30].
Lemma four_owned_wf : tables_wf four_owned.
Proof.
  split; cbn; repeat (constructor; try done);
    rewrite ?elem_of_cons, ?elem_of_nil; intuition discriminate.
Qed.
Lemma prune_keeps_oldest_witness :
  (@prune_owned_to_cap (demo_engine []) 1 2 (mkConn four_owned None 0)).1 = Ok (["new"%string], [20000])
  /\ owned_rows 1 (db (@prune_owned_to_cap (demo_engine []) 1 2 (mkConn four_owned None 0)).2) = 2.
Proof.
  pose proof (@prune_keeps_oldest (demo_engine []) 1 2 (mkConn four_owned None 0)
                (conj four_owned_wf eq_refl)) as H.
  split; [vm_compute; reflexivity|].
  destruct (@prune_owned_to_cap (demo_engine []) 1 2 (mkConn four_owned None 0)) as [[[hs ps]|e] c'] eqn:E;
    [|vm_compute in E; discriminate].
  destruct H as (_ & _ & _ & H & _); [|exact H]. repeat constructor; cbn; lia.
Defined.
