(* ===== verification/Polar.v ===== *)
(** * The license gate (crates/relay/src/polar.rs)

    The validation cache, the validate budget, the HTTP status mapping of the
    Polar client and the gate itself: authentication by license key, the pooled
    cap of a customer, activation, and the enforcement of a lowered cap on the
    registry and the router.  JSON, HTTP and SHA-256 are parameters; the wall
    clock and the monotonic clock are arguments of the operations that read
    them. *)
From S2P Require Import Prelude Frames Router F64 Auth Registry.
Local Open Scope Z_scope.

Inductive CapDecision := Allow | Cap (n : Z) | DenyAll.
#[export] Instance CapDecision_eq_dec : EqDecision CapDecision.
Proof. solve_decision. Defined.

(** [is_sane_id]. *)
Definition is_sane_id (s : string) : bool :=
  negb (is_empty s) && bool_decide (String.length s <= 200)%nat.

Record PolarPolicy := mkPolicy {
  organization_id : string;
  cache_ttl_secs : Z;
  staleness_secs : Z;
  cap_prune_grace_secs : Z;
  activate_on_claim : bool;
  benefits : gmap string Z;
  max_validate_per_sec : Z;
  validate_burst : Z;
}.

Inductive ValidateOutcome :=
  | VGranted (customer_id benefit_id : string)
  | VNotLicensed
  | VUnavailable (why : string).
Inductive ActivateOutcome :=
  | Activated (activation_id : string)
  | LimitReached
  | AUnavailable (why : string).

(** The trait [PolarBackend], over the state of whatever answers. *)
Class PolarBackend (B : Type) := {
  validate : string -> B -> ValidateOutcome * B;
  activate : string -> string -> B -> ActivateOutcome * B;
  deactivate : string -> string -> B -> result string () * B;
}.

(** ** The HTTP client *)
Record ValidateResp := mkValidateResp { vr_customer_id : string; vr_benefit_id : string; vr_status : string }.

(** A request as it is handed to the HTTP stack, and what the stack answers: no
    answer in time, an error, or a status with the body's frames collected
    ([None]: the body broke off). *)
Record HttpRequest := mkRequest {
  method : string;
  uri : string;
  headers : list (string * string);
  body : string;
}.
Inductive HttpAnswer :=
  | NoAnswer
  | RequestError (e : string)
  | Response (status : Z) (body : option string).

Definition slash : Ascii.ascii := Ascii.ascii_of_nat 47.
(** [api_base.trim_end_matches('/')]. *)
Fixpoint trim_slashes (s : string) : string :=
  match s with
  | EmptyString => EmptyString
  | String c s' =>
      match trim_slashes s' with
      | EmptyString => if Ascii.eqb c slash then EmptyString else String c EmptyString
      | rest => String c rest
      end
  end.

Section http.
(** The HTTP stack: [check_uri] is the request builder's verdict on the URI,
    [request] performs it; [to_json] and [parse_*] are the JSON coder;
    [show_status] is the status line. *)
Context {B : Type}.
Context (check_uri : string -> result string ()).
Context (request : HttpRequest -> B -> HttpAnswer * B).
Context (to_json : list (string * string) -> string).
Context (parse_validate : string -> result string ValidateResp).
Context (parse_activate : string -> result string string).
Context (show_status : Z -> string).
Context (api_base org : string).

Definition post_json (path : string) (fields : list (string * string)) (b : B) :
    result string (Z * string) * B :=
  let url := trim_slashes api_base +:+ path in
  match check_uri url with
  | Err e => (Err e, b)
  | Ok _ =>
      let req := mkRequest "POST" url
        [("Content-Type", "application/json"); ("User-Agent", "ethertunnel-relay/1")]%string
        (to_json fields) in
      match request req b with
      | (NoAnswer, b') => (Err "polar request timed out"%string, b')
      | (RequestError e, b') => (Err e, b')
      | (Response status (Some bytes), b') =>
          if decide (64 * 1024 < String.length bytes)%nat
          then (Err "polar response body too large"%string, b') else (Ok (status, bytes), b')
      | (Response _ None, b') => (Err "polar response body too large"%string, b')
      end
  end.

Definition is_success (status : Z) : bool := (200 <=? status) && (status <? 300).
Definition is_server_error (status : Z) : bool := (500 <=? status) && (status <? 600).

Definition classify_validate (r : result string (Z * string)) : ValidateOutcome :=
  match r with
  | Ok (status, bytes) =>
      if is_success status then
        match parse_validate bytes with
        | Ok v =>
            if String.eqb (vr_status v) "granted" then
              if negb (is_sane_id (vr_customer_id v)) || negb (is_sane_id (vr_benefit_id v))
              then VUnavailable "malformed validate response"
              else VGranted (vr_customer_id v) (vr_benefit_id v)
            else VNotLicensed
        | Err e => VUnavailable ("bad validate body: " +:+ e)
        end
      else if (status =? 429) || is_server_error status then
        VUnavailable ("polar validate: " +:+ show_status status)
      else if (status =? 404) || (status =? 403) || (status =? 422) then VNotLicensed
      else VUnavailable ("polar validate: unexpected " +:+ show_status status)
  | Err e => VUnavailable e
  end.
Definition http_validate (key : string) (b : B) : ValidateOutcome * B :=
  let (r, b') := post_json "/v1/customer-portal/license-keys/validate"
                   [("key", key); ("organization_id", org)]%string b in
  (classify_validate r, b').

Definition classify_activate (r : result string (Z * string)) : ActivateOutcome :=
  match r with
  | Ok (status, bytes) =>
      if is_success status then
        match parse_activate bytes with
        | Ok id => Activated id
        | Err e => AUnavailable ("bad activate body: " +:+ e)
        end
      else if status =? 403 then LimitReached
      else AUnavailable ("polar activate: " +:+ show_status status)
  | Err e => AUnavailable e
  end.
Definition http_activate (key label : string) (b : B) : ActivateOutcome * B :=
  let (r, b') := post_json "/v1/customer-portal/license-keys/activate"
                   [("key", key); ("organization_id", org); ("label", label)]%string b in
  (classify_activate r, b').
Definition http_deactivate (key activation_id : string) (b : B) : result string () * B :=
  let (r, b') := post_json "/v1/customer-portal/license-keys/deactivate"
                   [("key", key); ("organization_id", org); ("activation_id", activation_id)]%string b in
  (match r with
   | Ok (status, _) => if is_success status then Ok ()
                       else Err ("polar deactivate: " +:+ show_status status)
   | Err e => Err e
   end, b').
Definition PolarHttpClient : PolarBackend B :=
  {| validate := http_validate; activate := http_activate; deactivate := http_deactivate |}.
End http.

(** ** The validation cache *)
Record LicenseRow := mkRow {
  key_hash : list byte;
  customer_id : string;
  benefit_id : string;
  max_tunnels : option Z;
  status : string;
  activation_id : option string;
  validated_at : Z;
}.
Record CustomerCap := mkCustomerCap { rows : Z; cc_max : option Z }.

(** Rows by [key_hash], the primary key.  The database engine may fail at any
    of its interactions. *)
#[export] Instance byte_countable : Countable byte :=
  inj_countable Byte.to_N Byte.of_N Byte.of_to_N.
Record LicenseCache := mkCache { table : gmap (list byte) LicenseRow; ctick : nat }.
Class CacheEngine := { cache_fails : nat -> bool }.

Section cache.
Context `{!CacheEngine}.
Definition cache_stmt {A : Type} (run : gmap (list byte) LicenseRow -> A * gmap (list byte) LicenseRow)
    (c : LicenseCache) : result SqlError A * LicenseCache :=
  if cache_fails (ctick c) then (Err EngineFailure, mkCache (table c) (S (ctick c)))
  else let (a, t) := run (table c) in (Ok a, mkCache t (S (ctick c))).

Definition get (h : list byte) : LicenseCache -> result SqlError (option LicenseRow) * LicenseCache :=
  cache_stmt (fun t => (t !! h, t)).

(** The [CASE] of the query: does a row still grant capacity? *)
Definition qualifying (min_validated_at now : Z) (r : LicenseRow) : option Z :=
  if String.eqb (status r) "granted" && (min_validated_at <=? validated_at r) && (validated_at r <=? now)
  then max_tunnels r else None.
(** SQL's [MAX] over a column with NULLs. *)
Definition sql_max (l : list (option Z)) : option Z :=
  foldr (fun o acc => match o, acc with
                      | Some a, Some b => Some (Z.max a b)
                      | Some a, None => Some a
                      | None, _ => acc
                      end) None l.
Definition rows_of (cid : string) (t : gmap (list byte) LicenseRow) : list LicenseRow :=
  filter (fun r => customer_id r = cid) ((map_to_list t).*2).
Definition cap_for_customer (cid : string) (min_validated_at now : Z) :
    LicenseCache -> result SqlError CustomerCap * LicenseCache :=
  cache_stmt (fun t =>
    (mkCustomerCap (Z.of_nat (length (rows_of cid t)))
       (sql_max (qualifying min_validated_at now <$> rows_of cid t)), t)).

(** [COALESCE(excluded.activation_id, license_validation.activation_id)]. *)
Definition merge_activation (new : LicenseRow) (old : option LicenseRow) : LicenseRow :=
  mkRow (key_hash new) (customer_id new) (benefit_id new) (max_tunnels new) (status new)
    (match activation_id new with Some a => Some a | None => o ← old; activation_id o end)
    (validated_at new).
Definition upsert (row : LicenseRow) : LicenseCache -> result SqlError () * LicenseCache :=
  cache_stmt (fun t => ((), <[key_hash row := merge_activation row (t !! key_hash row)]> t)).
Definition sweep_negative (older_than : Z) : LicenseCache -> result SqlError () * LicenseCache :=
  cache_stmt (fun t => ((), filter (fun kv => ~ (customer_id kv.2 = EmptyString /\ validated_at kv.2 < older_than)) t)).
Definition set_activation (h : list byte) (a : option string) :
    LicenseCache -> result SqlError () * LicenseCache :=
  cache_stmt (fun t => ((), alter (fun r => mkRow (key_hash r) (customer_id r) (benefit_id r)
    (max_tunnels r) (status r) a (validated_at r)) h t)).
End cache.

(** ** The validate budget *)
Record ValidateBudget := mkBudget { vb_rate : f64; vb_burst : f64; vb_tokens : f64; vb_last : Z }.
Definition ValidateBudget_new (rate burst instant : Z) : ValidateBudget :=
  let b := f64_of (Z.max burst 1) in mkBudget (f64_of rate) b b instant.
Definition try_take (instant : Z) (v : ValidateBudget) : bool * ValidateBudget :=
  let elapsed := as_secs_f64 (saturating_duration_since instant (vb_last v)) in
  let t := f64_min (f64_add (vb_tokens v) (f64_mul elapsed (vb_rate v))) (vb_burst v) in
  if f64_leb f64_one t
  then (true, mkBudget (vb_rate v) (vb_burst v) (f64_sub t f64_one) instant)
  else (false, mkBudget (vb_rate v) (vb_burst v) t instant).

(** ** The gate

    [World] is the gate's own state together with what its reconciler shares
    with the rest of the relay: the registry, the router and the control
    channels ([w_sent] logs the frames handed to them).  [w_rec] is the
    reconciler's domain once it is installed. *)
Record World (B : Type) := mkWorld {
  w_cache : LicenseCache;
  w_budget : ValidateBudget;
  w_backend : B;
  w_rec : option string;
  w_reg : Conn;
  w_router : RouterInner;
  w_sent : list (SessionHandle * ControlFrame);
}.
Arguments mkWorld {B}.
Arguments w_cache {B}.
Arguments w_budget {B}.
Arguments w_backend {B}.
Arguments w_rec {B}.
Arguments w_reg {B}.
Arguments w_router {B}.
Arguments w_sent {B}.

Section setters.
Context {B : Type}.
Definition set_cache x (w : World B) : World B :=
  mkWorld x (w_budget w) (w_backend w) (w_rec w) (w_reg w) (w_router w) (w_sent w).
Definition set_budget x (w : World B) : World B :=
  mkWorld (w_cache w) x (w_backend w) (w_rec w) (w_reg w) (w_router w) (w_sent w).
Definition set_backend x (w : World B) : World B :=
  mkWorld (w_cache w) (w_budget w) x (w_rec w) (w_reg w) (w_router w) (w_sent w).
Definition set_reconciler (domain : string) (w : World B) : World B :=
  mkWorld (w_cache w) (w_budget w) (w_backend w) (Some domain) (w_reg w) (w_router w) (w_sent w).
Definition set_reg x (w : World B) : World B :=
  mkWorld (w_cache w) (w_budget w) (w_backend w) (w_rec w) x (w_router w) (w_sent w).
Definition set_router x (w : World B) : World B :=
  mkWorld (w_cache w) (w_budget w) (w_backend w) (w_rec w) (w_reg w) x (w_sent w).
Definition send_ctrl (h : SessionHandle) (f : ControlFrame) (w : World B) : World B :=
  mkWorld (w_cache w) (w_budget w) (w_backend w) (w_rec w) (w_reg w) (w_router w) (w_sent w ++ [(h, f)]).

(** Running an operation of the cache, the registry or the budget in a world. *)
Definition on_cache {A : Type} (m : LicenseCache -> A * LicenseCache) (w : World B) : A * World B :=
  let (a, c) := m (w_cache w) in (a, set_cache c w).
Definition on_reg {A : Type} (m : Conn -> A * Conn) (w : World B) : A * World B :=
  let (a, c) := m (w_reg w) in (a, set_reg c w).
Definition on_backend {A : Type} (m : B -> A * B) (w : World B) : A * World B :=
  let (a, b) := m (w_backend w) in (a, set_backend b w).
End setters.

(** [PolarGate::new]: the prune's window is clamped to contain the gate's. *)
Definition PolarGate_new (p : PolarPolicy) : PolarPolicy :=
  if decide (cap_prune_grace_secs p < staleness_secs p)
  then mkPolicy (organization_id p) (cache_ttl_secs p) (staleness_secs p) (staleness_secs p)
         (activate_on_claim p) (benefits p) (max_validate_per_sec p) (validate_burst p)
  else p.

Section gate.
Context {B : Type} `{!PolarBackend B, !CacheEngine, !Engine}.
Context (policy : PolarPolicy).
(** The text of the notice for a stopped tunnel, from the resource's [Debug]
    form. *)
Context (debug_resource : Resource -> string).
Definition stop_message (r : Resource) : string :=
  "tunnel " +:+ debug_resource r +:+ " stopped: plan change reduced your limit".

Definition hash_key (key : string) : list byte := sha256 key.

Definition resolve_cap (cid : string) (min_validated_at now : Z) (w : World B) :
    CapDecision * World B :=
  let (r, w') := on_cache (cap_for_customer cid min_validated_at now) w in
  (match r with
   | Err _ => DenyAll
   | Ok c => if decide (rows c = 0) then Allow
             else match cc_max c with Some m => Cap m | None => DenyAll end
   end, w').

Definition cap_for (user_name : string) (now : Z) (w : World B) : CapDecision * World B :=
  if decide (now = 0) then (DenyAll, w)
  else resolve_cap user_name (i64_saturating_sub now (staleness_secs policy)) now w.

(** [tear_down_routes]: evict and tell whoever was serving. *)
Definition tear_down_routes (domain : string) (labels : list string) (ports : list Z)
    (w : World B) : nat * World B :=
  let fqdns := (fun label => label +:+ "." +:+ domain) <$> labels in
  let (r', evicted) := evict_routes fqdns ports (w_router w) in
  (length evicted,
   foldl (fun w hr => send_ctrl hr.1 (Denied LimitExceeded (stop_message hr.2)) w)
     (set_router r' w) evicted).

Definition reconcile_user_cap (domain : string) (uid cap : Z) (w : World B) : World B :=
  let (r, w1) := on_reg (prune_owned_to_cap uid cap) w in
  match r with
  | Err _ => w1
  | Ok ([], []) => w1
  | Ok (labels, ports) => (tear_down_routes domain labels ports w1).2
  end.
Definition evict_over_cap (domain : string) (uid cap : Z) (w : World B) : World B :=
  let (r, w1) := on_reg (owned_over_cap uid cap) w in
  match r with
  | Err _ => w1
  | Ok ([], []) => w1
  | Ok (labels, ports) => (tear_down_routes domain labels ports w1).2
  end.

Definition enforce_pooled_cap (domain : string) (user : AuthedUser) (cap now : Z) (w : World B) :
    World B :=
  let pooled_over window := resolve_cap (name user) (i64_saturating_sub now window) now in
  let (d1, w1) := pooled_over (cap_prune_grace_secs policy) w in
  let w2 := match d1 with
            | Cap pooled => reconcile_user_cap domain (Auth.user_id user) (Z.max pooled cap) w1
            | _ => w1
            end in
  let (d2, w3) := pooled_over (staleness_secs policy) w2 in
  match d2 with
  | Cap live => evict_over_cap domain (Auth.user_id user) (Z.max live cap) w3
  | _ => w3
  end.

Definition resolve_user (cid : string) (w : World B) : option AuthedUser * World B :=
  if is_empty cid then (None, w)
  else
    match on_reg (lookup_user_id cid) w with
    | (Ok (Some uid), w1) => (Some (mkAuthedUser uid cid), w1)
    | (Err _, w1) => (None, w1)
    | (Ok None, w1) =>
        match on_reg (add_user cid) w1 with
        | (Ok uid, w2) => (Some (mkAuthedUser uid cid), w2)
        | (Err (UserExists _), w2) =>
            match on_reg (lookup_user_id cid) w2 with
            | (Ok (Some uid), w3) => (Some (mkAuthedUser uid cid), w3)
            | (_, w3) => (None, w3)
            end
        | (Err _, w2) => (None, w2)
        end
    end.

(** The three windows of [authenticate]. *)
Definition fresh (now : Z) (row : LicenseRow) : bool :=
  (validated_at row <=? now) && (now <=? i64_add (validated_at row) (cache_ttl_secs policy)).
Definition granted_mapped (row : LicenseRow) : bool :=
  String.eqb (status row) "granted" && bool_decide (is_Some (max_tunnels row)).
Definition honorable (now : Z) (row : LicenseRow) : bool :=
  granted_mapped row && (validated_at row <=? now)
  && (now <=? i64_add (validated_at row) (staleness_secs policy)).

Definition on_granted (domain key cid bid : string) (now : Z) (w : World B) :
    option AuthedUser * World B :=
  let cap := benefits policy !! bid in
  let row := mkRow (hash_key key) cid bid cap "granted" None now in
  match on_cache (upsert row) w with
  | (Err _, w1) => (None, w1)
  | (Ok _, w1) =>
      match cap with
      | None => (None, w1)
      | Some cap =>
          match resolve_user cid w1 with
          | (None, w2) => (None, w2)
          | (Some user, w2) => (Some user, enforce_pooled_cap domain user cap now w2)
          end
      end
  end.
Definition on_not_licensed (key : string) (cached : option LicenseRow) (now : Z) (w : World B) :
    option AuthedUser * World B :=
  let row0 := default (mkRow (hash_key key) EmptyString EmptyString None "not_licensed" None now) cached in
  let row := mkRow (key_hash row0) (customer_id row0) (benefit_id row0) (max_tunnels row0)
               "not_licensed" (activation_id row0) now in
  let w1 := match cached with
            | None => (on_cache (sweep_negative (i64_sub now (cache_ttl_secs policy))) w).2
            | Some _ => w
            end in
  (None, (on_cache (upsert row) w1).2).
Definition on_unavailable (cached : option LicenseRow) (now : Z) (w : World B) :
    option AuthedUser * World B :=
  match cached with
  | Some row => if honorable now row then resolve_user (customer_id row) w else (None, w)
  | None => (None, w)
  end.

Definition gate_authenticate (key : string) (now instant : Z) (w : World B) :
    option AuthedUser * World B :=
  if starts_with "etun_" key then (None, w)
  else
    match w_rec w with
    | None => (None, w)
    | Some domain =>
        if decide (now = 0) then (None, w)
        else
          let (got, w1) := on_cache (get (hash_key key)) w in
          let cached := unwrap_or None got in
          if match cached with Some row => fresh now row | None => false end then
            match cached with
            | Some row => if granted_mapped row then resolve_user (customer_id row) w1 else (None, w1)
            | None => (None, w1)
            end
          else
            let (took, v) := try_take instant (w_budget w1) in
            let w2 := set_budget v w1 in
            let (outcome, w3) :=
              if (took : bool) then on_backend (validate key) w2
              else (VUnavailable "relay validate budget exhausted", w2) in
            match outcome with
            | VGranted cid bid => on_granted domain key cid bid now w3
            | VNotLicensed => on_not_licensed key cached now w3
            | VUnavailable _ => on_unavailable cached now w3
            end
    end.

Definition ensure_activated (key : string) (w : World B) : result string () * World B :=
  if negb (activate_on_claim policy) then (Ok (), w)
  else
    match on_cache (get (hash_key key)) w with
    | (Ok (Some row), w1) =>
        if negb (String.eqb (status row) "granted") then (Ok (), w1)
        else match activation_id row with
             | Some _ => (Ok (), w1)
             | None =>
                 let label := match w_rec w1 with Some d => "relay:" +:+ d | None => "relay"%string end in
                 match on_backend (activate key label) w1 with
                 | (Activated id, w2) => (Ok (), (on_cache (set_activation (hash_key key) (Some id)) w2).2)
                 | (LimitReached, w2) =>
                     (Err "license activation limit reached (key already active on another device/relay)"%string, w2)
                 | (AUnavailable _, w2) => (Ok (), w2)
                 end
             end
    | (_, w1) => (Ok (), w1)
    end.

Definition release_activation (key : string) (w : World B) : World B :=
  match on_cache (get (hash_key key)) w with
  | (Ok (Some row), w1) =>
      match activation_id row with
      | None => w1
      | Some aid =>
          match on_backend (deactivate key aid) w1 with
          | (Ok _, w2) => (on_cache (set_activation (hash_key key) None) w2).2
          | (Err _, w2) => w2
          end
      end
  | (_, w1) => w1
  end.
End gate.
