(* ===== verification/PolarProps.v ===== *)
(** * What the license gate promises (crates/relay/src/polar.rs)

    The pooled cap of a customer, the evidence behind every license
    authentication, the negative cache, and the safety of the two enforcement
    windows. *)
From S2P Require Import Prelude Frames Router F64 Auth Registry RegistryInv RegistryProps Polar.
Local Open Scope Z_scope.

(** ** SQL's MAX *)
Lemma sql_max_None (l : list (option Z)) : sql_max l = None <-> forall m, Some m ∉ l.
Proof.
  induction l as [|o l IH]; [split; [intros _ m ?%not_elem_of_nil; done|done]|].
  cbn [sql_max foldr]. fold (sql_max l). destruct o as [a|].
  - split; [by destruct (sql_max l)|]. intros H. destruct (H a). by constructor.
  - destruct (sql_max l) as [b|]; split; try done.
    + intros H. exfalso. assert (Some b = None) as [=]. apply IH. intros m Hm. apply (H m). by constructor.
    + intros _ m [?|Hm]%elem_of_cons; [done|]. by apply (proj1 IH eq_refl m).
Qed.
Lemma sql_max_Some (l : list (option Z)) (m : Z) :
  sql_max l = Some m <-> Some m ∈ l /\ forall m', Some m' ∈ l -> m' <= m.
Proof.
  revert m. induction l as [|o l IH]; intros m.
  { split; [done|]. by intros [?%not_elem_of_nil _]. }
  cbn [sql_max foldr]. fold (sql_max l). setoid_rewrite elem_of_cons. destruct o as [a|].
  - destruct (sql_max l) as [b|] eqn:E.
    + destruct (proj1 (IH b) eq_refl) as [Hb Hle]. split.
      * intros [= <-]. split.
        -- destruct (Z.max_spec a b) as [[_ ->]|[_ ->]]; auto.
        -- intros m' [[= ->]|Hm']; [lia|]. specialize (Hle m' Hm'). lia.
      * intros [[[= ->]|Hm] Hall]; f_equal.
        -- specialize (Hall b (or_intror Hb)). lia.
        -- pose proof (Hall a (or_introl eq_refl)). pose proof (Hall b (or_intror Hb)).
           specialize (Hle m Hm). lia.
    + pose proof (proj1 (sql_max_None l) E) as HN. split.
      * intros [= ->]. split; [by left|]. intros m' [[= ->]|Hm']; [lia|by destruct (HN m')].
      * intros [[[= ->]|Hm] _]; [done|by destruct (HN m)].
  - rewrite IH. split; intros [H1 H2]; split; auto.
    + intros m' [?|?]; [done|auto].
    + by destruct H1.
Qed.

(** ** The pooled cap *)

(** The keys that still buy capacity for a customer. *)
Definition grants (t : gmap (list byte) LicenseRow) (cid : string) (lo now m : Z) : Prop :=
  exists h row, t !! h = Some row /\ customer_id row = cid /\ status row = "granted" /\
    max_tunnels row = Some m /\ lo <= validated_at row <= now.
Definition knows (t : gmap (list byte) LicenseRow) (cid : string) : Prop :=
  exists h row, t !! h = Some row /\ customer_id row = cid.

Lemma rows_of_elem (cid : string) (t : gmap (list byte) LicenseRow) (row : LicenseRow) :
  row ∈ rows_of cid t <-> customer_id row = cid /\ exists h, t !! h = Some row.
Proof.
  unfold rows_of. rewrite list_elem_of_filter, list_elem_of_fmap. split.
  - intros [Hc ([h r] & -> & Hin)]. apply elem_of_map_to_list in Hin. eauto.
  - intros [Hc [h Hh]]. split; [done|]. exists (h, row). split; [done|]. by apply elem_of_map_to_list.
Qed.
Lemma qualifying_elem (cid : string) (t : gmap (list byte) LicenseRow) (lo now m : Z) :
  Some m ∈ qualifying lo now <$> rows_of cid t <-> grants t cid lo now m.
Proof.
  rewrite list_elem_of_fmap. unfold grants, qualifying. split.
  - intros (row & Hq & [Hc [h Hh]]%rows_of_elem).
    destruct (String.eqb_spec (status row) "granted"); [|done]. cbn in Hq.
    destruct (Z.leb_spec lo (validated_at row)); [|done]. destruct (Z.leb_spec (validated_at row) now); [|done].
    exists h, row. done.
  - intros (h & row & Hh & Hc & Hs & Hm & Hlo & Hhi). exists row. split; [|apply rows_of_elem; eauto].
    rewrite Hs. cbn. rewrite (proj2 (Z.leb_le _ _)) by done. by rewrite (proj2 (Z.leb_le _ _)).
Qed.
Lemma rows_of_nil (cid : string) (t : gmap (list byte) LicenseRow) :
  Z.of_nat (length (rows_of cid t)) = 0 <-> ~ knows t cid.
Proof.
  split.
  - intros Hl (h & row & Hh & Hc). assert (Hin : row ∈ rows_of cid t) by (apply rows_of_elem; eauto).
    destruct (rows_of cid t); [by apply not_elem_of_nil in Hin|done].
  - intros Hk. destruct (rows_of cid t) as [|row l] eqn:E; [done|]. exfalso. apply Hk.
    assert (Hin : row ∈ rows_of cid t) by (rewrite E; by constructor).
    apply rows_of_elem in Hin as [Hc [h Hh]]. by exists h, row.
Qed.

Section cap.
Context {B : Type} `{!CacheEngine}.
Implicit Types (w : World B).
Definition rows_in (w : World B) : gmap (list byte) LicenseRow := table (w_cache w).

Lemma resolve_cap_exact (cid : string) (lo now : Z) (w : World B) :
  cache_fails (ctick (w_cache w)) = false ->
  match (resolve_cap cid lo now w).1 with
  | Allow => ~ knows (rows_in w) cid
  | Cap m => grants (rows_in w) cid lo now m /\
             forall m', grants (rows_in w) cid lo now m' -> m' <= m
  | DenyAll => knows (rows_in w) cid /\ forall m, ~ grants (rows_in w) cid lo now m
  end.
Proof using.
  intros Hf. unfold resolve_cap, on_cache, cap_for_customer, cache_stmt. rewrite Hf. cbn.
  fold (rows_in w). case_decide as Hr; [by apply rows_of_nil|].
  assert (Hk : knows (rows_in w) cid).
  { destruct (rows_of cid (rows_in w)) as [|row l] eqn:E; [done|].
    assert (Hin : row ∈ rows_of cid (rows_in w)) by (rewrite E; by constructor).
    apply rows_of_elem in Hin as [Hc [h Hh]]. by exists h, row. }
  destruct (sql_max _) as [m|] eqn:E.
  - apply sql_max_Some in E as [E1 E2]. split; [by apply qualifying_elem|].
    intros m' Hm'. apply E2. by apply qualifying_elem.
  - rewrite sql_max_None in E. split; [done|]. intros m Hm. apply (E m). by apply qualifying_elem.
Qed.

(** The cap of a user is pooled over all keys of the customer: a name no key is
    known for is uncapped; otherwise the cap is the largest among the keys that
    are granted, mapped to a cap and validated within the staleness window, and
    with no such key everything is denied.  A failed read or an unavailable clock
    denies everything. *)
Theorem cap_for_is_pooled_max (policy : PolarPolicy) (user : string) (now : Z) (w : World B) :
  let lo := i64_saturating_sub now (staleness_secs policy) in
  match (cap_for policy user now w).1 with
  | Allow => now <> 0 /\ ~ knows (rows_in w) user
  | Cap m => now <> 0 /\ grants (rows_in w) user lo now m /\
             forall m', grants (rows_in w) user lo now m' -> m' <= m
  | DenyAll => now = 0 \/ cache_fails (ctick (w_cache w)) = true \/
               knows (rows_in w) user /\ forall m, ~ grants (rows_in w) user lo now m
  end.
Proof using.
  cbv zeta. unfold cap_for. case_decide as Hn; [by left|].
  destruct (cache_fails (ctick (w_cache w))) eqn:Hf.
  - unfold resolve_cap, on_cache, cap_for_customer, cache_stmt. rewrite Hf. cbn. auto.
  - pose proof (resolve_cap_exact user (i64_saturating_sub now (staleness_secs policy)) now w Hf) as Hx.
    destruct (resolve_cap _ _ _ w).1; naive_solver.
Qed.

Lemma grants_wider (t : gmap (list byte) LicenseRow) (cid : string) (lo lo' now m : Z) :
  lo' <= lo -> grants t cid lo now m -> grants t cid lo' now m.
Proof using. intros Hl (h & row & H1 & H2 & H3 & H4 & H5). exists h, row. split_and!; try done; lia. Qed.
Lemma resolve_cap_wider (cid : string) (lo lo' now : Z) (w : World B) (m : Z) :
  cache_fails (ctick (w_cache w)) = false -> lo' <= lo ->
  (resolve_cap cid lo now w).1 = Cap m ->
  exists m', (resolve_cap cid lo' now w).1 = Cap m' /\ m <= m'.
Proof using.
  intros Hf Hl Hc. pose proof (resolve_cap_exact cid lo now w Hf) as H1. rewrite Hc in H1.
  destruct H1 as [Hg _]. apply (grants_wider _ _ _ lo') in Hg as Hg'; [|done].
  pose proof (resolve_cap_exact cid lo' now w Hf) as H2.
  destruct (resolve_cap cid lo' now w).1 as [|m'|].
  - exfalso. apply H2. destruct Hg as (h & row & ? & ? & _). by exists h, row.
  - exists m'. split; [done|]. by apply H2.
  - exfalso. by apply (proj2 H2 m).
Qed.

(** The destructive prune is never stricter than the gate that authorised the
    claims: whatever windows the operator configures, if the claim gate grants a
    cap then the window the prune uses grants at least as much. *)
Theorem prune_never_stricter (p : PolarPolicy) (user : string) (now m : Z) (w : World B) :
  let policy := PolarGate_new p in
  cache_fails (ctick (w_cache w)) = false -> (cap_for policy user now w).1 = Cap m ->
  exists m', (resolve_cap user (i64_saturating_sub now (cap_prune_grace_secs policy)) now w).1 = Cap m'
             /\ m <= m'.
Proof using.
  cbv zeta. intros Hf Hc. unfold cap_for in Hc. case_decide as Hn; [done|].
  eapply resolve_cap_wider; [done| |exact Hc]. unfold i64_saturating_sub, PolarGate_new, i64_min, i64_max.
  case_decide; cbn; lia.
Qed.
End cap.

(** ** The effect of each part on the world *)
Section auth.
Context {B : Type} `{!PolarBackend B, !CacheEngine, !Engine}.
Context (policy : PolarPolicy) (debug_resource : Resource -> string).

(** Account resolution only reads or extends the registry. *)
Definition same_but_reg (w w' : World B) : Prop :=
  w_cache w' = w_cache w /\ w_budget w' = w_budget w /\ w_backend w' = w_backend w /\
  w_rec w' = w_rec w /\ w_router w' = w_router w /\ w_sent w' = w_sent w.
Lemma on_reg_same {A : Type} (m : Conn -> A * Conn) (w w' : World B) (a : A) :
  on_reg m w = (a, w') -> m (w_reg w) = (a, w_reg w') /\ same_but_reg w w'.
Proof using. unfold on_reg. destruct (m (w_reg w)) as [x c]. by intros [= <- <-]. Qed.
Lemma same_but_reg_trans (w1 w2 w3 : World B) :
  same_but_reg w1 w2 -> same_but_reg w2 w3 -> same_but_reg w1 w3.
Proof using. unfold same_but_reg. intuition congruence. Qed.

Lemma lookup_run (cid : string) (c c' : Conn) (r : result RegistryError (option Z)) :
  lookup_user_id cid c = (r, c') ->
  db c' = db c /\ saved c' = saved c /\ (forall o, r = Ok o -> o = user_by_name cid (db c)).
Proof using.
  unfold lookup_user_id, q, st_map_err. destruct (query_db (user_by_name cid) c) as (H1 & H2 & H3).
  destruct (query _ c) as [[o|e] c1]; intros [= <- <-]; split_and!; try done. intros o' [= <-]. by apply H3.
Qed.

(** The registry part of account resolution. *)
Lemma add_user_run (cid : string) (c c' : Conn) (r : result RegistryError Z) :
  idle tables_wf c -> add_user cid c = (r, c') ->
  idle tables_wf c' /\ hostnames (db c') = hostnames (db c) /\ tcp_ports (db c') = tcp_ports (db c) /\
  tokens (db c') = tokens (db c) /\
  (forall uid, r = Ok uid -> user_by_name cid (db c') = Some uid) /\
  (forall e, r = Err e -> db c' = db c).
Proof using.
  intros Hc Hrun. pose proof (run_reg_wf EmptyString (OpAddUser cid) c Hc) as Hw. cbn in Hw.
  rewrite Hrun in Hw. split; [done|]. clear Hc. revert Hrun Hw. unfold add_user, RegistryProps.reliable.
  destruct (is_empty cid); [by intros [= <- <-]|]. case_decide; [by intros [= <- <-]|].
  unfold_ops. destruct (engine_fails (tick c)); cbn; [by intros [= <- <-]|].
  destruct (user_by_name cid (db c)) eqn:E; cbn; [by intros [= <- <-]|].
  destruct (engine_fails (S (tick c))); cbn; [by intros [= <- <-]|].
  unfold insert_user. case_bool_decide as Hin; cbn; [by intros [= <- <-]|].
  intros [= <- <-] Hw. cbn. split_and!; try done. intros uid [= <-].
  unfold user_by_name. cbn. rewrite filter_app, filter_cons. cbn. rewrite decide_True by done.
  apply head_filter_None in Hin. destruct (filter _ (users (db c))); done.
Qed.

Lemma resolve_user_run (cid : string) (w w' : World B) (o : option AuthedUser) :
  idle tables_wf (w_reg w) -> resolve_user cid w = (o, w') ->
  same_but_reg w w' /\ idle tables_wf (w_reg w') /\
  hostnames (db (w_reg w')) = hostnames (db (w_reg w)) /\
  tcp_ports (db (w_reg w')) = tcp_ports (db (w_reg w)) /\
  tokens (db (w_reg w')) = tokens (db (w_reg w)) /\
  (forall u, o = Some u -> name u = cid /\ cid <> EmptyString /\
     user_by_name cid (db (w_reg w')) = Some (Auth.user_id u)).
Proof using.
  intros Hc. unfold resolve_user. destruct cid as [|ch rest] eqn:Ecid; cbn [is_empty]; [by intros [= <- <-]|].
  rewrite <- Ecid. assert (Hne : cid <> EmptyString) by (by rewrite Ecid). clear Ecid.
  destruct (on_reg (lookup_user_id cid) w) as [r1 w1] eqn:E1.
  apply on_reg_same in E1 as [E1 S1]. apply lookup_run in E1 as (D1 & V1 & L1).
  assert (Hc1 : idle tables_wf (w_reg w1)) by (unfold idle; by rewrite D1, V1).
  destruct r1 as [[uid|]|e].
  - intros [= <- <-]. rewrite D1. split_and!; try done. intros u [= <-]. split_and!; try done.
    symmetry. by apply L1.
  - destruct (on_reg (add_user cid) w1) as [r2 w2] eqn:E2. apply on_reg_same in E2 as [E2 S2].
    pose proof (same_but_reg_trans _ _ _ S1 S2) as S12.
    apply add_user_run in E2 as (Hc2 & H1 & H2 & H3 & H4 & H5); [|done]. rewrite D1 in H1, H2, H3.
    destruct r2 as [uid|e].
    + intros [= <- <-]. split_and!; try done. intros u [= <-]. split_and!; try done. by apply H4.
    + destruct e; try (by intros [= <- <-]).
      destruct (on_reg (lookup_user_id cid) w2) as [r3 w3] eqn:E3.
      apply on_reg_same in E3 as [E3 S3]. apply lookup_run in E3 as (D3 & V3 & L3).
      assert (Hc3 : idle tables_wf (w_reg w3)) by (unfold idle; rewrite D3, V3; apply Hc2).
      pose proof (same_but_reg_trans _ _ _ S12 S3) as S13.
      destruct r3 as [[uid|]|]; intros [= <- <-]; rewrite D3; split_and!; try done.
      intros u [= <-]. split_and!; try done. symmetry. by apply L3.
  - intros [= <- <-]. rewrite D1. by split_and!.
Qed.

Lemma resolve_user_name (cid : string) (w w' : World B) (u : AuthedUser) :
  resolve_user cid w = (Some u, w') -> name u = cid /\ cid <> EmptyString.
Proof using.
  unfold resolve_user. destruct cid as [|c s]; cbn [is_empty]; [done|].
  repeat case_match; intros Hr; simplify_eq; done.
Qed.
Lemma on_cache_same {A : Type} (m : LicenseCache -> A * LicenseCache) (w w' : World B) (a : A) :
  on_cache m w = (a, w') ->
  m (w_cache w) = (a, w_cache w') /\ w_budget w' = w_budget w /\ w_backend w' = w_backend w /\
  w_rec w' = w_rec w /\ w_reg w' = w_reg w /\ w_router w' = w_router w /\ w_sent w' = w_sent w.
Proof using. unfold on_cache. destruct (m (w_cache w)) as [x c]. by intros [= <- <-]. Qed.
Lemma get_run (h : list byte) (c c' : LicenseCache) (r : result SqlError (option LicenseRow)) :
  get h c = (r, c') ->
  table c' = table c /\ (cache_fails (ctick c) = false -> r = Ok (table c !! h)) /\
  (forall row, unwrap_or None r = Some row -> table c !! h = Some row).
Proof using.
  unfold get, cache_stmt. destruct (cache_fails (ctick c)); intros [= <- <-]; by split_and!.
Qed.

(** What justifies honouring a key at [now]: a cached grant inside one of the two
    windows, or a grant the backend just returned for a benefit with a cap. *)
Definition cached_grant (key cid : string) (now : Z) (w : World B) : Prop :=
  exists row, rows_in w !! hash_key key = Some row /\ customer_id row = cid /\
    status row = "granted"%string /\ is_Some (max_tunnels row) /\ validated_at row <= now /\
    (now <= i64_add (validated_at row) (cache_ttl_secs policy) \/
     now <= i64_add (validated_at row) (staleness_secs policy)).
Definition fresh_grant (key cid : string) (w : World B) : Prop :=
  exists bid m, (validate key (w_backend w)).1 = VGranted cid bid /\ benefits policy !! bid = Some m.

Lemma granted_mapped_true (row : LicenseRow) :
  granted_mapped row = true <-> status row = "granted"%string /\ is_Some (max_tunnels row).
Proof using.
  unfold granted_mapped. rewrite andb_true_iff, bool_decide_eq_true. by rewrite String.eqb_eq.
Qed.

Lemma on_granted_sound (domain key cid bid : string) (now : Z) (w w' : World B) (u : AuthedUser) :
  on_granted policy debug_resource domain key cid bid now w = (Some u, w') ->
  name u = cid /\ cid <> EmptyString /\ is_Some (benefits policy !! bid).
Proof using.
  unfold on_granted. destruct (on_cache _ w) as [[[]|] w1]; [|done].
  destruct (benefits policy !! bid) as [cap|]; [|done].
  destruct (resolve_user cid w1) as [[u'|] w2] eqn:E; [|done]. intros [= <- _].
  apply resolve_user_name in E. naive_solver.
Qed.
Lemma on_unavailable_sound (cached : option LicenseRow) (now : Z) (w w' : World B) (u : AuthedUser) :
  on_unavailable policy cached now w = (Some u, w') ->
  exists row, cached = Some row /\ honorable policy now row = true /\
    name u = customer_id row /\ name u <> EmptyString.
Proof using.
  unfold on_unavailable. destruct cached as [row|]; [|done].
  destruct (honorable policy now row) eqn:E; [|done]. intros [Hn Hne]%resolve_user_name.
  exists row. split_and!; congruence.
Qed.
Lemma windows_grant (key : string) (now : Z) (w : World B) (row : LicenseRow) :
  rows_in w !! hash_key key = Some row ->
  (fresh policy now row && granted_mapped row) || honorable policy now row = true ->
  cached_grant key (customer_id row) now w.
Proof using.
  intros Hr. unfold fresh, honorable. rewrite orb_true_iff, !andb_true_iff, !Z.leb_le.
  rewrite granted_mapped_true. intros Hw. exists row. split_and!; intuition.
Qed.

(** C29 A license key authenticates only on evidence: the credential is not a local
    token, the clock works, the customer id is not empty, and either the cache
    holds a mapped grant for exactly this key and customer inside its freshness
    or staleness window, or Polar has just granted the key for this customer on a
    benefit the operator gave a cap. *)
Theorem license_auth_sound (key : string) (now instant : Z) (w w' : World B) (u : AuthedUser) :
  gate_authenticate policy debug_resource key now instant w = (Some u, w') ->
  starts_with "etun_" key = false /\ now <> 0 /\ is_Some (w_rec w) /\ name u <> EmptyString /\
  (cached_grant key (name u) now w \/ fresh_grant key (name u) w).
Proof using.
  unfold gate_authenticate. destruct (starts_with "etun_" key); [done|].
  destruct (w_rec w) as [domain|]; [|done]. case_decide as Hn; [done|].
  destruct (on_cache (get (hash_key key)) w) as [got w1] eqn:Eg.
  apply on_cache_same in Eg as (Eg & _ & Hb & _). apply get_run in Eg as (_ & _ & Hrow).
  cut (forall cid, name u = cid /\ cid <> EmptyString /\ (cached_grant key cid now w \/ fresh_grant key cid w) ->
    false = false /\ now <> 0 /\ is_Some (Some domain) /\ name u <> EmptyString /\
    (cached_grant key (name u) now w \/ fresh_grant key (name u) w)); [|naive_solver].
  intros Hcut Hrun. cbv zeta in Hrun.
  destruct (match unwrap_or None got with Some row => fresh policy now row | None => false end) eqn:Ef.
  - destruct (unwrap_or None got) as [row|]; [|done]. destruct (granted_mapped row) eqn:Em; [|done].
    apply resolve_user_name in Hrun as [Hnm Hne]. apply (Hcut (customer_id row)). split_and!; try done.
    left. apply windows_grant; [by apply Hrow|]. by rewrite Ef, Em.
  - clear Ef. destruct (try_take instant (w_budget w1)) as [took v].
    destruct (if took then _ else _) as [outcome w3] eqn:Eo.
    assert (Hv : forall cid bid, outcome = VGranted cid bid -> (validate key (w_backend w)).1 = VGranted cid bid).
    { intros cid bid ->. destruct took; [|done]. unfold on_backend in Eo. cbn in Eo. rewrite Hb in Eo.
      destruct (validate key (w_backend w)). by injection Eo as -> _. }
    destruct outcome as [cid bid| |why]; [| done |].
    + apply on_granted_sound in Hrun as (Hnm & Hne & [m Hm]). apply (Hcut cid). split_and!; try done.
      right. exists bid, m. auto.
    + apply on_unavailable_sound in Hrun as (row & Hc & Hh & Hnm & Hne).
      apply (Hcut (customer_id row)). split_and!; [done|congruence|]. left.
      apply windows_grant; [by apply Hrow|]. by rewrite Hh, orb_true_r.
Qed.

(** Rows sit under their own hash. *)
Definition cache_wf (t : gmap (list byte) LicenseRow) : Prop :=
  forall h row, t !! h = Some row -> key_hash row = h.

Lemma fresh_hit (key : string) (now instant : Z) (w : World B) (row : LicenseRow) :
  cache_fails (ctick (w_cache w)) = false -> rows_in w !! hash_key key = Some row ->
  fresh policy now row = true ->
  let (o, w') := gate_authenticate policy debug_resource key now instant w in
  w_backend w' = w_backend w /\ w_budget w' = w_budget w /\ rows_in w' = rows_in w /\
  w_router w' = w_router w /\ (granted_mapped row = false -> o = None).
Proof using.
  intros Hf Hr Hfr. unfold gate_authenticate. destruct (starts_with "etun_" key); [done|].
  destruct (w_rec w) as [domain|]; [|done]. case_decide; [done|].
  destruct (on_cache (get (hash_key key)) w) as [got w1] eqn:Eg.
  apply on_cache_same in Eg as (Eg & Hb & Hk & _ & _ & Hro & _). apply get_run in Eg as (Ht & Hg & _).
  rewrite (Hg Hf). unfold rows_in in *. rewrite Hr. cbn [unwrap_or]. rewrite Hfr. cbv zeta.
  destruct (granted_mapped row) eqn:Em; [|rewrite Ht; done].
  assert (Hres : forall o w', resolve_user (customer_id row) w1 = (o, w') -> same_but_reg w1 w').
  { clear. unfold resolve_user. intros o w'. destruct (is_empty _); [by intros [= <- <-]|].
    destruct (on_reg (lookup_user_id (customer_id row)) w1) as [r2 w2] eqn:E2.
    apply on_reg_same in E2 as [_ S2]. destruct r2 as [[uid|]|]; try (by intros [= <- <-]).
    destruct (on_reg (add_user (customer_id row)) w2) as [r3 w3] eqn:E3.
    apply on_reg_same in E3 as [_ S3]. pose proof (same_but_reg_trans _ _ _ S2 S3) as S23.
    destruct r3 as [uid|[]]; try (by intros [= <- <-]).
    destruct (on_reg (lookup_user_id (customer_id row)) w3) as [r4 w4] eqn:E4.
    apply on_reg_same in E4 as [_ S4]. pose proof (same_but_reg_trans _ _ _ S23 S4) as S24.
    destruct r4 as [[uid|]|]; by intros [= <- <-]. }
  destruct (resolve_user (customer_id row) w1) as [o w'].
  destruct (Hres o w' eq_refl) as (C1 & C2 & C3 & _ & C5 & _). rewrite C1, C2, C3, C5. done.
Qed.

(** A fresh cache entry settles the question locally: the key is honoured only
    if the entry is a mapped grant, and neither the backend, the budget, the cache
    contents nor the routing table change. *)
Theorem fresh_cache_no_http (key : string) (now instant : Z) (w : World B) (row : LicenseRow) :
  cache_fails (ctick (w_cache w)) = false -> rows_in w !! hash_key key = Some row ->
  fresh policy now row = true ->
  let (o, w') := gate_authenticate policy debug_resource key now instant w in
  w_backend w' = w_backend w /\ w_budget w' = w_budget w /\ rows_in w' = rows_in w /\
  w_router w' = w_router w /\ (granted_mapped row = false -> o = None).
Proof using. apply fresh_hit. Qed.

Lemma on_not_licensed_row (key : string) (cached : option LicenseRow) (now : Z) (w : World B) :
  (forall n, cache_fails n = false) ->
  (forall row, cached = Some row -> key_hash row = hash_key key) ->
  let (o, w') := on_not_licensed policy key cached now w in
  o = None /\ w_backend w' = w_backend w /\ w_rec w' = w_rec w /\
  exists row, rows_in w' !! hash_key key = Some row /\ status row = "not_licensed"%string /\
    validated_at row = now.
Proof using.
  intros Hf Hk. unfold on_not_licensed, on_cache, upsert, sweep_negative, cache_stmt. cbn.
  destruct cached as [row|]; cbn; rewrite !Hf; cbn; unfold rows_in; cbn; split_and!; try done;
    [rewrite (Hk row eq_refl)|]; rewrite lookup_insert_eq; by eexists.
Qed.

(** A refused key stays refused from the cache: once Polar answers that a key is
    not licensed, every presentation of the key within the freshness window is
    denied without asking Polar again. *)
Theorem negative_cache_holds (key : string) (now instant now' instant' : Z) (w : World B) :
  (forall n, cache_fails n = false) -> cache_wf (rows_in w) -> now <> 0 ->
  starts_with "etun_" key = false -> is_Some (w_rec w) ->
  (forall row, rows_in w !! hash_key key = Some row -> fresh policy now row = false) ->
  (try_take instant (w_budget w)).1 = true -> (validate key (w_backend w)).1 = VNotLicensed ->
  in_i64 (now + cache_ttl_secs policy) -> now <= now' <= now + cache_ttl_secs policy ->
  let w1 := (gate_authenticate policy debug_resource key now instant w).2 in
  (gate_authenticate policy debug_resource key now instant w).1 = None /\
  (gate_authenticate policy debug_resource key now' instant' w1).1 = None /\
  w_backend (gate_authenticate policy debug_resource key now' instant' w1).2 = w_backend w1.
Proof using.
  intros Hf Hwf Hn Het [domain Hrec] Hstale Htake Hval Hi64 Hnow. cbv zeta.
  destruct (gate_authenticate policy debug_resource key now instant w) as [o w1] eqn:E.
  assert (Hres : o = None /\ exists row, rows_in w1 !! hash_key key = Some row /\
            status row = "not_licensed"%string /\ validated_at row = now).
  { unfold gate_authenticate in E. rewrite Het, Hrec, decide_False in E by done.
    destruct (on_cache (get (hash_key key)) w) as [got w2] eqn:Eg.
    apply on_cache_same in Eg as (Eg & Hb & Hk & _). apply get_run in Eg as (Ht & Hg & _).
    rewrite (Hg (Hf _)) in E. cbn [unwrap_or] in E. cbv zeta in E. fold (rows_in w) in E.
    assert (Ef : match rows_in w !! hash_key key with Some row => fresh policy now row | None => false end = false).
    { destruct (rows_in w !! hash_key key) eqn:Er; auto. }
    rewrite Ef, Hb in E. clear Ef. destruct (try_take instant (w_budget w)) as [took v]. cbn in Htake.
    subst took. unfold on_backend in E. cbn [w_backend set_budget] in E. rewrite Hk in E.
    destruct (validate key (w_backend w)) as [out b]. cbn in Hval. subst out.
    pose proof (on_not_licensed_row key (rows_in w !! hash_key key) now
                  (set_backend b (set_budget v w2)) Hf) as Ho.
    rewrite E in Ho. destruct Ho as (-> & _ & _ & Ho); [|done]. intros row Hr. by apply Hwf. }
  destruct Hres as (-> & row & Hrow & Hst & Hva). cbn [fst snd]. split; [done|].
  pose proof (fresh_hit key now' instant' w1 row (Hf _) Hrow) as Hh.
  destruct (gate_authenticate policy debug_resource key now' instant' w1) as [o' w2].
  destruct Hh as (H1 & _ & _ & _ & H5).
  - unfold fresh. rewrite Hva, i64_add_exact by done. apply andb_true_iff. rewrite !Z.leb_le. lia.
  - split; [|exact H1]. apply H5. unfold granted_mapped. by rewrite Hst.
Qed.

Lemma classify_validate_spec (parse : string -> result string ValidateResp) (show : Z -> string)
    (r : result string (Z * string)) :
  match classify_validate parse show r with
  | VNotLicensed => exists st body, r = Ok (st, body) /\
      (is_success st = true /\ (exists v, parse body = Ok v /\ vr_status v <> "granted"%string) \/
       is_success st = false /\ (st = 404 \/ st = 403 \/ st = 422))
  | VGranted cid bid => exists st body v, r = Ok (st, body) /\ is_success st = true /\
      parse body = Ok v /\ vr_status v = "granted"%string /\ vr_customer_id v = cid /\
      vr_benefit_id v = bid /\ cid <> EmptyString /\ bid <> EmptyString /\
      (String.length cid <= 200)%nat /\ (String.length bid <= 200)%nat
  | VUnavailable _ => forall st body, r = Ok (st, body) -> st <> 404 /\ st <> 403 /\ st <> 422
  end.
Proof using.
  unfold classify_validate. destruct r as [[st body]|e]; [|done].
  assert (Hsane : forall s, is_sane_id s = true -> s <> EmptyString /\ (String.length s <= 200)%nat).
  { intros s. unfold is_sane_id. rewrite andb_true_iff, bool_decide_eq_true. intros [H1 H2].
    split; [by destruct s|done]. }
  destruct (is_success st) eqn:Es.
  - assert (Hne : st <> 404 /\ st <> 403 /\ st <> 422) by (unfold is_success in Es; lia).
    destruct (parse body) as [v|e] eqn:Ep; [|naive_solver].
    destruct (String.eqb_spec (vr_status v) "granted") as [Hg|Hg]; [|exists st, body; eauto 7].
    destruct (is_sane_id (vr_customer_id v)) eqn:E1; [|naive_solver].
    destruct (is_sane_id (vr_benefit_id v)) eqn:E2; [|naive_solver]. cbn.
    destruct (Hsane _ E1), (Hsane _ E2). exists st, body, v. by split_and!.
  - destruct ((st =? 429) || is_server_error st) eqn:Et.
    + intros st' body' [= <- <-]. apply orb_true_iff in Et. unfold is_server_error in Et. lia.
    + destruct ((st =? 404) || (st =? 403) || (st =? 422)) eqn:E4.
      * exists st, body. split; [done|]. right. split; [done|]. lia.
      * intros st' body' [= <- <-]. lia.
Qed.

(** The HTTP status mapping, end to end: only an explicit answer (a readable body
    of at most 64 KiB that is not granted, or 404, 403, 422) refuses a key; a
    malformed request, a timeout, a transport error, an oversized or unreadable
    body, rate limiting, server errors and unexpected statuses are all
    indeterminate; a grant always carries usable ids.  One request is made at
    most. *)
Theorem validate_mapping (check_uri : string -> result string ())
    (request : HttpRequest -> B -> HttpAnswer * B) (to_json : list (string * string) -> string)
    (parse : string -> result string ValidateResp) (show : Z -> string) (api_base org key : string) (b : B) :
  let (o, b') := http_validate check_uri request to_json parse show api_base org key b in
  (b' = b \/ exists req, b' = (request req b).2) /\
  match o with
  | VNotLicensed => exists req st bytes, (request req b).1 = Response st (Some bytes) /\
      (is_success st = true /\ (exists v, parse bytes = Ok v /\ vr_status v <> "granted"%string) \/
       is_success st = false /\ (st = 404 \/ st = 403 \/ st = 422))
  | VGranted cid bid => exists req st bytes v, (request req b).1 = Response st (Some bytes) /\
      (String.length bytes <= 64 * 1024)%nat /\ is_success st = true /\
      parse bytes = Ok v /\ vr_status v = "granted"%string /\ vr_customer_id v = cid /\
      vr_benefit_id v = bid /\ cid <> EmptyString /\ bid <> EmptyString /\
      (String.length cid <= 200)%nat /\ (String.length bid <= 200)%nat
  | VUnavailable _ => True
  end.
Proof using.
  unfold http_validate, post_json. destruct (check_uri _) as [[]|e]; [|by cbn; auto].
  match goal with |- context [request ?r b] => set (req := r) end.
  destruct (request req b) as [ans b'] eqn:Er.
  assert (Hb : b' = b \/ exists q, b' = (request q b).2) by (right; exists req; by rewrite Er).
  assert (Ha : (request req b).1 = ans) by (by rewrite Er). clearbody req. clear Er.
  destruct ans as [|e|st [bytes|]]; try (by split).
  destruct (decide (64 * 1024 < String.length bytes)%nat) as [Hl|Hl]; [by split|]. split; [done|].
  pose proof (classify_validate_spec parse show (Ok (st, bytes))) as Hs.
  destruct (classify_validate parse show (Ok (st, bytes))) as [cid bid| |why]; [| |done].
  - destruct Hs as (st' & body' & v & [= <- <-] & Hg). exists req, st, bytes, v.
    split; [done|]. split; [lia|]. done.
  - destruct Hs as (st' & body' & [= <- <-] & Hg). by exists req, st, bytes.
Qed.
End auth.

(** ** Examples *)
Module PolarDemo.
(** A scripted backend that counts the calls made to it. *)
Definition script (key : string) : ValidateOutcome :=
  if String.eqb key "good" then VGranted "cust" "pro" else VNotLicensed.
#[export] Instance ScriptBackend : PolarBackend nat := {
  validate key n := (script key, S n);
  activate key label n := (Activated "act", S n);
  deactivate key a n := (Ok (), S n);
}.
#[export] Instance sound_cache : CacheEngine := {| cache_fails _ := false |}.
#[export] Instance sound_db : Engine := demo_engine [].
Definition demo_policy : PolarPolicy :=
  PolarGate_new (mkPolicy "org" 300 3600 60 true (<["pro" := 5]> ∅) 10 20).
Definition say (r : Resource) : string := "a tunnel".
Definition empty_world : World nat :=
  mkWorld (mkCache ∅ 0) (ValidateBudget_new 10 20 0) 0%nat (Some "relay.dev"%string)
    (mkConn no_tables None 0) Router_new [].
(** After the key ["good"] was validated at time 1000. *)
Definition granted_row : LicenseRow :=
  mkRow (@sha256 (demo_engine []) "good") "cust" "pro" (Some 5) "granted" None 1000.
Definition granted_world : World nat :=
  mkWorld (mkCache (<[@sha256 (demo_engine []) "good" := granted_row]> ∅) 0)
    (ValidateBudget_new 10 20 0) 0%nat (Some "relay.dev"%string) (mkConn no_tables None 0) Router_new [].
End PolarDemo.
Import PolarDemo.

Lemma prune_never_stricter_witness :
  exists m', (resolve_cap "cust" (i64_saturating_sub 2000 (cap_prune_grace_secs demo_policy)) 2000 granted_world).1
             = Cap m' /\ 5 <= m'.
Proof.
  apply (prune_never_stricter (mkPolicy "org" 300 3600 60 true (<["pro" := 5]> ∅) 10 20) "cust" 2000 5).
  - reflexivity.
  - vm_compute. reflexivity.
Defined.
Lemma license_auth_sound_witness :
  name (default (mkAuthedUser 0 EmptyString) (gate_authenticate demo_policy say "good" 2000 0 empty_world).1) <> EmptyString.
Proof.
  destruct (gate_authenticate demo_policy say "good" 2000 0 empty_world) as [[u|] w'] eqn:E;
    [|vm_compute in E; discriminate].
  exact (proj1 (proj2 (proj2 (proj2 (license_auth_sound demo_policy say "good" 2000 0 empty_world w' u E))))).
Defined.
Lemma fresh_cache_no_http_witness :
  w_backend (gate_authenticate demo_policy say "good" 1200 0 granted_world).2 = 0%nat.
Proof.
  pose proof (fresh_cache_no_http demo_policy say "good" 1200 0 granted_world granted_row eq_refl) as H.
  destruct (gate_authenticate demo_policy say "good" 1200 0 granted_world) as [o w'].
  apply H; vm_compute; reflexivity.
Defined.
Lemma negative_cache_holds_witness :
  (gate_authenticate demo_policy say "bad" 1100 0
     (gate_authenticate demo_policy say "bad" 1000 0 empty_world).2).1 = None.
Proof.
  refine (proj1 (proj2 (negative_cache_holds demo_policy say "bad" 1000 0 1100 0 empty_world
    (fun _ => eq_refl) _ _ _ _ _ _ _ _ _))).
  - intros h row. vm_compute. discriminate.
  - discriminate.
  - reflexivity.
  - exists "relay.dev"%string. reflexivity.
  - intros row Hr. vm_compute in Hr. discriminate Hr.
  - vm_compute. reflexivity.
  - reflexivity.
  - vm_compute. split; discriminate.
  - vm_compute. split; discriminate.
Defined.
