(* ===== verification/Session.v ===== *)
(** * Sessions (crates/relay/src/session.rs, and the port manager of tcp.rs)

    One session serves one daemon: the handshake, the control loop with its
    claim, release and listing frames, the periodic re-validation, and the actor
    that owns the connection.  The session layer is written against the
    interface [SessionWorld]: the [Authenticator], the router, the license gate
    and the raw-TCP port manager of the relay it runs in. *)
From stdpp Require Import pretty.
From S2P Require Import Prelude Limits Frames Codec Router Auth Polar.
Local Open Scope Z_scope.

(** [TcpPortManager]: the range it may bind and the ports it has bound. *)
Record TcpPortManager := mkTcp { port_range : Z * Z; bound : gset Z }.
Definition in_range (m : TcpPortManager) (port : Z) : bool :=
  (fst (port_range m) <=? port) && (port <=? snd (port_range m)).
(** [ensure_bound]: [bind] is the operating system's answer. *)
Definition ensure_bound (port : Z) (bind : result string ()) (m : TcpPortManager) :
    result string () * TcpPortManager :=
  if bool_decide (port ∈ bound m) then (Ok (), m)
  else match bind with
       | Err e => (Err e, m)
       | Ok _ => (Ok (), mkTcp (port_range m) ({[port]} ∪ bound m))
       end.

(** What a session sees of the relay ([SessionCtx]). *)
Class SessionWorld (W : Type) := {
  sw_auth :: Authenticator W;
  router_of : W -> RouterInner;
  with_router : RouterInner -> W -> W;
  notify : SessionHandle -> ControlFrame -> W -> W;
  tcp_manager : W -> option TcpPortManager;
  bind_port : Z -> W -> result string () * W;
  gate_installed : W -> bool;
  gate_auth : string -> W -> option AuthedUser * W;
  gate_cap : string -> W -> CapDecision * W;
  gate_activate : string -> W -> result string () * W;
  gate_deactivate : string -> W -> W;
}.

Definition negotiate (peer_min peer_max : Z) : option Z :=
  let v := Z.min peer_max PROTOCOL_VERSION in
  if (peer_min <=? v) && (1 <=? v) then Some v else None.

(** The control side of a session: the relay, the frames queued for the daemon
    so far, and how many sends were tried.  [stalls n] tells whether the [n]-th
    send gives up ([CTRL_SEND_TIMEOUT], or a closed channel). *)
Record Sess (W : Type) := mkSess { world : W; out : list ControlFrame; sends : nat }.
Arguments mkSess {W}.
Arguments world {W}.
Arguments out {W}.
Arguments sends {W}.

(** A read under a deadline. *)
Inductive HsRead (A : Type) := HsTimeout | HsGot (r : result CodecError A).
Arguments HsTimeout {A}.
Arguments HsGot {A} r.

Section session.
Context {W : Type} `{!SessionWorld W}.
Context (stalls : nat -> bool).
Context (server_version : string).
(** The [Debug] rendering of a resource, and the notice for a tunnel whose
    hostname was revoked. *)
Context (debug_resource : Resource -> string).
Definition revoked_message (r : Resource) : string :=
  "tunnel " +:+ debug_resource r +:+ " stopped: hostname revoked".

Definition set_world (w : W) (s : Sess W) : Sess W := mkSess w (out s) (sends s).
Definition push (f : ControlFrame) (s : Sess W) : bool * Sess W :=
  if stalls (sends s) then (false, mkSess (world s) (out s) (S (sends s)))
  else (true, mkSess (world s) (out s ++ [f]) (S (sends s))).

Definition authenticate_any (token : string) (w : W) : option AuthedUser * W :=
  match authenticate token w with
  | (Some user, w1) => (Some user, w1)
  | (None, w1) => if gate_installed w1 then gate_auth token w1 else (None, w1)
  end.

(** ** Claims *)
Definition denial : Type := DenyCode * string.

Fixpoint check_ports (tcp : option TcpPortManager) (user : AuthedUser) (ports : list Z) (w : W) :
    result denial () * W :=
  match ports with
  | [] => (Ok (), w)
  | port :: rest =>
      match tcp with
      | None => (Err (PortNotReserved, "tcp tunnels are not enabled on this relay"%string), w)
      | Some manager =>
          let not_reserved := (PortNotReserved, "port " +:+ pretty port +:+ " not reserved") in
          if negb (in_range manager port) then (Err not_reserved, w)
          else match owns_port (user_id user) port w with
               | (false, w1) => (Err not_reserved, w1)
               | (true, w1) =>
                   match bind_port port w1 with
                   | (Err e, w2) =>
                       (Err (PortUnavailable, "port " +:+ pretty port +:+ " unavailable: " +:+ e), w2)
                   | (Ok _, w2) => check_ports tcp user rest w2
                   end
               end
      end
  end.

Definition limit_message (max : Z) : string :=
  "tunnel limit reached (" +:+ pretty max +:+ "); upgrade your plan for more".

(** The license gate's part of a claim: the cap to enforce, or a refusal. *)
Definition claim_cap (user : AuthedUser) (token : string) (hosts : list string) (ports : list Z) (w : W) :
    result denial (option Z) * W :=
  if negb (gate_installed w) then (Ok None, w)
  else
    match gate_activate token w with
    | (Err why, w1) => (Err (LimitExceeded, why), w1)
    | (Ok _, w1) =>
        match gate_cap (name user) w1 with
        | (Allow, w2) => (Ok None, w2)
        | (DenyAll, w2) => (Err (LimitExceeded, "subscription does not permit new tunnels"%string), w2)
        | (Cap max, w2) =>
            let projected := projected_tunnel_count (user_id user) hosts ports (router_of w2) in
            if decide (max < Z.of_nat projected)
            then (Err (LimitExceeded, limit_message max), w2)
            else (Ok (Some max), w2)
        end
    end.

Fixpoint claim_hosts (user : AuthedUser) (cap : option Z) (hosts : list string) (w : W) :
    result denial () * W :=
  match hosts with
  | [] => (Ok (), w)
  | host :: rest =>
      match claim_hostname (user_id user) host cap w with
      | (Auth.Owned, w1) => claim_hosts user cap rest w1
      | (Taken, w1) => (Err (NotOwner, "not authorized for " +:+ host), w1)
      | (CapExceeded, w1) => (Err (LimitExceeded, limit_message (default 0 cap)), w1)
      | (Invalid why, w1) => (Err (NotOwner, "cannot claim " +:+ host +:+ ": " +:+ why), w1)
      | (Auth.Error, w1) => (Err (NotOwner, "could not register " +:+ host), w1)
      end
  end.

(** Everything a claim checks and registers before it touches the router. *)
Definition claim_checks (user : AuthedUser) (token : string) (hosts : list string) (ports : list Z)
    (w : W) : result denial () * W :=
  match check_ports (tcp_manager w) user ports w with
  | (Err d, w1) => (Err d, w1)
  | (Ok _, w1) =>
      match claim_cap user token hosts ports w1 with
      | (Err d, w2) => (Err d, w2)
      | (Ok cap, w2) => claim_hosts user cap hosts w2
      end
  end.

Definition notify_all (frame : Resource -> ControlFrame) (l : list (SessionHandle * Resource)) (w : W) : W :=
  foldl (fun w hr => notify hr.1 (frame hr.2) w) w l.

Definition too_large (what : string) : ControlFrame :=
  Denied ProtocolError (what +:+ " too large (max " +:+ pretty MAX_CLAIM_ENTRIES +:+ " entries)").

Definition handle_claim (handle : SessionHandle) (user : AuthedUser) (token : string)
    (hostnames : list string) (tcp_ports : list Z) (s : Sess W) : bool * Sess W :=
  if decide (MAX_CLAIM_ENTRIES < length hostnames + length tcp_ports)%nat
  then push (too_large "claim") s
  else
    let hosts := to_ascii_lowercase <$> hostnames in
    match claim_checks user token hosts tcp_ports (world s) with
    | (Err (code, msg), w1) => push (Denied code msg) (set_world w1 s)
    | (Ok _, w1) =>
        let (r', superseded) := claim handle hosts tcp_ports (router_of w1) in
        let w2 := notify_all Superseded superseded (with_router r' w1) in
        push (Granted hosts tcp_ports) (set_world w2 s)
    end.

(** ** Releases *)
Fixpoint release_hosts (uid : Z) (hosts : list string) (w : W) : list string * W :=
  match hosts with
  | [] => ([], w)
  | h :: rest =>
      let (b, w1) := release_hostname uid h w in
      let (l, w2) := release_hosts uid rest w1 in
      (if (b : bool) then h :: l else l, w2)
  end.
Fixpoint release_ports (uid : Z) (ports : list Z) (w : W) : list Z * W :=
  match ports with
  | [] => ([], w)
  | p :: rest =>
      let (b, w1) := release_port uid p w in
      let (l, w2) := release_ports uid rest w1 in
      (if (b : bool) then p :: l else l, w2)
  end.
(** [owned_hostnames(..).is_empty() && owned_ports(..).is_empty()]. *)
Definition owns_nothing (uid : Z) (w : W) : bool * W :=
  let (hs, w1) := owned_hostnames uid w in
  match hs with
  | _ :: _ => (false, w1)
  | [] => let (ps, w2) := owned_ports uid w1 in
          (match ps with [] => true | _ => false end, w2)
  end.

Definition handle_release (user : AuthedUser) (token : string) (hostnames : list string)
    (tcp_ports : list Z) (s : Sess W) : bool * Sess W :=
  if decide (MAX_CLAIM_ENTRIES < length hostnames + length tcp_ports)%nat
  then push (too_large "release") s
  else
    let hosts := to_ascii_lowercase <$> hostnames in
    let (rh, w1) := release_hosts (user_id user) hosts (world s) in
    let (rp, w2) := release_ports (user_id user) tcp_ports w1 in
    let w3 :=
      match rh, rp with
      | [], [] => w2
      | _, _ =>
          let w3 := with_router (evict_routes rh rp (router_of w2)).1 w2 in
          if gate_installed w3 then
            let (nothing, w4) := owns_nothing (user_id user) w3 in
            if (nothing : bool) then gate_deactivate token w4 else w4
          else w3
      end in
    push (Released rh rp) (set_world w3 s).

(** ** Re-validation *)
Inductive Next := Continue | Stop.
#[export] Instance Next_eq_dec : EqDecision Next.
Proof. solve_decision. Defined.

(** The hostnames of the session its user no longer owns. *)
Fixpoint not_owned (uid : Z) (hosts : list string) (w : W) : list string * W :=
  match hosts with
  | [] => ([], w)
  | h :: rest =>
      let (b, w1) := owns_hostname uid h w in
      let (l, w2) := not_owned uid rest w1 in
      (if (b : bool) then l else h :: l, w2)
  end.

Definition revalidate (session_id : Z) (user : AuthedUser) (token : string) (s : Sess W) : Next * Sess W :=
  let revoke w :=
    (Stop, (push (Denied AuthFailed "token revoked") (set_world w s)).2) in
  match authenticate_any token (world s) with
  | (None, w1) => revoke w1
  | (Some u, w1) =>
      if decide (user_id u = user_id user) then
        let (revoked, w2) := not_owned (user_id user) (hostnames_of session_id (router_of w1)) w1 in
        let w3 := match revoked with
                  | [] => w2
                  | _ => let (r', evicted) := evict_routes revoked [] (router_of w2) in
                         notify_all (fun r => Denied NotOwner (revoked_message r)) evicted
                           (with_router r' w2)
                  end in
        if gate_installed w3 then
          match gate_cap (name user) w3 with
          | (DenyAll, w4) =>
              (Stop, (push (Denied LimitExceeded "subscription lapsed or suspended") (set_world w4 s)).2)
          | (_, w4) => (Continue, set_world w4 s)
          end
        else (Continue, set_world w3 s)
      else revoke w1
  end.

(** ** The control loop *)
Definition list_owned (user : AuthedUser) (s : Sess W) : bool * Sess W :=
  let (max_tunnels, w1) :=
    if gate_installed (world s) then
      let (d, w) := gate_cap (name user) (world s) in
      (match d with Allow => None | Cap m => Some (Z.max m 0) | DenyAll => Some 0 end, w)
    else (None, world s) in
  let (hs, w2) := owned_hostnames (user_id user) w1 in
  let (ps, w3) := owned_ports (user_id user) w2 in
  push (Frames.Owned hs ps max_tunnels) (set_world w3 s).

(** What ends a turn of the loop: a frame or an error from the read, silence
    past the dead-man, or the re-validation tick. *)
Inductive CtrlEvent :=
  | EvFrame (f : ControlFrame)
  | EvReadErr (e : CodecError)
  | EvSilent
  | EvTick.

Definition on_frame (handle : SessionHandle) (user : AuthedUser) (token : string) (f : ControlFrame)
    (s : Sess W) : Next * Sess W :=
  match f with
  | Goodbye => (Stop, s)
  | _ =>
      let (ok, s') :=
        match f with
        | Ping nonce => push (Pong nonce) s
        | Claim hs ps => handle_claim handle user token hs ps s
        | Release hs ps => handle_release user token hs ps s
        | ListOwned => list_owned user s
        | Hello _ _ _ _ => push (Frames.Error MalformedClaim "duplicate Hello") s
        | _ => (true, s)
        end in
      (if (ok : bool) then Continue else Stop, s')
  end.

(** [revalidate_on]: re-validation is enabled ([interval] not zero). *)
Definition ctrl_step (revalidate_on : bool) (handle : SessionHandle) (user : AuthedUser) (token : string)
    (ev : CtrlEvent) (s : Sess W) : Next * Sess W :=
  match ev with
  | EvFrame f => on_frame handle user token f s
  | EvReadErr _ => (Stop, s)
  | EvSilent => (Stop, s)
  | EvTick => if revalidate_on then revalidate (sh_session_id handle) user token s else (Continue, s)
  end.
Fixpoint ctrl_loop (revalidate_on : bool) (handle : SessionHandle) (user : AuthedUser) (token : string)
    (evs : list CtrlEvent) (s : Sess W) : Next * Sess W :=
  match evs with
  | [] => (Continue, s)
  | ev :: rest =>
      match ctrl_step revalidate_on handle user token ev s with
      | (Stop, s') => (Stop, s')
      | (Continue, s') => ctrl_loop revalidate_on handle user token rest s'
      end
  end.

(** ** The handshake *)
Inductive Handshake :=
  | HsDropped                                   (* timed out: no answer *)
  | HsFailed (e : CodecError)                   (* the read failed *)
  | HsDenied (code : DenyCode) (message : string)
  | HsAccepted (user : AuthedUser) (token : string) (proto : Z).

Definition handshake (preamble : HsRead Z) (hello : HsRead ControlFrame) (w : W) : Handshake * W :=
  match preamble with
  | HsTimeout => (HsDropped, w)
  | HsGot (Err e) => (HsFailed e, w)
  | HsGot (Ok _) =>
      match hello with
      | HsTimeout => (HsDropped, w)
      | HsGot (Err e) => (HsFailed e, w)
      | HsGot (Ok (Hello token _ proto_min proto_max)) =>
          match negotiate proto_min proto_max with
          | None => (HsDenied VersionUnsupported
                       ("relay speaks protocol " +:+ pretty PROTOCOL_VERSION), w)
          | Some proto =>
              match authenticate_any (expose token) w with
              | (None, w1) => (HsDenied AuthFailed "authentication failed", w1)
              | (Some user, w1) => (HsAccepted user (expose token) proto, w1)
              end
          end
      | HsGot (Ok _) => (HsDenied ProtocolError "expected Hello", w)
      end
  end.

(** The whole control task: handshake, [Welcome], then the loop. *)
Definition control_task (revalidate_on : bool) (session_id : Z) (preamble : HsRead Z)
    (hello : HsRead ControlFrame) (evs : list CtrlEvent) (w : W) : Handshake * Next * Sess W :=
  match handshake preamble hello w with
  | (HsAccepted user token proto, w1) =>
      match push (Welcome proto server_version session_id) (mkSess w1 [] 0) with
      | (false, s) => (HsAccepted user token proto, Stop, s)
      | (true, s) =>
          let (n, s') := ctrl_loop revalidate_on (mkHandle session_id (user_id user)) user token evs s in
          (HsAccepted user token proto, n, s')
      end
  | (h, w1) => (h, Stop, mkSess w1 [] 0)
  end.
End session.

(** ** The actor

    [run_session] owns the multiplexed connection: it accepts exactly one
    inbound stream and serves outbound opens one at a time. *)
Module Actor.
Inductive Inbound := InStream | InError | InClosed.
Inductive Event :=
  | EvCancelled
  | EvDeadline
  | EvInbound (i : Inbound)
  | EvCommand (header : StreamHeader) (req : nat)
  | EvOpened (ok : bool)
  | EvCallerGone                    (* the pending open's caller gave up *)
  | EvHeader (i : nat) (ok : bool). (* the [i]-th header write in flight ends *)
(** The reply to the request numbered [req]. *)
Inductive Reply := OpenedTo (req : nat) (header : StreamHeader) | MuxError (req : nat).
(** [opened]: the streams opened so far, in order; [writing]: the tasks that
    write a stream's header. *)
Record St := mkSt {
  control_started : bool;
  pending_open : option (nat * StreamHeader);
  opened : list (nat * StreamHeader);
  writing : list (nat * StreamHeader);
  replies : list Reply;
  running : bool;
}.
Definition new : St := mkSt false None [] [] [] true.
Definition finish (s : St) : St :=
  mkSt (control_started s) (pending_open s) (opened s) (writing s) (replies s) false.
Definition set_pending (p : option (nat * StreamHeader)) (s : St) : St :=
  mkSt (control_started s) p (opened s) (writing s) (replies s) (running s).
Definition reply (r : Reply) (s : St) : St :=
  mkSt (control_started s) (pending_open s) (opened s) (writing s) (replies s ++ [r]) (running s).

(** One turn of the loop; [None] when the event cannot be delivered in this
    state (the guards of [select!] and of the poll function). *)
Definition turn (ev : Event) (s : St) : option St :=
  match ev with
  | EvCancelled => Some (finish s)
  | EvDeadline => if control_started s then None else Some (finish s)
  | EvInbound InStream =>
      if control_started s then Some (finish s)
      else Some (mkSt true (pending_open s) (opened s) (writing s) (replies s) (running s))
  | EvInbound _ => Some (finish s)
  | EvCommand header req =>
      match pending_open s with
      | Some _ => None
      | None => Some (set_pending (Some (req, header)) s)
      end
  | EvOpened ok =>
      match pending_open s with
      | None => None
      | Some (req, header) =>
          Some (if (ok : bool)
                then mkSt (control_started s) None (opened s ++ [(req, header)])
                       (writing s ++ [(req, header)]) (replies s) (running s)
                else reply (MuxError req) (set_pending None s))
      end
  | EvCallerGone =>
      match pending_open s with
      | None => None
      | Some _ => Some (set_pending None s)
      end
  | EvHeader _ _ => None
  end.
(** The loop's turns while it runs, and the header tasks, which outlive it. *)
Definition step (ev : Event) (s : St) : option St :=
  match ev with
  | EvHeader i ok =>
      '(req, header) ← writing s !! i;
      Some (reply (if (ok : bool) then OpenedTo req header else MuxError req)
        (mkSt (control_started s) (pending_open s) (opened s) (delete i (writing s)) (replies s) (running s)))
  | _ => if running s then turn ev s else None
  end.
Fixpoint run (evs : list Event) (s : St) : option St :=
  match evs with
  | [] => Some s
  | ev :: rest => s' ← step ev s; run rest s'
  end.
End Actor.
