(* ===== verification/SessionProps.v ===== *)
(** * What a session guarantees (crates/relay/src/session.rs)

    Proved against the interface of the relay ([SessionLaws]): who is granted
    what, that a refusal routes nothing, that released names stop being served,
    and that traffic for a name is only ever routed to a session of the user who
    owns it. *)
From S2P Require Import Prelude Limits Frames Codec Router Auth Polar Session.
Local Open Scope Z_scope.

(** Neither the routing table nor the port manager changes. *)
Definition frame {W : Type} `{!SessionWorld W} (w w' : W) : Prop :=
  router_of w' = router_of w /\ tcp_manager w' = tcp_manager w.
(** Routes point at sessions of the owner. *)
Definition routes_owned {W : Type} `{!SessionWorld W, !OwnerView W} (w : W) : Prop :=
  (forall h s, http (router_of w) !! h = Some s -> host_owner w h = Some (sh_user_id s)) /\
  (forall p s, tcp (router_of w) !! p = Some s -> port_owner w p = Some (sh_user_id s)).

(** Routes are only ever dropped from [r] to [r']. *)
Definition fewer_routes (r r' : RouterInner) : Prop := http r' ⊆ http r /\ tcp r' ⊆ tcp r.
Lemma fewer_routes_trans (r1 r2 r3 : RouterInner) :
  fewer_routes r1 r2 -> fewer_routes r2 r3 -> fewer_routes r1 r3.
Proof. intros [] []. split; by etrans. Qed.
Lemma evict_fewer (hs : list string) (ps : list Z) (r : RouterInner) : fewer_routes r (evict_routes hs ps r).1.
Proof.
  destruct (evict_lookup hs ps r) as [L1 L2]. split; apply map_subseteq_spec; intros k x.
  - rewrite L1. by case_decide.
  - rewrite L2. by case_decide.
Qed.

(** What the relay promises its sessions. *)
Class SessionLaws (W : Type) `{!SessionWorld W, !OwnerView W} : Prop := {
  sl_auth :: AuthenticatorLaws W;
  authenticate_frame : forall tok w, frame w (authenticate tok w).2;
  owns_hostname_frame : forall u h w, frame w (owns_hostname u h w).2;
  owns_port_frame : forall u p w, frame w (owns_port u p w).2;
  claim_hostname_frame : forall u h max w, frame w (claim_hostname u h max w).2;
  owned_hostnames_frame : forall u w, frame w (owned_hostnames u w).2;
  owned_ports_frame : forall u w, frame w (owned_ports u w).2;
  release_hostname_frame : forall u h w, frame w (release_hostname u h w).2;
  release_port_frame : forall u p w, frame w (release_port u p w).2;
  router_with : forall r w, router_of (with_router r w) = r;
  with_router_law : forall r w, auth_inv w ->
    auth_inv (with_router r w) /\ same_owners w (with_router r w) /\
    tcp_manager (with_router r w) = tcp_manager w;
  notify_law : forall h f w, auth_inv w ->
    auth_inv (notify h f w) /\ same_owners w (notify h f w) /\ frame w (notify h f w);
  bind_port_law : forall p w, auth_inv w ->
    let w' := (bind_port p w).2 in
    auth_inv w' /\ same_owners w w' /\ router_of w' = router_of w /\
    (forall m, tcp_manager w = Some m -> exists m', tcp_manager w' = Some m' /\
       port_range m' = port_range m /\ bound m ⊆ bound m' /\
       bound m' ⊆ {[p]} ∪ bound m /\ ((bind_port p w).1 = Ok () -> p ∈ bound m'));
  gate_cap_law : forall n w, auth_inv w ->
    auth_inv (gate_cap n w).2 /\ same_owners w (gate_cap n w).2 /\ frame w (gate_cap n w).2;
  gate_activate_law : forall k w, auth_inv w ->
    auth_inv (gate_activate k w).2 /\ same_owners w (gate_activate k w).2 /\ frame w (gate_activate k w).2;
  gate_deactivate_law : forall k w, auth_inv w ->
    auth_inv (gate_deactivate k w) /\ same_owners w (gate_deactivate k w) /\ frame w (gate_deactivate k w);
  (* the gate may prune over-cap names, with their routes *)
  gate_auth_law : forall k w, auth_inv w ->
    auth_inv (gate_auth k w).2 /\
    (router_wf (router_of w) -> router_wf (router_of (gate_auth k w).2)) /\
    (routes_owned w -> routes_owned (gate_auth k w).2) /\
    fewer_routes (router_of w) (router_of (gate_auth k w).2);
}.

Section props.
Context {W : Type} `{!SessionWorld W, !OwnerView W, !SessionLaws W}.
Context (stalls : nat -> bool) (server_version : string) (debug_resource : Resource -> string).
Implicit Types (w : W) (s : Sess W).

(** An operation with no effect a session's routes depend on. *)
Definition quiet (w w' : W) : Prop := auth_inv w' /\ same_owners w w' /\ frame w w'.
Lemma quiet_refl w : auth_inv w -> quiet w w.
Proof using. intros Hi. split_and!; auto with etun; done. Qed.
Lemma quiet_trans w1 w2 w3 : quiet w1 w2 -> quiet w2 w3 -> quiet w1 w3.
Proof using.
  intros (_ & A2 & A3 & A4) (B1 & B2 & B3 & B4). split; [done|].
  split; [by eapply same_owners_trans|]. split; congruence.
Qed.
Lemma quiet_routes w w' : quiet w w' -> routes_owned w -> routes_owned w'.
Proof using.
  intros (_ & (H1 & H2 & _) & Hr & _) [Hh Hp]. split; rewrite Hr; intros x s Hx;
    rewrite ?H1, ?H2; auto.
Qed.
Lemma notify_all_quiet (f : Resource -> ControlFrame) (l : list (SessionHandle * Resource)) w :
  auth_inv w -> quiet w (notify_all f l w).
Proof using SessionLaws0.
  revert w. induction l as [|x l IH]; intros w Hi; [by apply quiet_refl|].
  destruct (notify_law x.1 (f x.2) w Hi) as (H1 & H2 & H3).
  eapply quiet_trans; [split; [exact H1|done]|]. by apply IH.
Qed.
Lemma quiet_claims_keep w w' h u : quiet w w' -> host_owner w h = Some u -> host_owner w' h = Some u.
Proof using. intros (_ & (H1 & _) & _). by rewrite H1. Qed.

(** ** Port checks *)
Definition port_ok (m : TcpPortManager) (u : Z) (w : W) (p : Z) : Prop :=
  in_range m p = true /\ port_owner w p = Some u /\
  exists m', tcp_manager w = Some m' /\ p ∈ bound m'.
Definition ports_checked (m : option TcpPortManager) (u : Z) (ports : list Z) (r : result denial ()) (w w' : W) : Prop :=
  auth_inv w' /\ same_owners w w' /\ router_of w' = router_of w /\
  (forall m1, tcp_manager w = Some m1 -> exists m2, tcp_manager w' = Some m2 /\
     port_range m2 = port_range m1 /\ bound m1 ⊆ bound m2) /\
  (r = Ok () -> forall p, p ∈ ports -> exists m0, m = Some m0 /\ port_ok m0 u w' p).
Lemma ports_quit m u ports d w w' : quiet w w' -> ports_checked m u ports (Err d) w w'.
Proof using.
  intros (H1 & H2 & H3 & H4). unfold ports_checked. rewrite H4. split_and!; try done. eauto.
Qed.
Lemma check_ports_run (user : AuthedUser) (ports : list Z) (m : option TcpPortManager) w w' r :
  auth_inv w -> check_ports m user ports w = (r, w') ->
  (forall m0, m = Some m0 -> exists m1, tcp_manager w = Some m1 /\ port_range m1 = port_range m0) ->
  ports_checked m (user_id user) ports r w w'.
Proof using SessionLaws0.
  revert w. induction ports as [|p ports IH]; intros w Hi; cbn [check_ports].
  - intros [= <- <-] _. split_and!; auto with etun; [eauto|]. by intros _ p ?%not_elem_of_nil.
  - pose proof (quiet_refl w Hi) as Hq0.
    destruct m as [m0|]; [|intros [= <- <-] _; by apply ports_quit].
    destruct (in_range m0 p) eqn:Er; cbn [negb]; [|intros [= <- <-] _; by apply ports_quit].
    destruct (owns_port_law (user_id user) p w Hi) as (I1 & O1 & Hown).
    pose proof (owns_port_frame (user_id user) p w) as F1.
    destruct (owns_port (user_id user) p w) as [b w1]. cbn [fst snd] in *.
    assert (Hq1 : quiet w w1) by done. destruct F1 as [F1 F2].
    destruct b; [|intros [= <- <-] _; by apply ports_quit].
    destruct (bind_port_law p w1 I1) as (I2 & O2 & R2 & T2).
    destruct (bind_port p w1) as [[[]|e] w2]; cbn [fst snd] in *.
    + intros Hrun Hm. destruct (Hm m0 eq_refl) as (m1 & Hm1 & Hr1). rewrite <- F2 in Hm1.
      destruct (T2 m1 Hm1) as (m2 & Hm2 & Hr2 & Hb2 & _ & Hin).
      destruct (IH w2 I2 Hrun) as (I3 & O3 & R3 & T3 & Hok).
      { intros ? [= <-]. exists m2. split; [done|congruence]. }
      split; [done|]. split; [by do 2 (eapply same_owners_trans; [eassumption|])|].
      split; [congruence|]. split.
      * intros m1' Hm1'. rewrite <- F2, Hm1 in Hm1'. injection Hm1' as <-.
        destruct (T3 m2 Hm2) as (m3 & ? & ? & ?). exists m3. split_and!; [done|congruence|set_solver].
      * intros -> p' [->|Hp]%elem_of_cons; [|by apply Hok]. exists m0. split; [done|].
        destruct (T3 m2 Hm2) as (m3 & Hm3 & _ & Hb3). split_and!; [done| |exists m3; set_solver].
        destruct O3 as (_ & -> & _). destruct O2 as (_ & -> & _). destruct O1 as (_ & -> & _). auto.
    + intros [= <- <-] _. split; [done|]. split; [by eapply same_owners_trans|]. split; [congruence|].
      split; [|done]. intros m1 Hm1. rewrite <- F2 in Hm1. destruct (T2 m1 Hm1) as (m2 & ? & ? & ? & _). eauto.
Qed.

(** ** The gate's part and the hostnames *)
Lemma claim_cap_quiet (user : AuthedUser) (token : string) (hosts : list string) (ports : list Z) w :
  auth_inv w -> quiet w (claim_cap user token hosts ports w).2.
Proof using SessionLaws0.
  intros Hi. unfold claim_cap. destruct (gate_installed w); cbn [negb]; [|by apply quiet_refl].
  pose proof (gate_activate_law token w Hi) as H1. destruct (gate_activate token w) as [[[]|why] w1]; [|done].
  pose proof (gate_cap_law (name user) w1 (proj1 H1)) as H2.
  destruct (gate_cap (name user) w1) as [[|max|] w2]; cbn [snd] in *;
    try (by eapply quiet_trans); case_decide; by eapply quiet_trans.
Qed.

(** The names a user gained: only among [hosts], only for [u]. *)
Definition gained (u : Z) (hosts : list string) (w w' : W) : Prop :=
  forall h, host_owner w' h = host_owner w h \/
            h ∈ hosts /\ host_owner w h = None /\ host_owner w' h = Some u.
Lemma claim_hosts_run (user : AuthedUser) (cap : option Z) (hosts : list string) w w' r :
  auth_inv w -> claim_hosts user cap hosts w = (r, w') ->
  auth_inv w' /\ frame w w' /\ (forall p, port_owner w' p = port_owner w p) /\
  gained (user_id user) hosts w w' /\
  (forall h, host_owner w h = Some (user_id user) -> host_owner w' h = Some (user_id user)) /\
  (r = Ok () -> forall h, h ∈ hosts -> host_owner w' h = Some (user_id user)).
Proof using SessionLaws0.
  revert w. induction hosts as [|h hosts IH]; intros w Hi; cbn [claim_hosts].
  - intros [= <- <-]. split_and!; try done; [by left|]. by intros _ h ?%not_elem_of_nil.
  - pose proof (claim_hostname_law (user_id user) h cap w Hi) as [I1 L1].
    pose proof (claim_hostname_frame (user_id user) h cap w) as F1.
    destruct (claim_hostname (user_id user) h cap w) as [o w1]. cbn [fst snd] in *.
    assert (Hquit : forall d, o <> Auth.Owned -> (Err d, w1) = (r, w') ->
      auth_inv w' /\ frame w w' /\ (forall p, port_owner w' p = port_owner w p) /\
      gained (user_id user) (h :: hosts) w w' /\
      (forall h, host_owner w h = Some (user_id user) -> host_owner w' h = Some (user_id user)) /\
      (r = Ok () -> forall h0, h0 ∈ h :: hosts -> host_owner w' h0 = Some (user_id user))).
    { intros d Ho [= <- <-]. assert (Hs : same_owners w w1) by (by destruct o). destruct Hs as (S1 & S2 & _).
      split_and!; try done; [intros h'; left; apply S1|intros h'; by rewrite S1]. }
    destruct o; try (by apply Hquit). clear Hquit. intros Hrun.
    destruct (IH w1 I1 Hrun) as (I2 & F2 & P2 & G2 & K2 & Ok2). destruct L1 as [P1 L1].
    assert (Ho : host_owner w1 h = Some (user_id user) /\ gained (user_id user) [h] w w1 /\
      forall h', host_owner w h' = Some (user_id user) -> host_owner w1 h' = Some (user_id user)).
    { destruct L1 as [[H1 (S1 & _)]|(H1 & H2 & _)].
      - split_and!; [by rewrite S1|intros h'; left; apply S1|intros h'; by rewrite S1].
      - split_and!; [by rewrite H2, decide_True| |].
        + intros h'. rewrite H2. case_decide; subst; [right; split_and!; auto; by constructor|by left].
        + intros h'. rewrite H2. by case_decide. }
    destruct Ho as (Ho & G1 & K1). split_and!; [done|destruct F1, F2; split; congruence|congruence| |auto|].
    + intros h'. destruct (G1 h') as [E1|(->%list_elem_of_singleton & E1 & E1')].
      * destruct (G2 h') as [E2|(Hin & E2 & E2')]; [left; congruence|right].
        split_and!; [by constructor|congruence|done].
      * right. split_and!; [by constructor|done|]. auto.
    + intros -> h' [->|Hin]%elem_of_cons; [auto|by apply Ok2].
Qed.

(** ** Claims *)
Lemma claim_checks_run (user : AuthedUser) (token : string) (hosts : list string) (ports : list Z) w w' r :
  auth_inv w -> claim_checks user token hosts ports w = (r, w') ->
  auth_inv w' /\ router_of w' = router_of w /\ (forall p, port_owner w' p = port_owner w p) /\
  gained (user_id user) hosts w w' /\
  (r = Ok () -> (forall h, h ∈ hosts -> host_owner w' h = Some (user_id user)) /\
     forall p, p ∈ ports -> exists m, tcp_manager w = Some m /\ port_ok m (user_id user) w' p).
Proof using SessionLaws0.
  intros Hi. unfold claim_checks.
  destruct (check_ports (tcp_manager w) user ports w) as [r1 w1] eqn:E1.
  apply check_ports_run in E1 as (I1 & (O1 & P1 & _) & R1 & _ & K1); [|done|eauto].
  destruct r1 as [[]|d]; [|intros [= <- <-]; split_and!; try done; intros h; left; apply O1].
  pose proof (claim_cap_quiet user token hosts ports w1 I1) as (I2 & (O2 & P2 & _) & F2).
  destruct (claim_cap user token hosts ports w1) as [[cap|d] w2]; cbn [snd] in *.
  2:{ intros [= <- <-]. split; [done|]. split; [destruct F2; congruence|].
      split; [intros p; by rewrite P2|]. split; [|done]. intros h. left. by rewrite O2. }
  intros E3. apply claim_hosts_run in E3 as (I3 & F3 & P3 & G3 & _ & K3); [|done].
  destruct F2 as [R2 T2], F3 as [R3 T3].
  split_and!; [done|congruence|intros p; by rewrite P3, P2| |].
  - intros h. destruct (G3 h) as [E|(Hin & E & E')]; [left; congruence|right]. split_and!; try done. congruence.
  - intros Hr. split; [by apply K3|]. intros p Hp. destruct (K1 eq_refl p Hp) as (m & Hm & Hr' & Hown & m' & Hm' & Hb).
    exists m. split; [done|]. split_and!; [done|by rewrite P3, P2|]. exists m'. split; [congruence|done].
Qed.

Lemma claim_routes (hd : SessionHandle) (hosts : list string) (ports : list Z) w w' :
  (forall h, h ∈ hosts -> host_owner w' h = Some (sh_user_id hd)) ->
  (forall p, p ∈ ports -> port_owner w' p = Some (sh_user_id hd)) ->
  same_owners w w' -> router_of w' = (claim hd hosts ports (router_of w)).1 ->
  routes_owned w -> routes_owned w'.
Proof using.
  intros Hh Hp (O1 & O2 & _) Hr [R1 R2]. destruct (claim_lookup hd hosts ports (router_of w)) as [L1 L2].
  split; rewrite Hr; intros k s'.
  - rewrite L1. case_decide; [intros [= <-]; auto|]. rewrite O1. apply R1.
  - rewrite L2. case_decide; [intros [= <-]; auto|]. rewrite O2. apply R2.
Qed.

Lemma gained_routes (u : Z) (hosts : list string) w w' :
  gained u hosts w w' -> (forall p, port_owner w' p = port_owner w p) ->
  router_of w' = router_of w -> routes_owned w -> routes_owned w'.
Proof using.
  intros G P R [A1 A2]. split; rewrite R; [|intros p x Hx; rewrite P; auto].
  intros h x Hx. destruct (G h) as [->|(_ & En & _)]; [auto|]. apply A1 in Hx. congruence.
Qed.
Lemma push_run (f : ControlFrame) s s' (ok : bool) :
  push stalls f s = (ok, s') -> world s' = world s /\ (out s' = out s \/ out s' = out s ++ [f]) /\
  (ok = true -> out s' = out s ++ [f]).
Proof using. unfold push. destruct (stalls (sends s)); intros [= <- <-]; cbn; split_and!; auto; done. Qed.

(** What a granted claim did, up to the reply. *)
Lemma grant_run (hd : SessionHandle) (user : AuthedUser) (token : string) (hosts : list string)
    (ps : list Z) w w1 :
  sh_user_id hd = user_id user -> auth_inv w -> claim_checks user token hosts ps w = (Ok (), w1) ->
  let (r', sup) := claim hd hosts ps (router_of w1) in
  let w3 := notify_all Superseded sup (with_router r' w1) in
  auth_inv w3 /\ (routes_owned w -> routes_owned w3) /\
  (forall p, port_owner w3 p = port_owner w p) /\ gained (user_id user) hosts w w3 /\
  (forall h, h ∈ hosts -> host_owner w3 h = Some (user_id user) /\
                          lookup_http (router_of w3) h = Some hd) /\
  (forall p, p ∈ ps -> port_owner w3 p = Some (user_id user) /\
                       lookup_tcp (router_of w3) p = Some hd /\
                       exists m, tcp_manager w = Some m /\ in_range m p = true).
Proof using SessionLaws0.
  intros Hu Hi E. apply claim_checks_run in E as (I1 & R1 & P1 & G1 & K1); [|done].
  destruct (K1 eq_refl) as [Kh Kp].
  destruct (claim_lookup hd hosts ps (router_of w1)) as [L1 L2].
  destruct (claim hd hosts ps (router_of w1)) as [r' sup] eqn:Ec. cbv zeta. cbn [fst] in L1, L2.
  destruct (with_router_law r' w1 I1) as (I2 & O2 & T2).
  destruct (notify_all_quiet Superseded sup (with_router r' w1) I2) as (I3 & O3 & R3 & T3).
  set (w3 := notify_all Superseded sup (with_router r' w1)) in *.
  assert (Hrw : router_of w3 = r') by (rewrite R3; apply router_with).
  assert (O13 : same_owners w1 w3) by (by eapply same_owners_trans).
  pose proof O13 as (O31 & O32 & O33).
  split_and!; [done| |intros p; by rewrite O32, P1|intros h; rewrite O31; apply G1| |].
  - intros Hro. eapply (claim_routes hd hosts ps w1); [..|done| |by eapply gained_routes].
    + intros h Hh. rewrite O31, Hu. auto.
    + intros p Hp. rewrite O32, Hu. destruct (Kp p Hp) as (m & _ & _ & Ho & _). done.
    + by rewrite Hrw, Ec.
  - intros h Hh. rewrite O31. split; [auto|]. unfold lookup_http. by rewrite Hrw, L1, decide_True.
  - intros p Hp. destruct (Kp p Hp) as (m & Hm & Hr & Ho & _). rewrite O32. split_and!; [done| |eauto].
    unfold lookup_tcp. by rewrite Hrw, L2, decide_True.
Qed.

(** A claim either replies with exactly one refusal and routes nothing, or is
    granted. *)
Definition claim_refused s s' : Prop :=
  router_of (world s') = router_of (world s) /\
  (out s' = out s \/ exists code msg, out s' = out s ++ [Denied code msg]).
Definition claim_granted (hd : SessionHandle) (u : Z) (hosts : list string) (ps : list Z) s s' : Prop :=
  (out s' = out s \/ out s' = out s ++ [Granted hosts ps]) /\
  (forall h, h ∈ hosts -> host_owner (world s') h = Some u /\
                          lookup_http (router_of (world s')) h = Some hd) /\
  (forall p, p ∈ ps -> port_owner (world s') p = Some u /\
                       lookup_tcp (router_of (world s')) p = Some hd /\
                       exists m, tcp_manager (world s) = Some m /\ in_range m p = true).
Lemma handle_claim_run (hd : SessionHandle) (user : AuthedUser) (token : string)
    (hs : list string) (ps : list Z) s :
  sh_user_id hd = user_id user -> auth_inv (world s) ->
  let (ok, s') := handle_claim stalls hd user token hs ps s in
  let hosts := to_ascii_lowercase <$> hs in
  auth_inv (world s') /\ (routes_owned (world s) -> routes_owned (world s')) /\
  (forall p, port_owner (world s') p = port_owner (world s) p) /\
  gained (user_id user) hosts (world s) (world s') /\
  (claim_refused s s' \/ claim_granted hd (user_id user) hosts ps s s').
Proof using SessionLaws0.
  intros Hu Hi. unfold handle_claim. case_decide as Hlen.
  { destruct (push stalls _ s) as [ok s'] eqn:E. apply push_run in E as (Ew & Eo & _).
    unfold claim_refused. rewrite Ew. split_and!; try done; [by left|]. left. split; [done|].
    unfold too_large in Eo. destruct Eo; eauto. }
  destruct (claim_checks user token (to_ascii_lowercase <$> hs) ps (world s)) as [r w1] eqn:E.
  destruct r as [[]|[code msg]].
  - pose proof (grant_run hd user token _ ps (world s) w1 Hu Hi E) as Hg.
    destruct (claim hd _ ps (router_of w1)) as [r' sup]. cbv zeta in Hg.
    destruct (push stalls _ _) as [ok s'] eqn:Ep. apply push_run in Ep as (Ew & Eo & _).
    cbn in Ew, Eo. unfold claim_granted. rewrite Ew. destruct Hg as (H1 & H2 & H3 & H4 & H5 & H6).
    split_and!; try done. by right.
  - apply claim_checks_run in E as (I1 & R1 & P1 & G1 & _); [|done].
    destruct (push stalls _ _) as [ok s'] eqn:Ep. apply push_run in Ep as (Ew & Eo & _).
    cbn in Ew, Eo. unfold claim_refused. rewrite Ew.
    split_and!; try done; [by eapply gained_routes|]. left. split; [done|]. destruct Eo; eauto.
Qed.

(** ** Ports are bound only in range *)
Definition ports_in_range w : Prop :=
  forall m p, tcp_manager w = Some m -> p ∈ bound m -> in_range m p = true.
Lemma frame_in_range w w' : tcp_manager w' = tcp_manager w -> ports_in_range w -> ports_in_range w'.
Proof using. intros Ht H m p. rewrite Ht. apply H. Qed.
Lemma check_ports_in_range (user : AuthedUser) (ports : list Z) (m : option TcpPortManager) w :
  auth_inv w -> (forall m0, m = Some m0 -> exists m1, tcp_manager w = Some m1 /\ port_range m1 = port_range m0) ->
  ports_in_range w -> ports_in_range (check_ports m user ports w).2.
Proof using SessionLaws0.
  revert w. induction ports as [|p ports IH]; intros w Hi Hm Hp; cbn [check_ports]; [done|].
  destruct m as [m0|]; [|done]. destruct (in_range m0 p) eqn:Er; cbn [negb]; [|done].
  destruct (owns_port_law (user_id user) p w Hi) as (I1 & _ & _).
  pose proof (owns_port_frame (user_id user) p w) as [_ F2].
  destruct (owns_port (user_id user) p w) as [b w1]. cbn [fst snd] in *.
  apply (frame_in_range _ _ F2) in Hp. destruct b; [|done].
  destruct (Hm m0 eq_refl) as (m1 & Hm1 & Hr1). rewrite <- F2 in Hm1.
  destruct (bind_port_law p w1 I1) as (I2 & _ & _ & T2). destruct (T2 m1 Hm1) as (m2 & Hm2 & Hr2 & _ & Hb2 & _).
  assert (Hp2 : ports_in_range (bind_port p w1).2).
  { intros m' q. rewrite Hm2. intros [= <-] Hq. apply Hb2, elem_of_union in Hq as [->%elem_of_singleton|Hq].
    - unfold in_range in *. by rewrite Hr2, Hr1.
    - specialize (Hp m1 q Hm1 Hq). unfold in_range in *. by rewrite Hr2. }
  destruct (bind_port p w1) as [[[]|e] w2]; cbn [fst snd] in *; [|done].
  apply IH; [done| |done]. intros ? [= <-]. exists m2. split; [done|congruence].
Qed.
(** Whatever it asks for and however it ends, a claim leaves no port bound outside
    the configured range: this is the only caller of [ensure_bound]. *)
Theorem claim_binds_in_range (hd : SessionHandle) (user : AuthedUser) (token : string) (hs : list string) (ps : list Z) s :
  auth_inv (world s) -> ports_in_range (world s) -> ports_in_range (world (handle_claim stalls hd user token hs ps s).2).
Proof using SessionLaws0.
  intros Hi Hp. assert (Hpush : forall f (x : Sess W), world (push stalls f x).2 = world x).
  { intros f x. destruct (push stalls f x) as [ok x'] eqn:E. by apply push_run in E as [E _]. }
  unfold handle_claim. case_decide; [by rewrite Hpush|]. unfold claim_checks.
  pose proof (check_ports_in_range user ps (tcp_manager (world s)) (world s) Hi ltac:(eauto) Hp) as Hp1.
  destruct (check_ports _ user ps (world s)) as [r1 w1] eqn:E1. cbn [snd] in Hp1.
  apply check_ports_run in E1 as (I1 & _); [|done|eauto].
  destruct r1 as [[]|[c msg]]; [|by rewrite Hpush].
  pose proof (claim_cap_quiet user token (to_ascii_lowercase <$> hs) ps w1 I1) as (I2 & _ & _ & T2).
  destruct (claim_cap _ _ _ _ w1) as [[cap|[c msg]] w2]; cbn [snd] in *; apply (frame_in_range _ _ T2) in Hp1; [|by rewrite Hpush].
  destruct (claim_hosts user cap _ w2) as [r3 w3] eqn:E3. apply claim_hosts_run in E3 as (I3 & [_ T3] & _); [|done].
  apply (frame_in_range _ _ T3) in Hp1. destruct r3 as [[]|[c msg]]; [|by rewrite Hpush].
  destruct (claim _ _ _ _) as [r' sup]. rewrite Hpush. cbn [world set_world].
  destruct (with_router_law r' w3 I3) as (I4 & _ & T4).
  destruct (notify_all_quiet Superseded sup (with_router r' w3) I4) as (_ & _ & _ & T5).
  by eapply frame_in_range; [exact T5|]; eapply frame_in_range; [exact T4|].
Qed.

(** C3 A daemon that is told [Granted] really got it: every granted hostname is
    owned by the session's user and routed to this session, and every granted port
    is reserved for the user, inside the relay's range and routed to this session. *)
Theorem granted_means_owned (hd : SessionHandle) (user : AuthedUser) (token : string)
    (hs hs' : list string) (ps ps' : list Z) s s' (ok : bool) :
  sh_user_id hd = user_id user -> auth_inv (world s) ->
  handle_claim stalls hd user token hs ps s = (ok, s') -> out s' = out s ++ [Granted hs' ps'] ->
  hs' = (to_ascii_lowercase <$> hs) /\ ps' = ps /\
  (forall h, h ∈ hs' -> host_owner (world s') h = Some (user_id user) /\
                        lookup_http (router_of (world s')) h = Some hd) /\
  (forall p, p ∈ ps' -> port_owner (world s') p = Some (user_id user) /\
                        lookup_tcp (router_of (world s')) p = Some hd /\
                        exists m, tcp_manager (world s) = Some m /\ in_range m p = true).
Proof using SessionLaws0.
  intros Hu Hi E Ho. pose proof (handle_claim_run hd user token hs ps s Hu Hi) as Hr. rewrite E in Hr.
  destruct Hr as (_ & _ & _ & _ & [[_ Hd]|(Hg & H1 & H2)]); rewrite Ho in *.
  - exfalso. destruct Hd as [Hd|(c & m & Hd)]; [|by apply app_inj_2 in Hd as [_ [= ]]].
    by rewrite <- (app_nil_r (out s)) in Hd at 2; apply app_inv_head in Hd.
  - destruct Hg as [Hd|Hd]; [by rewrite <- (app_nil_r (out s)) in Hd at 2; apply app_inv_head in Hd|].
    apply app_inv_head in Hd as [= -> ->]. done.
Qed.

(** C13 A refused claim routes nothing and takes nothing from anyone: the routing
    table is untouched, no port changes hands, and the only names whose owner
    changed were free, were asked for, and are now the user's own. *)
Theorem denied_routes_nothing (hd : SessionHandle) (user : AuthedUser) (token : string)
    (hs : list string) (ps : list Z) s s' (ok : bool) (code : DenyCode) (msg : string) :
  sh_user_id hd = user_id user -> auth_inv (world s) ->
  handle_claim stalls hd user token hs ps s = (ok, s') -> out s' = out s ++ [Denied code msg] ->
  router_of (world s') = router_of (world s) /\
  (forall p, port_owner (world s') p = port_owner (world s) p) /\
  (forall h, host_owner (world s') h = host_owner (world s) h \/
     h ∈ (to_ascii_lowercase <$> hs) /\ host_owner (world s) h = None /\
     host_owner (world s') h = Some (user_id user)).
Proof using SessionLaws0.
  intros Hu Hi E Ho. pose proof (handle_claim_run hd user token hs ps s Hu Hi) as Hr. rewrite E in Hr.
  destruct Hr as (_ & _ & Hp & Hg & [[Hr _]|([Hd|Hd] & _)]); [done|..]; exfalso; rewrite Ho in Hd.
  - by rewrite <- (app_nil_r (out s)) in Hd at 2; apply app_inv_head in Hd.
  - by apply app_inv_head in Hd as [= ].
Qed.

(** ** Releases *)
Definition dropped {K : Type} (u : Z) (ks : list K) (o o' : K -> option Z) : Prop :=
  (forall k, k ∈ ks -> o k = Some u /\ o' k = None) /\ (forall k, k ∉ ks -> o' k = o k).
Lemma release_hosts_run (u : Z) (hosts : list string) w w' rel :
  auth_inv w -> release_hosts u hosts w = (rel, w') ->
  auth_inv w' /\ frame w w' /\ (forall p, port_owner w' p = port_owner w p) /\
  (forall h, h ∈ rel -> h ∈ hosts) /\ dropped u rel (host_owner w) (host_owner w').
Proof using SessionLaws0.
  revert w w' rel. induction hosts as [|h hosts IH]; intros w w' rel Hi; cbn [release_hosts].
  - intros [= <- <-]. split_and!; try done. split; [by intros h ?%not_elem_of_nil|done].
  - pose proof (release_hostname_law u h w Hi) as (I1 & P1 & _ & L1).
    pose proof (release_hostname_frame u h w) as [F1 F1'].
    destruct (release_hostname u h w) as [b w1]. cbn [fst snd] in *.
    destruct (release_hosts u hosts w1) as [l w2] eqn:E.
    destruct (IH w1 w2 l I1 E) as (I2 & [F2 F2'] & P2 & S2 & D1 & D2). intros [= <- <-].
    split; [done|]. split; [split; congruence|]. split; [intros p; by rewrite P2|].
    destruct b.
    + destruct L1 as [Lo Lall]. split; [set_solver|]. split.
      * intros k [->|Hk]%elem_of_cons.
        -- split; [done|]. destruct (decide (h ∈ l)) as [Hl|Hl]; [by apply D1|].
           by rewrite (D2 h Hl), Lall, decide_True.
        -- destruct (D1 k Hk) as [D1a D1b]. split; [|done]. rewrite Lall in D1a. by case_decide.
      * intros k [Hk1 Hk2]%not_elem_of_cons. by rewrite (D2 k Hk2), Lall, decide_False.
    + split; [set_solver|]. split.
      * intros k Hk. destruct (D1 k Hk) as [D1a D1b]. split; [|done]. by rewrite <- L1.
      * intros k Hk. by rewrite (D2 k Hk).
Qed.
Lemma release_ports_run (u : Z) (ports : list Z) w w' rel :
  auth_inv w -> release_ports u ports w = (rel, w') ->
  auth_inv w' /\ frame w w' /\ (forall h, host_owner w' h = host_owner w h) /\
  (forall p, p ∈ rel -> p ∈ ports) /\ dropped u rel (port_owner w) (port_owner w').
Proof using SessionLaws0.
  revert w w' rel. induction ports as [|h ports IH]; intros w w' rel Hi; cbn [release_ports].
  - intros [= <- <-]. split_and!; try done. split; [by intros p ?%not_elem_of_nil|done].
  - pose proof (release_port_law u h w Hi) as (I1 & P1 & _ & L1).
    pose proof (release_port_frame u h w) as [F1 F1'].
    destruct (release_port u h w) as [b w1]. cbn [fst snd] in *.
    destruct (release_ports u ports w1) as [l w2] eqn:E.
    destruct (IH w1 w2 l I1 E) as (I2 & [F2 F2'] & P2 & S2 & D1 & D2). intros [= <- <-].
    split; [done|]. split; [split; congruence|]. split; [intros p; by rewrite P2|].
    destruct b.
    + destruct L1 as [Lo Lall]. split; [set_solver|]. split.
      * intros k [->|Hk]%elem_of_cons.
        -- split; [done|]. destruct (decide (h ∈ l)) as [Hl|Hl]; [by apply D1|].
           by rewrite (D2 h Hl), Lall, decide_True.
        -- destruct (D1 k Hk) as [D1a D1b]. split; [|done]. rewrite Lall in D1a. by case_decide.
      * intros k [Hk1 Hk2]%not_elem_of_cons. by rewrite (D2 k Hk2), Lall, decide_False.
    + split; [set_solver|]. split.
      * intros k Hk. destruct (D1 k Hk) as [D1a D1b]. split; [|done]. by rewrite <- L1.
      * intros k Hk. by rewrite (D2 k Hk).
Qed.
Lemma owns_nothing_quiet (u : Z) w : auth_inv w -> quiet w (owns_nothing u w).2.
Proof using SessionLaws0.
  intros Hi. unfold owns_nothing. pose proof (owned_hostnames_law u w Hi) as [I1 O1].
  pose proof (owned_hostnames_frame u w) as F1. destruct (owned_hostnames u w) as [[|h hs] w1]; cbn [snd] in *; [|done].
  pose proof (owned_ports_law u w1 I1) as [I2 O2]. pose proof (owned_ports_frame u w1) as F2.
  destruct (owned_ports u w1) as [ps w2]. apply (quiet_trans w w1 w2); by split_and!.
Qed.

Lemma release_world (user : AuthedUser) (token : string) (rh : list string) (rp : list Z) w :
  auth_inv w ->
  let w' := match rh, rp with
            | [], [] => w
            | _, _ =>
                let w3 := with_router (evict_routes rh rp (router_of w)).1 w in
                if gate_installed w3 then
                  let (nothing, w4) := owns_nothing (user_id user) w3 in
                  if (nothing : bool) then gate_deactivate token w4 else w4
                else w3
            end in
  auth_inv w' /\ same_owners w w' /\
  (forall h, http (router_of w') !! h = if decide (h ∈ rh) then None else http (router_of w) !! h) /\
  (forall p, tcp (router_of w') !! p = if decide (p ∈ rp) then None else tcp (router_of w) !! p).
Proof using SessionLaws0.
  intros Hi. destruct (with_router_law (evict_routes rh rp (router_of w)).1 w Hi) as (I1 & O1 & T1).
  pose proof (router_with (evict_routes rh rp (router_of w)).1 w) as Hrw.
  set (w3 := with_router (evict_routes rh rp (router_of w)).1 w) in *.
  assert (Hq : quiet w3 (if gate_installed w3 then
      let (nothing, w4) := owns_nothing (user_id user) w3 in
      if (nothing : bool) then gate_deactivate token w4 else w4 else w3)).
  { destruct (gate_installed w3); [|by apply quiet_refl].
    pose proof (owns_nothing_quiet (user_id user) w3 I1) as Hq.
    destruct (owns_nothing (user_id user) w3) as [[] w4]; cbn [snd] in *; [|done].
    eapply quiet_trans; [exact Hq|]. apply gate_deactivate_law, Hq. }
  destruct (evict_lookup rh rp (router_of w)) as [L1 L2].
  assert (Hmain : forall w', quiet w3 w' -> auth_inv w' /\ same_owners w w' /\
    (forall h, http (router_of w') !! h = if decide (h ∈ rh) then None else http (router_of w) !! h) /\
    (forall p, tcp (router_of w') !! p = if decide (p ∈ rp) then None else tcp (router_of w) !! p)).
  { intros w' (I2 & O2 & R2 & _). split; [done|]. split; [by eapply same_owners_trans|].
    by rewrite R2, Hrw. }
  destruct rh, rp; try by apply Hmain. cbn zeta. split_and!; auto with etun.
Qed.

(** An authenticator whose releases do not fail: what the user owns is freed. *)
Definition releases_reliably : Prop :=
  (forall u h w, auth_inv w -> host_owner w h = Some u -> (release_hostname u h w).1 = true) /\
  (forall u p w, auth_inv w -> port_owner w p = Some u -> (release_port u p w).1 = true).
Lemma release_hosts_all (u : Z) (hosts : list string) w h :
  releases_reliably -> auth_inv w -> h ∈ hosts -> host_owner w h = Some u -> h ∈ (release_hosts u hosts w).1.
Proof using SessionLaws0.
  intros [HR _]. revert w. induction hosts as [|k hosts IH]; intros w Hi Hin Ho; [by apply not_elem_of_nil in Hin|].
  cbn [release_hosts]. pose proof (release_hostname_law u k w Hi) as (I1 & _ & _ & L1).
  pose proof (HR u k w Hi) as Hk. destruct (release_hostname u k w) as [b w1]. cbn [fst snd] in *.
  specialize (IH w1 I1). destruct (release_hosts u hosts w1) as [l w2]. cbn [fst] in *.
  destruct (decide (h = k)) as [->|Hne]; [rewrite (Hk Ho); by constructor|].
  apply elem_of_cons in Hin as [->|Hin]; [done|].
  assert (Ho1 : host_owner w1 h = Some u) by (destruct b; [destruct L1 as [_ ->]; by rewrite decide_False|by rewrite L1]).
  destruct b; [apply elem_of_cons; right|]; by apply IH.
Qed.
Lemma release_ports_all (u : Z) (ports : list Z) w p :
  releases_reliably -> auth_inv w -> p ∈ ports -> port_owner w p = Some u -> p ∈ (release_ports u ports w).1.
Proof using SessionLaws0.
  intros [_ HR]. revert w. induction ports as [|k ports IH]; intros w Hi Hin Ho; [by apply not_elem_of_nil in Hin|].
  cbn [release_ports]. pose proof (release_port_law u k w Hi) as (I1 & _ & _ & L1).
  pose proof (HR u k w Hi) as Hk. destruct (release_port u k w) as [b w1]. cbn [fst snd] in *.
  specialize (IH w1 I1). destruct (release_ports u ports w1) as [l w2]. cbn [fst] in *.
  destruct (decide (p = k)) as [->|Hne]; [rewrite (Hk Ho); by constructor|].
  apply elem_of_cons in Hin as [->|Hin]; [done|].
  assert (Ho1 : port_owner w1 p = Some u) by (destruct b; [destruct L1 as [_ ->]; by rewrite decide_False|by rewrite L1]).
  destruct b; [apply elem_of_cons; right|]; by apply IH.
Qed.
Lemma push_exact (f : ControlFrame) s s' (ok : bool) :
  push stalls f s = (ok, s') -> world s' = world s /\ out s' = out s ++ (if ok then [f] else []).
Proof using. unfold push. destruct (stalls (sends s)); intros [= <- <-]; cbn; split; [done|by rewrite app_nil_r|done|done]. Qed.

(** What a release made of the owners and the routes. *)
Record freed (u : Z) (rh : list string) (rp : list Z) (w w' : W) : Prop := {
  f_hosts : forall h, h ∈ rh -> host_owner w h = Some u /\ host_owner w' h = None /\
    lookup_http (router_of w') h = None;
  f_ports : forall p, p ∈ rp -> port_owner w p = Some u /\ port_owner w' p = None /\
    lookup_tcp (router_of w') p = None;
  f_other_hosts : forall h, h ∉ rh -> host_owner w' h = host_owner w h /\
    lookup_http (router_of w') h = lookup_http (router_of w) h;
  f_other_ports : forall p, p ∉ rp -> port_owner w' p = port_owner w p /\
    lookup_tcp (router_of w') p = lookup_tcp (router_of w) p;
}.

(** C14 A release gives back exactly what its caller holds.  Over the limit of
    entries it is refused and nothing changes.  Otherwise the reply is [Released rh
    rp] (not queued when the channel is stalled): every resource listed was asked
    for and owned by the user, is now owned by nobody and routed to nobody; every
    other name and port keeps its owner and its route; and, with a registry that
    does not fail, every resource asked for that the user owned is listed. *)
Theorem release_exact (user : AuthedUser) (token : string) (hs : list string) (ps : list Z) s s' (ok : bool) :
  auth_inv (world s) -> handle_release stalls user token hs ps s = (ok, s') ->
  ((MAX_CLAIM_ENTRIES < length hs + length ps)%nat ->
     world s' = world s /\ out s' = out s ++ (if ok then [too_large "release"] else [])) /\
  ((length hs + length ps <= MAX_CLAIM_ENTRIES)%nat -> exists rh rp,
     out s' = out s ++ (if ok then [Released rh rp] else []) /\
     (forall h, h ∈ rh -> h ∈ (to_ascii_lowercase <$> hs)) /\ (forall p, p ∈ rp -> p ∈ ps) /\
     freed (user_id user) rh rp (world s) (world s') /\
     (releases_reliably ->
        (forall h, h ∈ (to_ascii_lowercase <$> hs) -> host_owner (world s) h = Some (user_id user) -> h ∈ rh) /\
        (forall p, p ∈ ps -> port_owner (world s) p = Some (user_id user) -> p ∈ rp))).
Proof using SessionLaws0.
  intros Hi. unfold handle_release. case_decide as Hlen.
  { intros E%push_exact. split; [done|lia]. }
  pose proof (fun h HR => release_hosts_all (user_id user) (to_ascii_lowercase <$> hs) (world s) h HR Hi) as A1.
  destruct (release_hosts (user_id user) (to_ascii_lowercase <$> hs) (world s)) as [rh w1] eqn:E1.
  destruct (release_hosts_run _ _ _ _ _ Hi E1) as (I1 & F1 & P1 & S1 & D1 & D1').
  pose proof (fun p HR => release_ports_all (user_id user) ps w1 p HR I1) as A2.
  destruct (release_ports (user_id user) ps w1) as [rp w2] eqn:E2.
  destruct (release_ports_run _ _ _ _ _ I1 E2) as (I2 & F2 & P2 & S2 & D2 & D2').
  pose proof (release_world user token rh rp w2 I2) as (_ & (O1 & O2 & _) & L1 & L2).
  intros [Ew Eo]%push_exact. split; [lia|]. intros _. exists rh, rp. split; [done|]. split; [done|]. split; [done|].
  cbn in Ew. rewrite Ew. destruct F1 as [F1 _], F2 as [F2 _]. cbn [fst] in *. split.
  - split; unfold lookup_http, lookup_tcp.
    + intros h Hh. rewrite O1, L1, decide_True, P2 by done. destruct (D1 h Hh). auto.
    + intros p Hp. rewrite O2, L2, decide_True by done. destruct (D2 p Hp). rewrite <- P1. auto.
    + intros h Hh. rewrite O1, L1, decide_False, P2 by done. split; [by apply D1'|congruence].
    + intros p Hp. rewrite O2, L2, decide_False by done. split; [rewrite D2' by done; apply P1|congruence].
  - intros HR. split; [by auto|]. intros p Hp Ho. apply A2; [done..|]. by rewrite P1.
Qed.

(** ** Traffic goes to the owner *)
Definition safe (w : W) : Prop := auth_inv w /\ routes_owned w.
Lemma quiet_safe w w' : quiet w w' -> safe w -> safe w'.
Proof using. intros Hq [_ Hr]. split; [apply Hq|by eapply quiet_routes]. Qed.

Lemma handle_release_safe (user : AuthedUser) (token : string) (hs : list string) (ps : list Z) s :
  safe (world s) -> safe (world (handle_release stalls user token hs ps s).2).
Proof using SessionLaws0.
  intros [Hi Hro]. unfold handle_release. case_decide as Hlen.
  { destruct (push stalls _ s) as [ok s'] eqn:E. apply push_run in E as (Ew & _). cbn. by rewrite Ew. }
  destruct (release_hosts (user_id user) (to_ascii_lowercase <$> hs) (world s)) as [rh w1] eqn:E1.
  destruct (release_hosts_run _ _ _ _ _ Hi E1) as (I1 & [F1 _] & P1 & _ & D1 & D1').
  destruct (release_ports (user_id user) ps w1) as [rp w2] eqn:E2.
  destruct (release_ports_run _ _ _ _ _ I1 E2) as (I2 & [F2 _] & P2 & _ & D2 & D2').
  pose proof (release_world user token rh rp w2 I2) as Hw. cbv zeta in Hw.
  destruct (push stalls _ _) as [ok s'] eqn:E. apply push_run in E as (Ew & _). cbn in Ew |- *. rewrite <- Ew in Hw.
  destruct Hw as (I3 & (O1 & O2 & _) & L1 & L2). destruct Hro as [R1 R2]. split; [done|]. split.
  - intros h x. rewrite L1. case_decide as Hh; [done|]. rewrite F2, F1, O1, P2, D1' by done. apply R1.
  - intros p x. rewrite L2. case_decide as Hp; [done|]. rewrite F2, F1, O2, D2', P1 by done. apply R2.
Qed.

Lemma authenticate_any_safe (token : string) w : safe w -> safe (authenticate_any token w).2.
Proof using SessionLaws0.
  intros Hs. unfold authenticate_any. destruct (authenticate_law token w (proj1 Hs)) as [I1 O1].
  pose proof (authenticate_frame token w) as F1. destruct (authenticate token w) as [[u|] w1]; cbn [snd] in *.
  - by apply (quiet_safe w).
  - assert (Hs1 : safe w1) by (by apply (quiet_safe w)).
    destruct (gate_installed w1); [|done]. destruct Hs1 as [Hi1 Hr1].
    destruct (gate_auth_law token w1 Hi1) as (H1 & _ & H2 & _). split; auto.
Qed.
Lemma not_owned_run (u : Z) (hosts : list string) w w' l :
  auth_inv w -> not_owned u hosts w = (l, w') ->
  quiet w w' /\ forall h, h ∈ hosts -> h ∉ l -> host_owner w h = Some u.
Proof using SessionLaws0.
  revert w w' l. induction hosts as [|h hosts IH]; intros w w' l Hi; cbn [not_owned].
  - intros [= <- <-]. split; [by apply quiet_refl|]. by intros h ?%not_elem_of_nil.
  - destruct (owns_hostname_law u h w Hi) as (I1 & O1 & T1). pose proof (owns_hostname_frame u h w) as F1.
    destruct (owns_hostname u h w) as [b w1]. cbn [fst snd] in *.
    destruct (not_owned u hosts w1) as [l' w2] eqn:E. destruct (IH w1 w2 l' I1 E) as [Hq Hown].
    assert (Hq1 : quiet w w1) by by split_and!.
    intros [= <- <-]. split; [by eapply quiet_trans|].
    assert (Hback : forall h', host_owner w1 h' = Some u -> host_owner w h' = Some u)
      by (intros h'; by destruct O1 as (-> & _)).
    intros h' [->|Hin]%elem_of_cons Hnot; [destruct b; [auto|set_solver]|].
    apply Hback, Hown; [done|]. destruct b; set_solver.
Qed.
Lemma evict_safe (hs : list string) (ps : list Z) (f : Resource -> ControlFrame) w :
  safe w ->
  let (r', ev) := evict_routes hs ps (router_of w) in safe (notify_all f ev (with_router r' w)).
Proof using SessionLaws0.
  intros [Hi [R1 R2]]. destruct (evict_lookup hs ps (router_of w)) as [L1 L2].
  destruct (evict_routes hs ps (router_of w)) as [r' ev]. cbn [fst] in *.
  destruct (with_router_law r' w Hi) as (I1 & (O1 & O2 & _) & _).
  eapply quiet_safe; [by apply notify_all_quiet|]. split; [done|]. unfold routes_owned.
  rewrite router_with. split; [intros h x; rewrite L1, O1|intros p x; rewrite L2, O2]; case_decide; auto; done.
Qed.

(** The hostname check of a re-validation, on its own. *)
Definition drop_revoked (session_id u : Z) (w : W) : W :=
  let (revoked, w2) := not_owned u (hostnames_of session_id (router_of w)) w in
  match revoked with
  | [] => w2
  | _ => let (r', evicted) := evict_routes revoked [] (router_of w2) in
         notify_all (fun r => Denied NotOwner (revoked_message debug_resource r)) evicted (with_router r' w2)
  end.
Lemma drop_revoked_safe (session_id u : Z) w : safe w -> safe (drop_revoked session_id u w).
Proof using SessionLaws0.
  intros Hs. unfold drop_revoked. destruct (not_owned _ _ w) as [revoked w2] eqn:E.
  apply not_owned_run in E as [Hq _]; [|apply Hs]. assert (Hs2 : safe w2) by (by eapply quiet_safe).
  destruct revoked as [|h l]; [done|].
  pose proof (evict_safe (h :: l) [] (fun r => Denied NotOwner (revoked_message debug_resource r)) w2 Hs2) as He.
  by destruct (evict_routes (h :: l) [] (router_of w2)).
Qed.
Lemma revalidate_eq (session_id : Z) (user : AuthedUser) (token : string) s :
  revalidate stalls debug_resource session_id user token s =
  let revoke w := (Stop, (push stalls (Denied AuthFailed "token revoked") (set_world w s)).2) in
  match authenticate_any token (world s) with
  | (None, w1) => revoke w1
  | (Some u, w1) =>
      if decide (user_id u = user_id user) then
        let w3 := drop_revoked session_id (user_id user) w1 in
        if gate_installed w3 then
          match gate_cap (name user) w3 with
          | (DenyAll, w4) =>
              (Stop, (push stalls (Denied LimitExceeded "subscription lapsed or suspended") (set_world w4 s)).2)
          | (_, w4) => (Continue, set_world w4 s)
          end
        else (Continue, set_world w3 s)
      else revoke w1
  end.
Proof using.
  unfold revalidate, drop_revoked. destruct (authenticate_any token (world s)) as [[u|] w1]; [|done].
  case_decide; [|done]. cbv zeta. by destruct (not_owned _ _ w1) as [revoked w2].
Qed.
Lemma push_world (f : ControlFrame) s : world (push stalls f s).2 = world s.
Proof using. unfold push. by destruct (stalls (sends s)). Qed.

Lemma revalidate_safe (session_id : Z) (user : AuthedUser) (token : string) s :
  safe (world s) -> safe (world (revalidate stalls debug_resource session_id user token s).2).
Proof using SessionLaws0.
  intros Hs. rewrite revalidate_eq. pose proof (authenticate_any_safe token (world s) Hs) as H1.
  destruct (authenticate_any token (world s)) as [[u|] w1]; cbn [snd] in *; cbv zeta; [|by rewrite push_world].
  case_decide; [|cbn; by rewrite push_world].
  pose proof (drop_revoked_safe session_id (user_id user) w1 H1) as H3.
  set (w3 := drop_revoked session_id (user_id user) w1) in *. destruct (gate_installed w3); [|done].
  destruct (gate_cap_law (name user) w3 (proj1 H3)) as (I4 & O4 & F4).
  destruct (gate_cap (name user) w3) as [d w4]. cbn [snd] in *.
  assert (H4 : safe w4) by (by apply (quiet_safe w3)). destruct d; [done|done|]. cbn. by rewrite push_world.
Qed.
Lemma list_owned_safe (user : AuthedUser) s :
  safe (world s) -> safe (world (list_owned stalls user s).2).
Proof using SessionLaws0.
  intros Hs. unfold list_owned.
  assert (H1 : quiet (world s) (if gate_installed (world s) then
     (gate_cap (name user) (world s)).2 else world s)).
  { destruct (gate_installed (world s)); [apply gate_cap_law, Hs|apply quiet_refl, Hs]. }
  destruct (if gate_installed (world s) then _ else (None, _)) as [mt w1] eqn:E.
  assert (w1 = if gate_installed (world s) then (gate_cap (name user) (world s)).2 else world s) as Hw1.
  { destruct (gate_installed (world s)); [|by injection E as _ <-].
    destruct (gate_cap (name user) (world s)). by injection E as _ <-. }
  rewrite <- Hw1 in H1. destruct (owned_hostnames_law (user_id user) w1 (proj1 H1)) as [I2 O2].
  pose proof (owned_hostnames_frame (user_id user) w1) as F2.
  destruct (owned_hostnames (user_id user) w1) as [hs w2]. cbn [snd] in *.
  destruct (owned_ports_law (user_id user) w2 I2) as [I3 O3]. pose proof (owned_ports_frame (user_id user) w2) as F3.
  destruct (owned_ports (user_id user) w2) as [ps w3]. cbn [snd] in *. rewrite push_world. cbn.
  apply (quiet_safe w2); [by split_and!|]. apply (quiet_safe w1); [by split_and!|]. by eapply quiet_safe.
Qed.

Lemma ctrl_step_safe (on : bool) (hd : SessionHandle) (user : AuthedUser) (token : string) (ev : CtrlEvent) s :
  sh_user_id hd = user_id user -> safe (world s) ->
  safe (world (ctrl_step stalls debug_resource on hd user token ev s).2).
Proof using SessionLaws0.
  intros Hu Hs. destruct ev as [f|e| |]; cbn [ctrl_step]; try done.
  - destruct f; cbn [on_frame]; try done;
      match goal with |- context [let (_, _) := ?m in _] => assert (Hx : safe (world m.2)); [|by destruct m] end;
      rewrite ?push_world; try done.
    + pose proof (handle_claim_run hd user token hostnames tcp_ports s Hu (proj1 Hs)) as Hr.
      destruct (handle_claim _ _ _ _ _ _ s) as [ok s']. destruct Hr as (I & R & _). split; [done|]. apply R, Hs.
    + by apply handle_release_safe.
    + by apply list_owned_safe.
  - destruct on; [|done]. by apply revalidate_safe.
Qed.

(** C1 Traffic only reaches the owner: starting from a relay whose routes all point
    at sessions of the users owning the names and ports, no sequence of control
    events (claims, releases, listings, pings, re-validations, lapses, errors),
    with any stalls, ever routes a name or a port to a session of anyone but its
    owner. *)
Theorem traffic_only_to_owner (on : bool) (hd : SessionHandle) (user : AuthedUser) (token : string)
    (evs : list CtrlEvent) s :
  sh_user_id hd = user_id user -> auth_inv (world s) -> routes_owned (world s) ->
  routes_owned (world (ctrl_loop stalls debug_resource on hd user token evs s).2).
Proof using SessionLaws0.
  intros Hu Hi Hr. cut (safe (world (ctrl_loop stalls debug_resource on hd user token evs s).2)); [by intros []|].
  assert (Hs : safe (world s)) by done. clear Hi Hr. revert s Hs.
  induction evs as [|ev evs IH]; intros s Hs; [done|]. cbn [ctrl_loop].
  pose proof (ctrl_step_safe on hd user token ev s Hu Hs) as H1.
  destruct (ctrl_step stalls debug_resource on hd user token ev s) as [[] s']; cbn [snd] in *; [by apply IH|done].
Qed.

(** ** Re-validation *)
Lemma authenticate_any_wf (token : string) w :
  auth_inv w -> router_wf (router_of w) ->
  auth_inv (authenticate_any token w).2 /\ router_wf (router_of (authenticate_any token w).2).
Proof using SessionLaws0.
  intros Hi Hr. unfold authenticate_any. destruct (authenticate_law token w Hi) as [I1 O1].
  destruct (authenticate_frame token w) as [F1 _]. destruct (authenticate token w) as [[u|] w1]; cbn [snd] in *.
  - split; [done|]. by rewrite F1.
  - destruct (gate_installed w1); [|cbn; split; [done|by rewrite F1]].
    destruct (gate_auth_law token w1 I1) as (H1 & H2 & _). split; [done|]. apply H2. by rewrite F1.
Qed.

(** C15 A re-validation that lets a session go on has checked it: the credential
    still resolves to the session's user, and every hostname still routed to the
    session is owned by that user, whatever an administrator revoked in the
    meantime. *)
Theorem revalidation_restores (hd : SessionHandle) (user : AuthedUser) (token : string) s s' :
  auth_inv (world s) -> router_wf (router_of (world s)) ->
  revalidate stalls debug_resource (sh_session_id hd) user token s = (Continue, s') ->
  (exists u, (authenticate_any token (world s)).1 = Some u /\ user_id u = user_id user) /\
  out s' = out s /\
  (forall h x, http (router_of (world s')) !! h = Some x -> sh_session_id x = sh_session_id hd ->
     host_owner (world s') h = Some (user_id user)).
Proof using SessionLaws0.
  intros Hi Hwf. rewrite revalidate_eq. destruct (authenticate_any_wf token (world s) Hi Hwf) as [I1 W1].
  destruct (authenticate_any token (world s)) as [[u|] w1]; cbn [fst snd] in *; cbv zeta; [|done].
  case_decide as Hu; [|done]. intros Hrun. split; [eauto|].
  assert (Hd : auth_inv (drop_revoked (sh_session_id hd) (user_id user) w1) /\
    forall h x, http (router_of (drop_revoked (sh_session_id hd) (user_id user) w1)) !! h = Some x ->
      sh_session_id x = sh_session_id hd ->
      host_owner (drop_revoked (sh_session_id hd) (user_id user) w1) h = Some (user_id user)).
  { clear Hrun. unfold drop_revoked. destruct (not_owned _ _ w1) as [revoked w2] eqn:E.
    apply not_owned_run in E as [(I2 & (O2 & _) & R2 & _) Hown]; [|done].
    assert (Hkept : forall h x, http (router_of w2) !! h = Some x -> sh_session_id x = sh_session_id hd ->
              h ∉ revoked -> host_owner w2 h = Some (user_id user)).
    { intros h x Hx Hsid Hnot. rewrite O2. apply Hown; [|done]. apply hostnames_of_routed; [done|].
      unfold lookup_http. rewrite <- R2, Hx. cbn. by rewrite Hsid. }
    destruct revoked as [|h0 l]; [split; [done|]; intros h x Hx Hs; apply (Hkept h x); auto; by apply not_elem_of_nil|].
    destruct (evict_lookup (h0 :: l) [] (router_of w2)) as [L1 _].
    destruct (evict_routes (h0 :: l) [] (router_of w2)) as [r' ev]. cbn [fst] in L1.
    destruct (with_router_law r' w2 I2) as (I3 & (O3 & _) & _).
    destruct (notify_all_quiet (fun r => Denied NotOwner (revoked_message debug_resource r)) ev (with_router r' w2) I3)
      as (I4 & (O4 & _) & R4 & _).
    split; [done|]. intros h x. rewrite R4, router_with, L1, O4, O3. case_decide as Hin; [done|].
    intros Hx Hs. by apply (Hkept h x). }
  set (w3 := drop_revoked (sh_session_id hd) (user_id user) w1) in *. destruct Hd as [I3 Hd].
  destruct (gate_installed w3); [|injection Hrun as <-; done].
  destruct (gate_cap_law (name user) w3 I3) as (I4 & (O4 & _) & R4 & _).
  destruct (gate_cap (name user) w3) as [d w4]. cbn [snd] in *.
  destruct d; try done; injection Hrun as <-; cbn; (split; [done|]); intros h x; rewrite R4, O4; apply Hd.
Qed.

(** ** The handshake *)

(** Version negotiation picks the highest protocol version both sides support,
    and fails exactly when there is none. *)
Theorem negotiate_highest (peer_min peer_max : Z) :
  match negotiate peer_min peer_max with
  | Some v => 1 <= v <= PROTOCOL_VERSION /\ peer_min <= v <= peer_max /\
      forall v', 1 <= v' <= PROTOCOL_VERSION -> peer_min <= v' <= peer_max -> v' <= v
  | None => forall v, 1 <= v <= PROTOCOL_VERSION -> peer_min <= v <= peer_max -> False
  end.
Proof using.
  unfold negotiate, PROTOCOL_VERSION.
  destruct (Z.leb_spec peer_min (Z.min peer_max 3)), (Z.leb_spec 1 (Z.min peer_max 3)); cbn;
    split_and?; intros; lia.
Qed.

Lemma push_out (f : ControlFrame) s : out s `prefix_of` out (push stalls f s).2.
Proof using. unfold push. destruct (stalls (sends s)); cbn; [done|]. by eexists. Qed.
Lemma push_out_world (f : ControlFrame) w s : out s `prefix_of` out (push stalls f (set_world w s)).2.
Proof using. apply (push_out f (set_world w s)). Qed.
Lemma ctrl_step_out (on : bool) (hd : SessionHandle) (user : AuthedUser) (token : string) (ev : CtrlEvent) s :
  out s `prefix_of` out (ctrl_step stalls debug_resource on hd user token ev s).2.
Proof using.
  destruct ev as [f|e| |]; cbn [ctrl_step]; try done.
  - destruct f; cbn [on_frame]; try done;
      match goal with |- context [let (_, _) := ?m in _] => assert (Hx : out s `prefix_of` out m.2); [|by destruct m] end;
      try apply push_out; try done.
    + unfold handle_claim. case_decide; [apply push_out|].
      destruct (claim_checks _ _ _ _ _) as [[[]|[c m]] w1]; [|apply push_out_world].
      destruct (claim _ _ _ _) as [r' sup]. apply push_out_world.
    + unfold handle_release. case_decide; [apply push_out|].
      destruct (release_hosts _ _ _) as [rh w1], (release_ports _ _ w1) as [rp w2]. apply push_out_world.
    + unfold list_owned. destruct (if gate_installed (world s) then _ else _) as [mt w1].
      destruct (owned_hostnames _ w1) as [hs w2], (owned_ports _ w2) as [ps w3]. apply push_out_world.
  - destruct on; [|done]. rewrite revalidate_eq. destruct (authenticate_any _ _) as [[u|] w1]; [|apply push_out_world].
    cbv zeta. case_decide; [|apply push_out_world].
    destruct (gate_installed _); [|done]. destruct (gate_cap _ _) as [[] w4]; [done|done|apply push_out_world].
Qed.
Lemma ctrl_loop_out (on : bool) (hd : SessionHandle) (user : AuthedUser) (token : string) (evs : list CtrlEvent) s :
  out s `prefix_of` out (ctrl_loop stalls debug_resource on hd user token evs s).2.
Proof using.
  revert s. induction evs as [|ev evs IH]; intros s; [done|]. cbn [ctrl_loop].
  pose proof (ctrl_step_out on hd user token ev s) as H1.
  destruct (ctrl_step _ _ _ _ _ _ ev s) as [[] s']; cbn [snd] in *; [|done]. by etrans.
Qed.

(** C25 Nothing happens before authentication: unless the handshake is accepted, with
    a [Hello] that negotiates a version and a credential that resolves to a user,
    the daemon gets no [Welcome], no event is processed and no frame is queued;
    an accepted session's first frame is its [Welcome]. *)
Theorem handshake_gate (on : bool) (session_id : Z) (preamble : HsRead Z) (hello : HsRead ControlFrame)
    (evs : list CtrlEvent) w :
  let '(h, n, s') := control_task stalls server_version debug_resource on session_id preamble hello evs w in
  match h with
  | HsAccepted user token proto =>
      (exists sec av mn mx, hello = HsGot (Ok (Hello sec av mn mx)) /\ token = expose sec /\
         negotiate mn mx = Some proto) /\
      (authenticate_any token w).1 = Some user /\
      (out s' = [] /\ n = Stop \/ head (out s') = Some (Welcome proto server_version session_id))
  | _ => out s' = [] /\ n = Stop
  end.
Proof using.
  unfold control_task, handshake. destruct preamble as [|[p|e]]; try done.
  destruct hello as [|[f|e]]; try done. destruct f as [sec av mn mx| | | | | | | | | | | | | |]; try done.
  destruct (negotiate mn mx) as [proto|] eqn:En; [|done].
  destruct (authenticate_any (expose sec) w) as [[user|] w1] eqn:Ea; [|done].
  unfold push. cbn [sends]. destruct (stalls 0) eqn:Es.
  - split_and!; [by exists sec, av, mn, mx|by rewrite Ea|by left].
  - pose proof (ctrl_loop_out on (mkHandle session_id (user_id user)) user (expose sec) evs
      (mkSess w1 [Welcome proto server_version session_id] 1)) as Hp. cbn in Hp |- *.
    destruct (ctrl_loop _ _ _ _ _ _ _ _) as [n s']. split_and!; [by exists sec, av, mn, mx|by rewrite Ea|right].
    destruct Hp as [k Hk]. cbn in Hk. by rewrite Hk.
Qed.
End props.
