(* ===== verification/Relay.v ===== *)
(** * The relay: registry, router, license gate and port manager together

    The state sessions run in, as an instance of [SessionWorld], and the proof
    that it keeps the promises sessions are verified against ([SessionLaws]). *)
From S2P Require Import Prelude Limits Frames Router Auth Registry RegistryInv RegistryProps RegistryAuth RegistryTokens RegistryPrune Polar PolarProps Codec Session SessionProps.
Local Open Scope Z_scope.

(** The wall clock, the monotonic clock and the operating system's answers to
    [bind], at the [n]-th reading. *)
Class RelayEnv := {
  unix_now : nat -> Z;
  mono_now : nat -> Z;
  os_bind : nat -> Z -> result string ();
}.

Record Relay (B : Type) := mkRelay {
  r_world : World B;
  r_gate : option PolarPolicy;
  r_tcp : option TcpPortManager;
  r_tick : nat;
}.
Arguments mkRelay {B}.
Arguments r_world {B}.
Arguments r_gate {B}.
Arguments r_tcp {B}.
Arguments r_tick {B}.

Section relay.
Context {B : Type} {PB : PolarBackend B} {CE : CacheEngine} {EN : Engine} {RE : RelayEnv}.
Context (domain : string) (debug_resource : Resource -> string).
Implicit Types (r : Relay B) (w : World B).

Definition put_world w r : Relay B := mkRelay w (r_gate r) (r_tcp r) (r_tick r).
Definition in_world {A : Type} (m : World B -> A * World B) r : A * Relay B :=
  let (a, w) := m (r_world r) in (a, put_world w r).
Definition with_reg {A : Type} (m : Conn -> A * Conn) : Relay B -> A * Relay B :=
  in_world (on_reg m).
Definition tick_relay r : Relay B := mkRelay (r_world r) (r_gate r) (r_tcp r) (S (r_tick r)).

#[export] Instance RelayAuth : Authenticator (Relay B) := {
  authenticate tok := with_reg (reg_authenticate tok);
  owns_hostname u h := with_reg (reg_owns_hostname domain u h);
  owns_port u p := with_reg (reg_owns_port u p);
  claim_hostname u h max := with_reg (reg_claim_hostname domain u h max);
  owned_hostnames u := with_reg (or_else [] (reg_owned_hostnames domain u));
  owned_ports u := with_reg (or_else [] (reg_owned_ports u));
  release_hostname u h := with_reg (or_else false (release_hostname_owned domain u h));
  release_port u p := with_reg (or_else false (release_port_owned u p));
}.

#[export] Instance RelayWorld : SessionWorld (Relay B) := {
  sw_auth := RelayAuth;
  router_of r := w_router (r_world r);
  with_router x r := put_world (set_router x (r_world r)) r;
  notify h f r := put_world (send_ctrl h f (r_world r)) r;
  tcp_manager r := r_tcp r;
  bind_port p r :=
    match r_tcp r with
    | None => (Err "no port manager"%string, r)
    | Some m => let (a, m') := ensure_bound p (os_bind (r_tick r) p) m in
                (a, mkRelay (r_world r) (r_gate r) (Some m') (S (r_tick r)))
    end;
  gate_installed r := bool_decide (is_Some (r_gate r));
  gate_auth key r :=
    match r_gate r with
    | None => (None, r)
    | Some pol => in_world (gate_authenticate pol debug_resource key (unix_now (r_tick r)) (mono_now (r_tick r)))
                    (tick_relay r)
    end;
  gate_cap nm r :=
    match r_gate r with
    | None => (Allow, r)
    | Some pol => in_world (cap_for pol nm (unix_now (r_tick r))) (tick_relay r)
    end;
  gate_activate key r :=
    match r_gate r with None => (Ok (), r) | Some pol => in_world (ensure_activated pol key) r end;
  gate_deactivate key r :=
    match r_gate r with None => r | Some _ => put_world (release_activation key (r_world r)) r end;
}.

#[export] Instance RelayView : OwnerView (Relay B) := {
  auth_inv r := idle tables_wf (w_reg (r_world r)) /\
                (forall d, w_rec (r_world r) = Some d -> d = domain);
  host_owner r h := fqdn_owner domain (db (w_reg (r_world r))) h;
  port_owner r p := port_holder p (db (w_reg (r_world r)));
  owned_count r u := owned_rows u (db (w_reg (r_world r)));
}.

(** ** The registry through the relay *)
Lemma with_reg_frame {A : Type} (m : Conn -> A * Conn) r : frame r (with_reg m r).2.
Proof using. unfold with_reg, in_world, on_reg. by destruct (m (w_reg (r_world r))). Qed.
Lemma with_reg_parts {A : Type} (m : Conn -> A * Conn) r :
  (with_reg m r).1 = (m (w_reg (r_world r))).1 /\
  w_reg (r_world (with_reg m r).2) = (m (w_reg (r_world r))).2 /\
  w_rec (r_world (with_reg m r).2) = w_rec (r_world r).
Proof using. unfold with_reg, in_world, on_reg. by destruct (m (w_reg (r_world r))). Qed.
Lemma same_owners_conn r r' :
  @same_owners Conn (RegistryView domain) (w_reg (r_world r)) (w_reg (r_world r')) -> same_owners r r'.
Proof using. done. Qed.

(** Moves a law of the registry's connection to the relay around it. *)
Ltac lift_law L :=
  match goal with |- context [with_reg ?m ?r] =>
    let E1 := fresh in let E2 := fresh in let E3 := fresh in
    destruct (with_reg_parts m r) as (E1 & E2 & E3);
    pose proof L as HL; cbn in HL;
    rewrite ?E1; unfold same_owners; cbn; rewrite ?E2, ?E3; clear E1 E2 E3
  end.
Lemma relay_auth_laws : AuthenticatorLaws (Relay B).
Proof using.
  pose proof (registry_laws domain) as R. split.
  - intros tok r [Hi Hd]. cbn. lift_law (@authenticate_law _ _ _ R tok _ Hi). unfold same_owners in HL; cbn in HL. tauto.
  - intros u h r [Hi Hd]. cbn. lift_law (@owns_hostname_law _ _ _ R u h _ Hi). unfold same_owners in HL; cbn in HL. tauto.
  - intros u p r [Hi Hd]. cbn. lift_law (@owns_port_law _ _ _ R u p _ Hi). unfold same_owners in HL; cbn in HL. tauto.
  - intros u h max r [Hi Hd]. cbn. lift_law (@claim_hostname_law _ _ _ R u h max _ Hi). unfold same_owners in HL; cbn in HL.
    destruct HL as [HL1 HL2]. split; [tauto|]. exact HL2.
  - intros u r [Hi Hd]. cbn. lift_law (@owned_hostnames_law _ _ _ R u _ Hi). unfold same_owners in HL; cbn in HL. tauto.
  - intros u r [Hi Hd]. cbn. lift_law (@owned_ports_law _ _ _ R u _ Hi). unfold same_owners in HL; cbn in HL. tauto.
  - intros u h r [Hi Hd]. cbn. lift_law (@release_hostname_law _ _ _ R u h _ Hi). tauto.
  - intros u p r [Hi Hd]. cbn. lift_law (@release_port_law _ _ _ R u p _ Hi). tauto.
Qed.

(** With an engine that does not fail, what a user owns is freed when asked for. *)
Lemma head_filter_both {R K : Type} `{EqDecision K} (f : R -> K) (g : R -> Z) (k : K) (u : Z) (l : list R) :
  g <$> head (filter (fun x => f x = k) l) = Some u -> (0 < length (filter (fun x => f x = k /\ g x = u) l))%nat.
Proof using.
  intros (x & Hx & ->)%fmap_Some. apply head_Some_elem_of, list_elem_of_filter in Hx as [Hk Hx].
  assert (Hin : x ∈ filter (fun y => f y = k /\ g y = g x) l) by (by apply list_elem_of_filter).
  destruct (filter _ l); [by apply not_elem_of_nil in Hin|cbn; lia].
Qed.
Lemma relay_releases_reliably : RegistryProps.reliable -> releases_reliably (W := Relay B).
Proof using.
  intros HE. split.
  - intros u h r _ Ho. cbn in *. rewrite (proj1 (with_reg_parts _ r)). unfold or_else, release_hostname_owned.
    unfold fqdn_owner in Ho. destruct (label_of domain h) as [label|]; [|done]. cbn in Ho.
    unfold_ops. rewrite HE. cbn. by rewrite bool_decide_true by (by apply head_filter_both).
  - intros u p r _ Ho. cbn in *. rewrite (proj1 (with_reg_parts _ r)). unfold or_else, release_port_owned.
    unfold_ops. rewrite HE. cbn. by rewrite bool_decide_true by (by apply head_filter_both).
Qed.

(** ** The gate's reads and its activation calls *)
Definition same_core w w' : Prop :=
  w_reg w' = w_reg w /\ w_rec w' = w_rec w /\ w_router w' = w_router w.
Lemma on_cache_core {A : Type} (m : LicenseCache -> A * LicenseCache) w : same_core w (on_cache m w).2.
Proof using. unfold on_cache. by destruct (m (w_cache w)). Qed.
Lemma on_backend_core {A : Type} (m : B -> A * B) w : same_core w (on_backend m w).2.
Proof using. unfold on_backend. by destruct (m (w_backend w)). Qed.
Lemma same_core_trans w1 w2 w3 : same_core w1 w2 -> same_core w2 w3 -> same_core w1 w3.
Proof using. unfold same_core. intuition congruence. Qed.
Lemma resolve_cap_core (cid : string) (lo now : Z) w : same_core w (resolve_cap cid lo now w).2.
Proof using.
  unfold resolve_cap. pose proof (on_cache_core (cap_for_customer cid lo now) w) as Hc.
  by destruct (on_cache _ w).
Qed.
Lemma cap_for_core (pol : PolarPolicy) (nm : string) (now : Z) w : same_core w (cap_for pol nm now w).2.
Proof using. unfold cap_for. case_decide; [done|]. apply resolve_cap_core. Qed.
Lemma ensure_activated_core (pol : PolarPolicy) (key : string) w : same_core w (ensure_activated pol key w).2.
Proof using.
  unfold ensure_activated. destruct (activate_on_claim pol); cbn [negb]; [|done].
  pose proof (on_cache_core (get (hash_key key)) w) as H1.
  destruct (on_cache (get (hash_key key)) w) as [[[row|]|e] w1]; cbn [snd] in *; try done.
  destruct (String.eqb (status row) "granted"); cbn [negb]; [|done].
  destruct (activation_id row); [done|].
  match goal with |- context [on_backend ?m w1] => pose proof (on_backend_core m w1) as H2; destruct (on_backend m w1) as [[id| |why] w2] end;
    cbn [snd] in *; try (by eapply same_core_trans).
  eapply same_core_trans; [exact H1|]. eapply same_core_trans; [exact H2|]. apply on_cache_core.
Qed.
Lemma release_activation_core (key : string) w : same_core w (release_activation key w).
Proof using.
  unfold release_activation. pose proof (on_cache_core (get (hash_key key)) w) as H1.
  destruct (on_cache (get (hash_key key)) w) as [[[row|]|e] w1]; cbn [snd] in *; try done.
  destruct (activation_id row) as [aid|]; [|done].
  pose proof (on_backend_core (deactivate key aid) w1) as H2.
  destruct (on_backend (deactivate key aid) w1) as [[[]|e] w2]; cbn [snd] in *; [|by eapply same_core_trans].
  eapply same_core_trans; [exact H1|]. eapply same_core_trans; [exact H2|]. apply on_cache_core.
Qed.

(** ** Authentication by license: prune and eviction together *)
Definition routes_ok w : Prop :=
  (forall h x, http (w_router w) !! h = Some x -> fqdn_owner domain (db (w_reg w)) h = Some (sh_user_id x)) /\
  (forall p x, tcp (w_router w) !! p = Some x -> port_holder p (db (w_reg w)) = Some (sh_user_id x)).
Definition safe_step w w' : Prop :=
  idle tables_wf (w_reg w) -> (forall d, w_rec w = Some d -> d = domain) ->
  idle tables_wf (w_reg w') /\ w_rec w' = w_rec w /\
  (router_wf (w_router w) -> router_wf (w_router w')) /\ (routes_ok w -> routes_ok w') /\
  fewer_routes (w_router w) (w_router w').
Lemma core_step w w' : same_core w w' -> safe_step w w'.
Proof using. intros (H1 & H2 & H3) Hi Hd. unfold routes_ok. by rewrite H1, H2, H3. Qed.
Lemma safe_step_trans w1 w2 w3 : safe_step w1 w2 -> safe_step w2 w3 -> safe_step w1 w3.
Proof using.
  intros H12 H23 Hi Hd. destruct (H12 Hi Hd) as (I2 & R2 & W2 & S2 & L2).
  destruct (H23 I2) as (I3 & R3 & W3 & S3 & L3); [by rewrite R2|].
  split_and!; [done|congruence|auto|auto|by eapply fewer_routes_trans].
Qed.
(** A registry step that leaves the hostname and port rows alone. *)
Lemma same_rows_step w w' :
  same_but_reg w w' -> (idle tables_wf (w_reg w) -> idle tables_wf (w_reg w')) ->
  hostnames (db (w_reg w')) = hostnames (db (w_reg w)) ->
  tcp_ports (db (w_reg w')) = tcp_ports (db (w_reg w)) -> safe_step w w'.
Proof using.
  intros (_ & _ & _ & H4 & H5 & _) Hi Hh Hp Hw Hd. split; [auto|]. split; [done|]. rewrite H5. split; [done|].
  unfold routes_ok, fqdn_owner, label_owner, port_holder. by rewrite H5, Hh, Hp.
Qed.
Lemma resolve_user_step (cid : string) w : safe_step w (resolve_user cid w).2.
Proof using.
  intros Hi Hd. destruct (resolve_user cid w) as [o w'] eqn:E.
  destruct (resolve_user_run cid w w' o Hi E) as (S & I & Hh & Hp & _ & _).
  by apply (same_rows_step w w').
Qed.

Lemma send_all_core (l : list (SessionHandle * Resource)) (f : Resource -> ControlFrame) w :
  same_core w (foldl (fun w hr => send_ctrl hr.1 (f hr.2) w) w l).
Proof using.
  revert w. induction l as [|x l IH]; intros w; [done|]. cbn [foldl].
  eapply same_core_trans; [|apply IH]. done.
Qed.
(** Tearing down the routes of labels and ports, the registry being as it is. *)
Lemma tear_down_run (labels : list string) (ports : list Z) w :
  let w' := (tear_down_routes debug_resource domain labels ports w).2 in
  w_reg w' = w_reg w /\ w_rec w' = w_rec w /\
  w_router w' = (evict_routes ((fun l => l +:+ "." +:+ domain) <$> labels) ports (w_router w)).1.
Proof using.
  unfold tear_down_routes. destruct (evict_routes _ ports (w_router w)) as [r' ev]. cbn.
  destruct (send_all_core ev (fun x : Resource => Denied LimitExceeded (stop_message debug_resource x)) (set_router r' w)) as (H1 & H2 & H3).
  done.
Qed.
Lemma evict_over_cap_step (uid cap : Z) w : safe_step w (evict_over_cap debug_resource domain uid cap w).
Proof using.
  unfold evict_over_cap. destruct (on_reg (owned_over_cap uid cap) w) as [r1 w1] eqn:E1.
  apply on_reg_same in E1 as [E1 S1].
  pose proof (over_cap_keeps (fun t => t = db (w_reg w)) uid cap (w_reg w)) as Hk.
  assert (Hw1 : safe_step w w1).
  { intros Hi Hd. destruct (Hk (conj eq_refl (proj2 Hi))) as [D V]. unfold owned_over_cap in E1.
    rewrite E1 in D, V. cbn in D, V. apply (same_rows_step w w1); try done; [|by rewrite D|by rewrite D].
    intros _. split; [by rewrite D; apply Hi|done]. }
  assert (Htd : forall labels ports, safe_step w1 (tear_down_routes debug_resource domain labels ports w1).2).
  { intros labels ports Hi Hd. destruct (tear_down_run labels ports w1) as (H1 & H2 & H3).
    rewrite H1, H2. split; [done|]. split; [done|]. rewrite H3. split; [by apply evict_routes_wf|].
    split; [|apply evict_fewer].
    destruct (evict_lookup ((fun l => l +:+ "." +:+ domain) <$> labels) ports (w_router w1)) as [L1 L2].
    intros [A1 A2]. split; rewrite H1, H3; [intros h x; rewrite L1|intros p x; rewrite L2]; case_decide; auto; done. }
  destruct r1 as [[labels ports]|e]; [|done].
  destruct labels, ports; [done|by eapply safe_step_trans..].
Qed.

(** A prune removes a row only for a label or port it reports. *)
Lemma pruned_label_owner (uid : Z) (hs : list string) (ps : list Z) (t : Tables) (l : string) :
  l ∉ hs -> label_owner l (pruned uid hs ps t) = label_owner l t.
Proof using.
  intros Hl. unfold label_owner, pruned. cbn. rewrite list_filter_filter. do 2 f_equal.
  apply list_filter_iff. naive_solver.
Qed.
Lemma pruned_port_holder (uid : Z) (hs : list string) (ps : list Z) (t : Tables) (p : Z) :
  p ∉ ps -> port_holder p (pruned uid hs ps t) = port_holder p t.
Proof using.
  intros Hp. unfold port_holder, pruned. cbn. rewrite list_filter_filter. do 2 f_equal.
  apply list_filter_iff. naive_solver.
Qed.
Lemma reconcile_step (uid cap : Z) w : safe_step w (reconcile_user_cap debug_resource domain uid cap w).
Proof using.
  intros Hi Hd. unfold reconcile_user_cap. destruct (on_reg (prune_owned_to_cap uid cap) w) as [r1 w1] eqn:E1.
  apply on_reg_same in E1 as [E1 S1]. pose proof (prune_run uid cap (w_reg w) (proj2 Hi)) as Hp.
  pose proof (run_reg_wf domain (OpPrune uid cap) (w_reg w) Hi) as Hw. cbn in Hw. rewrite E1 in Hp, Hw. cbn in Hw.
  destruct r1 as [[hs ps]|e].
  2:{ apply (same_rows_step w w1); try done; by rewrite Hp. }
  destruct Hp as (Hdb & _ & _).
  assert (Hmain : safe_step w (tear_down_routes debug_resource domain hs ps w1).2).
  { intros _ _. destruct (tear_down_run hs ps w1) as (H1 & H2 & H3). destruct S1 as (_ & _ & _ & S4 & S5 & _).
    rewrite H1, H2. split; [done|]. split; [done|]. rewrite H3, S5. split; [by apply evict_routes_wf|].
    split; [|apply evict_fewer].
    destruct (evict_lookup ((fun l => l +:+ "." +:+ domain) <$> hs) ps (w_router w)) as [L1 L2].
    intros [A1 A2]. split; rewrite H1, H3, S5, Hdb.
    - intros h x. rewrite L1. case_decide as Hin; [done|]. intros Hx. specialize (A1 h x Hx).
      unfold fqdn_owner in *. destruct (label_of domain h) as [l|] eqn:El; [|done]. cbn in *.
      rewrite pruned_label_owner; [done|]. intros Hl. apply Hin. apply label_of_Some in El as [-> _].
      apply list_elem_of_fmap. by exists l.
    - intros p x. rewrite L2. case_decide as Hin; [done|]. intros Hx. specialize (A2 p x Hx).
      by rewrite pruned_port_holder. }
  (* with nothing to tear down, [tear_down_routes] is the identity *)
  by destruct hs, ps; apply Hmain.
Qed.
Lemma enforce_step (pol : PolarPolicy) (user : AuthedUser) (cap now : Z) w :
  safe_step w (enforce_pooled_cap pol debug_resource domain user cap now w).
Proof using.
  unfold enforce_pooled_cap. pose proof (resolve_cap_core (name user) (i64_saturating_sub now (cap_prune_grace_secs pol)) now w) as C1.
  destruct (resolve_cap _ _ now w) as [d1 w1]. cbn [snd] in C1. apply core_step in C1.
  match goal with |- safe_step w (let (_, _) := resolve_cap _ _ _ ?x in _) => set (w2 := x) end.
  assert (C2 : safe_step w w2).
  { eapply safe_step_trans; [exact C1|]. destruct d1; try (by apply core_step). apply reconcile_step. }
  pose proof (resolve_cap_core (name user) (i64_saturating_sub now (staleness_secs pol)) now w2) as C3.
  destruct (resolve_cap _ _ now w2) as [d2 w3]. cbn [snd] in C3. apply core_step in C3.
  pose proof (safe_step_trans _ _ _ C2 C3) as C4. destruct d2; try done.
  eapply safe_step_trans; [exact C4|]. apply evict_over_cap_step.
Qed.

Lemma on_granted_step (pol : PolarPolicy) (key cid bid : string) (now : Z) w :
  safe_step w (on_granted pol debug_resource domain key cid bid now w).2.
Proof using.
  unfold on_granted. match goal with |- context [on_cache ?m w] =>
    pose proof (on_cache_core m w) as C1; destruct (on_cache m w) as [[[]|e] w1] end;
    cbn [snd] in C1; apply core_step in C1; [|done].
  destruct (benefits pol !! bid) as [cap|]; [|done].
  pose proof (resolve_user_step cid w1) as C2. destruct (resolve_user cid w1) as [[user|] w2]; cbn [snd] in *;
    [|by eapply safe_step_trans].
  eapply safe_step_trans; [exact C1|]. eapply safe_step_trans; [exact C2|]. apply enforce_step.
Qed.
Lemma on_not_licensed_step (pol : PolarPolicy) (key : string) (cached : option LicenseRow) (now : Z) w :
  safe_step w (on_not_licensed pol key cached now w).2.
Proof using.
  unfold on_not_licensed. cbn [snd]. eapply safe_step_trans; [|apply core_step, on_cache_core].
  destruct cached; [by apply core_step|apply core_step, on_cache_core].
Qed.
Lemma on_unavailable_step (pol : PolarPolicy) (cached : option LicenseRow) (now : Z) w :
  safe_step w (on_unavailable pol cached now w).2.
Proof using.
  unfold on_unavailable. destruct cached as [row|]; [|by apply core_step].
  destruct (honorable pol now row); [apply resolve_user_step|by apply core_step].
Qed.
Lemma gate_authenticate_step (pol : PolarPolicy) (key : string) (now instant : Z) w :
  safe_step w (gate_authenticate pol debug_resource key now instant w).2.
Proof using.
  intros Hi Hd.
  assert (Hs : safe_step w (gate_authenticate pol debug_resource key now instant w).2); [|by apply Hs].
  clear Hi. unfold gate_authenticate. destruct (starts_with "etun_" key); [by apply core_step|].
  destruct (w_rec w) as [d|] eqn:Ed; [|by apply core_step].
  rewrite (Hd d eq_refl). clear Hd Ed. case_decide; [by apply core_step|].
  pose proof (on_cache_core (get (hash_key key)) w) as C1.
  destruct (on_cache (get (hash_key key)) w) as [got w1]. cbn [snd] in C1. apply core_step in C1.
  eapply safe_step_trans; [exact C1|]. clear C1. cbv zeta.
  destruct (match unwrap_or None got with Some row => fresh pol now row | None => false end).
  - destruct (unwrap_or None got) as [row|]; [|by apply core_step].
    destruct (granted_mapped row); [apply resolve_user_step|by apply core_step].
  - destruct (try_take instant (w_budget w1)) as [took v].
    assert (C2 : safe_step w1 (if took then on_backend (validate key) (set_budget v w1)
      else (VUnavailable "relay validate budget exhausted", set_budget v w1)).2).
    { apply core_step. destruct took; [|done].
      eapply same_core_trans; [|apply on_backend_core]. done. }
    destruct (if took then _ else _) as [outcome w3]. cbn [snd] in C2.
    eapply safe_step_trans; [exact C2|].
    destruct outcome; [apply on_granted_step|apply on_not_licensed_step|apply on_unavailable_step].
Qed.

Lemma relay_laws : SessionLaws (Relay B).
Proof using.
  pose proof relay_auth_laws as Ha. split; try (intros; apply with_reg_frame); try done.
  - intros p r Hi. cbn. destruct (r_tcp r) as [m|] eqn:Em.
    2:{ split; [done|]. split; [apply same_owners_refl|]. split; [done|]. done. }
    unfold ensure_bound. case_bool_decide; [|destruct (os_bind (r_tick r) p) as [[]|e]]; cbn;
      (split; [exact Hi|]); (split; [by split_and!|]); (split; [done|]);
      intros m0 [= <-]; eexists; split_and!; try done; set_solver.
  - intros nm r [Hi Hd]. cbn. destruct (r_gate r) as [pol|] eqn:Eg;
      [|split; [done|]; split; [apply same_owners_refl|done]].
    unfold in_world. cbn. destruct (cap_for_core pol nm (unix_now (r_tick r)) (r_world r)) as (C1 & C2 & C3).
    destruct (cap_for _ _ _ _) as [d w']. cbn in *. unfold same_owners, frame. cbn. by rewrite C1, C2, C3.
  - intros k r [Hi Hd]. cbn. destruct (r_gate r) as [pol|] eqn:Eg;
      [|split; [done|]; split; [apply same_owners_refl|done]].
    unfold in_world. cbn. destruct (ensure_activated_core pol k (r_world r)) as (C1 & C2 & C3).
    destruct (ensure_activated _ _ _) as [d w']. cbn in *. unfold same_owners, frame. cbn. by rewrite C1, C2, C3.
  - intros k r [Hi Hd]. cbn. destruct (r_gate r) as [pol|] eqn:Eg;
      [|split; [done|]; split; [apply same_owners_refl|done]].
    destruct (release_activation_core k (r_world r)) as (C1 & C2 & C3).
    unfold same_owners, frame. cbn. by rewrite C1, C2, C3.
  - intros k r [Hi Hd]. cbn. destruct (r_gate r) as [pol|] eqn:Eg; [|by split_and!].
    unfold in_world. cbn.
    destruct (gate_authenticate_step pol k (unix_now (r_tick r)) (mono_now (r_tick r)) (r_world r) Hi Hd)
      as (S1 & S2 & S3 & S4 & S5).
    destruct (gate_authenticate _ _ _ _ _ _) as [o w']. cbn in *. split_and!; try done. by rewrite S2.
Qed.
(** C4 The relay as it is assembled (SQLite registry, routing table, license gate and
    port manager) keeps every promise the session layer is verified against: in
    particular, when the gate prunes an account's names it also drops their
    routes, so even a downgrade never leaves traffic on a name its session's user
    no longer owns. *)
Theorem relay_lawful : SessionLaws (Relay B).
Proof using. apply relay_laws. Qed.
End relay.
