(* ===== verification/SessionActor.v ===== *)
(** * The session actor (crates/relay/src/session.rs, run_session)

    One control stream, opens served one at a time and in order, and what the
    order of teardown and a claim in flight leaves in the routing table. *)
From S2P Require Import Prelude Frames Router Session.
Import Actor.

#[export] Instance Inbound_eq_dec : EqDecision Inbound.
Proof. solve_decision. Defined.
#[export] Instance Event_eq_dec : EqDecision Event.
Proof. solve_decision. Defined.

Definition requests (evs : list Event) : list (nat * StreamHeader) :=
  omap (fun ev => match ev with EvCommand h r => Some (r, h) | _ => None end) evs.
Definition streams (evs : list Event) : nat :=
  length (filter (fun ev => ev = EvInbound InStream) evs).
Definition reply_req (r : Reply) : nat := match r with OpenedTo n _ => n | MuxError n => n end.
Definition in_hand (s : St) : list (nat * StreamHeader) :=
  match pending_open s with Some p => [p] | None => [] end.
(** The streams opened so far, then the one in hand. *)
Definition ordered (s : St) : list (nat * StreamHeader) := opened s ++ in_hand s.
(** The requests answered, being answered, or in hand. *)
Definition accounted (s : St) : list nat :=
  (reply_req <$> replies s) ++ (fst <$> writing s) ++ (fst <$> in_hand s).
Definition backed (s : St) : Prop :=
  (forall n h, OpenedTo n h ∈ replies s -> (n, h) ∈ opened s) /\ writing s ⊆ opened s.

Lemma requests_cons (ev : Event) (evs : list Event) : requests (ev :: evs) = requests [ev] ++ requests evs.
Proof. unfold requests. by rewrite <- omap_app. Qed.
Lemma turn_orders (ev : Event) (s s1 : St) :
  turn ev s = Some s1 -> backed s ->
  ordered s1 `sublist_of` ordered s ++ requests [ev] /\
  accounted s1 ⊆+ accounted s ++ (fst <$> requests [ev]) /\ backed s1.
Proof.
  intros E [Hb1 Hb2]. unfold ordered, accounted, backed, in_hand.
  destruct ev as [| |[]|h r|ok| |i ok]; cbn [turn] in E; cbn [requests omap list_omap fmap list_fmap];
    rewrite ?app_nil_r; try (injection E as <-; by split_and!).
  - destruct (control_started s); [done|]. injection E as <-. by split_and!.
  - destruct (control_started s); injection E as <-; by split_and!.
  - destruct (pending_open s); [done|]. injection E as <-. cbn. rewrite !app_nil_r.
    split_and!; try done. by rewrite <- app_assoc.
  - destruct (pending_open s) as [[r h]|]; [|done]. injection E as <-. destruct ok; cbn; rewrite ?app_nil_r.
    + split_and!; [done| |intros; apply elem_of_app; eauto|set_solver]. by rewrite fmap_app.
    + split_and!; [by apply sublist_inserts_r| |..|done].
      * rewrite fmap_app. cbn. rewrite <- app_assoc. apply submseteq_skips_l.
        by rewrite (Permutation_app_comm [r]).
      * intros n h' [Hn|Hn%list_elem_of_singleton]%elem_of_app; [eauto|done].
  - destruct (pending_open s); [|done]. injection E as <-. cbn. rewrite !app_nil_r.
    split_and!; try done; [by apply sublist_inserts_r|]. apply submseteq_skips_l. by apply submseteq_inserts_r.
  - done.
Qed.
Lemma step_orders (ev : Event) (s s1 : St) :
  step ev s = Some s1 -> backed s ->
  ordered s1 `sublist_of` ordered s ++ requests [ev] /\
  accounted s1 ⊆+ accounted s ++ (fst <$> requests [ev]) /\ backed s1.
Proof.
  intros E Hb. assert (Hcase : (exists i ok, ev = EvHeader i ok) \/ (if running s then turn ev s else None) = Some s1)
    by (destruct ev; eauto).
  destruct Hcase as [(i & ok & ->)|E'].
  - cbn [step] in E. apply bind_Some in E as ([r h] & Hi & [= <-]).
    unfold ordered, accounted, backed, in_hand in *. cbn. rewrite !app_nil_r.
    destruct Hb as [Hb1 Hb2]. split; [done|]. split.
    + rewrite (delete_Permutation _ _ _ Hi) at 2. rewrite fmap_app, <- app_assoc. by destruct ok.
    + assert (Hin : (r, h) ∈ writing s) by (by apply list_elem_of_lookup_2 with i). split.
      * intros n h' [Hr|Hr%list_elem_of_singleton]%elem_of_app; [eauto|]. destruct ok; [|done].
        injection Hr as -> ->. set_solver.
      * intros x Hx. apply Hb2. rewrite (delete_Permutation _ _ _ Hi). by constructor.
  - destruct (running s); [|done]. by apply turn_orders.
Qed.

Lemma run_orders (evs : list Event) (s s' : St) :
  run evs s = Some s' -> backed s ->
  ordered s' `sublist_of` ordered s ++ requests evs /\
  accounted s' ⊆+ accounted s ++ (fst <$> requests evs) /\ backed s'.
Proof.
  revert s. induction evs as [|ev evs IH]; intros s; cbn [run].
  - intros [= <-] Hb. cbn. by rewrite !app_nil_r.
  - intros (s1 & Hs1 & Hrun)%bind_Some Hb. destruct (step_orders ev s s1 Hs1 Hb) as (A1 & B1 & C1).
    destruct (IH s1 Hrun C1) as (A2 & B2 & C2). rewrite requests_cons, fmap_app, !app_assoc.
    split_and!; [|..|done].
    + etrans; [exact A2|]. by apply sublist_app.
    + etrans; [exact B2|]. by apply submseteq_app.
Qed.

(** Stream opens are served in order: in every run of the actor the streams it
    opens on the connection are opened in the order of the requests, each with the
    header of its request; no request is answered twice; and a caller is told its
    stream is open only if that stream was opened for it. *)
Theorem opens_in_order (evs : list Event) (s : St) :
  run evs new = Some s ->
  opened s `sublist_of` requests evs /\
  (reply_req <$> replies s) ⊆+ (fst <$> requests evs) /\
  forall n h, OpenedTo n h ∈ replies s -> (n, h) ∈ opened s.
Proof.
  intros Hr. destruct (run_orders evs new s Hr) as (A & B & C & _).
  { split; [by intros n h ?%not_elem_of_nil|done]. }
  cbn in A, B. split_and!; [|..|done].
  - etrans; [|exact A]. by apply sublist_inserts_r.
  - etrans; [|exact B]. by apply submseteq_inserts_r.
Qed.

Definition http_hdr : StreamHeader := Http "a.relay.dev" (V4 []) 443.
(** Two opens whose headers are written in the other order, one abandoned, one failed. *)
Definition demo_events : list Event :=
  [EvInbound InStream; EvCommand http_hdr 1; EvOpened true; EvCommand http_hdr 2; EvOpened true;
   EvHeader 1 true; EvCommand http_hdr 3; EvCallerGone; EvCommand http_hdr 4; EvOpened false;
   EvCancelled; EvHeader 0 true].
Definition demo_end : St := default new (run demo_events new).
Lemma demo_runs : run demo_events new = Some demo_end.
Proof. unfold demo_end. vm_compute. reflexivity. Qed.
Lemma opens_in_order_witness :
  (reply_req <$> replies demo_end) = [2; 4; 1]%nat /\
  opened demo_end `sublist_of` [(1, http_hdr); (2, http_hdr); (3, http_hdr); (4, http_hdr)]%nat.
Proof.
  split; [vm_compute; reflexivity|].
  exact (proj1 (opens_in_order demo_events demo_end demo_runs)).
Defined.

(** What bounds the inbound streams: the control stream, and the one that ends
    the session. *)
Definition credit (s : St) : nat := Nat.b2n (control_started s) + Nat.b2n (negb (running s)).
Lemma step_streams (ev : Event) (s s1 : St) :
  step ev s = Some s1 -> (streams [ev] + credit s <= credit s1)%nat.
Proof.
  unfold streams, credit. destruct ev as [| |[]|h r|ok| |i ok]; cbn [step turn].
  9:{ intros ([r h] & _ & [= <-])%bind_Some. done. }
  all: rewrite filter_cons, ?decide_False, ?decide_True, filter_nil by done; cbn [length];
    destruct (running s) eqn:Er; [|done]; destruct (control_started s) eqn:Ec; try done;
    try destruct (pending_open s) as [[]|]; try destruct ok; try done;
    intros [= <-]; cbn; rewrite ?Er, ?Ec; cbn; lia.
Qed.
Lemma run_streams (evs : list Event) (s s' : St) :
  run evs s = Some s' -> (streams evs + credit s <= credit s')%nat.
Proof.
  revert s. induction evs as [|ev evs IH]; intros s; cbn [run].
  - by intros [= <-].
  - intros (s1 & Hs1 & Hrun)%bind_Some. specialize (IH s1 Hrun). apply step_streams in Hs1.
    assert (Hc : streams (ev :: evs) = (streams [ev] + streams evs)%nat).
    { unfold streams. rewrite !filter_cons, filter_nil. by case_decide. }
    lia.
Qed.

(** A daemon has exactly one control stream: while the actor runs it has accepted
    at most one inbound stream, and a second one ends the session. *)
Theorem one_control_stream (evs : list Event) (s : St) :
  run evs new = Some s -> (streams evs <= if running s then 1 else 2)%nat.
Proof.
  intros Hr. pose proof (run_streams evs new s Hr) as H. unfold credit in H. cbn in H.
  destruct (running s), (control_started s); cbn in H; lia.
Qed.
Lemma one_control_stream_witness :
  exists s, run [EvInbound InStream; EvInbound InStream] new = Some s /\ running s = false /\
  (streams [EvInbound InStream; EvInbound InStream] <= if running s then 1 else 2)%nat.
Proof.
  eexists. split; [reflexivity|]. split; [reflexivity|].
  exact (one_control_stream [EvInbound InStream; EvInbound InStream] _ eq_refl).
Defined.

(** ** Teardown against a claim in flight

    The control task is a task of its own: the actor's exit removes the
    session's routes but does not wait for a claim the control task is in the
    middle of (it may be waiting for the license server or for a bind). *)
Record Tear := mkTear { t_router : RouterInner; t_alive : bool; t_claiming : option (list string * list Z) }.
Inductive tear_step (hd : SessionHandle) : Tear -> Tear -> Prop :=
  | tear_begin t hs ps :
      t_alive t = true -> t_claiming t = None ->
      tear_step hd t (mkTear (t_router t) true (Some (hs, ps)))
  | tear_commit t hs ps :
      t_claiming t = Some (hs, ps) ->
      tear_step hd t (mkTear (claim hd hs ps (t_router t)).1 (t_alive t) None)
  | tear_exit t :
      t_alive t = true ->
      tear_step hd t (mkTear (remove_session (sh_session_id hd) (t_router t)) false (t_claiming t)).

(** A claim in flight when its connection ends outlives the session: there is an
    interleaving after which the session is gone, nothing of it is running, and
    the routing table still sends a hostname to it. *)
Theorem late_claim_leaks_route (hd : SessionHandle) (host : string) :
  exists t, rtc (tear_step hd) (mkTear Router_new true None) t /\
    t_alive t = false /\ t_claiming t = None /\ lookup_http (t_router t) host = Some hd.
Proof.
  eexists. split; [|split; [|split]].
  - eapply rtc_l; [by apply (tear_begin hd _ [host] [])|].
    eapply rtc_l; [by apply tear_exit|]. eapply rtc_l; [by eapply (tear_commit hd)|]. apply rtc_refl.
  - done.
  - done.
  - unfold lookup_http. cbn [t_router]. destruct (claim_lookup hd [host] [] (remove_session (sh_session_id hd) Router_new)) as [L _].
    rewrite L, decide_True; [done|]. by apply list_elem_of_singleton.
Qed.

(** Otherwise teardown is complete: if no claim is in flight, when the actor has
    exited no hostname and no port is routed to the session any more. *)
Theorem teardown_complete (hd : SessionHandle) (t t' : Tear) :
  router_wf (t_router t) -> t_alive t = true -> t_claiming t = None ->
  tear_step hd t t' -> t_alive t' = false ->
  (forall h x, lookup_http (t_router t') h = Some x -> sh_session_id x <> sh_session_id hd) /\
  (forall p x, lookup_tcp (t_router t') p = Some x -> sh_session_id x <> sh_session_id hd).
Proof.
  intros Hwf Ha Hc Hst Hd. destruct Hst; cbn in *; try congruence.
  pose proof (remove_session_abs (sh_session_id hd) (t_router t) Hwf) as Habs.
  unfold abs in Habs. cbn in Habs. injection Habs as Eh Ep. unfold lookup_http, lookup_tcp. rewrite Eh, Ep.
  split; intros k x [_ Hx]%map_lookup_filter_Some; exact Hx.
Qed.
Definition demo_hd : SessionHandle := mkHandle 1 7.
Definition demo_routes : RouterInner := (claim demo_hd ["a.relay.dev"] [] Router_new).1.
Lemma teardown_complete_witness :
  lookup_http demo_routes "a.relay.dev" = Some demo_hd /\
  (forall h x, lookup_http (remove_session 1 demo_routes) h = Some x -> sh_session_id x <> 1%Z).
Proof.
  split; [vm_compute; reflexivity|].
  refine (proj1 (teardown_complete demo_hd (mkTear demo_routes true None)
    (mkTear (remove_session 1 demo_routes) false None) _ eq_refl eq_refl _ eq_refl)).
  - apply claim_wf, Router_new_wf.
  - apply (tear_exit demo_hd (mkTear demo_routes true None)). reflexivity.
Defined.
