(* ===== verification/SessionDemo.v ===== *)
(** * Sessions on a concrete relay

    The session theorems instantiated with the relay of Relay.v: a registry with
    two users, a scripted license backend and a port manager, run end to end. *)
From S2P Require Import Prelude Frames Router Auth Registry RegistryInv RegistryProps Polar PolarProps Codec Session SessionProps Relay.
Import PolarDemo.
Local Open Scope Z_scope.

#[local] Existing Instances ScriptBackend sound_cache sound_db.
#[local] Instance demo_env : RelayEnv := {|
  unix_now n := 1000 + Z.of_nat n;
  mono_now n := Z.of_nat n;
  os_bind n p := if decide (p = 20001) then Err "in use"%string else Ok ();
|}.
Definition demo_domain : string := "relay.dev".
#[local] Instance demo_auth : Authenticator (Relay nat) := RelayAuth demo_domain.
#[local] Instance demo_sessions : SessionWorld (Relay nat) := RelayWorld demo_domain say.
#[local] Instance demo_view : OwnerView (Relay nat) := RelayView demo_domain.
#[local] Instance demo_laws : SessionLaws (Relay nat) := relay_laws demo_domain say.

(** [mat] holds demo.relay.dev, port 20000 and a token; [eve] holds nothing. *)
Definition demo_conn : Conn :=
  run_ops demo_domain
    [OpAddUser "mat"; OpAddUser "eve"; OpAddHost "demo" "mat"; OpAddPort 20000 "mat";
     OpCreateToken "mat" None] new_conn.
Definition mat : AuthedUser := mkAuthedUser 1 "mat".
Definition eve : AuthedUser := mkAuthedUser 2 "eve".
Definition mat_token : string := "etun_*".
Definition demo_relay (c : Conn) : Relay nat :=
  mkRelay (mkWorld (mkCache ∅ 0) (ValidateBudget_new 10 20 0) 0%nat (Some demo_domain) c Router_new [])
    (Some demo_policy) (Some (mkTcp (20000, 20100) ∅)) 0.
Definition start (r : Relay nat) : Sess (Relay nat) := mkSess r [] 0.
Definition never_stalls (n : nat) : bool := false.

Lemma demo_inv (r : RouterInner) :
  auth_inv (with_router r (demo_relay demo_conn)).
Proof.
  split; [|intros d [= <-]; reflexivity].
  apply run_ops_wf. split; [apply no_tables_wf|reflexivity].
Qed.
Lemma demo_start_inv : auth_inv (world (start (demo_relay demo_conn))).
Proof. exact (demo_inv Router_new). Qed.

(** [mat]'s session after a claim for both of its resources. *)
Definition mat_handle : SessionHandle := mkHandle 7 1.
Definition serving : Relay nat :=
  with_router (claim mat_handle ["demo.relay.dev"] [20000] Router_new).1 (demo_relay demo_conn).

Example mat_authenticates :
  (authenticate_any mat_token (demo_relay demo_conn)).1 = Some mat.
Proof. vm_compute. reflexivity. Qed.
(** [eve] cannot take [mat]'s name, and a port the system cannot bind is refused. *)
Example eve_is_refused :
  out (handle_claim never_stalls (mkHandle 8 2) eve "t" ["demo.relay.dev"] [] (start serving)).2
  = [Denied NotOwner "not authorized for demo.relay.dev"].
Proof. vm_compute. reflexivity. Qed.

Lemma granted_means_owned_witness :
  let s' := (handle_claim never_stalls mat_handle mat mat_token ["Demo.relay.dev"] [20000]
               (start (demo_relay demo_conn))).2 in
  lookup_http (router_of (world s')) "demo.relay.dev" = Some mat_handle.
Proof.
  intros s'.
  refine (proj2 (proj1 (proj2 (proj2 (granted_means_owned never_stalls mat_handle mat mat_token
    ["Demo.relay.dev"] ["demo.relay.dev"] [20000] [20000] (start (demo_relay demo_conn)) s' true
    eq_refl demo_start_inv _ _))) "demo.relay.dev" _)).
  - vm_compute. reflexivity.
  - vm_compute. reflexivity.
  - apply list_elem_of_singleton. reflexivity.
Defined.

Lemma denied_routes_nothing_witness :
  let s' := (handle_claim never_stalls (mkHandle 8 2) eve "t" ["demo.relay.dev"] [] (start serving)).2 in
  router_of (world s') = router_of serving.
Proof.
  intros s'.
  refine (proj1 (denied_routes_nothing never_stalls (mkHandle 8 2) eve "t" ["demo.relay.dev"] []
    (start serving) s' true NotOwner "not authorized for demo.relay.dev" eq_refl (demo_inv _) _ _)).
  - vm_compute. reflexivity.
  - vm_compute. reflexivity.
Defined.

Lemma release_exact_witness :
  let s' := (handle_release never_stalls mat mat_token ["demo.relay.dev"; "eve.relay.dev"] [20000]
               (start serving)).2 in
  exists rh rp, out s' = [Released rh rp] /\ "demo.relay.dev" ∈ rh /\ 20000 ∈ rp /\
    lookup_http (router_of (world s')) "demo.relay.dev" = None.
Proof.
  intros s'.
  destruct (release_exact never_stalls mat mat_token ["demo.relay.dev"; "eve.relay.dev"] [20000] (start serving) s' true
    (demo_inv _)) as [_ H]; [vm_compute; reflexivity|].
  destruct H as (rh & rp & Ho & _ & _ & Hf & Hall); [vm_compute; lia|].
  assert (Hr : RegistryProps.reliable) by (intros n; reflexivity).
  destruct (Hall (relay_releases_reliably demo_domain say Hr)) as [H1 H2].
  assert (Hin : "demo.relay.dev" ∈ rh) by (apply H1; [apply elem_of_cons; left; reflexivity|vm_compute; reflexivity]).
  exists rh, rp. split; [exact Ho|]. split; [exact Hin|]. split; [|apply Hf; exact Hin].
  apply H2; [apply elem_of_cons; left; reflexivity|vm_compute; reflexivity].
Defined.

(** A run in which [mat] is served, re-validated, releases its name and claims a
    new one. *)
Definition demo_run : list CtrlEvent :=
  [EvFrame (Claim ["demo.relay.dev"] [20000]); EvTick; EvFrame (Release ["demo.relay.dev"] []);
   EvFrame (Claim ["blog.relay.dev"] []); EvFrame ListOwned; EvSilent].
Lemma traffic_only_to_owner_witness :
  routes_owned (world (ctrl_loop never_stalls say true mat_handle mat mat_token demo_run
                         (start (demo_relay demo_conn))).2).
Proof.
  apply (traffic_only_to_owner never_stalls say true mat_handle mat mat_token demo_run).
  - reflexivity.
  - exact demo_start_inv.
  - split; intros k x Hx; vm_compute in Hx; discriminate Hx.
Defined.
Example demo_run_frames :
  out (ctrl_loop never_stalls say true mat_handle mat mat_token demo_run (start (demo_relay demo_conn))).2
  = [Granted ["demo.relay.dev"] [20000]; Released ["demo.relay.dev"] []; Granted ["blog.relay.dev"] [];
     Frames.Owned ["blog.relay.dev"] [20000] None].
Proof. vm_compute. reflexivity. Qed.

(** An administrator takes the label away while [mat] is served: the next tick
    keeps the session and drops the route. *)
Definition revoked : Relay nat :=
  with_router (claim mat_handle ["demo.relay.dev"] [] Router_new).1
    (demo_relay (run_reg demo_domain (OpRemoveHost "demo") demo_conn)).
Lemma revalidation_restores_witness :
  let s' := (revalidate never_stalls say 7 mat mat_token (start revoked)).2 in
  (forall h x, http (router_of (world s')) !! h = Some x -> sh_session_id x = 7 ->
     host_owner (world s') h = Some 1) /\
  lookup_http (router_of (world s')) "demo.relay.dev" = None.
Proof.
  intros s'. split; [|vm_compute; reflexivity].
  refine (proj2 (proj2 (revalidation_restores never_stalls say mat_handle mat mat_token
    (start revoked) s' _ _ _))).
  - split; [|intros d [= <-]; reflexivity].
    apply run_reg_wf, run_ops_wf. split; [apply no_tables_wf|reflexivity].
  - apply claim_wf, Router_new_wf.
  - vm_compute. reflexivity.
Defined.
