(* ===== verification/Interleave.v ===== *)
(** * Tasks that interleave on a shared state

    The relay serves each daemon from a task of its own; between two calls that
    take a lock (one registry statement, one router operation, one answer of the
    license gate) any other task may run.  [Proc] is such a task: a tree of
    atomic operations on the shared state with the result as its leaves.  [run]
    executes one without interruption; [rg] is what a task may rely on and must
    guarantee so that an invariant survives every interleaving. *)
From S2P Require Import Prelude.

Inductive Proc (W A : Type) : Type :=
  | Ret (a : A)
  | Atom {X : Type} (op : W -> X * W) (k : X -> Proc W A).
Arguments Ret {W A} a.
Arguments Atom {W A X} op k.

Declare Scope proc_scope.
Delimit Scope proc_scope with proc.
(** One atomic operation, then the rest of the task. *)
Notation "x <~ op ;; k" := (Atom op (fun x => k))
  (at level 200, op at level 99, k at level 200, right associativity) : proc_scope.

Section proc.
Context {W : Type}.
Open Scope proc_scope.

Fixpoint pbind {A C : Type} (p : Proc W A) (f : A -> Proc W C) : Proc W C :=
  match p with
  | Ret a => f a
  | Atom op k => x <~ op;; pbind (k x) f
  end.
(** A read of the shared state. *)
Definition reads {X : Type} (f : W -> X) : W -> X * W := fun w => (f w, w).
(** A change that returns nothing. *)
Definition does (f : W -> W) : W -> () * W := fun w => ((), f w).

Fixpoint run {A : Type} (p : Proc W A) (w : W) : A * W :=
  match p with
  | Ret a => (a, w)
  | Atom op k => let (x, w1) := op w in run (k x) w1
  end.
Lemma run_bind {A C : Type} (p : Proc W A) (f : A -> Proc W C) (w : W) :
  run (pbind p f) w = let (a, w1) := run p w in run (f a) w1.
Proof using.
  revert w. induction p as [a|X op k IH]; intros w; cbn; [done|]. destruct (op w) as [x w1]. apply IH.
Qed.

(** The number of atomic steps an uninterrupted run takes. *)
Fixpoint steps {A : Type} (p : Proc W A) (w : W) : nat :=
  match p with
  | Ret _ => 0
  | Atom op k => let (x, w1) := op w in S (steps (k x) w1)
  end.

(** Every operation a task can reach satisfies [P]. *)
Fixpoint all_ops (P : forall X : Type, (W -> X * W) -> Prop) {A : Type} (p : Proc W A) : Prop :=
  match p with
  | Ret _ => True
  | Atom op k => P _ op /\ forall x, all_ops P (k x)
  end.
Lemma all_ops_bind (P : forall X : Type, (W -> X * W) -> Prop) {A C : Type} (p : Proc W A) (f : A -> Proc W C) :
  all_ops P p -> (forall a, all_ops P (f a)) -> all_ops P (pbind p f).
Proof using. intros Hp Hf. induction p as [a|X op k IH]; cbn; [apply Hf|]. destruct Hp. split; auto. Qed.

Lemma all_ops_mono (P Q : forall X : Type, (W -> X * W) -> Prop) {A : Type} (p : Proc W A) :
  (forall X op, P X op -> Q X op) -> all_ops P p -> all_ops Q p.
Proof using. intros HPQ. induction p as [a|X op k IH]; cbn; [done|]. intros []. split; auto. Qed.

(** ** Bounded work

    The task makes at most [n] calls, whatever state each call finds. *)
Fixpoint takes {A : Type} (p : Proc W A) (n : nat) : Prop :=
  match p with
  | Ret _ => True
  | Atom op k => match n with 0 => False | S m => forall w, takes (k (op w).1) m end
  end.
Lemma takes_mono {A : Type} (p : Proc W A) (n m : nat) : n <= m -> takes p n -> takes p m.
Proof using.
  revert n m. induction p as [a|X op k IH]; intros n m Hle; cbn; [done|].
  destruct n as [|n]; [done|]. destruct m as [|m]; [lia|]. intros H w. apply (IH _ n); [lia|apply H].
Qed.
Lemma takes_bind {A C : Type} (p : Proc W A) (f : A -> Proc W C) (n m : nat) :
  takes p n -> (forall a, takes (f a) m) -> takes (pbind p f) (n + m).
Proof using.
  intros Hp Hf. revert n Hp. induction p as [a|X op k IH]; intros n; cbn.
  - intros _. apply (takes_mono _ m); [lia|apply Hf].
  - destruct n as [|n]; [done|]. cbn. intros H w. by apply IH.
Qed.

(** ** Rely and guarantee

    [I] holds whenever the task is at rest; others may move the state along
    [R], and each step of the task keeps [I] and moves the state along [G]. *)
Section rg.
Context (I : W -> Prop) (R G : W -> W -> Prop).
Fixpoint rg {A : Type} (Q : A -> W -> Prop) (p : Proc W A) (w : W) : Prop :=
  match p with
  | Ret a => Q a w
  | Atom op k =>
      forall w', R w w' -> I w' ->
        let w1 := (op w').2 in I w1 /\ G w' w1 /\ rg Q (k (op w').1) w1
  end.

Context `{!PreOrder R}.
Lemma rg_mono {A : Type} (Q Q' : A -> W -> Prop) (p : Proc W A) (w : W) :
  (forall a w1, Q a w1 -> Q' a w1) -> rg Q p w -> rg Q' p w.
Proof using.
  intros HQ. revert w. induction p as [a|X op k IH]; intros w; cbn; [apply HQ|].
  intros H w' HR HI. destruct (H w' HR HI) as (H1 & H2 & H3). split_and!; [done|done|]. by apply IH.
Qed.
(** What others do does not take a task's guarantee away. *)
Lemma rg_stable {A : Type} (Q : A -> W -> Prop) (p : Proc W A) (w w1 : W) :
  (forall a x y, R x y -> Q a x -> Q a y) -> R w w1 -> rg Q p w -> rg Q p w1.
Proof using PreOrder0.
  intros HQ HR. destruct p as [a|X op k]; cbn; [by apply HQ|].
  intros H w' HR' HI. apply H; [|done]. by transitivity w1.
Qed.
(** A task's continuation may start from any state the others can reach. *)
Lemma rg_bind {A C : Type} (Q : A -> W -> Prop) (Q' : C -> W -> Prop) (p : Proc W A) (f : A -> Proc W C) (w : W) :
  rg Q p w -> (forall a w1, Q a w1 -> rg Q' (f a) w1) -> rg Q' (pbind p f) w.
Proof using.
  intros Hp Hf. revert w Hp. induction p as [a|X op k IH]; intros w; cbn; [apply Hf|].
  intros H w' HR HI. destruct (H w' HR HI) as (H1 & H2 & H3). split_and!; [done|done|]. by apply IH.
Qed.
Lemma rg_ret {A : Type} (Q : A -> W -> Prop) (a : A) (w : W) : Q a w -> rg Q (Ret a) w.
Proof using. done. Qed.
(** One step that is known to keep [I] and move along [G]. *)
Lemma rg_atom {A X : Type} (Q : A -> W -> Prop) (op : W -> X * W) (k : X -> Proc W A) (w : W) :
  (forall w', R w w' -> I w' -> I (op w').2 /\ G w' (op w').2) ->
  (forall w', R w w' -> I w' -> rg Q (k (op w').1) (op w').2) ->
  rg Q (Atom op k) w.
Proof using. intros H1 H2 w' HR HI. cbn. destruct (H1 w' HR HI). split_and!; auto. Qed.
(** A fact that nobody's step takes away holds at the end as well. *)
Lemma rg_frame {A : Type} (F : W -> Prop) (Q : A -> W -> Prop) (p : Proc W A) (w : W) :
  (forall x y, R x y -> F x -> F y) -> (forall x y, G x y -> F x -> F y) ->
  F w -> rg Q p w -> rg (fun a w1 => Q a w1 /\ F w1) p w.
Proof using.
  intros HR HG. revert w. induction p as [a|X op k IH]; intros w HF; cbn; [done|].
  intros H w' Hw' HI. destruct (H w' Hw' HI) as (H1 & H2 & H3). split_and!; [done|done|]. apply IH; eauto.
Qed.
(** Steps that are fine from every state need no history. *)
Lemma rg_all_ops {A : Type} (p : Proc W A) (w : W) :
  all_ops (fun _ op => forall w', I w' -> I (op w').2 /\ G w' (op w').2) p -> rg (fun _ _ => True) p w.
Proof using.
  revert w. induction p as [a|X op k IH]; intros w; cbn; [done|]. intros [H1 H2] w' _ HI.
  destruct (H1 w' HI) as [H3 H4]. split_and!; [done|done|]. by apply IH.
Qed.
End rg.
End proc.
