(* ===== verification/System.v ===== *)
(** * Many sessions on one relay (crates/relay/src/session.rs)

    Session.v gives each handler as one function of the relay's state.  The
    relay runs one control task per daemon, and the handlers take the registry's
    and the router's lock once per call: here each handler is a task ([Proc]) of
    such calls, the system is the relay with every session and the task it is in
    the middle of, and a run is any interleaving of their steps.  The license
    gate's own calls are steps as well: a relay says what they are with an
    instance of [GateTasks] (GateSteps.v). *)
From stdpp Require Import pretty.
From S2P Require Import Prelude Limits Frames Codec Router Auth Polar Session SessionProps Interleave.
Local Open Scope Z_scope.

(** The license gate's operations that make more than one call, as tasks. *)
Class GateTasks (W : Type) `{!SessionWorld W} := {
  gate_auth_p : string -> Proc W (option AuthedUser);
  gate_activate_p : string -> Proc W (result string ());
  gate_deactivate_p : string -> Proc W ();
  run_gate_auth : forall tok w, run (gate_auth_p tok) w = gate_auth tok w;
  run_gate_activate : forall tok w, run (gate_activate_p tok) w = gate_activate tok w;
  run_gate_deactivate : forall tok w, run (gate_deactivate_p tok) w = ((), gate_deactivate tok w);
}.

(** How a handler ends: with a reply after which the session goes on if the reply
    could be queued, with a last frame, or without a frame. *)
Inductive Reply :=
  | Answer (f : ControlFrame)
  | Last (f : ControlFrame)
  | Quiet (n : Next).

(** A session of the relay: its actor ([l_conn]) and its control loop ([l_ctrl]),
    with the event the loop is in the middle of. *)
Record Live (W : Type) := mkLive {
  l_handle : SessionHandle;
  l_user : AuthedUser;
  l_token : string;
  l_out : list ControlFrame;
  l_sends : nat;
  l_task : option (Proc W Reply);
  l_ctrl : bool;
  l_conn : bool;
}.
Arguments mkLive {W}.
Arguments l_handle {W}.
Arguments l_user {W}.
Arguments l_token {W}.
Arguments l_out {W}.
Arguments l_sends {W}.
Arguments l_task {W}.
Arguments l_ctrl {W}.
Arguments l_conn {W}.
(** The relay, every session it accepted, the handshakes under way, and the next
    session id. *)
Record System (W : Type) := mkSystem {
  sys_world : W;
  sys_sessions : gmap Z (Live W);
  sys_pending : gmap Z (Proc W Handshake);
  sys_next : Z;
}.
Arguments mkSystem {W}.
Arguments sys_world {W}.
Arguments sys_sessions {W}.
Arguments sys_pending {W}.
Arguments sys_next {W}.

(** What can happen next: a daemon connects, its handshake makes its next call or
    is answered, a session takes up an event, makes its next call or replies, or a
    session's actor exits. *)
Inductive Move :=
  | Connect (preamble : HsRead Z) (hello : HsRead ControlFrame)
  | HsAct (id : Z)
  | HsDone (id : Z)
  | Start (id : Z) (ev : CtrlEvent)
  | Act (id : Z)
  | Reply_to (id : Z)
  | Exit (id : Z).
(** The same with each event handled at once. *)
Inductive AtomicMove :=
  | AConnect (preamble : HsRead Z) (hello : HsRead ControlFrame)
  | AEvent (id : Z) (ev : CtrlEvent)
  | AExit (id : Z).

(** Nothing stops the control task when the actor exits: a frame that is already
    there is handled after it.  [late id ms]: session [id] takes up an event in
    [ms] after it left. *)
Definition exit_of (id : Z) (m : AtomicMove) : bool := match m with AExit i => i =? id | _ => false end.
Definition event_of (id : Z) (m : AtomicMove) : bool := match m with AEvent i _ => i =? id | _ => false end.
Fixpoint late (id : Z) (ms : list AtomicMove) : bool :=
  match ms with
  | [] => false
  | m :: rest => exit_of id m && existsb (event_of id) rest || late id rest
  end.

Section tasks.
Context {W : Type} `{!SessionWorld W, !GateTasks W}.
Context (stalls : nat -> bool) (debug_resource : Resource -> string).
Open Scope proc_scope.

Definition authenticate_any_p (token : string) : Proc W (option AuthedUser) :=
  found <~ authenticate token;;
  match found with
  | Some user => Ret (Some user)
  | None =>
      installed <~ reads gate_installed;;
      if (installed : bool) then gate_auth_p token else Ret None
  end.

(** ** Claims *)
Fixpoint check_ports_p (tcp : option TcpPortManager) (user : AuthedUser) (ports : list Z) :
    Proc W (result denial ()) :=
  match ports with
  | [] => Ret (Ok ())
  | port :: rest =>
      match tcp with
      | None => Ret (Err (PortNotReserved, "tcp tunnels are not enabled on this relay"%string))
      | Some manager =>
          let not_reserved := (PortNotReserved, "port " +:+ pretty port +:+ " not reserved") in
          if negb (in_range manager port) then Ret (Err not_reserved)
          else
            owned <~ owns_port (user_id user) port;;
            if negb owned then Ret (Err not_reserved)
            else
              bound <~ bind_port port;;
              match bound with
              | Err e => Ret (Err (PortUnavailable, "port " +:+ pretty port +:+ " unavailable: " +:+ e))
              | Ok _ => check_ports_p tcp user rest
              end
      end
  end.

Definition claim_cap_p (user : AuthedUser) (token : string) (hosts : list string) (ports : list Z) :
    Proc W (result denial (option Z)) :=
  installed <~ reads gate_installed;;
  if negb installed then Ret (Ok None)
  else
    pbind (gate_activate_p token) (fun activated =>
    match activated with
    | Err why => Ret (Err (LimitExceeded, why))
    | Ok _ =>
        decision <~ gate_cap (name user);;
        match decision with
        | Allow => Ret (Ok None)
        | DenyAll => Ret (Err (LimitExceeded, "subscription does not permit new tunnels"%string))
        | Cap max =>
            projected <~ reads (fun w => projected_tunnel_count (user_id user) hosts ports (router_of w));;
            if decide (max < Z.of_nat projected)
            then Ret (Err (LimitExceeded, limit_message max)) else Ret (Ok (Some max))
        end
    end).

Fixpoint claim_hosts_p (user : AuthedUser) (cap : option Z) (hosts : list string) : Proc W (result denial ()) :=
  match hosts with
  | [] => Ret (Ok ())
  | host :: rest =>
      outcome <~ claim_hostname (user_id user) host cap;;
      match outcome with
      | Auth.Owned => claim_hosts_p user cap rest
      | Taken => Ret (Err (NotOwner, "not authorized for " +:+ host))
      | CapExceeded => Ret (Err (LimitExceeded, limit_message (default 0 cap)))
      | Invalid why => Ret (Err (NotOwner, "cannot claim " +:+ host +:+ ": " +:+ why))
      | Auth.Error => Ret (Err (NotOwner, "could not register " +:+ host))
      end
  end.

Fixpoint notify_all_p (frame : Resource -> ControlFrame) (l : list (SessionHandle * Resource)) : Proc W () :=
  match l with
  | [] => Ret ()
  | hr :: rest => _ <~ does (notify hr.1 (frame hr.2));; notify_all_p frame rest
  end.

(** [router.claim] and [router.evict_routes] under the router's write lock. *)
Definition commit_claim (hd : SessionHandle) (hosts : list string) (ports : list Z) (w : W) :
    list (SessionHandle * Resource) * W :=
  let (r', superseded) := claim hd hosts ports (router_of w) in (superseded, with_router r' w).
Definition commit_evict (hosts : list string) (ports : list Z) (w : W) : list (SessionHandle * Resource) * W :=
  let (r', evicted) := evict_routes hosts ports (router_of w) in (evicted, with_router r' w).

Definition claim_p (hd : SessionHandle) (user : AuthedUser) (token : string) (hostnames : list string)
    (tcp_ports : list Z) : Proc W ControlFrame :=
  if decide (MAX_CLAIM_ENTRIES < length hostnames + length tcp_ports)%nat then Ret (too_large "claim")
  else
    let hosts := to_ascii_lowercase <$> hostnames in
    tcp <~ reads tcp_manager;;
    pbind (check_ports_p tcp user tcp_ports) (fun checked =>
      match checked with
      | Err (code, msg) => Ret (Denied code msg)
      | Ok _ =>
          pbind (claim_cap_p user token hosts tcp_ports) (fun capped =>
            match capped with
            | Err (code, msg) => Ret (Denied code msg)
            | Ok cap =>
                pbind (claim_hosts_p user cap hosts) (fun registered =>
                  match registered with
                  | Err (code, msg) => Ret (Denied code msg)
                  | Ok _ =>
                      superseded <~ commit_claim hd hosts tcp_ports;;
                      pbind (notify_all_p Superseded superseded) (fun _ => Ret (Granted hosts tcp_ports))
                  end)
            end)
      end).

(** ** Releases *)
Fixpoint release_hosts_p (uid : Z) (hosts : list string) : Proc W (list string) :=
  match hosts with
  | [] => Ret []
  | h :: rest =>
      b <~ release_hostname uid h;;
      pbind (release_hosts_p uid rest) (fun l => Ret (if (b : bool) then h :: l else l))
  end.
Fixpoint release_ports_p (uid : Z) (ports : list Z) : Proc W (list Z) :=
  match ports with
  | [] => Ret []
  | p :: rest =>
      b <~ release_port uid p;;
      pbind (release_ports_p uid rest) (fun l => Ret (if (b : bool) then p :: l else l))
  end.
Definition owns_nothing_p (uid : Z) : Proc W bool :=
  hs <~ owned_hostnames uid;;
  match hs with
  | _ :: _ => Ret false
  | [] => ps <~ owned_ports uid;; Ret (match ps with [] => true | _ => false end)
  end.
(** The end of a release that freed something. *)
Definition released_p (user : AuthedUser) (token : string) (rh : list string) (rp : list Z) : Proc W ControlFrame :=
  _ <~ commit_evict rh rp;;
  installed <~ reads gate_installed;;
  if (installed : bool) then
    pbind (owns_nothing_p (user_id user)) (fun nothing =>
      if (nothing : bool) then pbind (gate_deactivate_p token) (fun _ => Ret (Released rh rp))
      else Ret (Released rh rp))
  else Ret (Released rh rp).
Definition release_p (user : AuthedUser) (token : string) (hostnames : list string) (tcp_ports : list Z) :
    Proc W ControlFrame :=
  if decide (MAX_CLAIM_ENTRIES < length hostnames + length tcp_ports)%nat then Ret (too_large "release")
  else
    pbind (release_hosts_p (user_id user) (to_ascii_lowercase <$> hostnames)) (fun rh =>
      pbind (release_ports_p (user_id user) tcp_ports) (fun rp =>
        match rh, rp with
        | [], [] => Ret (Released rh rp)
        | _, _ => released_p user token rh rp
        end)).

(** ** Re-validation and listing *)
Fixpoint not_owned_p (uid : Z) (hosts : list string) : Proc W (list string) :=
  match hosts with
  | [] => Ret []
  | h :: rest =>
      b <~ owns_hostname uid h;;
      pbind (not_owned_p uid rest) (fun l => Ret (if (b : bool) then l else h :: l))
  end.
Definition drop_revoked_p (revoked : list string) : Proc W () :=
  match revoked with
  | [] => Ret ()
  | _ => evicted <~ commit_evict revoked [];;
         notify_all_p (fun r => Denied NotOwner (revoked_message debug_resource r)) evicted
  end.
(** Re-validation once the credential still resolves to the session's user. *)
Definition recheck_p (session_id : Z) (user : AuthedUser) : Proc W Reply :=
  routed <~ reads (fun w => hostnames_of session_id (router_of w));;
  pbind (not_owned_p (user_id user) routed) (fun revoked =>
  pbind (drop_revoked_p revoked) (fun _ =>
  installed <~ reads gate_installed;;
  if (installed : bool) then
    decision <~ gate_cap (name user);;
    Ret (match decision with
         | DenyAll => Last (Denied LimitExceeded "subscription lapsed or suspended")
         | _ => Quiet Continue
         end)
  else Ret (Quiet Continue))).
Definition revalidate_p (session_id : Z) (user : AuthedUser) (token : string) : Proc W Reply :=
  pbind (authenticate_any_p token) (fun found =>
    match found with
    | None => Ret (Last (Denied AuthFailed "token revoked"))
    | Some u =>
        if decide (user_id u = user_id user) then recheck_p session_id user
        else Ret (Last (Denied AuthFailed "token revoked"))
    end).
Definition max_tunnels_p (user : AuthedUser) : Proc W (option Z) :=
  installed <~ reads gate_installed;;
  if (installed : bool) then
    d <~ gate_cap (name user);;
    Ret (match d with Allow => None | Cap m => Some (Z.max m 0) | DenyAll => Some 0 end)
  else Ret None.
Definition list_p (user : AuthedUser) : Proc W ControlFrame :=
  pbind (max_tunnels_p user) (fun max_tunnels =>
  hs <~ owned_hostnames (user_id user);;
  ps <~ owned_ports (user_id user);;
  Ret (Frames.Owned hs ps max_tunnels)).

(** ** One event of the control loop *)
Definition answers (p : Proc W ControlFrame) : Proc W Reply := pbind p (fun f => Ret (Answer f)).
Definition frame_p (hd : SessionHandle) (user : AuthedUser) (token : string) (f : ControlFrame) : Proc W Reply :=
  match f with
  | Goodbye => Ret (Quiet Stop)
  | Ping nonce => Ret (Answer (Pong nonce))
  | Claim hs ps => answers (claim_p hd user token hs ps)
  | Release hs ps => answers (release_p user token hs ps)
  | ListOwned => answers (list_p user)
  | Hello _ _ _ _ => Ret (Answer (Frames.Error MalformedClaim "duplicate Hello"))
  | _ => Ret (Quiet Continue)
  end.
Definition event_p (on : bool) (hd : SessionHandle) (user : AuthedUser) (token : string) (ev : CtrlEvent) :
    Proc W Reply :=
  match ev with
  | EvFrame f => frame_p hd user token f
  | EvReadErr _ => Ret (Quiet Stop)
  | EvSilent => Ret (Quiet Stop)
  | EvTick => if on then revalidate_p (sh_session_id hd) user token else Ret (Quiet Continue)
  end.
(** Queueing the reply: the session's own channel. *)
Definition finish (r : Reply) (s : Sess W) : Next * Sess W :=
  match r with
  | Answer f => let (ok, s') := push stalls f s in (if (ok : bool) then Continue else Stop, s')
  | Last f => (Stop, (push stalls f s).2)
  | Quiet n => (n, s)
  end.

(** ** The handshake *)
Definition handshake_p (preamble : HsRead Z) (hello : HsRead ControlFrame) : Proc W Handshake :=
  match preamble with
  | HsTimeout => Ret HsDropped
  | HsGot (Err e) => Ret (HsFailed e)
  | HsGot (Ok _) =>
      match hello with
      | HsTimeout => Ret HsDropped
      | HsGot (Err e) => Ret (HsFailed e)
      | HsGot (Ok (Hello token _ proto_min proto_max)) =>
          match negotiate proto_min proto_max with
          | None => Ret (HsDenied VersionUnsupported ("relay speaks protocol " +:+ pretty PROTOCOL_VERSION))
          | Some proto =>
              pbind (authenticate_any_p (expose token)) (fun found =>
                match found with
                | None => Ret (HsDenied AuthFailed "authentication failed")
                | Some user => Ret (HsAccepted user (expose token) proto)
                end)
          end
      | HsGot (Ok _) => Ret (HsDenied ProtocolError "expected Hello")
      end
  end.

(** ** The system *)
Context (server_version : string) (revalidate_on : bool).
Implicit Types (s : System W) (l : Live W).

Definition init (w : W) : System W := mkSystem w ∅ ∅ 1.
Definition set_task (t : option (Proc W Reply)) l : Live W :=
  mkLive (l_handle l) (l_user l) (l_token l) (l_out l) (l_sends l) t (l_ctrl l) (l_conn l).
Definition put (id : Z) (w : W) l s : System W :=
  mkSystem w (<[id := l]> (sys_sessions s)) (sys_pending s) (sys_next s).
Definition sess_of (w : W) l : Sess W := mkSess w (l_out l) (l_sends l).
(** The session after its control loop's turn. *)
Definition after (n : Next) (x : Sess W) l : Live W :=
  mkLive (l_handle l) (l_user l) (l_token l) (out x) (sends x) None
    (match n with Continue => l_ctrl l | Stop => false end) (l_conn l).
Definition hang_up l : Live W :=
  mkLive (l_handle l) (l_user l) (l_token l) (l_out l) (l_sends l) (l_task l) (l_ctrl l) false.

(** [run_session] takes an id for the connection and starts its control task. *)
Definition connect (preamble : HsRead Z) (hello : HsRead ControlFrame) s : System W :=
  mkSystem (sys_world s) (sys_sessions s)
    (<[sys_next s := handshake_p preamble hello]> (sys_pending s)) (sys_next s + 1).
Definition greet (id : Z) (w : W) (p : Proc W Handshake) s : System W :=
  mkSystem w (sys_sessions s) (<[id := p]> (sys_pending s)) (sys_next s).
(** An accepted handshake is answered with [Welcome] and starts the control loop. *)
Definition welcome (id : Z) (h : Handshake) s : System W :=
  mkSystem (sys_world s)
    (match h with
     | HsAccepted user token proto =>
         let (ok, x) := push stalls (Welcome proto server_version id) (mkSess (sys_world s) [] 0) in
         <[id := mkLive (mkHandle id (user_id user)) user token (out x) (sends x) None ok true]> (sys_sessions s)
     | _ => sys_sessions s
     end) (delete id (sys_pending s)) (sys_next s).
Definition leave (id : Z) l s : System W :=
  put id (with_router (remove_session id (router_of (sys_world s))) (sys_world s)) (hang_up l) s.

Definition move (m : Move) s : option (System W) :=
  match m with
  | Connect preamble hello => Some (connect preamble hello s)
  | HsAct id =>
      p ← sys_pending s !! id;
      match p with
      | Atom op k => let (x, w1) := op (sys_world s) in Some (greet id w1 (k x) s)
      | Ret _ => None
      end
  | HsDone id =>
      p ← sys_pending s !! id;
      match p with
      | Ret h => Some (welcome id h s)
      | Atom _ _ => None
      end
  | Start id ev =>
      l ← sys_sessions s !! id;
      match l_task l with
      | None => if l_ctrl l
                then Some (put id (sys_world s)
                       (set_task (Some (event_p revalidate_on (l_handle l) (l_user l) (l_token l) ev)) l) s)
                else None
      | Some _ => None
      end
  | Act id =>
      l ← sys_sessions s !! id;
      match l_task l with
      | Some (Atom op k) => let (x, w1) := op (sys_world s) in Some (put id w1 (set_task (Some (k x)) l) s)
      | _ => None
      end
  | Reply_to id =>
      l ← sys_sessions s !! id;
      match l_task l with
      | Some (Ret r) => let (n, x) := finish r (sess_of (sys_world s) l) in
                        Some (put id (sys_world s) (after n x l) s)
      | _ => None
      end
  | Exit id =>
      l ← sys_sessions s !! id;
      if l_conn l then Some (leave id l s) else None
  end.
Fixpoint moves (ms : list Move) s : option (System W) :=
  match ms with
  | [] => Some s
  | m :: rest => s1 ← move m s; moves rest s1
  end.

Definition amove (m : AtomicMove) s : option (System W) :=
  match m with
  | AConnect preamble hello =>
      let (h, w1) := handshake preamble hello (sys_world s) in
      Some (welcome (sys_next s) h (mkSystem w1 (sys_sessions s) (sys_pending s) (sys_next s + 1)))
  | AEvent id ev =>
      l ← sys_sessions s !! id;
      match l_task l with
      | None => if l_ctrl l
                then let (n, x) := ctrl_step stalls debug_resource revalidate_on (l_handle l) (l_user l) (l_token l) ev
                                     (sess_of (sys_world s) l) in
                     Some (put id (world x) (after n x l) s)
                else None
      | Some _ => None
      end
  | AExit id =>
      l ← sys_sessions s !! id;
      match l_task l with
      | None => if l_conn l then Some (leave id l s) else None
      | Some _ => None
      end
  end.
Fixpoint amoves (ms : list AtomicMove) s : option (System W) :=
  match ms with
  | [] => Some s
  | m :: rest => s1 ← amove m s; amoves rest s1
  end.
End tasks.
