(* ===== verification/SystemTasks.v ===== *)
(** * Uninterrupted, a task is its handler

    The refinement between the tasks of System.v and the atomic handlers of
    Session.v. *)
From S2P Require Import Prelude Limits Frames Codec Router Auth Polar Session SessionProps Interleave System.
Local Open Scope Z_scope.

Section refine.
Context {W : Type} `{!SessionWorld W, !GateTasks W}.
Context (stalls : nat -> bool) (debug_resource : Resource -> string).

Lemma run_authenticate_any (token : string) (w : W) :
  run (authenticate_any_p token) w = authenticate_any token w.
Proof using.
  unfold authenticate_any_p, authenticate_any. cbn. destruct (authenticate token w) as [[u|] w1]; cbn; [done|].
  destruct (gate_installed w1); [|done]. apply run_gate_auth.
Qed.
Lemma run_check_ports tcp user ports (w : W) :
  run (check_ports_p tcp user ports) w = check_ports tcp user ports w.
Proof using.
  revert w. induction ports as [|p ports IH]; intros w; cbn; [done|]. destruct tcp as [m|]; [|done].
  destruct (in_range m p); cbn; [|done]. destruct (owns_port _ p w) as [[] w1]; cbn; [|done].
  destruct (bind_port p w1) as [[[]|e] w2]; cbn; [apply IH|done].
Qed.
Lemma run_claim_cap user token hosts ports (w : W) :
  run (claim_cap_p user token hosts ports) w = claim_cap user token hosts ports w.
Proof using.
  unfold claim_cap_p, claim_cap. cbn [run reads]. destruct (gate_installed w); cbn [negb]; [|done].
  rewrite run_bind, run_gate_activate. destruct (gate_activate token w) as [[[]|why] w1]; cbn; [|done].
  destruct (gate_cap (name user) w1) as [[|max|] w2]; cbn; try done. by case_decide.
Qed.
Lemma run_claim_hosts user cap hosts (w : W) :
  run (claim_hosts_p user cap hosts) w = claim_hosts user cap hosts w.
Proof using.
  revert w. induction hosts as [|h hosts IH]; intros w; cbn; [done|].
  by destruct (claim_hostname _ h cap w) as [[] w1]; cbn.
Qed.
Lemma run_notify_all f l (w : W) : run (notify_all_p f l) w = ((), notify_all f l w).
Proof using. revert w. induction l as [|x l IH]; intros w; cbn; [done|]. apply IH. Qed.
Lemma run_claim hd user token hs ps (s : Sess W) :
  handle_claim stalls hd user token hs ps s =
  let (f, w) := run (claim_p hd user token hs ps) (world s) in push stalls f (set_world w s).
Proof using.
  unfold handle_claim, claim_p. case_decide; [by destruct s|]. cbn [run reads].
  rewrite run_bind, run_check_ports. unfold claim_checks.
  destruct (check_ports _ _ _ _) as [[[]|[c m]] w1]; [|done].
  rewrite run_bind, run_claim_cap. destruct (claim_cap _ _ _ _ _) as [[cap|[c m]] w2]; [|done].
  rewrite run_bind, run_claim_hosts. destruct (claim_hosts _ _ _ _) as [[[]|[c m]] w3]; [|done].
  cbn. unfold commit_claim. destruct (claim _ _ _ _) as [r' sup]. by rewrite run_bind, run_notify_all.
Qed.
Lemma run_release_hosts uid hosts (w : W) :
  run (release_hosts_p uid hosts) w = release_hosts uid hosts w.
Proof using.
  revert w. induction hosts as [|h hosts IH]; intros w; cbn; [done|].
  destruct (release_hostname uid h w) as [b w1]. rewrite run_bind, IH. by destruct (release_hosts uid hosts w1).
Qed.
Lemma run_release_ports uid ports (w : W) :
  run (release_ports_p uid ports) w = release_ports uid ports w.
Proof using.
  revert w. induction ports as [|h ports IH]; intros w; cbn; [done|].
  destruct (release_port uid h w) as [b w1]. rewrite run_bind, IH. by destruct (release_ports uid ports w1).
Qed.
Lemma run_owns_nothing uid (w : W) : run (owns_nothing_p uid) w = owns_nothing uid w.
Proof using.
  unfold owns_nothing_p, owns_nothing. cbn. destruct (owned_hostnames uid w) as [[] w1]; cbn; [|done].
  by destruct (owned_ports uid w1).
Qed.
Lemma run_released user token rh rp (w : W) :
  run (released_p user token rh rp) w =
  (Released rh rp, let w3 := with_router (evict_routes rh rp (router_of w)).1 w in
    if gate_installed w3 then
      let (nothing, w4) := owns_nothing (user_id user) w3 in
      if (nothing : bool) then gate_deactivate token w4 else w4
    else w3).
Proof using.
  unfold released_p, commit_evict. cbn [run]. destruct (evict_routes rh rp (router_of w)) as [r' ev]. cbn [run reads fst].
  destruct (gate_installed _); [|done]. rewrite run_bind, run_owns_nothing.
  destruct (owns_nothing _ _) as [[] w4]; [|done]. by rewrite run_bind, run_gate_deactivate.
Qed.
Lemma run_release user token hs ps (s : Sess W) :
  handle_release stalls user token hs ps s =
  let (f, w) := run (release_p user token hs ps) (world s) in push stalls f (set_world w s).
Proof using.
  unfold handle_release, release_p. case_decide; [by destruct s|].
  rewrite run_bind, run_release_hosts. destruct (release_hosts _ _ _) as [rh w1].
  rewrite run_bind, run_release_ports. destruct (release_ports _ _ w1) as [rp w2].
  destruct rh, rp; [done|by rewrite run_released..].
Qed.
Lemma run_not_owned uid hosts (w : W) : run (not_owned_p uid hosts) w = not_owned uid hosts w.
Proof using.
  revert w. induction hosts as [|h hosts IH]; intros w; cbn; [done|].
  destruct (owns_hostname uid h w) as [b w1]. rewrite run_bind, IH. by destruct (not_owned uid hosts w1).
Qed.
Lemma run_drop_revoked revoked (w : W) :
  run (drop_revoked_p debug_resource revoked) w =
  ((), match revoked with
       | [] => w
       | _ => let (r', evicted) := evict_routes revoked [] (router_of w) in
              notify_all (fun r => Denied NotOwner (revoked_message debug_resource r)) evicted (with_router r' w)
       end).
Proof using.
  destruct revoked as [|h l]; [done|]. cbn [drop_revoked_p run]. unfold commit_evict.
  destruct (evict_routes (h :: l) [] (router_of w)) as [r' ev]. apply run_notify_all.
Qed.
Lemma run_revalidate sid user token (s : Sess W) :
  revalidate stalls debug_resource sid user token s =
  let (r, w) := run (revalidate_p debug_resource sid user token) (world s) in finish stalls r (set_world w s).
Proof using.
  unfold revalidate, revalidate_p, recheck_p. rewrite run_bind, run_authenticate_any.
  destruct (authenticate_any token (world s)) as [[u|] w1]; [|done]. case_decide; [|done].
  cbn [run reads]. rewrite run_bind, run_not_owned.
  destruct (not_owned _ _ w1) as [revoked w2]. rewrite run_bind, run_drop_revoked.
  set (w3 := match revoked with [] => w2 | _ => _ end).
  cbn. destruct (gate_installed w3); [|done]. cbn. by destruct (gate_cap _ w3) as [[] w4].
Qed.
Lemma run_handshake preamble hello (w : W) : run (handshake_p preamble hello) w = handshake preamble hello w.
Proof using.
  unfold handshake_p, handshake. destruct preamble as [|[]]; try done. destruct hello as [|[[]|]]; try done.
  destruct (negotiate _ _); [|done]. rewrite run_bind, run_authenticate_any.
  by destruct (authenticate_any (expose token) w) as [[]].
Qed.
Lemma run_list user (s : Sess W) :
  list_owned stalls user s =
  let (f, w) := run (list_p user) (world s) in push stalls f (set_world w s).
Proof using.
  unfold list_owned, list_p. rewrite run_bind. unfold max_tunnels_p. cbn.
  destruct (gate_installed (world s)); cbn.
  - destruct (gate_cap (name user) (world s)) as [d w1]. cbn.
    destruct (owned_hostnames _ w1) as [hs w2]. by destruct (owned_ports _ w2).
  - destruct (owned_hostnames _ (world s)) as [hs w2]. by destruct (owned_ports _ w2).
Qed.
(** Each handler of the control loop is the sequence of lock-protected calls it is
    made of: run without interruption, the task of an event (claim, release,
    listing, re-validation and the rest) followed by queueing its reply does
    exactly what the atomic model of the event does, to the relay, to the frames
    queued for the daemon and to the session's fate. *)
Lemma run_event (on : bool) (hd : SessionHandle) (user : AuthedUser) (token : string)
    (ev : CtrlEvent) (s : Sess W) :
  ctrl_step stalls debug_resource on hd user token ev s =
  let (r, w) := run (event_p debug_resource on hd user token ev) (world s) in finish stalls r (set_world w s).
Proof using.
  assert (Hs : set_world (world s) s = s) by by destruct s.
  assert (Ha : forall p : Proc W ControlFrame,
    (let (r, w) := run (answers p) (world s) in finish stalls r (set_world w s)) =
    let (f, w) := run p (world s) in finish stalls (Answer f) (set_world w s)).
  { intros p. unfold answers. rewrite run_bind. by destruct (run p (world s)). }
  destruct ev as [f|e| |]; cbn [ctrl_step event_p run finish]; rewrite ?Hs; try done.
  - destruct f; cbn [on_frame frame_p]; rewrite ?Ha; cbn [run finish]; rewrite ?Hs; try done.
    + rewrite run_claim. by destruct (run _ _).
    + rewrite run_release. by destruct (run _ _).
    + rewrite run_list. by destruct (run _ _).
  - destruct on; [apply run_revalidate|]. cbn. by rewrite Hs.
Qed.


(** ** Atomic runs are interleaved runs *)
Context (server_version : string) (on : bool).
Local Abbreviation moves := (moves stalls debug_resource server_version on).
Local Abbreviation amove := (amove stalls debug_resource server_version on).
Local Abbreviation amoves := (amoves stalls debug_resource server_version on).
Lemma moves_app (a b : list Move) (s : System W) : moves (a ++ b) s = s1 ← moves a s; moves b s1.
Proof using.
  revert s. induction a as [|m a IH]; intros s; [done|]. cbn.
  destruct (move _ _ _ _ m s); cbn; [apply IH|done].
Qed.
Lemma put_put (id : Z) (w1 w2 : W) (l1 l2 : Live W) (s : System W) :
  put id w2 l2 (put id w1 l1 s) = put id w2 l2 s.
Proof using. unfold put. cbn. by rewrite insert_insert_eq. Qed.
Lemma put_lookup (id : Z) (w : W) (l : Live W) (s : System W) : sys_sessions (put id w l s) !! id = Some l.
Proof using. apply lookup_insert_eq. Qed.
(** A task given the processor until it is done. *)
Lemma moves_acts (id : Z) (p : Proc W Reply) (w : W) (l : Live W) (s : System W) :
  moves (replicate (steps p w) (Act id)) (put id w (set_task (Some p) l) s) =
  let (r, w1) := run p w in Some (put id w1 (set_task (Some (Ret r)) l) s).
Proof using.
  revert w. induction p as [a|X op k IH]; intros w; cbn [steps run]; [done|].
  destruct (op w) as [x w1] eqn:E. cbn [replicate moves System.moves System.move].
  rewrite put_lookup. cbn [mbind option_bind l_task set_task sys_world put]. rewrite E, put_put. apply IH.
Qed.
Lemma moves_greets (id : Z) (p : Proc W Handshake) (w : W) (s : System W) :
  moves (replicate (steps p w) (HsAct id)) (greet id w p s) =
  let (h, w1) := run p w in Some (greet id w1 (Ret h) s).
Proof using.
  revert w. induction p as [a|X op k IH]; intros w; cbn [steps run]; [done|].
  destruct (op w) as [x w1] eqn:E. cbn [replicate moves System.moves System.move sys_pending greet].
  rewrite lookup_insert_eq. cbn [mbind option_bind sys_world greet]. rewrite E.
  unfold greet at 1. cbn [sys_pending sys_sessions sys_next greet]. rewrite insert_insert_eq. apply IH.
Qed.
Definition schedule (m : AtomicMove) (s : System W) : list Move :=
  match m with
  | AConnect preamble hello => [Connect preamble hello] ++
      replicate (steps (handshake_p preamble hello) (sys_world s)) (HsAct (sys_next s)) ++ [HsDone (sys_next s)]
  | AExit id => [Exit id]
  | AEvent id ev =>
      match sys_sessions s !! id with
      | Some l => [Start id ev] ++
          replicate (steps (event_p debug_resource on (l_handle l) (l_user l) (l_token l) ev) (sys_world s)) (Act id) ++
          [Reply_to id]
      | None => []
      end
  end.
Lemma amove_scheduled (m : AtomicMove) (s s' : System W) :
  amove m s = Some s' -> moves (schedule m s) s = Some s'.
Proof using.
  destruct m as [pre hello|id ev|id]; cbn [System.amove schedule].
  - rewrite <- run_handshake. intros H. cbn [app System.moves System.move mbind option_bind]. rewrite moves_app.
    change (connect pre hello s) with (greet (sys_next s) (sys_world s) (handshake_p pre hello)
      (mkSystem (sys_world s) (sys_sessions s) (sys_pending s) (sys_next s + 1))).
    rewrite moves_greets. destruct (run (handshake_p pre hello) (sys_world s)) as [h w1].
    cbn [mbind option_bind System.moves System.move greet sys_pending]. rewrite lookup_insert_eq.
    cbn [mbind option_bind]. rewrite <- H. unfold welcome. cbn. by rewrite delete_insert_eq.
  - intros (l & Hl & H)%bind_Some. rewrite Hl. destruct (l_task l) eqn:Et; [done|].
    destruct (l_ctrl l) eqn:Ec; [|done].
    cbn [app System.moves System.move]. rewrite Hl. cbn [mbind option_bind]. rewrite Et, Ec. cbn [mbind option_bind].
    rewrite moves_app, moves_acts. rewrite run_event in H. cbn [world sess_of] in H.
    destruct (run _ (sys_world s)) as [r w1].
    cbn [mbind option_bind System.moves System.move]. rewrite put_lookup. cbn [mbind option_bind l_task set_task].
    change (set_world w1 (sess_of (sys_world s) l)) with (sess_of w1 (set_task (Some (Ret r)) l)) in H.
    cbn [sys_world put].
    destruct (finish stalls r (sess_of w1 _)) as [n x] eqn:Ef. cbn [mbind option_bind]. rewrite put_put.
    injection H as <-. assert (Hx : world x = w1).
    { revert Ef. unfold finish, push. repeat case_match; intros [= <- <-]; by simplify_eq. }
    by rewrite Hx.
  - intros (l & Hl & H)%bind_Some. cbn. rewrite Hl. cbn. destruct (l_task l); [done|].
    by destruct (l_conn l); [injection H as <-|].
Qed.

Fixpoint schedules (ms : list AtomicMove) (s : System W) : list Move :=
  match ms with
  | [] => []
  | m :: rest => schedule m s ++ from_option (schedules rest) [] (amove m s)
  end.

(** C8 The model in which a session handles each event at once is one of the
    schedules of the relay: whatever sequence of connections, events and exits,
    giving each event's task the processor until it has replied makes every lock-
    protected call of the handshakes and handlers in order and ends in exactly the same system:
    the same registry, routes, sessions, queued frames and ids. *)
Theorem atomic_runs_refined (ms : list AtomicMove) (s s' : System W) :
  amoves ms s = Some s' -> moves (schedules ms s) s = Some s'.
Proof using.
  revert s. induction ms as [|m ms IH]; intros s; cbn [System.amoves].
  - by intros [= <-].
  - intros (s1 & H1 & H2)%bind_Some. cbn [schedules]. rewrite H1. cbn [from_option].
    rewrite moves_app, (amove_scheduled m s s1 H1). by apply IH.
Qed.
End refine.
