(* ===== verification/SystemProps.v ===== *)
(** * What holds however the sessions interleave (crates/relay/src/session.rs)

    Invariants of every run of System.v: with each event handled at once, with
    the sessions' calls interleaved in any order, and for a user whose sessions
    only ever claim. *)
From S2P Require Import Prelude Limits Frames Codec Router Auth Polar Session SessionProps Interleave System SystemTasks.
Local Open Scope Z_scope.

(** The calls a session of [uid] makes, apart from authenticating by license,
    committing a claim and releasing. *)
Record calls_ok {W : Type} `{!SessionWorld W, !GateTasks W} (uid : Z) (P : forall X : Type, (W -> X * W) -> Prop) : Prop := {
  c_reads : forall X (f : W -> X), P X (reads f);
  c_authenticate : forall tok, P _ (authenticate tok);
  c_owns_hostname : forall u h, P _ (owns_hostname u h);
  c_owns_port : forall u p, P _ (owns_port u p);
  c_bind_port : forall p, P _ (bind_port p);
  c_gate_activate : forall tok, all_ops P (gate_activate_p tok);
  c_gate_cap : forall n, P _ (gate_cap n);
  c_gate_deactivate : forall tok, all_ops P (gate_deactivate_p tok);
  c_notify : forall h f, P _ (does (notify h f));
  c_owned_hostnames : forall u, P _ (owned_hostnames u);
  c_owned_ports : forall u, P _ (owned_ports u);
  c_evict : forall hs ps, P _ (commit_evict hs ps);
  c_claim_hostname : forall h cap, P _ (claim_hostname uid h cap);
}.
Record releases_ok {W : Type} `{!SessionWorld W} (uid : Z) (P : forall X : Type, (W -> X * W) -> Prop) : Prop := {
  c_release_hostname : forall h, P _ (release_hostname uid h);
  c_release_port : forall p, P _ (release_port uid p);
}.
Lemma calls_ok_mono {W : Type} `{!SessionWorld W, !GateTasks W} (uid : Z) (P Q : forall X : Type, (W -> X * W) -> Prop) :
  (forall X op, P X op -> Q X op) -> calls_ok uid P -> calls_ok uid Q.
Proof. intros HPQ [] . split; intros; first [apply HPQ; solve [auto] | eapply all_ops_mono; [exact HPQ|solve [auto]]]. Qed.
Definition is_release (ev : CtrlEvent) : bool := match ev with EvFrame (Release _ _) => true | _ => false end.
Definition is_tick (ev : CtrlEvent) : bool := match ev with EvTick => true | _ => false end.
Definition is_claim (ev : CtrlEvent) : bool := match ev with EvFrame (Claim _ _) => true | _ => false end.

Section calls.
Context {W : Type} `{!SessionWorld W, !GateTasks W}.
Context (debug_resource : Resource -> string).
Context (uid : Z) (P : forall X : Type, (W -> X * W) -> Prop).
Context (HC : calls_ok uid P).

(** Walks a task, its calls being known. *)
Ltac walk :=
  repeat match goal with
  | |- all_ops _ (pbind _ _) => apply all_ops_bind; [|intros ?]
  | |- all_ops _ (Atom _ _) => split; [apply HC|intros ?]
  | |- all_ops _ (gate_activate_p _) => apply HC
  | |- all_ops _ (gate_deactivate_p _) => apply HC
  | |- all_ops _ (Ret _) => exact I
  | |- all_ops _ (match ?x with _ => _ end) => destruct x
  end.
Lemma authenticate_calls (tok : string) : all_ops P (gate_auth_p tok) -> all_ops P (authenticate_any_p tok).
Proof using HC. intros HG. unfold authenticate_any_p. walk. done. Qed.
Lemma ports_calls tcp user ports : all_ops P (check_ports_p tcp user ports).
Proof using HC. induction ports; cbn [check_ports_p]; cbv zeta; walk; done. Qed.
Lemma cap_calls user token hosts ports : all_ops P (claim_cap_p user token hosts ports).
Proof using HC. unfold claim_cap_p. walk. Qed.
Lemma hosts_calls user cap hosts : user_id user = uid -> all_ops P (claim_hosts_p user cap hosts).
Proof using HC. intros Hu. induction hosts; cbn [claim_hosts_p]; [done|]. rewrite Hu. walk; done. Qed.
Lemma notify_calls f l : all_ops P (notify_all_p f l).
Proof using HC. induction l; cbn [notify_all_p]; walk; done. Qed.
Lemma not_owned_calls u hosts : all_ops P (not_owned_p u hosts).
Proof using HC. induction hosts; cbn [not_owned_p]; walk; done. Qed.
Lemma recheck_calls sid user : all_ops P (recheck_p debug_resource sid user).
Proof using HC.
  unfold recheck_p. split; [apply HC|intros routed].
  apply all_ops_bind; [apply not_owned_calls|intros revoked]. apply all_ops_bind; [|intros _; walk].
  destruct revoked; [done|]. cbn [drop_revoked_p]. split; [apply HC|]. intros ev. apply notify_calls.
Qed.
Lemma revalidate_calls sid user token :
  all_ops P (gate_auth_p token) -> all_ops P (revalidate_p debug_resource sid user token).
Proof using HC.
  intros HG. unfold revalidate_p. apply all_ops_bind; [by apply authenticate_calls|]. intros [u|]; [|done].
  destruct (decide _); [|done]. apply recheck_calls.
Qed.
Lemma list_calls user : all_ops P (list_p user).
Proof using HC. unfold list_p, max_tunnels_p. walk. Qed.
Lemma release_calls user token hs ps :
  user_id user = uid -> releases_ok uid P -> all_ops P (release_p user token hs ps).
Proof using HC.
  intros Hu HR. assert (Hh : forall l, all_ops P (release_hosts_p (user_id user) l)).
  { rewrite Hu. induction l; cbn [release_hosts_p]; [done|]. split; [apply HR|]. intros b. walk; done. }
  assert (Hp : forall l, all_ops P (release_ports_p (user_id user) l)).
  { rewrite Hu. induction l; cbn [release_ports_p]; [done|]. split; [apply HR|]. intros b. walk; done. }
  unfold release_p, released_p, owns_nothing_p. destruct (decide _); [done|].
  apply all_ops_bind; [done|]. intros rh. apply all_ops_bind; [done|]. intros rp. destruct rh, rp; walk.
Qed.
Lemma claim_calls hd user token hs ps :
  user_id user = uid -> (forall hosts ports, P _ (commit_claim hd hosts ports)) ->
  all_ops P (claim_p hd user token hs ps).
Proof using HC.
  intros Hu Hc. unfold claim_p. destruct (decide _); [done|]. cbv zeta. split; [apply HC|]. intros tcp.
  apply all_ops_bind; [apply ports_calls|]. intros [[]|[c m]]; [|done].
  apply all_ops_bind; [apply cap_calls|]. intros [cap|[c m]]; [|done].
  apply all_ops_bind; [by apply hosts_calls|]. intros [[]|[c m]]; [|done].
  split; [apply Hc|]. intros sup. apply all_ops_bind; [apply notify_calls|done].
Qed.
(** The calls of one event. *)
Lemma event_calls on hd user token ev :
  user_id user = uid -> (is_release ev = true -> releases_ok uid P) ->
  (is_claim ev = true -> forall hosts ports, P _ (commit_claim hd hosts ports)) ->
  (is_tick ev = true -> all_ops P (gate_auth_p token)) ->
  all_ops P (event_p debug_resource on hd user token ev).
Proof using HC.
  intros Hu HR Hc HG. destruct ev as [f|e| |]; cbn [event_p]; try done.
  - destruct f; cbn [frame_p]; try done; (apply all_ops_bind; [|done]).
    + apply claim_calls; auto.
    + apply release_calls; auto.
    + apply list_calls.
  - destruct on; [|done]. apply revalidate_calls. auto.
Qed.
End calls.

(** ** Routes point into a set of sessions *)
Definition routes_in (S : SessionHandle -> Prop) (r : RouterInner) : Prop :=
  (forall h x, http r !! h = Some x -> S x) /\ (forall p x, tcp r !! p = Some x -> S x).
Definition relay_ok {W : Type} `{!SessionWorld W, !OwnerView W} (S : SessionHandle -> Prop) (w : W) : Prop :=
  auth_inv w /\ router_wf (router_of w) /\ routes_in S (router_of w).
(** What the gate's tasks promise: activation touches nothing sessions depend on,
    and each call of an authentication keeps the relay well-formed and adds no
    route. *)
Class GateTaskLaws (W : Type) `{!SessionWorld W, !GateTasks W, !OwnerView W} : Prop := {
  activate_quiet : forall tok, all_ops (fun _ op => forall w, auth_inv w -> quiet w (op w).2) (gate_activate_p tok);
  deactivate_quiet : forall tok, all_ops (fun _ op => forall w, auth_inv w -> quiet w (op w).2) (gate_deactivate_p tok);
  auth_keeps : forall tok, all_ops (fun _ op => forall S w, relay_ok S w -> relay_ok S (op w).2) (gate_auth_p tok);
}.

Section system.
Context {W : Type} `{!SessionWorld W, !GateTasks W, !OwnerView W, !SessionLaws W, !GateTaskLaws W}.
Context (stalls : nat -> bool) (debug_resource : Resource -> string) (server_version : string) (on : bool).
Local Abbreviation moves := (moves stalls debug_resource server_version on).
Local Abbreviation move := (move stalls debug_resource server_version on).
Local Abbreviation amove := (amove stalls debug_resource server_version on).
Local Abbreviation amoves := (amoves stalls debug_resource server_version on).
Local Abbreviation event_p := (event_p debug_resource on).
Implicit Types (w : W) (s : System W) (l : Live W).

Lemma routes_in_mono (S S' : SessionHandle -> Prop) r : (forall x, S x -> S' x) -> routes_in S r -> routes_in S' r.
Proof using. intros HS [H1 H2]. split; eauto. Qed.
Lemma routes_in_fewer (S : SessionHandle -> Prop) r r' : fewer_routes r r' -> routes_in S r -> routes_in S r'.
Proof using.
  intros [F1 F2] [H1 H2]. split; intros k x Hx.
  - apply (H1 k). by eapply map_subseteq_spec.
  - apply (H2 k). by eapply map_subseteq_spec.
Qed.
Lemma relay_ok_mono (S S' : SessionHandle -> Prop) w : (forall x, S x -> S' x) -> relay_ok S w -> relay_ok S' w.
Proof using. intros HS (H1 & H2 & H3). split_and!; [done|done|]. by eapply routes_in_mono. Qed.
Lemma relay_ok_frame S w w' : auth_inv w' -> frame w w' -> relay_ok S w -> relay_ok S w'.
Proof using. intros Hi [Hr _] (_ & H2 & H3). unfold relay_ok. by rewrite Hr. Qed.
Lemma relay_ok_router S r w : router_wf r -> routes_in S r -> relay_ok S w -> relay_ok S (with_router r w).
Proof using SessionLaws0.
  intros Hw Hr (Hi & _). split; [by apply with_router_law|]. by rewrite router_with.
Qed.

(** Every call keeps the routes inside [S]; a claim needs its own session there. *)
Definition keeping (X : Type) (op : W -> X * W) : Prop := forall S w, relay_ok S w -> relay_ok S (op w).2.
Lemma quiet_keeps {A : Type} (p : Proc W A) :
  all_ops (fun _ op => forall w, auth_inv w -> quiet w (op w).2) p -> all_ops keeping p.
Proof using.
  apply all_ops_mono. intros X op H S w Hw. destruct (H w (proj1 Hw)) as (H1 & _ & H3). by eapply relay_ok_frame.
Qed.
Lemma evict_keeps hs ps : keeping _ (commit_evict hs ps).
Proof using SessionLaws0.
  intros S w H. pose proof H as (_ & Hw & Hr). unfold commit_evict.
  pose proof (evict_routes_wf hs ps (router_of w) Hw) as H1. pose proof (evict_fewer hs ps (router_of w)) as H2.
  destruct (evict_routes hs ps (router_of w)) as [r' ev]. cbn in *.
  apply relay_ok_router; [done|by eapply routes_in_fewer|done].
Qed.
Lemma calls_keep (uid : Z) : calls_ok uid keeping.
Proof using SessionLaws0 GateTaskLaws0.
  split; unfold keeping; intros; try done; try match goal with H : relay_ok _ _ |- _ => pose proof H as (Hi & Hw & Hr) end.
  - eapply relay_ok_frame; [by apply authenticate_law|apply authenticate_frame|done].
  - eapply relay_ok_frame; [by apply owns_hostname_law|apply owns_hostname_frame|done].
  - eapply relay_ok_frame; [by apply owns_port_law|apply owns_port_frame|done].
  - destruct (bind_port_law p w Hi) as (H1 & _ & H3 & _). unfold relay_ok. by rewrite H3.
  - apply quiet_keeps, activate_quiet.
  - destruct (gate_cap_law n w Hi) as (H1 & _ & H3). by eapply relay_ok_frame.
  - apply quiet_keeps, deactivate_quiet.
  - destruct (notify_law h f w Hi) as (H1 & _ & H3). by eapply relay_ok_frame.
  - eapply relay_ok_frame; [by apply owned_hostnames_law|apply owned_hostnames_frame|done].
  - eapply relay_ok_frame; [by apply owned_ports_law|apply owned_ports_frame|done].
  - by apply evict_keeps.
  - eapply relay_ok_frame; [by apply claim_hostname_law|apply claim_hostname_frame|done].
Qed.
Lemma releases_keep (uid : Z) : releases_ok uid keeping.
Proof using SessionLaws0 GateTaskLaws0.
  split; intros k S w H; pose proof H as (Hi & _).
  - eapply relay_ok_frame; [by apply release_hostname_law|apply release_hostname_frame|done].
  - eapply relay_ok_frame; [by apply release_port_law|apply release_port_frame|done].
Qed.
Lemma claim_routes_in (S : SessionHandle -> Prop) hd hosts ports r :
  S hd -> routes_in S r -> routes_in S (claim hd hosts ports r).1.
Proof using.
  intros Hs [H1 H2]. destruct (claim_lookup hd hosts ports r) as [L1 L2]. split; intros k x.
  - rewrite L1. case_decide; [by intros [= <-]|apply H1].
  - rewrite L2. case_decide; [by intros [= <-]|apply H2].
Qed.
Lemma commit_keeps (S : SessionHandle -> Prop) hd hosts ports w :
  S hd -> relay_ok S w -> relay_ok S (commit_claim hd hosts ports w).2.
Proof using SessionLaws0 GateTaskLaws0.
  intros Hs H. pose proof H as (_ & Hw & Hr). unfold commit_claim.
  pose proof (claim_wf hd hosts ports (router_of w) Hw) as H1.
  pose proof (claim_routes_in S hd hosts ports (router_of w) Hs Hr) as H2.
  destruct (claim hd hosts ports (router_of w)) as [r' sup]. by apply relay_ok_router.
Qed.
Lemma event_keeps (hd : SessionHandle) user token ev :
  all_ops (fun _ op => forall S : SessionHandle -> Prop, S hd -> forall w, relay_ok S w -> relay_ok S (op w).2)
    (event_p hd user token ev).
Proof using SessionLaws0 GateTaskLaws0.
  assert (Hm : forall X op, keeping X op ->
    forall S : SessionHandle -> Prop, S hd -> forall w, relay_ok S w -> relay_ok S (op w).2) by (intros X op H S _; apply H).
  apply (event_calls debug_resource (user_id user)); [|done|..].
  - eapply calls_ok_mono; [exact Hm|apply calls_keep].
  - intros _. split; intros; by apply (releases_keep (user_id user)).
  - intros _ hosts ports S Hs w Hw. by apply commit_keeps.
  - intros _. eapply all_ops_mono; [exact Hm|]. apply auth_keeps.
Qed.
Lemma handshake_keeps preamble hello : all_ops keeping (handshake_p preamble hello).
Proof using SessionLaws0 GateTaskLaws0.
  unfold handshake_p. destruct preamble as [|[]]; try done. destruct hello as [|[[]|]]; try done.
  destruct (negotiate _ _); [|done]. apply all_ops_bind; [|by intros []].
  apply (authenticate_calls 0 keeping); [apply calls_keep|apply auth_keeps].
Qed.

(** ** The sessions *)
Definition sessions_ok s : Prop :=
  forall id l, sys_sessions s !! id = Some l ->
    id < sys_next s /\ l_handle l = mkHandle id (user_id (l_user l)).
Definition pending_ok s : Prop :=
  forall id p, sys_pending s !! id = Some p -> id < sys_next s /\ sys_sessions s !! id = None.
Definition ids_ok s : Prop := sessions_ok s /\ pending_ok s.
(** [x] is the handle of a session the relay accepted; and whose actor still runs,
    unless it took up an event after it left. *)
Definition accepted s (x : SessionHandle) : Prop :=
  exists l, sys_sessions s !! sh_session_id x = Some l /\ l_handle l = x.
Definition live (past : list AtomicMove) s (x : SessionHandle) : Prop :=
  exists l, sys_sessions s !! sh_session_id x = Some l /\ l_handle l = x /\
    (l_conn l = true \/ late (sh_session_id x) past = true).
(** Every session that left did so in [past]. *)
Definition exits_seen (past : list AtomicMove) s : Prop :=
  forall id l, sys_sessions s !! id = Some l -> l_conn l = false -> existsb (exit_of id) past = true.
Lemma late_snoc (id : Z) (past : list AtomicMove) (m : AtomicMove) : late id past = true -> late id (past ++ [m]) = true.
Proof using.
  induction past as [|m0 past IH]; cbn [late app]; [done|]. rewrite existsb_app.
  intros [[-> ->]%andb_true_iff|H]%orb_true_iff; [done|]. by rewrite IH, orb_true_r.
Qed.
Lemma late_after_exit (id : Z) (past : list AtomicMove) (ev : CtrlEvent) :
  existsb (exit_of id) past = true -> late id (past ++ [AEvent id ev]) = true.
Proof using.
  induction past as [|m0 past IH]; cbn [late app existsb]; [done|]. rewrite existsb_app.
  intros [->|H]%orb_true_iff; [|by rewrite IH, orb_true_r]. cbn. by rewrite Z.eqb_refl, !orb_true_r.
Qed.
Lemma exited_snoc (id : Z) (past : list AtomicMove) (m : AtomicMove) :
  existsb (exit_of id) past = true -> existsb (exit_of id) (past ++ [m]) = true.
Proof using. rewrite existsb_app. by intros ->. Qed.
Lemma live_snoc (past : list AtomicMove) (m : AtomicMove) s x : live past s x -> live (past ++ [m]) s x.
Proof using. intros (l & Hl & Hx & [Hc|Hc]); exists l; eauto using late_snoc. Qed.
Lemma put_ids id w l l' s :
  sys_sessions s !! id = Some l -> l_handle l' = l_handle l -> l_user l' = l_user l ->
  ids_ok s -> ids_ok (put id w l' s).
Proof using.
  intros Hl Hh Hu [Hs Hp]. split.
  - intros id' l0. unfold put. cbn. rewrite lookup_insert_Some.
    intros [[<- <-]|[_ H]]; [|by apply Hs]. rewrite Hh, Hu. by apply Hs.
  - intros id' p Hid. unfold put in *. cbn in *. destruct (Hp id' p Hid). split; [done|].
    rewrite lookup_insert_ne; [done|]. congruence.
Qed.
Lemma greet_ids id w p p' s : sys_pending s !! id = Some p -> ids_ok s -> ids_ok (greet id w p' s).
Proof using.
  intros Hid [Hs Hp]. split; [exact Hs|]. intros id' p0. unfold greet. cbn. rewrite lookup_insert_Some.
  intros [[<- _]|[_ H]]; by eapply Hp.
Qed.
Lemma connect_ids preamble hello s : ids_ok s -> ids_ok (connect preamble hello s).
Proof using.
  intros [Hs Hp]. unfold connect. split; intros id; cbn.
  - intros l Hl. destruct (Hs id l Hl). split; [lia|done].
  - intros p. rewrite lookup_insert_Some. intros [[<- _]|[_ H]].
    + split; [lia|]. destruct (sys_sessions s !! sys_next s) as [l|] eqn:El; [|done]. destruct (Hs _ _ El). lia.
    + destruct (Hp id p H). split; [lia|done].
Qed.
(** What an answered handshake adds. *)
Lemma admit_run id h s :
  let s' := welcome stalls server_version id h s in
  sys_world s' = sys_world s /\ sys_next s' = sys_next s /\ sys_pending s' = delete id (sys_pending s) /\
  (sys_sessions s' = sys_sessions s \/
   exists user token o n c,
     sys_sessions s' = <[id := mkLive (mkHandle id (user_id user)) user token o n None c true]> (sys_sessions s)).
Proof using.
  unfold welcome. cbn. split_and!; [done..|]. destruct h as [| | |user token proto]; [by left..|right].
  unfold push. cbn [sends]. destruct (stalls 0); cbn; repeat eexists.
Qed.
Lemma admit_ids id h s :
  id < sys_next s -> sys_sessions s !! id = None -> ids_ok s -> ids_ok (welcome stalls server_version id h s).
Proof using.
  intros Hlt Hn [Hs Hp]. destruct (admit_run id h s) as (_ & En & Ep & Hc). set (s' := welcome _ _ _ _ _) in *.
  unfold ids_ok, sessions_ok, pending_ok. rewrite En, Ep.
  destruct Hc as [->|(user & token & o & n & c & ->)]; split.
  - exact Hs.
  - intros id' p [_ H]%lookup_delete_Some. by eapply Hp.
  - intros id' l. rewrite lookup_insert_Some. intros [[<- <-]|[_ H]]; [done|by apply Hs].
  - intros id' p [Hne H]%lookup_delete_Some. destruct (Hp id' p H). rewrite lookup_insert_ne by done. done.
Qed.
Lemma admit_accepted id h s x :
  sys_sessions s !! id = None -> accepted s x -> accepted (welcome stalls server_version id h s) x.
Proof using.
  intros Hn (l & Hl & Hx). exists l. split; [|done]. destruct (admit_run id h s) as (_ & _ & _ & Hc).
  destruct Hc as [->|(user & token & o & n & c & ->)]; [done|]. rewrite lookup_insert_ne; [done|]. congruence.
Qed.
Lemma admit_live past id h s x :
  sys_sessions s !! id = None -> live past s x -> live past (welcome stalls server_version id h s) x.
Proof using.
  intros Hn (l & Hl & Hx). exists l. split; [|done]. destruct (admit_run id h s) as (_ & _ & _ & Hc).
  destruct Hc as [->|(user & token & o & n & c & ->)]; [done|]. rewrite lookup_insert_ne; [done|]. congruence.
Qed.
Lemma put_accepted id w l l' s x :
  sys_sessions s !! id = Some l -> l_handle l' = l_handle l -> accepted s x -> accepted (put id w l' s) x.
Proof using.
  intros Hl Hh (l0 & H0 & Hx). unfold accepted, put. cbn. destruct (decide (id = sh_session_id x)) as [->|Hne].
  - rewrite lookup_insert_eq. exists l'. split; [done|]. congruence.
  - rewrite lookup_insert_ne by done. eauto.
Qed.
Lemma admit_exits past id h s : exits_seen past s -> exits_seen past (welcome stalls server_version id h s).
Proof using.
  intros He id' l. destruct (admit_run id h s) as (_ & _ & _ & Hc).
  destruct Hc as [->|(user & token & o & n & c & ->)]; [apply He|].
  rewrite lookup_insert_Some. intros [[_ <-]|[_ H]]; [done|by apply He].
Qed.
Lemma put_exits past id w l l' s :
  sys_sessions s !! id = Some l -> (l_conn l' = l_conn l \/ existsb (exit_of id) past = true) ->
  exits_seen past s -> exits_seen past (put id w l' s).
Proof using.
  intros Hl Hc He id' l0. unfold put. cbn. rewrite lookup_insert_Some.
  intros [[<- <-]|[_ H]]; [|by apply He]. destruct Hc as [->|Hc]; [by apply He|done].
Qed.
Lemma put_live past id w l l' s x :
  sys_sessions s !! id = Some l -> l_handle l' = l_handle l -> l_conn l' = l_conn l ->
  live past s x -> live past (put id w l' s) x.
Proof using.
  intros Hl Hh Hc (l0 & H0 & Hx & Hx'). unfold live, put. cbn. destruct (decide (id = sh_session_id x)) as [->|Hne].
  - rewrite lookup_insert_eq. exists l'. rewrite Hl in H0. injection H0 as ->. rewrite Hc. split_and!; [done|congruence|done].
  - rewrite lookup_insert_ne by done. eauto.
Qed.
Lemma self_accepted id l s :
  ids_ok s -> sys_sessions s !! id = Some l -> accepted s (l_handle l).
Proof using. intros [Hs _] Hl. exists l. split; [|done]. by destruct (Hs id l Hl) as [_ ->]. Qed.
(** ** Any interleaving *)
Definition own_calls (hd : SessionHandle) (p : Proc W Reply) : Prop :=
  all_ops (fun _ op => forall S : SessionHandle -> Prop, S hd -> forall w, relay_ok S w -> relay_ok S (op w).2) p.
Definition interleaved_ok s : Prop :=
  relay_ok (accepted s) (sys_world s) /\ ids_ok s /\
  (forall id l p, sys_sessions s !! id = Some l -> l_task l = Some p -> own_calls (l_handle l) p) /\
  (forall id p, sys_pending s !! id = Some p -> all_ops keeping p).
Lemma put_interleaved id w l l' s :
  interleaved_ok s -> sys_sessions s !! id = Some l -> l_handle l' = l_handle l -> l_user l' = l_user l ->
  relay_ok (accepted s) w -> (forall p, l_task l' = Some p -> own_calls (l_handle l) p) ->
  interleaved_ok (put id w l' s).
Proof using.
  intros (_ & Hs & Ht & Hg) Hl Hh Hu Hw Hp. split_and!.
  - eapply relay_ok_mono; [|exact Hw]. intros x. by apply (put_accepted id w l).
  - by apply (put_ids id w l).
  - intros id' l0 p. unfold put. cbn. rewrite lookup_insert_Some. intros [[<- <-]|[_ H]] Hp'; [|by eapply Ht].
    rewrite Hh. auto.
  - exact Hg.
Qed.
Lemma connect_interleaved preamble hello s : interleaved_ok s -> interleaved_ok (connect preamble hello s).
Proof using SessionLaws0 GateTaskLaws0.
  intros (Hw & Hs & Ht & Hg). split_and!; [exact Hw|by apply connect_ids|exact Ht|].
  intros id p. unfold connect. cbn. rewrite lookup_insert_Some. intros [[<- <-]|[_ H]]; [|by eapply Hg].
  apply handshake_keeps.
Qed.
Lemma greet_interleaved id w p p' s :
  interleaved_ok s -> sys_pending s !! id = Some p -> relay_ok (accepted s) w -> all_ops keeping p' ->
  interleaved_ok (greet id w p' s).
Proof using.
  intros (_ & Hs & Ht & Hg) Hid Hw Hp. split_and!; [exact Hw|by eapply greet_ids|exact Ht|].
  intros id' p0. unfold greet. cbn. rewrite lookup_insert_Some. intros [[<- <-]|[_ H]]; [done|by eapply Hg].
Qed.
Lemma admit_interleaved id p h s :
  interleaved_ok s -> sys_pending s !! id = Some p -> interleaved_ok (welcome stalls server_version id h s).
Proof using.
  intros (Hw & Hs & Ht & Hg) Hid. destruct (proj2 Hs id p Hid) as [Hlt Hn].
  pose proof (admit_ids id h s Hlt Hn Hs) as Hs'. pose proof (admit_accepted id h s) as Hacc.
  destruct (admit_run id h s) as (Ew & _ & Ep & Hc). set (s' := welcome _ _ _ _ _) in *.
  split_and!; [|done|..].
  - rewrite Ew. eapply relay_ok_mono; [|exact Hw]. auto.
  - intros id' l q. destruct Hc as [->|(user & token & o & n & c & ->)]; [apply Ht|].
    rewrite lookup_insert_Some. intros [[<- <-]|[_ H]]; [done|by eapply Ht].
  - intros id' q. rewrite Ep. intros [_ H]%lookup_delete_Some. by eapply Hg.
Qed.
Lemma leave_routes (id : Z) r :
  router_wf r -> fewer_routes r (remove_session id r) /\
  routes_in (fun x => sh_session_id x <> id) (remove_session id r).
Proof using.
  intros Hw. pose proof (remove_session_abs id r Hw) as Habs. unfold abs in Habs. cbn in Habs.
  injection Habs as Eh Ep. unfold fewer_routes, routes_in. rewrite Eh, Ep. split.
  - split; apply map_filter_subseteq.
  - split; intros k x [_ Hx]%map_lookup_filter_Some; exact Hx.
Qed.
Lemma leave_relay (S : SessionHandle -> Prop) (id : Z) w :
  relay_ok S w -> relay_ok (fun x => S x /\ sh_session_id x <> id) (with_router (remove_session id (router_of w)) w).
Proof using SessionLaws0 GateTaskLaws0.
  intros (Hi & Hw & Hr). destruct (leave_routes id _ Hw) as [F [H1 H2]].
  pose proof (routes_in_fewer _ _ _ F Hr) as [H3 H4].
  split_and!; [by apply with_router_law|rewrite router_with; by apply remove_session_wf|].
  rewrite router_with. split; eauto.
Qed.
Lemma move_interleaved (m : Move) s s' : interleaved_ok s -> move m s = Some s' -> interleaved_ok s'.
Proof using SessionLaws0 GateTaskLaws0.
  intros Hok. pose proof Hok as (Hw & Hs & Ht & Hg).
  destruct m as [pre hello|id|id|id ev|id|id|id]; cbn [System.move].
  - intros [= <-]. by apply connect_interleaved.
  - intros (p & Hp & H)%bind_Some. destruct p as [|X op k]; [done|]. destruct (Hg id _ Hp) as [Hop Hk].
    specialize (Hop (accepted s) (sys_world s) Hw). destruct (op (sys_world s)) as [x w1]. injection H as <-.
    by apply (greet_interleaved _ _ (Atom op k)); [| | |apply Hk].
  - intros (p & Hp & H)%bind_Some. destruct p as [h|]; [|done]. injection H as <-. by eapply admit_interleaved.
  - intros (l & Hl & H)%bind_Some. destruct (l_task l); [done|]. destruct (l_ctrl l); [|done]. injection H as <-.
    apply (put_interleaved _ _ l); try done. intros p [= <-]. apply event_keeps.
  - intros (l & Hl & H)%bind_Some. destruct (l_task l) as [[|X op k]|] eqn:Et; try done.
    destruct (Ht id l _ Hl Et) as [Hop Hk].
    specialize (Hop (accepted s) (self_accepted id l s Hs Hl) (sys_world s) Hw).
    destruct (op (sys_world s)) as [x w1]. injection H as <-. apply (put_interleaved _ _ l); try done.
    intros p [= <-]. apply Hk.
  - intros (l & Hl & H)%bind_Some. destruct (l_task l) as [[r|]|] eqn:Et; try done.
    destruct (finish _ _ _) as [n x]. injection H as <-. by apply (put_interleaved _ _ l).
  - intros (l & Hl & H)%bind_Some. destruct (l_conn l); [|done]. injection H as <-.
    apply (put_interleaved _ _ l); try done; [|intros p; apply (Ht id l p Hl)].
    eapply relay_ok_mono; [|by apply leave_relay]. by intros x [].
Qed.
Lemma init_ok w : auth_inv w -> router_of w = Router_new -> interleaved_ok (init w).
Proof using.
  intros Hi Hr. assert (Hn : forall id l, sys_sessions (init w) !! id <> Some l) by (intros id l; cbn; by rewrite lookup_empty).
  split_and!; [|split|by intros id l p ?%Hn|by intros id p; cbn; rewrite lookup_empty].
  2: by intros id l ?%Hn. 2: by intros id p; cbn; rewrite lookup_empty.
  split; [done|]. cbn. rewrite Hr. split; [apply Router_new_wf|]. by split.
Qed.
Lemma moves_interleaved (ms : list Move) s s' : interleaved_ok s -> moves ms s = Some s' -> interleaved_ok s'.
Proof using SessionLaws0 GateTaskLaws0.
  revert s. induction ms as [|m ms IH]; intros s Hs; cbn [System.moves].
  - by intros [= <-].
  - intros (s1 & H1 & H2)%bind_Some. apply (IH s1); [|done]. by eapply move_interleaved.
Qed.

(** C6 However the sessions' calls interleave (claims, releases, re-validations,
    listings and handshakes cut at every lock, the license gate's included, with
    exits in between), the registry's
    invariant and the routing table's indexes hold, and every hostname and port is
    routed to the handle of a session that was accepted, under the user its
    handshake authenticated: a visitor's stream never reaches a session under a
    wrong identity or one that never existed. *)
Theorem any_interleaving_sound (ms : list Move) w s :
  auth_inv w -> router_of w = Router_new -> moves ms (init w) = Some s ->
  auth_inv (sys_world s) /\ router_wf (router_of (sys_world s)) /\
  (forall h x, lookup_http (router_of (sys_world s)) h = Some x ->
     exists l, sys_sessions s !! sh_session_id x = Some l /\
       l_handle l = x /\ sh_user_id x = user_id (l_user l)) /\
  (forall p x, lookup_tcp (router_of (sys_world s)) p = Some x ->
     exists l, sys_sessions s !! sh_session_id x = Some l /\
       l_handle l = x /\ sh_user_id x = user_id (l_user l)).
Proof using SessionLaws0 GateTaskLaws0.
  intros Hi Hr Hm. destruct (moves_interleaved ms _ s (init_ok w Hi Hr) Hm) as ((H1 & H2 & H3 & H4) & [Hs _] & _).
  assert (Hid : forall x, accepted s x -> exists l, sys_sessions s !! sh_session_id x = Some l /\
    l_handle l = x /\ sh_user_id x = user_id (l_user l)).
  { intros x (l & Hl & Hx). exists l. split_and!; [done|done|]. destruct (Hs _ _ Hl) as [_ Hh].
    rewrite <- Hx, Hh. done. }
  split_and!; [done|done|intros h x Hx; eapply Hid, H3, Hx|intros p x Hx; eapply Hid, H4, Hx].
Qed.

(** ** Events handled at once *)
Definition served_ok (past : list AtomicMove) s : Prop :=
  relay_ok (live past s) (sys_world s) /\ routes_owned (sys_world s) /\ ids_ok s /\ exits_seen past s.
Lemma served_snoc past m s : served_ok past s -> served_ok (past ++ [m]) s.
Proof using.
  intros (H1 & H2 & H3 & H4). split_and!; [|done|done|].
  - eapply relay_ok_mono; [|exact H1]. intros x. apply live_snoc.
  - intros id l Hl Hc. by eapply exited_snoc, H4.
Qed.
Lemma run_keeps {A : Type} (S : SessionHandle -> Prop) (p : Proc W A) w :
  all_ops (fun _ op => forall w, relay_ok S w -> relay_ok S (op w).2) p -> relay_ok S w -> relay_ok S (run p w).2.
Proof using.
  revert w. induction p as [a|X op k IH]; intros w; cbn; [done|]. intros [H1 H2] Hw.
  specialize (H1 w Hw). destruct (op w) as [x w1]. by apply IH.
Qed.
Lemma finish_world r (x : Sess W) : world (finish stalls r x).2 = world x.
Proof using. unfold finish, push. repeat case_match; by simplify_eq. Qed.
Lemma ctrl_step_keeps (S : SessionHandle -> Prop) hd user token ev (x : Sess W) :
  S hd -> relay_ok S (world x) -> relay_ok S (world (ctrl_step stalls debug_resource on hd user token ev x).2).
Proof using SessionLaws0 GateTaskLaws0.
  intros Hs Hw. rewrite run_event.
  pose proof (run_keeps S (event_p hd user token ev) (world x)) as Hr.
  destruct (run (event_p hd user token ev) (world x)) as [r w1]. rewrite finish_world. cbn. apply Hr; [|done].
  pose proof (event_keeps hd user token ev) as He. revert He.
  generalize (event_p hd user token ev). clear -Hs. intros p. induction p as [a|X op k IH]; cbn; [done|].
  intros [H1 H2]. split; [intros w; by apply H1|]. auto.
Qed.
Lemma routes_owned_fewer w r :
  auth_inv w -> fewer_routes (router_of w) r -> routes_owned w -> routes_owned (with_router r w).
Proof using SessionLaws0 GateTaskLaws0.
  intros Hi [F1 F2] [H1 H2]. destruct (with_router_law r w Hi) as (_ & (O1 & O2 & _) & _).
  split; rewrite router_with; intros k x Hx.
  - rewrite O1. apply H1. by eapply map_subseteq_spec.
  - rewrite O2. apply H2. by eapply map_subseteq_spec.
Qed.
Lemma handshake_served S preamble hello w :
  relay_ok S w -> routes_owned w ->
  relay_ok S (handshake preamble hello w).2 /\ routes_owned (handshake preamble hello w).2.
Proof using SessionLaws0 GateTaskLaws0.
  intros Hw Ho. split.
  - rewrite <- run_handshake. apply run_keeps; [|done].
    eapply all_ops_mono; [|apply handshake_keeps]. intros X op H. apply H.
  - unfold handshake. destruct preamble as [|[]]; try done. destruct hello as [|[[]|]]; try done.
    destruct (negotiate _ _); [|done].
    pose proof (authenticate_any_safe (expose token) w (conj (proj1 Hw) Ho)) as [_ Hr].
    by destruct (authenticate_any (expose token) w) as [[u|] w1].
Qed.
Lemma connect_served past preamble hello s s' :
  served_ok past s -> amove (AConnect preamble hello) s = Some s' -> served_ok past s'.
Proof using SessionLaws0 GateTaskLaws0.
  intros (Hw & Ho & Hs & He). cbn [System.amove].
  destruct (handshake_served (live past s) preamble hello (sys_world s) Hw Ho) as [Hw' Ho'].
  destruct (handshake preamble hello (sys_world s)) as [h w1]. cbn [snd] in *. intros [= <-].
  set (s1 := mkSystem w1 (sys_sessions s) (sys_pending s) (sys_next s + 1)).
  assert (Hn : sys_sessions s1 !! sys_next s = None).
  { cbn. destruct (sys_sessions s !! sys_next s) as [l|] eqn:El; [|done]. destruct (proj1 Hs _ _ El). lia. }
  assert (Hs1 : ids_ok s1).
  { destruct Hs as [Hs Hp]. split; intros id; cbn.
    - intros l Hl. destruct (Hs id l Hl). split; [lia|done].
    - intros p Hid. destruct (Hp id p Hid). split; [lia|done]. }
  split_and!; [| |apply admit_ids; [cbn; lia|done|done]|by apply admit_exits].
  - eapply relay_ok_mono; [|exact Hw']. intros x Hx. by apply admit_live.
  - exact Ho'.
Qed.
(** A session that takes up an event is live afterwards, or the event is late. *)
Lemma event_live past id l ev s :
  ids_ok s -> exits_seen past s -> sys_sessions s !! id = Some l -> live (past ++ [AEvent id ev]) s (l_handle l).
Proof using.
  intros [Hs _] He Hl. destruct (Hs id l Hl) as [_ Hh]. exists l. rewrite Hh. cbn. split_and!; [done|done|].
  destruct (l_conn l) eqn:Hc; [by left|right]. by eapply late_after_exit, He.
Qed.
Lemma event_served past id ev s s' :
  served_ok past s -> amove (AEvent id ev) s = Some s' -> served_ok (past ++ [AEvent id ev]) s'.
Proof using SessionLaws0 GateTaskLaws0.
  intros Hok. pose proof Hok as (_ & _ & _ & He0). apply (served_snoc past (AEvent id ev)) in Hok as (Hw & Ho & Hs & He).
  cbn [System.amove]. intros (l & Hl & H)%bind_Some. destruct (l_task l); [done|]. destruct (l_ctrl l); [|done].
  pose proof (event_live past id l ev s Hs He0 Hl) as Hlive. destruct (proj1 Hs id l Hl) as [_ Hh].
  pose proof (ctrl_step_keeps (live (past ++ [AEvent id ev]) s) (l_handle l) (l_user l) (l_token l) ev
    (sess_of (sys_world s) l) Hlive Hw) as H1.
  pose proof (ctrl_step_safe stalls debug_resource on (l_handle l) (l_user l) (l_token l) ev
    (sess_of (sys_world s) l)) as H2.
  destruct (ctrl_step _ _ _ _ _ _ _ _) as [n x]. injection H as <-. cbn [snd] in *. split_and!.
  - eapply relay_ok_mono; [intros y; by apply (put_live _ id (world x) l)|done].
  - apply H2; [by rewrite Hh|]. split; [apply Hw|done].
  - by apply (put_ids id _ l).
  - apply (put_exits _ id _ l); [done|by left|done].
Qed.
Lemma exit_served past id s s' :
  served_ok past s -> amove (AExit id) s = Some s' -> served_ok (past ++ [AExit id]) s'.
Proof using SessionLaws0 GateTaskLaws0.
  intros Hok. apply (served_snoc past (AExit id)) in Hok as (Hw & Ho & Hs & He). cbn [System.amove].
  intros (l & Hl & H)%bind_Some. destruct (l_task l); [done|]. destruct (l_conn l); [|done]. injection H as <-.
  split_and!; [| |by apply (put_ids id _ l)|].
  - eapply relay_ok_mono; [|by apply leave_relay]. intros x [(l0 & H0 & Hx & Hc) Hne]. exists l0.
    unfold leave, put. cbn. by rewrite lookup_insert_ne.
  - apply routes_owned_fewer; [apply Hw|apply leave_routes, Hw|done].
  - apply (put_exits _ id _ l); [done| |done]. right. rewrite existsb_app. cbn. by rewrite Z.eqb_refl, orb_true_r.
Qed.
Lemma amove_served past (m : AtomicMove) s s' : served_ok past s -> amove m s = Some s' -> served_ok (past ++ [m]) s'.
Proof using SessionLaws0 GateTaskLaws0.
  intros Hok H. destruct m as [pre hello|id ev|id].
  - apply served_snoc. by eapply connect_served.
  - by eapply event_served.
  - by eapply exit_served.
Qed.
Lemma amoves_served past (ms : list AtomicMove) s s' :
  served_ok past s -> amoves ms s = Some s' -> served_ok (past ++ ms) s'.
Proof using SessionLaws0 GateTaskLaws0.
  revert past s. induction ms as [|m ms IH]; intros past s Hs; cbn [System.amoves].
  - intros [= <-]. by rewrite app_nil_r.
  - intros (s1 & H1 & H2)%bind_Some. rewrite cons_middle, app_assoc. apply (IH _ s1); [|done]. by eapply amove_served.
Qed.

(** C2 With every event handled at once, a visitor always reaches the owner: in every
    run of the relay from an empty routing table, with any number of daemons
    connecting, claiming, releasing, being re-validated, pruned and leaving, each
    routed hostname and port leads to a session the relay accepted and whose
    authenticated user owns that name or port at that moment; and that session's
    connection is still up, unless the session took up an event after its actor
    had exited (which nothing in the code prevents: [late_event_leaks_route]). *)
Theorem served_by_live_owner (ms : list AtomicMove) w s :
  auth_inv w -> router_of w = Router_new -> amoves ms (init w) = Some s ->
  (forall h x, lookup_http (router_of (sys_world s)) h = Some x ->
     exists l, sys_sessions s !! sh_session_id x = Some l /\ l_handle l = x /\
       host_owner (sys_world s) h = Some (user_id (l_user l)) /\
       (late (sh_session_id x) ms = false -> l_conn l = true)) /\
  (forall p x, lookup_tcp (router_of (sys_world s)) p = Some x ->
     exists l, sys_sessions s !! sh_session_id x = Some l /\ l_handle l = x /\
       port_owner (sys_world s) p = Some (user_id (l_user l)) /\
       (late (sh_session_id x) ms = false -> l_conn l = true)).
Proof using SessionLaws0 GateTaskLaws0.
  intros Hi Hr Hm. assert (H0 : served_ok [] (init w)).
  { split_and!.
    - split; [done|]. cbn. rewrite Hr. split; [apply Router_new_wf|]. by split.
    - split; cbn; rewrite Hr; done.
    - split; intros id x; cbn; by rewrite lookup_empty.
    - intros id l. cbn. by rewrite lookup_empty. }
  destruct (amoves_served [] ms _ s H0 Hm) as ((_ & _ & H1 & H2) & [O1 O2] & [Hs _] & _).
  assert (Hid : forall x, live ms s x -> exists l, sys_sessions s !! sh_session_id x = Some l /\ l_handle l = x /\
    sh_user_id x = user_id (l_user l) /\ (late (sh_session_id x) ms = false -> l_conn l = true)).
  { intros x (l & Hl & Hx & Hc). exists l. split_and!; [done..| |].
    - destruct (Hs _ _ Hl) as [_ Hh]. by rewrite <- Hx, Hh.
    - intros Hn. destruct Hc as [Hc|Hc]; [done|congruence]. }
  split; intros k x Hx.
  - destruct (Hid x (H1 k x Hx)) as (l & ? & ? & Hu & ?). exists l. rewrite <- Hu. split_and!; [done|done|by apply O1|done].
  - destruct (Hid x (H2 k x Hx)) as (l & ? & ? & Hu & ?). exists l. rewrite <- Hu. split_and!; [done|done|by apply O2|done].
Qed.
End system.
