(* ===== verification/SystemRely.v ===== *)
(** * A user who never releases is never misrouted (crates/relay/src/session.rs)

    Claims check ownership and route in separate calls, so what they checked may
    be gone when they route.  By rely and guarantee: nobody but a user's own
    sessions (or the license gate) takes a name from the user, so the sessions of
    a user that only claim are safe in every interleaving, whatever the sessions
    of other users do. *)
From S2P Require Import Prelude Limits Frames Codec Router Auth Polar Session SessionProps Interleave System SystemTasks SystemProps.
Local Open Scope Z_scope.

(** The gate is installed once, before the relay serves. *)
Class GateFixed (W : Type) `{!SessionWorld W, !GateTasks W} : Prop := {
  gate_calls : forall uid, calls_ok uid (fun _ (op : W -> _ * W) => forall w, gate_installed (op w).2 = gate_installed w);
  gate_releases : forall uid, releases_ok uid (fun _ (op : W -> _ * W) => forall w, gate_installed (op w).2 = gate_installed w);
  gate_router : forall r w, gate_installed (with_router r w) = gate_installed w;
}.

Section rely.
Context {W : Type} `{!SessionWorld W, !GateTasks W, !OwnerView W, !SessionLaws W, !GateTaskLaws W, !GateFixed W}.
Context (stalls : nat -> bool) (debug_resource : Resource -> string) (server_version : string) (on : bool).
Context (u : Z).
Local Abbreviation moves := (moves stalls debug_resource server_version on).
Local Abbreviation move := (move stalls debug_resource server_version on).
Local Abbreviation event_p := (event_p debug_resource on).
Implicit Types (w : W) (s : System W) (l : Live W).

(** Every route to a session of [u] is for a name or a port [u] owns. *)
Definition user_routes w : Prop :=
  (forall h x, http (router_of w) !! h = Some x -> sh_user_id x = u -> host_owner w h = Some u) /\
  (forall p x, tcp (router_of w) !! p = Some x -> sh_user_id x = u -> port_owner w p = Some u).
Definition user_ok w : Prop :=
  auth_inv w /\ router_wf (router_of w) /\ gate_installed w = false /\ user_routes w.
(** Nothing is taken from [u]. *)
Definition keeps_names w w' : Prop :=
  (forall h, host_owner w h = Some u -> host_owner w' h = Some u) /\
  (forall p, port_owner w p = Some u -> port_owner w' p = Some u).
#[export] Instance keeps_names_preorder : PreOrder keeps_names.
Proof using. split; [by intros w|]. intros w1 w2 w3 [A1 A2] [B1 B2]. split; auto. Qed.

Lemma same_keeps w w' : same_owners w w' -> keeps_names w w'.
Proof using. intros (H1 & H2 & _). split; intros k; by rewrite ?H1, ?H2. Qed.
(** A call that leaves the routes alone. *)
Lemma user_ok_names w w' :
  auth_inv w' -> router_of w' = router_of w -> gate_installed w' = gate_installed w -> keeps_names w w' ->
  user_ok w -> user_ok w' /\ keeps_names w w'.
Proof using.
  intros Hi Hr Hg Hk (_ & H2 & H3 & H4 & H5). split; [|done]. unfold user_ok, user_routes. rewrite Hr, Hg.
  destruct Hk as [K1 K2]. split_and!; eauto.
Qed.
Lemma user_ok_frame w w' :
  auth_inv w' -> frame w w' -> gate_installed w' = gate_installed w -> same_owners w w' ->
  user_ok w -> user_ok w' /\ keeps_names w w'.
Proof using. intros Hi [Hr _] Hg Hs. apply user_ok_names; auto. by apply same_keeps. Qed.
Lemma user_ok_fewer r w :
  router_wf r -> fewer_routes (router_of w) r -> user_ok w ->
  user_ok (with_router r w) /\ keeps_names w (with_router r w).
Proof using SessionLaws0 GateTaskLaws0 GateFixed0.
  intros Hw [F1 F2] (Hi & _ & Hg & H1 & H2). destruct (with_router_law r w Hi) as (Hi' & Hs & _).
  split; [|by apply same_keeps]. destruct Hs as (O1 & O2 & _).
  split; [done|]. rewrite router_with. split; [done|]. split; [by rewrite gate_router|].
  split; rewrite router_with; intros k x Hx.
  - rewrite O1. apply (H1 k). by eapply map_subseteq_spec.
  - rewrite O2. apply (H2 k). by eapply map_subseteq_spec.
Qed.

Definition harmless (X : Type) (op : W -> X * W) : Prop :=
  forall w, user_ok w -> user_ok (op w).2 /\ keeps_names w (op w).2.
Lemma quiet_harmless {A : Type} (p : Proc W A) :
  all_ops (fun _ op => forall w, auth_inv w -> quiet w (op w).2) p ->
  all_ops (fun _ (op : W -> _ * W) => forall w, gate_installed (op w).2 = gate_installed w) p -> all_ops harmless p.
Proof using.
  induction p as [a|X op k IH]; cbn; [done|]. intros [Hq Hq'] [Hg Hg']. split; [|by auto].
  intros w Hw. destruct (Hq w (proj1 Hw)) as (H1 & H2 & H3). by apply user_ok_frame.
Qed.
Lemma calls_harmless (uid : Z) : calls_ok uid harmless.
Proof using SessionLaws0 GateTaskLaws0 GateFixed0.
  pose proof (gate_calls uid) as HG. split; unfold harmless; intros;
    try match goal with H : user_ok _ |- _ => pose proof H as (Hi & Hw & Hg & Hr) end.
  - by split.
  - apply user_ok_frame; [by apply authenticate_law|apply authenticate_frame|apply HG|by apply authenticate_law|done].
  - apply user_ok_frame; [by apply owns_hostname_law|apply owns_hostname_frame|apply HG|by apply owns_hostname_law|done].
  - apply user_ok_frame; [by apply owns_port_law|apply owns_port_frame|apply HG|by apply owns_port_law|done].
  - destruct (bind_port_law p w Hi) as (H1 & H2 & H3 & _). apply user_ok_names; auto; [apply HG|by apply same_keeps].
  - apply quiet_harmless; [apply activate_quiet|apply HG].
  - apply user_ok_frame; auto; try apply HG; by apply gate_cap_law.
  - apply quiet_harmless; [apply deactivate_quiet|apply HG].
  - apply user_ok_frame; auto; try apply HG; by apply notify_law.
  - apply user_ok_frame; [by apply owned_hostnames_law|apply owned_hostnames_frame|apply HG|by apply owned_hostnames_law|done].
  - apply user_ok_frame; [by apply owned_ports_law|apply owned_ports_frame|apply HG|by apply owned_ports_law|done].
  - unfold commit_evict. pose proof (evict_routes_wf hs ps (router_of w) Hw) as H1.
    pose proof (evict_fewer hs ps (router_of w)) as H2.
    destruct (evict_routes hs ps (router_of w)) as [r' ev]. by apply user_ok_fewer.
  - pose proof (claim_hostname_law uid h cap w Hi) as [I1 L1]. pose proof (claim_hostname_frame uid h cap w) as [F1 _].
    apply user_ok_names; auto; [apply (c_claim_hostname _ _ HG)|].
    destruct (claim_hostname uid h cap w) as [[] w1]; cbn [fst snd] in *; try by apply same_keeps.
    destruct L1 as [P1 [[_ Hs]|(Hn & Ho & _)]]; [by apply same_keeps|]. split; intros k; [|by rewrite P1].
    rewrite Ho. intros Hk. rewrite decide_False; [done|]. congruence.
Qed.
(** Only the owner's release takes a name away. *)
Lemma releases_harmless (uid : Z) : uid <> u -> releases_ok uid harmless.
Proof using SessionLaws0 GateTaskLaws0 GateFixed0.
  intros Hne. pose proof (gate_releases uid) as HG. split; intros k w Hok; pose proof Hok as (Hi & _).
  - pose proof (release_hostname_law uid k w Hi) as (I1 & P1 & _ & L1).
    pose proof (release_hostname_frame uid k w) as [F1 _]. apply user_ok_names; auto; [apply HG|].
    destruct (release_hostname uid k w) as [[] w1]; cbn [fst snd] in *; split; intros j; rewrite ?P1; try done.
    + destruct L1 as [Lo Lall]. rewrite Lall. intros Hj. rewrite decide_False; [done|]. congruence.
    + by rewrite L1.
  - pose proof (release_port_law uid k w Hi) as (I1 & P1 & _ & L1).
    pose proof (release_port_frame uid k w) as [F1 _]. apply user_ok_names; auto; [apply HG|].
    destruct (release_port uid k w) as [[] w1]; cbn [fst snd] in *; split; intros j; rewrite ?P1; try done.
    + destruct L1 as [Lo Lall]. rewrite Lall. intros Hj. rewrite decide_False; [done|]. congruence.
    + by rewrite L1.
Qed.
(** A claim routes to its own user only. *)
Lemma commit_user_ok hd hosts ports w :
  (sh_user_id hd = u -> (forall h, h ∈ hosts -> host_owner w h = Some u) /\
                        (forall p, p ∈ ports -> port_owner w p = Some u)) ->
  user_ok w -> user_ok (commit_claim hd hosts ports w).2 /\ keeps_names w (commit_claim hd hosts ports w).2.
Proof using SessionLaws0 GateTaskLaws0 GateFixed0.
  intros Hown (Hi & Hw & Hg & H1 & H2). unfold commit_claim.
  pose proof (claim_wf hd hosts ports (router_of w) Hw) as Hwf.
  destruct (claim_lookup hd hosts ports (router_of w)) as [L1 L2].
  destruct (claim hd hosts ports (router_of w)) as [r' sup]. cbn [fst snd] in *.
  destruct (with_router_law r' w Hi) as (Hi' & Hs & _). split; [|by apply same_keeps].
  destruct Hs as (O1 & O2 & _). split; [done|]. rewrite router_with. split; [done|]. split; [by rewrite gate_router|].
  split; rewrite router_with; intros k x.
  - rewrite L1, O1. case_decide; [intros [= <-] Hu; by apply Hown|apply H1].
  - rewrite L2, O2. case_decide; [intros [= <-] Hu; by apply Hown|apply H2].
Qed.

(** ** The claims of [u] *)
Local Abbreviation rgu := (rg user_ok keeps_names keeps_names).
Definition hosts_held (hosts : list string) w : Prop := forall h, h ∈ hosts -> host_owner w h = Some u.
Definition ports_held (ports : list Z) w : Prop := forall p, p ∈ ports -> port_owner w p = Some u.
Lemma hosts_held_keeps hosts w w' : keeps_names w w' -> hosts_held hosts w -> hosts_held hosts w'.
Proof using. intros [K _] H h Hh. auto. Qed.
Lemma ports_held_keeps ports w w' : keeps_names w w' -> ports_held ports w -> ports_held ports w'.
Proof using. intros [_ K] H p Hp. auto. Qed.
Lemma calls_rg {A : Type} (p : Proc W A) w : all_ops harmless p -> rgu (fun _ _ => True) p w.
Proof using. apply rg_all_ops. Qed.

Lemma check_ports_rg tcp user ports w :
  user_id user = u -> rgu (fun r w1 => r = Ok () -> ports_held ports w1) (check_ports_p tcp user ports) w.
Proof using SessionLaws0 GateTaskLaws0 GateFixed0.
  intros Hu. revert w. induction ports as [|p ports IH]; intros w; cbn [check_ports_p].
  { intros _ p Hp. by apply elem_of_nil in Hp. }
  destruct tcp as [m|]; [|done]. cbv zeta. destruct (in_range m p); cbn [negb]; [|done].
  apply rg_atom; intros w1 _ Hw1; [by apply (calls_harmless 0)|].
  destruct (owns_port_law (user_id user) p w1 (proj1 Hw1)) as (_ & (_ & O1 & _) & Hown).
  destruct (owns_port (user_id user) p w1) as [[] w2]; cbn [fst snd negb] in *; [|done].
  assert (Hp2 : port_owner w2 p = Some u) by (rewrite O1, <- Hu; auto).
  apply rg_atom; intros w3 [_ K3] Hw3; [by apply (calls_harmless 0)|].
  destruct (c_bind_port _ _ (calls_harmless 0) p w3 Hw3) as [_ [_ K4]].
  destruct (bind_port p w3) as [[[]|e] w4]; cbn [fst snd] in *; [|done].
  eapply rg_mono; [|apply (rg_frame _ _ _ (ports_held [p])); [..|apply (IH w4)]].
  - intros r w5 [H1 H2] Hr q [->|Hq]%elem_of_cons; [apply H2; by constructor|]. by apply H1.
  - intros x y. apply ports_held_keeps.
  - intros x y. apply ports_held_keeps.
  - intros q ->%list_elem_of_singleton. auto.
Qed.
Lemma claim_hosts_rg user cap hosts w :
  user_id user = u -> rgu (fun r w1 => r = Ok () -> hosts_held hosts w1) (claim_hosts_p user cap hosts) w.
Proof using SessionLaws0 GateTaskLaws0 GateFixed0.
  intros Hu. revert w. induction hosts as [|h hosts IH]; intros w; cbn [claim_hosts_p].
  { intros _ h Hh. by apply elem_of_nil in Hh. }
  apply rg_atom; intros w1 _ Hw1; [by apply (calls_harmless (user_id user))|].
  pose proof (claim_hostname_law (user_id user) h cap w1 (proj1 Hw1)) as [_ L1].
  destruct (claim_hostname (user_id user) h cap w1) as [[] w2]; cbn [fst snd] in *; try done.
  assert (Hh2 : host_owner w2 h = Some u).
  { rewrite Hu in L1. destruct L1 as [_ [[Ho (S1 & _)]|(_ & Ho & _)]]; [by rewrite S1|]. by rewrite Ho, decide_True. }
  eapply rg_mono; [|apply (rg_frame _ _ _ (hosts_held [h])); [..|apply (IH w2)]].
  - intros r w5 [H1 H2] Hr q [->|Hq]%elem_of_cons; [apply H2; by constructor|]. by apply H1.
  - intros x y. apply hosts_held_keeps.
  - intros x y. apply hosts_held_keeps.
  - intros q ->%list_elem_of_singleton. done.
Qed.
Lemma claim_rg hd user token hs ps w :
  user_id user = u -> rgu (fun _ _ => True) (claim_p hd user token hs ps) w.
Proof using SessionLaws0 GateTaskLaws0 GateFixed0.
  intros Hu. unfold claim_p. destruct (decide _); [done|]. cbv zeta.
  apply rg_atom; intros w1 _ Hw1; [by apply (calls_harmless 0)|].
  eapply rg_bind; [by apply check_ports_rg|]. intros [[]|[c m]] w2 Hp; [|done]. specialize (Hp eq_refl).
  eapply rg_bind; [apply (rg_frame _ _ _ (ports_held ps)); [intros x y; apply ports_held_keeps..|exact Hp|
    apply calls_rg, (cap_calls (user_id user)), calls_harmless]|].
  intros [cap|[c m]] w3 [_ Hp3]; [|done].
  eapply rg_bind; [apply (rg_frame _ _ _ (ports_held ps)); [intros x y; apply ports_held_keeps..|exact Hp3|
    by apply claim_hosts_rg]|].
  intros [[]|[c m]] w4 [Hh Hp4]; [|done]. specialize (Hh eq_refl).
  apply rg_atom; intros w5 K5 Hw5.
  - apply commit_user_ok; [|done]. intros _. split; [by eapply hosts_held_keeps|by eapply ports_held_keeps].
  - apply calls_rg, all_ops_bind; [|done]. apply (notify_calls (user_id user)), calls_harmless.
Qed.

(** ** Without a gate, authentication is by token *)
Lemma authenticate_rg (token : string) w : rgu (fun _ _ => True) (authenticate_any_p token) w.
Proof using SessionLaws0 GateTaskLaws0 GateFixed0.
  unfold authenticate_any_p. apply rg_atom; intros w1 _ Hw1; [by apply (calls_harmless 0)|].
  destruct (authenticate token w1).1; [done|].
  apply rg_atom; intros w2 _ Hw2; [done|]. cbn [reads fst snd]. destruct Hw2 as (_ & _ & -> & _). done.
Qed.
Lemma revalidate_rg sid user token w : rgu (fun _ _ => True) (revalidate_p debug_resource sid user token) w.
Proof using SessionLaws0 GateTaskLaws0 GateFixed0.
  eapply rg_bind; [apply authenticate_rg|]. intros [v|] w1 _; [|done]. destruct (decide _); [|done].
  apply calls_rg, (recheck_calls debug_resource (user_id user)), calls_harmless.
Qed.
Lemma handshake_rg preamble hello w : rgu (fun _ _ => True) (handshake_p preamble hello) w.
Proof using SessionLaws0 GateTaskLaws0 GateFixed0.
  unfold handshake_p. destruct preamble as [|[]]; try done. destruct hello as [|[[]|]]; try done.
  destruct (negotiate _ _); [|done]. eapply rg_bind; [apply authenticate_rg|]. by intros [] w1 _.
Qed.

(** ** Every task of the system *)
Lemma event_rg (hd : SessionHandle) user token ev w :
  sh_user_id hd = user_id user -> (is_release ev = true -> user_id user <> u) ->
  rgu (fun _ _ => True) (event_p hd user token ev) w.
Proof using SessionLaws0 GateTaskLaws0 GateFixed0.
  intros Hu Hrel. pose proof (calls_harmless (user_id user)) as HC.
  destruct (is_tick ev) eqn:Et.
  { destruct ev; try done. cbn [System.event_p]. destruct on; [apply revalidate_rg|done]. }
  destruct (decide (user_id user = u)) as [Heq|Hne].
  - destruct (is_claim ev) eqn:Ec.
    + destruct ev as [[]| | |]; try done. cbn [System.event_p frame_p]. unfold answers.
      eapply rg_bind; [by apply claim_rg|]. done.
    + apply calls_rg, (event_calls debug_resource (user_id user) harmless HC); [done| |congruence|congruence].
      intros Hr. by apply Hrel in Hr.
  - apply calls_rg, (event_calls debug_resource (user_id user) harmless HC); [done|intros _; by apply releases_harmless| |congruence].
    intros _ hosts ports w1 Hw1. apply commit_user_ok; [|done]. congruence.
Qed.
Definition rely_ok s : Prop :=
  user_ok (sys_world s) /\ ids_ok s /\
  (forall id l p, sys_sessions s !! id = Some l -> l_task l = Some p -> rgu (fun _ _ => True) p (sys_world s)) /\
  (forall id p, sys_pending s !! id = Some p -> rgu (fun _ _ => True) p (sys_world s)).
Lemma rg_moved {A : Type} (p : Proc W A) w w1 :
  keeps_names w w1 -> rgu (fun _ _ => True) p w -> rgu (fun _ _ => True) p w1.
Proof using. by apply (rg_stable _ _ _ (fun _ _ => True) p w w1). Qed.
Lemma put_rely id w l l' s :
  rely_ok s -> sys_sessions s !! id = Some l -> l_handle l' = l_handle l -> l_user l' = l_user l ->
  user_ok w -> keeps_names (sys_world s) w -> (forall p, l_task l' = Some p -> rgu (fun _ _ => True) p w) ->
  rely_ok (put id w l' s).
Proof using.
  intros (_ & Hs & Ht & Hg) Hl Hh Hu Hw Hk Hp. split_and!; [done|by apply (put_ids id w l)|..].
  - intros id' l0 p. unfold put. cbn. rewrite lookup_insert_Some. intros [[<- <-]|[_ H]] Hp'; [auto|].
    eapply rg_moved; [exact Hk|]. by eapply Ht.
  - intros id' p H. eapply rg_moved; [exact Hk|]. by eapply Hg.
Qed.
Lemma connect_rely preamble hello s : rely_ok s -> rely_ok (connect preamble hello s).
Proof using SessionLaws0 GateTaskLaws0 GateFixed0.
  intros (Hw & Hs & Ht & Hg). split_and!; [exact Hw|by apply connect_ids|exact Ht|].
  intros id p. unfold connect. cbn. rewrite lookup_insert_Some. intros [[<- <-]|[_ H]]; [|by eapply Hg].
  apply handshake_rg.
Qed.
Lemma greet_rely id w p p' s :
  rely_ok s -> sys_pending s !! id = Some p -> user_ok w -> keeps_names (sys_world s) w ->
  rgu (fun _ _ => True) p' w -> rely_ok (greet id w p' s).
Proof using.
  intros (_ & Hs & Ht & Hg) Hid Hw Hk Hp. split_and!; [done|by eapply greet_ids|..].
  - intros id' l q Hl Hq. eapply rg_moved; [exact Hk|]. by eapply Ht.
  - intros id' q. unfold greet. cbn. rewrite lookup_insert_Some. intros [[<- <-]|[_ H]]; [done|].
    eapply rg_moved; [exact Hk|]. by eapply Hg.
Qed.
Lemma admit_rely id p h s :
  rely_ok s -> sys_pending s !! id = Some p -> rely_ok (welcome stalls server_version id h s).
Proof using.
  intros (Hw & Hs & Ht & Hg) Hid. destruct (proj2 Hs id p Hid) as [Hlt Hn].
  pose proof (admit_ids stalls server_version id h s Hlt Hn Hs) as Hs'.
  destruct (admit_run stalls server_version id h s) as (Ew & _ & Ep & Hc). set (s' := welcome _ _ _ _ _) in *.
  unfold rely_ok. rewrite Ew, Ep. split_and!; [done|done|..].
  - intros id' l q. destruct Hc as [->|(user & token & o & n & c & ->)]; [apply Ht|].
    rewrite lookup_insert_Some. intros [[<- <-]|[_ H]]; [done|by eapply Ht].
  - intros id' q [_ H]%lookup_delete_Some. by eapply Hg.
Qed.
(** The move does not have a session of [u] take up a release. *)
Definition no_release (m : Move) s : bool :=
  match m with
  | Start id ev => negb (is_release ev) ||
      from_option (fun l => negb (user_id (l_user l) =? u)) true (sys_sessions s !! id)
  | _ => true
  end.
Fixpoint claim_only (ms : list Move) s : bool :=
  match ms with
  | [] => true
  | m :: rest => no_release m s && from_option (claim_only rest) true (move m s)
  end.
Lemma move_rely (m : Move) s s' : rely_ok s -> no_release m s = true -> move m s = Some s' -> rely_ok s'.
Proof using SessionLaws0 GateTaskLaws0 GateFixed0.
  intros Hok Hnr. pose proof Hok as (Hw & Hs & Ht & Hg).
  destruct m as [pre hello|id|id|id ev|id|id|id]; cbn [System.move].
  - intros [= <-]. by apply connect_rely.
  - intros (p & Hp & H)%bind_Some. destruct p as [|X op k]; [done|].
    destruct (Hg id _ Hp (sys_world s) (reflexivity _) Hw) as (H1 & H2 & H3).
    destruct (op (sys_world s)) as [x w1]. injection H as <-. by apply (greet_rely _ _ (Atom op k)).
  - intros (p & Hp & H)%bind_Some. destruct p as [h|]; [|done]. injection H as <-. by eapply admit_rely.
  - intros (l & Hl & H)%bind_Some. destruct (l_task l); [done|]. destruct (l_ctrl l); [|done]. injection H as <-.
    destruct (proj1 Hs id l Hl) as [_ Hh]. apply (put_rely _ _ l); try done. intros p [= <-].
    apply event_rg; [by rewrite Hh|]. cbn in Hnr. rewrite Hl in Hnr. cbn in Hnr. intros Hr. rewrite Hr in Hnr. cbn in Hnr.
    destruct (Z.eqb_spec (user_id (l_user l)) u); done.
  - intros (l & Hl & H)%bind_Some. destruct (l_task l) as [[|X op k]|] eqn:Et; try done.
    destruct (Ht id l _ Hl Et (sys_world s) (reflexivity _) Hw) as (H1 & H2 & H3).
    destruct (op (sys_world s)) as [x w1]. injection H as <-. apply (put_rely _ _ l); try done.
    intros p [= <-]. exact H3.
  - intros (l & Hl & H)%bind_Some. destruct (l_task l) as [[r|]|] eqn:Et; try done.
    destruct (finish _ _ _) as [n x]. injection H as <-. by apply (put_rely _ _ l).
  - intros (l & Hl & H)%bind_Some. destruct (l_conn l); [|done]. injection H as <-.
    destruct (leave_routes id (router_of (sys_world s))) as [F _]; [apply Hw|].
    destruct (user_ok_fewer (remove_session id (router_of (sys_world s))) (sys_world s)) as [H1 H2];
      [apply remove_session_wf, Hw|done|done|].
    apply (put_rely _ _ l); try done. intros p Hp. eapply rg_moved; [exact H2|]. by eapply Ht.
Qed.
Lemma moves_rely (ms : list Move) s s' : rely_ok s -> claim_only ms s = true -> moves ms s = Some s' -> rely_ok s'.
Proof using SessionLaws0 GateTaskLaws0 GateFixed0.
  revert s. induction ms as [|m ms IH]; intros s Hs; cbn [System.moves claim_only].
  - by intros _ [= <-].
  - intros [Hn Hc]%andb_prop (s1 & H1 & H2)%bind_Some. rewrite H1 in Hc. cbn in Hc.
    apply (IH s1); [|done|done]. by eapply move_rely.
Qed.

(** C7 Interleaving cannot hurt a user who does not release: on a relay without the
    license gate, in every run in which no session of user [u] takes up a
    [Release], however all sessions' calls interleave and whatever the other users
    claim and release in between, every hostname and port routed to a session of
    [u] is owned by [u]. *)
Theorem claims_race_free (ms : list Move) w s :
  auth_inv w -> router_of w = Router_new -> gate_installed w = false ->
  claim_only ms (init w) = true -> moves ms (init w) = Some s ->
  (forall h x, lookup_http (router_of (sys_world s)) h = Some x -> sh_user_id x = u ->
     host_owner (sys_world s) h = Some u) /\
  (forall p x, lookup_tcp (router_of (sys_world s)) p = Some x -> sh_user_id x = u ->
     port_owner (sys_world s) p = Some u).
Proof using SessionLaws0 GateTaskLaws0 GateFixed0.
  intros Hi Hr Hg Hc Hm. assert (H0 : rely_ok (init w)).
  { split_and!.
    - split; [done|]. cbn. unfold user_routes. rewrite Hr. split; [apply Router_new_wf|]. by split_and!.
    - split; intros id x; cbn; by rewrite lookup_empty.
    - intros id l p. cbn. by rewrite lookup_empty.
    - intros id p. cbn. by rewrite lookup_empty. }
  by destruct (moves_rely ms _ s H0 Hc Hm) as [(_ & _ & _ & H1 & H2) _].
Qed.
End rely.
