(* ===== verification/SystemBounds.v ===== *)
(** * The work one control frame can cause (crates/relay/src/session.rs)

    MAX_CLAIM_ENTRIES bounds the calls of a claim or a release, the notices to
    superseded sessions included, in every interleaving. *)
From S2P Require Import Prelude Limits Frames Codec Router Auth Polar Session SessionProps Interleave System SystemTasks SystemProps.

(** Every entry supersedes at most one session. *)
Lemma fold_length {A B C : Type} (f : A * list B -> C -> A * list B) (l : list C) (acc : A * list B) :
  (forall a c, length (f a c).2 <= S (length a.2)) -> length (foldl f acc l).2 <= length acc.2 + length l.
Proof.
  intros Hf. revert acc. induction l as [|c l IH]; intros acc; cbn; [lia|].
  specialize (IH (f acc c)). specialize (Hf acc c). lia.
Qed.
Lemma claim_length (hd : SessionHandle) (hosts : list string) (ports : list Z) (r : RouterInner) :
  length (claim hd hosts ports r).2 <= length hosts + length ports.
Proof.
  assert (Hh : forall a h, length (claim_host hd a h).2 <= S (length a.2)).
  { intros [r0 sup] h. unfold claim_host. repeat case_match; simplify_eq; cbn; rewrite ?length_app; cbn; lia. }
  assert (Hp : forall a p, length (claim_port hd a p).2 <= S (length a.2)).
  { intros [r0 sup] p. unfold claim_port. repeat case_match; simplify_eq; cbn; rewrite ?length_app; cbn; lia. }
  unfold claim. etrans; [by apply fold_length|]. pose proof (fold_length (claim_host hd) hosts (r, []) Hh). cbn in *. lia.
Qed.

(** The license gate's part of a claim or a release is at most five calls. *)
Class GateBounded (W : Type) `{!SessionWorld W, !GateTasks W} : Prop := {
  activate_takes : forall tok, takes (gate_activate_p (W:=W) tok) 5;
  deactivate_takes : forall tok, takes (gate_deactivate_p (W:=W) tok) 5;
}.

Section bounds.
Context {W : Type} `{!SessionWorld W, !GateTasks W, !GateBounded W}.
Context (stalls : nat -> bool) (debug_resource : Resource -> string) (server_version : string) (on : bool).
Implicit Types (s : System W) (w : W).

(** Counts the calls of a task with no loop. *)
Ltac count :=
  repeat (cbn [takes]; match goal with
  | |- True => exact I
  | |- forall _ : W, _ => intros ?
  | |- takes (match ?x with _ => _ end) _ => destruct x
  end).
Lemma check_ports_takes tcp user ports : takes (W:=W) (check_ports_p tcp user ports) (2 * length ports).
Proof using.
  induction ports as [|p ports IH]; [done|]. replace (2 * length (p :: ports)) with (S (S (2 * length ports))) by (cbn; lia).
  cbn [check_ports_p]. cbv zeta. count. exact IH.
Qed.
Lemma claim_cap_takes user token hosts ports : takes (W:=W) (claim_cap_p user token hosts ports) 8.
Proof using GateBounded0.
  unfold claim_cap_p. cbn [takes]. intros w. destruct (negb _); [done|].
  apply (takes_bind _ _ 5 2); [apply activate_takes|]. intros [|]; count.
Qed.
Lemma claim_hosts_takes user cap hosts : takes (W:=W) (claim_hosts_p user cap hosts) (length hosts).
Proof using. induction hosts as [|h hosts IH]; [done|]. cbn [claim_hosts_p length]. count; done. Qed.
Lemma notify_takes f l : takes (W:=W) (notify_all_p f l) (length l).
Proof using. induction l as [|x l IH]; [done|]. cbn [notify_all_p length]. count. exact IH. Qed.
Lemma claim_takes hd user token hs ps :
  takes (W:=W) (claim_p hd user token hs ps) (3 * MAX_CLAIM_ENTRIES + 10).
Proof using GateBounded0.
  unfold claim_p. destruct (decide _) as [|Hle]; [done|]. cbv zeta. set (hosts := to_ascii_lowercase <$> hs).
  assert (Hh : length hosts = length hs) by apply length_fmap.
  apply (takes_mono _ (S (2 * length ps + (8 + (length hosts + S (length hosts + length ps + 0)))))); [lia|].
  cbn [takes]. intros w. apply takes_bind; [apply check_ports_takes|]. intros [[]|[]]; [|done].
  apply takes_bind; [apply claim_cap_takes|]. intros [cap|[]]; [|done].
  apply takes_bind; [apply claim_hosts_takes|]. intros [[]|[]]; [|done].
  cbn [takes]. intros w1. apply takes_bind; [|done]. eapply takes_mono; [|apply notify_takes].
  pose proof (claim_length hd hosts ps (router_of w1)). unfold commit_claim.
  by destruct (claim hd hosts ps (router_of w1)).
Qed.
Lemma release_takes user token hs ps :
  takes (W:=W) (release_p user token hs ps) (3 * MAX_CLAIM_ENTRIES + 10).
Proof using GateBounded0.
  unfold release_p. destruct (decide _) as [|Hle]; [done|].
  apply (takes_mono _ (length (to_ascii_lowercase <$> hs) + (length ps + 9))); [rewrite length_fmap; lia|].
  apply takes_bind; [|intros rh; apply takes_bind; [|intros rp]].
  - induction (to_ascii_lowercase <$> hs) as [|h l IH]; [done|]. cbn [release_hosts_p length takes]. intros w.
    apply (takes_mono _ (length l + 0)); [lia|]. by apply takes_bind.
  - induction ps as [|p l IH]; [done|]. cbn [release_ports_p length takes]. intros w.
    apply (takes_mono _ (length l + 0)); [lia|]. apply takes_bind; [|done]. apply IH. cbn in Hle. lia.
  - assert (H : takes (W:=W) (released_p user token rh rp) 9); [|by destruct rh, rp].
    unfold released_p. cbn [takes]. intros _ w. destruct (reads gate_installed w).1; [|done].
    apply (takes_bind _ _ 2 5); [unfold owns_nothing_p; count|]. intros []; [|done].
    apply (takes_bind _ _ 5 0); [apply deactivate_takes|done].
Qed.
Lemma frame_takes hd user token f : takes (W:=W) (frame_p hd user token f) (3 * MAX_CLAIM_ENTRIES + 10).
Proof using GateBounded0.
  assert (Ha : forall p n, takes (W:=W) p n -> takes (answers p) n).
  { intros p n Hp. unfold answers. replace n with (n + 0) by lia. by apply takes_bind. }
  destruct f; cbn [frame_p]; try done; apply Ha.
  - apply claim_takes.
  - apply release_takes.
  - apply (takes_mono _ (2 + 2)); [unfold MAX_CLAIM_ENTRIES; lia|]. unfold list_p.
    apply takes_bind; [unfold max_tunnels_p; count|]. intros mt. count.
Qed.

(** ** In the system *)
Local Abbreviation moves := (moves stalls debug_resource server_version on).
Local Abbreviation move := (move stalls debug_resource server_version on).
Lemma move_ids (m : Move) s s' : ids_ok s -> move m s = Some s' -> ids_ok s'.
Proof using.
  intros Hs. destruct m as [pre hello|id|id|id ev|id|id|id]; cbn [System.move].
  - intros [= <-]. by apply connect_ids.
  - intros (p & Hp & H)%bind_Some. repeat case_match; simplify_eq. by eapply greet_ids.
  - intros (p & Hp & H)%bind_Some. destruct (proj2 Hs id p Hp). repeat case_match; simplify_eq. by apply admit_ids.
  - intros (l & Hl & H)%bind_Some. repeat case_match; simplify_eq. by apply (put_ids _ _ l).
  - intros (l & Hl & H)%bind_Some. repeat case_match; simplify_eq. by apply (put_ids _ _ l).
  - intros (l & Hl & H)%bind_Some. repeat case_match; simplify_eq. by apply (put_ids _ _ l).
  - intros (l & Hl & H)%bind_Some. repeat case_match; simplify_eq. by apply (put_ids _ _ l).
Qed.
Lemma moves_ids (ms : list Move) s s' : ids_ok s -> moves ms s = Some s' -> ids_ok s'.
Proof using.
  revert s. induction ms as [|m ms IH]; intros s Hs; cbn [System.moves]; [by intros [= <-]|].
  intros (s1 & H1 & H2)%bind_Some. apply (IH s1); [|done]. by eapply move_ids.
Qed.
Definition acts_of (id : Z) (m : Move) : nat := match m with Act i => if decide (i = id) then 1 else 0 | _ => 0 end.
Definition replies_of (id : Z) (m : Move) : bool := match m with Reply_to i => bool_decide (i = id) | _ => false end.
(** Session [id] is in the middle of a task with at most [n] calls to go. *)
Definition busy (id : Z) (n : nat) s : Prop :=
  exists l p, sys_sessions s !! id = Some l /\ l_task l = Some p /\ takes p n.
Lemma put_busy (id id' : Z) (n : nat) (l l' : Live W) w s :
  sys_sessions s !! id' = Some l -> (id' = id -> l_task l' = l_task l) -> busy id n s -> busy id n (put id' w l' s).
Proof using.
  intros Hl Ht (l0 & p & H0 & Hp & Htk). unfold busy, put. cbn. destruct (decide (id' = id)) as [->|Hne].
  - exists l', p. rewrite lookup_insert_eq. split_and!; [done| |done]. rewrite Ht by done. congruence.
  - exists l0, p. by rewrite lookup_insert_ne.
Qed.
Lemma move_busy (m : Move) (id : Z) (n : nat) s s' :
  ids_ok s -> busy id n s -> replies_of id m = false -> move m s = Some s' ->
  exists n', acts_of id m + n' <= n /\ busy id n' s'.
Proof using.
  intros Hs Hb Hr. pose proof Hb as (l & p & Hl & Hp & Ht). destruct m as [pre hello|id'|id'|id' ev|id'|id'|id'];
    cbn [System.move].
  - intros [= <-]. exists n. split; [done|]. by exists l, p.
  - intros (q & Hq & H)%bind_Some. exists n. split; [done|]. repeat case_match; simplify_eq. by exists l, p.
  - intros (q & Hq & H)%bind_Some. exists n. split; [done|]. destruct q as [h|]; [|done]. injection H as <-.
    exists l, p. split_and!; [|done|done]. destruct (proj2 Hs id' _ Hq) as [_ Hn].
    destruct (admit_run stalls server_version id' h s) as (_ & _ & _ & [->|(user & token & o & k & c & ->)]); [done|].
    rewrite lookup_insert_ne; [done|]. congruence.
  - intros (l1 & Hl1 & H)%bind_Some. exists n. split; [done|]. destruct (l_task l1) eqn:E1; [done|].
    destruct (l_ctrl l1); [|done]. injection H as <-. apply (put_busy _ _ _ l1); [done| |done].
    intros ->. congruence.
  - intros (l1 & Hl1 & H)%bind_Some. destruct (l_task l1) as [[|X op k]|] eqn:E1; try done.
    destruct (op (sys_world s)) as [x w1] eqn:Eo. injection H as <-. cbn [acts_of]. case_decide as Hid.
    + subst id'. simplify_eq. destruct n as [|n]; [done|]. exists n. split; [lia|].
      eexists _, (k x). rewrite put_lookup. split_and!; [done|done|]. specialize (Ht (sys_world s)). by rewrite Eo in Ht.
    + exists n. split; [lia|]. by apply (put_busy _ _ _ l1).
  - intros (l1 & Hl1 & H)%bind_Some. exists n. split; [done|]. cbn in Hr. apply bool_decide_eq_false in Hr.
    repeat case_match; simplify_eq. by apply (put_busy _ _ _ l1).
  - intros (l1 & Hl1 & H)%bind_Some. exists n. split; [done|]. destruct (l_conn l1); [|done]. injection H as <-.
    by apply (put_busy _ _ _ l1).
Qed.
Lemma moves_busy (ms : list Move) (id : Z) (n : nat) s s' :
  ids_ok s -> busy id n s -> forallb (fun m => negb (replies_of id m)) ms = true -> moves ms s = Some s' ->
  sum_list (acts_of id <$> ms) <= n.
Proof using.
  revert n s. induction ms as [|m ms IH]; intros n s Hs Hb; cbn [forallb System.moves fmap list_fmap sum_list sum_list_with];
    [cbn; lia|].
  intros [Hm Hr]%andb_prop (s1 & H1 & H2)%bind_Some. apply negb_true_iff in Hm.
  destruct (move_busy m id n s s1 Hs Hb Hm H1) as (n' & Hle & Hb'). pose proof (move_ids m s s1 Hs H1) as Hs1.
  specialize (IH n' s1 Hs1 Hb' Hr H2). cbn in *. lia.
Qed.

(** C38 One control frame causes bounded work: whatever the frame (a claim or release
    of thousands of entries included), whatever the relay and the other sessions do
    in between, the session makes at most 778 lock-protected calls (three per
    allowed entry and ten more), notices to superseded sessions included, before
    it replies. *)
Theorem frame_work_bounded (w : W) (history ms : list Move) (id : Z) (f : ControlFrame) s s' :
  moves history (init w) = Some s -> moves (Start id (EvFrame f) :: ms) s = Some s' ->
  forallb (fun m => negb (replies_of id m)) ms = true ->
  sum_list (acts_of id <$> ms) <= 778.
Proof using GateBounded0.
  intros H0 Hm Hr. assert (Hs : ids_ok s).
  { apply (moves_ids history (init w)); [|done]. split; intros i x; cbn; by rewrite lookup_empty. }
  cbn [System.moves] in Hm. apply bind_Some in Hm as (s1 & H1 & H2). pose proof (move_ids _ s s1 Hs H1) as Hs1.
  apply (moves_busy ms id 778 s1 s' Hs1); [|done|done].
  cbn [System.move] in H1. apply bind_Some in H1 as (l & Hl & H1). destruct (l_task l); [done|].
  destruct (l_ctrl l); [|done]. injection H1 as <-. eexists _, _. rewrite put_lookup. split_and!; [done|done|].
  cbn [event_p]. apply frame_takes.
Qed.
End bounds.
