(* ===== verification/GateSteps.v ===== *)
(** * The license gate, call by call (crates/relay/src/polar.rs)

    PolarGate::authenticate, ensure_activated and release_activation as tasks on
    the relay: each access to the license cache, the validate budget, the license
    server, the registry or the router is one step, so that two daemons'
    authentications interleave as they do in the relay.  The instance of
    [GateTasks] for the relay, and its laws. *)
From S2P Require Import Prelude Limits Frames Router Auth Registry RegistryInv RegistryProps RegistryAuth RegistryTokens RegistryPrune Polar PolarProps Codec Session SessionProps Relay Interleave System SystemTasks SystemProps SystemRely SystemBounds.
Local Open Scope Z_scope.

Section steps.
Context {B : Type} {PB : PolarBackend B} {CE : CacheEngine} {EN : Engine} {RE : RelayEnv}.
Context (domain : string) (debug_resource : Resource -> string).
Implicit Types (r : Relay B).
Open Scope proc_scope.

(** One call of the cache, the license server or the validate budget.  The budget
    reads the monotonic clock under its lock: the reading last taken. *)
Definition cache_call {A : Type} (m : LicenseCache -> A * LicenseCache) : Relay B -> A * Relay B :=
  in_world (on_cache m).
Definition backend_call {A : Type} (m : B -> A * B) : Relay B -> A * Relay B := in_world (on_backend m).
Definition take_budget r : bool * Relay B :=
  in_world (fun w => let (took, v) := try_take (mono_now (Nat.pred (r_tick r))) (w_budget w) in (took, set_budget v w)) r.
(** The gate, if one is installed, with the time its caller reads. *)
Definition enter_gate r : (option PolarPolicy * Z) * Relay B :=
  ((r_gate r, unix_now (r_tick r)), match r_gate r with None => r | Some _ => tick_relay r end).
Definition evict_call (hosts : list string) (ports : list Z) r : list (SessionHandle * Resource) * Relay B :=
  let (x, evicted) := evict_routes hosts ports (w_router (r_world r)) in
  (evicted, put_world (set_router x (r_world r)) r).
Definition send_call (hr : SessionHandle * Resource) r : () * Relay B :=
  ((), put_world (send_ctrl hr.1 (Denied LimitExceeded (stop_message debug_resource hr.2)) (r_world r)) r).

Definition resolve_cap_p (cid : string) (min_validated_at now : Z) : Proc (Relay B) CapDecision :=
  found <~ cache_call (cap_for_customer cid min_validated_at now);;
  Ret (match found with
       | Err _ => DenyAll
       | Ok c => if decide (rows c = 0) then Allow
                 else match cc_max c with Some m => Cap m | None => DenyAll end
       end).
Fixpoint send_all_p (l : list (SessionHandle * Resource)) : Proc (Relay B) () :=
  match l with
  | [] => Ret ()
  | hr :: rest => _ <~ send_call hr;; send_all_p rest
  end.
Definition tear_down_p (d : string) (labels : list string) (ports : list Z) : Proc (Relay B) () :=
  evicted <~ evict_call ((fun label => label +:+ "." +:+ d) <$> labels) ports;;
  send_all_p evicted.
(** The shape [reconcile_user_cap] and [evict_over_cap] share. *)
Definition over_cap_p (d : string) (over : st Conn RegistryError (list string * list Z)) : Proc (Relay B) () :=
  removed <~ with_reg over;;
  match removed with
  | Err _ => Ret ()
  | Ok ([], []) => Ret ()
  | Ok (labels, ports) => tear_down_p d labels ports
  end.
Definition reconcile_user_cap_p (d : string) (uid cap : Z) : Proc (Relay B) () :=
  over_cap_p d (prune_owned_to_cap uid cap).
Definition evict_over_cap_p (d : string) (uid cap : Z) : Proc (Relay B) () :=
  over_cap_p d (owned_over_cap uid cap).
Definition enforce_pooled_cap_p (pol : PolarPolicy) (d : string) (user : AuthedUser) (cap now : Z) : Proc (Relay B) () :=
  pbind (resolve_cap_p (name user) (i64_saturating_sub now (cap_prune_grace_secs pol)) now) (fun d1 =>
  pbind (match d1 with
         | Cap pooled => reconcile_user_cap_p d (Auth.user_id user) (Z.max pooled cap)
         | _ => Ret ()
         end) (fun _ =>
  pbind (resolve_cap_p (name user) (i64_saturating_sub now (staleness_secs pol)) now) (fun d2 =>
  match d2 with
  | Cap live => evict_over_cap_p d (Auth.user_id user) (Z.max live cap)
  | _ => Ret ()
  end))).

Definition resolve_user_p (cid : string) : Proc (Relay B) (option AuthedUser) :=
  if is_empty cid then Ret None
  else
    found <~ with_reg (lookup_user_id cid);;
    match found with
    | Ok (Some uid) => Ret (Some (mkAuthedUser uid cid))
    | Err _ => Ret None
    | Ok None =>
        added <~ with_reg (add_user cid);;
        match added with
        | Ok uid => Ret (Some (mkAuthedUser uid cid))
        | Err (UserExists _) =>
            again <~ with_reg (lookup_user_id cid);;
            match again with
            | Ok (Some uid) => Ret (Some (mkAuthedUser uid cid))
            | _ => Ret None
            end
        | Err _ => Ret None
        end
    end.

Definition on_granted_p (pol : PolarPolicy) (d key cid bid : string) (now : Z) : Proc (Relay B) (option AuthedUser) :=
  let cap := benefits pol !! bid in
  stored <~ cache_call (upsert (mkRow (hash_key key) cid bid cap "granted" None now));;
  match stored, cap with
  | Err _, _ => Ret None
  | Ok _, None => Ret None
  | Ok _, Some cap =>
      pbind (resolve_user_p cid) (fun found =>
        match found with
        | None => Ret None
        | Some user => pbind (enforce_pooled_cap_p pol d user cap now) (fun _ => Ret (Some user))
        end)
  end.
Definition on_not_licensed_p (pol : PolarPolicy) (key : string) (cached : option LicenseRow) (now : Z) :
    Proc (Relay B) (option AuthedUser) :=
  let row0 := default (mkRow (hash_key key) EmptyString EmptyString None "not_licensed" None now) cached in
  let row := mkRow (key_hash row0) (customer_id row0) (benefit_id row0) (max_tunnels row0)
               "not_licensed" (activation_id row0) now in
  pbind (match cached with
         | None => _ <~ cache_call (sweep_negative (i64_sub now (cache_ttl_secs pol)));; Ret ()
         | Some _ => Ret ()
         end) (fun _ =>
  _ <~ cache_call (upsert row);;
  Ret None).
Definition on_unavailable_p (pol : PolarPolicy) (cached : option LicenseRow) (now : Z) : Proc (Relay B) (option AuthedUser) :=
  match cached with
  | Some row => if honorable pol now row then resolve_user_p (customer_id row) else Ret None
  | None => Ret None
  end.
Definition validate_p (key : string) : Proc (Relay B) ValidateOutcome :=
  took <~ take_budget;;
  if (took : bool) then outcome <~ backend_call (validate key);; Ret outcome
  else Ret (VUnavailable "relay validate budget exhausted").

Definition gate_authenticate_p (pol : PolarPolicy) (key : string) (now : Z) : Proc (Relay B) (option AuthedUser) :=
  if starts_with "etun_" key then Ret None
  else
    rec <~ reads (fun r => w_rec (r_world r));;
    match rec with
    | None => Ret None
    | Some d =>
        if decide (now = 0) then Ret None
        else
          got <~ cache_call (get (hash_key key));;
          let cached := unwrap_or None got in
          if match cached with Some row => fresh pol now row | None => false end then
            match cached with
            | Some row => if granted_mapped row then resolve_user_p (customer_id row) else Ret None
            | None => Ret None
            end
          else
            pbind (validate_p key) (fun outcome =>
              match outcome with
              | VGranted cid bid => on_granted_p pol d key cid bid now
              | VNotLicensed => on_not_licensed_p pol key cached now
              | VUnavailable _ => on_unavailable_p pol cached now
              end)
    end.
Definition relay_auth_p (key : string) : Proc (Relay B) (option AuthedUser) :=
  gate <~ enter_gate;;
  match gate with
  | (None, _) => Ret None
  | (Some pol, now) => gate_authenticate_p pol key now
  end.

Definition ensure_activated_p (pol : PolarPolicy) (key : string) : Proc (Relay B) (result string ()) :=
  if negb (activate_on_claim pol) then Ret (Ok ())
  else
    got <~ cache_call (get (hash_key key));;
    match got with
    | Ok (Some row) =>
        if negb (String.eqb (status row) "granted") then Ret (Ok ())
        else match activation_id row with
             | Some _ => Ret (Ok ())
             | None =>
                 rec <~ reads (fun r => w_rec (r_world r));;
                 let label := match rec with Some d => "relay:" +:+ d | None => "relay"%string end in
                 outcome <~ backend_call (activate key label);;
                 match outcome with
                 | Activated id => _ <~ cache_call (set_activation (hash_key key) (Some id));; Ret (Ok ())
                 | LimitReached =>
                     Ret (Err "license activation limit reached (key already active on another device/relay)"%string)
                 | AUnavailable _ => Ret (Ok ())
                 end
             end
    | _ => Ret (Ok ())
    end.
Definition relay_activate_p (key : string) : Proc (Relay B) (result string ()) :=
  gate <~ reads r_gate;;
  match gate with None => Ret (Ok ()) | Some pol => ensure_activated_p pol key end.
Definition release_activation_p (key : string) : Proc (Relay B) () :=
  got <~ cache_call (get (hash_key key));;
  match got with
  | Ok (Some row) =>
      match activation_id row with
      | None => Ret ()
      | Some aid =>
          gone <~ backend_call (deactivate key aid);;
          match gone with
          | Ok _ => _ <~ cache_call (set_activation (hash_key key) None);; Ret ()
          | Err _ => Ret ()
          end
      end
  | _ => Ret ()
  end.
Definition relay_deactivate_p (key : string) : Proc (Relay B) () :=
  gate <~ reads r_gate;;
  match gate with None => Ret () | Some _ => release_activation_p key end.

(** ** Uninterrupted, the tasks are the gate's functions *)
Lemma run_resolve_cap cid lo now r : run (resolve_cap_p cid lo now) r = in_world (resolve_cap cid lo now) r.
Proof using.
  unfold resolve_cap_p, resolve_cap, cache_call, in_world. cbn. by destruct (on_cache _ (r_world r)).
Qed.
Lemma run_send_all l r :
  run (send_all_p l) r =
  ((), put_world (foldl (fun w hr => send_ctrl hr.1 (Denied LimitExceeded (stop_message debug_resource hr.2)) w) (r_world r) l) r).
Proof using. revert r. induction l as [|x l IH]; intros r; cbn; [by destruct r|]. by rewrite IH. Qed.
Lemma run_tear_down d labels ports r :
  run (tear_down_p d labels ports) r =
  ((), put_world (tear_down_routes debug_resource d labels ports (r_world r)).2 r).
Proof using.
  unfold tear_down_p, tear_down_routes, evict_call. cbn [run]. destruct (evict_routes _ ports _) as [x ev].
  by rewrite run_send_all.
Qed.
Lemma run_reconcile d uid cap r :
  run (reconcile_user_cap_p d uid cap) r = ((), put_world (reconcile_user_cap debug_resource d uid cap (r_world r)) r).
Proof using.
  unfold reconcile_user_cap_p, over_cap_p, reconcile_user_cap, with_reg, in_world. cbn [run].
  destruct (on_reg _ (r_world r)) as [[[[] []]|e] w1]; try done; by rewrite run_tear_down.
Qed.
Lemma run_evict_over d uid cap r :
  run (evict_over_cap_p d uid cap) r = ((), put_world (evict_over_cap debug_resource d uid cap (r_world r)) r).
Proof using.
  unfold evict_over_cap_p, over_cap_p, evict_over_cap, with_reg, in_world. cbn [run].
  destruct (on_reg _ (r_world r)) as [[[[] []]|e] w1]; try done; by rewrite run_tear_down.
Qed.
Lemma run_enforce pol d user cap now r :
  run (enforce_pooled_cap_p pol d user cap now) r =
  ((), put_world (enforce_pooled_cap pol debug_resource d user cap now (r_world r)) r).
Proof using.
  unfold enforce_pooled_cap_p, enforce_pooled_cap. rewrite run_bind, run_resolve_cap. unfold in_world.
  destruct (resolve_cap _ _ now (r_world r)) as [d1 w1]. rewrite run_bind.
  set (w2 := match d1 with Cap pooled => _ | _ => w1 end).
  assert (H : run match d1 with Cap pooled => reconcile_user_cap_p d (Auth.user_id user) (Z.max pooled cap) | _ => Ret () end
    (put_world w1 r) = ((), put_world w2 r)).
  { subst w2. destruct d1; try done. by rewrite run_reconcile. }
  rewrite H, run_bind, run_resolve_cap. unfold in_world. cbn [r_world put_world].
  destruct (resolve_cap _ _ now w2) as [d2 w3]. destruct d2; try done. by rewrite run_evict_over.
Qed.
Lemma run_resolve_user cid r : run (resolve_user_p cid) r = in_world (resolve_user cid) r.
Proof using.
  unfold resolve_user_p, resolve_user, with_reg, in_world. destruct (is_empty cid); [by destruct r|]. cbn [run].
  destruct (on_reg (lookup_user_id cid) (r_world r)) as [[[uid|]|e] w1]; try done. cbn [run r_world put_world].
  destruct (on_reg (add_user cid) w1) as [[uid|[]] w2]; try done. cbn [run r_world put_world].
  by destruct (on_reg (lookup_user_id cid) w2) as [[[uid|]|e] w3].
Qed.
Lemma run_on_granted pol d key cid bid now r :
  run (on_granted_p pol d key cid bid now) r = in_world (on_granted pol debug_resource d key cid bid now) r.
Proof using.
  unfold on_granted_p, on_granted, cache_call, in_world. cbn [run].
  destruct (on_cache _ (r_world r)) as [[[]|e] w1]; [|done]. destruct (benefits pol !! bid) as [cap|]; [|done].
  rewrite run_bind, run_resolve_user. unfold in_world. cbn [r_world put_world].
  destruct (resolve_user cid w1) as [[user|] w2]; [|done]. by rewrite run_bind, run_enforce.
Qed.
Lemma run_on_not_licensed pol key cached now r :
  run (on_not_licensed_p pol key cached now) r = in_world (on_not_licensed pol key cached now) r.
Proof using.
  unfold on_not_licensed_p, on_not_licensed, cache_call, in_world. cbv zeta. rewrite run_bind.
  destruct cached as [row|]; cbn [run].
  - by destruct (on_cache (upsert _) (r_world r)).
  - destruct (on_cache (sweep_negative _) (r_world r)) as [x w1]. cbn [run r_world put_world snd].
    by destruct (on_cache (upsert _) w1).
Qed.
Lemma run_on_unavailable pol cached now r :
  run (on_unavailable_p pol cached now) r = in_world (on_unavailable pol cached now) r.
Proof using.
  unfold on_unavailable_p, on_unavailable. destruct cached as [row|]; [|by destruct r].
  destruct (honorable pol now row); [apply run_resolve_user|by destruct r].
Qed.
Lemma run_validate key r :
  run (validate_p key) r =
  in_world (fun w => let (took, v) := try_take (mono_now (Nat.pred (r_tick r))) (w_budget w) in
                     if (took : bool) then on_backend (validate key) (set_budget v w)
                     else (VUnavailable "relay validate budget exhausted", set_budget v w)) r.
Proof using.
  unfold validate_p, take_budget, backend_call, in_world. cbn [run].
  destruct (try_take _ _) as [[] v]; [|done]. cbn [run r_world put_world].
  by destruct (on_backend (validate key) _).
Qed.
Lemma run_gate_authenticate pol key now r :
  run (gate_authenticate_p pol key now) r =
  in_world (gate_authenticate pol debug_resource key now (mono_now (Nat.pred (r_tick r)))) r.
Proof using.
  assert (Hid : forall A (a : A), in_world (fun w => (a, w)) r = (a, r)) by (intros; by destruct r).
  unfold gate_authenticate_p, gate_authenticate. destruct (starts_with "etun_" key); [by rewrite Hid|].
  cbn [run reads]. unfold in_world at 1. destruct (w_rec (r_world r)) as [d|]; [|by destruct r].
  case_decide; [by destruct r|]. cbn [run]. unfold cache_call, in_world.
  destruct (on_cache (get (hash_key key)) (r_world r)) as [got w1]. cbv zeta.
  destruct (match unwrap_or None got with Some row => fresh pol now row | None => false end).
  - destruct (unwrap_or None got) as [row|]; [|done]. destruct (granted_mapped row); [|done].
    rewrite run_resolve_user. unfold in_world. cbn [r_world put_world]. by destruct (resolve_user _ w1).
  - rewrite run_bind, run_validate. unfold in_world. cbn [r_world put_world r_tick].
    destruct (try_take _ (w_budget w1)) as [took v].
    destruct (if took then _ else _) as [outcome w3]. destruct outcome.
    + rewrite run_on_granted. unfold in_world. cbn [r_world put_world]. by destruct (on_granted _ _ _ _ _ _ _ w3).
    + rewrite run_on_not_licensed. unfold in_world. cbn [r_world put_world]. by destruct (on_not_licensed _ _ _ _ w3).
    + rewrite run_on_unavailable. unfold in_world. cbn [r_world put_world]. by destruct (on_unavailable _ _ _ w3).
Qed.

Lemma run_activate key r :
  run (relay_activate_p key) r = @gate_activate _ (RelayWorld domain debug_resource) key r.
Proof using.
  unfold relay_activate_p. cbn. destruct (r_gate r) as [pol|]; [|done].
  unfold ensure_activated_p, ensure_activated, cache_call, backend_call, in_world.
  destruct (activate_on_claim pol); cbn [negb run]; [|by destruct r].
  destruct (on_cache (get (hash_key key)) (r_world r)) as [[[row|]|e] w1]; try done.
  destruct (String.eqb (status row) "granted"); cbn [negb]; [|done]. destruct (activation_id row); [done|].
  cbn [run reads r_world put_world]. destruct (on_backend (activate key _) w1) as [[id| |why] w2]; try done.
  cbn [run r_world put_world]. by destruct (on_cache (set_activation _ _) w2).
Qed.
Lemma run_deactivate key r :
  run (relay_deactivate_p key) r = ((), @gate_deactivate _ (RelayWorld domain debug_resource) key r).
Proof using.
  unfold relay_deactivate_p. cbn. destruct (r_gate r) as [pol|]; [|done].
  unfold release_activation_p, release_activation, cache_call, backend_call, in_world. cbn [run].
  destruct (on_cache (get (hash_key key)) (r_world r)) as [[[row|]|e] w1]; try done.
  destruct (activation_id row); [|done]. cbn [run r_world put_world].
  destruct (on_backend (deactivate key _) w1) as [[[]|e] w2]; [|done]. cbn [run r_world put_world].
  by destruct (on_cache (set_activation _ _) w2).
Qed.
Lemma run_relay_auth key r : run (relay_auth_p key) r = @gate_auth _ (RelayWorld domain debug_resource) key r.
Proof using.
  unfold relay_auth_p. cbn. destruct (r_gate r) as [pol|]; [|done]. apply run_gate_authenticate.
Qed.
#[local] Instance steps_world : SessionWorld (Relay B) := RelayWorld domain debug_resource.
#[local] Instance steps_view : OwnerView (Relay B) := RelayView domain.
#[local] Instance steps_laws : SessionLaws (Relay B) := relay_laws domain debug_resource.
#[local] Instance RelayGateTasks : GateTasks (Relay B) := {|
  gate_auth_p := relay_auth_p;
  gate_activate_p := relay_activate_p;
  gate_deactivate_p := relay_deactivate_p;
  run_gate_auth := run_relay_auth;
  run_gate_activate := run_activate;
  run_gate_deactivate := run_deactivate;
|}.

(** ** What each call keeps *)
Definition gate_same (X : Type) (op : Relay B -> X * Relay B) : Prop := forall r, r_gate (op r).2 = r_gate r.
Definition well_behaved (X : Type) (op : Relay B -> X * Relay B) : Prop := keeping X op /\ gate_same X op.
Definition silent (X : Type) (op : Relay B -> X * Relay B) : Prop :=
  (forall r, auth_inv r -> quiet r (op r).2) /\ gate_same X op.
Lemma silent_behaved X op : silent X op -> well_behaved X op.
Proof using.
  intros [Hq Hg]. split; [|done]. intros S r Hr. destruct (Hq r (proj1 Hr)) as (H1 & _ & H3). by eapply relay_ok_frame.
Qed.
Lemma in_world_silent {A : Type} (m : World B -> A * World B) :
  (forall w, same_core w (m w).2) -> silent A (in_world m).
Proof using.
  intros Hc. split; intros r; unfold in_world; specialize (Hc (r_world r)); destruct (m (r_world r)) as [a w1]; [|done].
  destruct Hc as (C1 & C2 & C3). intros [Hi Hd]. cbn in *. unfold quiet, same_owners, frame. cbn. by rewrite C1, C2, C3.
Qed.
Lemma cache_silent {A : Type} (m : LicenseCache -> A * LicenseCache) : silent A (cache_call m).
Proof using. apply in_world_silent. intros w. apply on_cache_core. Qed.
Lemma backend_silent {A : Type} (m : B -> A * B) : silent A (backend_call m).
Proof using. apply in_world_silent. intros w. apply on_backend_core. Qed.
Lemma reads_silent {A : Type} (f : Relay B -> A) : silent A (reads f).
Proof using. split; [|done]. intros r Hi. by apply quiet_refl. Qed.
Lemma budget_silent : silent bool take_budget.
Proof using.
  split; intros r; unfold take_budget, in_world; destruct (try_take _ _) as [took v]; [|done]. intros Hi.
  split; [exact Hi|]. by split; [split_and!|].
Qed.
Lemma enter_silent : silent _ enter_gate.
Proof using.
  split; intros r; unfold enter_gate; cbn; [|by destruct (r_gate r) eqn:E]. intros Hi.
  destruct (r_gate r); [|by apply quiet_refl]. split; [exact Hi|]. by split; [split_and!|].
Qed.
Lemma reg_behaved {A : Type} (m : Conn -> A * Conn) :
  (forall c, idle tables_wf c -> idle tables_wf (m c).2) -> well_behaved A (with_reg m).
Proof using.
  intros Hm. split; [|intros r; unfold with_reg, in_world; by destruct (on_reg m (r_world r))].
  intros S r ([Hi Hd] & Hw & Hr). destruct (with_reg_parts m r) as (_ & E2 & E3).
  assert (F : router_of (with_reg m r).2 = router_of r) by exact (proj1 (with_reg_frame domain debug_resource m r)).
  split; [|by rewrite F]. split; [|by rewrite E3]. cbn. rewrite E2. by apply Hm.
Qed.
Lemma evict_behaved hosts ports : well_behaved _ (evict_call hosts ports).
Proof using.
  split; [|intros r; unfold evict_call; by destruct (evict_routes _ _ _)].
  exact (evict_keeps (W:=Relay B) hosts ports).
Qed.
Lemma send_behaved hr : well_behaved _ (send_call hr).
Proof using. apply silent_behaved. split; [|done]. intros r Hi. split; [exact Hi|]. by split; [split_and!|]. Qed.

(** ** The tasks *)
Ltac behaves :=
  repeat match goal with
  | |- all_ops _ (pbind _ _) => apply all_ops_bind; [|intros ?]
  | |- all_ops _ (Ret _) => exact I
  | |- all_ops silent (Atom _ _) =>
      split; [first [apply cache_silent|apply backend_silent|apply reads_silent|apply enter_silent]|intros ?]
  | |- all_ops well_behaved (Atom (cache_call _) _) => split; [apply silent_behaved, cache_silent|intros ?]
  | |- all_ops well_behaved (Atom (backend_call _) _) => split; [apply silent_behaved, backend_silent|intros ?]
  | |- all_ops well_behaved (Atom take_budget _) => split; [apply silent_behaved, budget_silent|intros ?]
  | |- all_ops well_behaved (Atom enter_gate _) => split; [apply silent_behaved, enter_silent|intros ?]
  | |- all_ops well_behaved (Atom (reads _) _) => split; [apply silent_behaved, reads_silent|intros ?]
  | |- all_ops _ (match ?x with _ => _ end) => destruct x
  end.
Lemma tear_down_behaved d labels ports : all_ops well_behaved (tear_down_p d labels ports).
Proof using.
  split; [apply evict_behaved|]. intros l. induction l as [|x l IH]; [done|]. split; [apply send_behaved|]. done.
Qed.
Lemma over_cap_behaved d over :
  (forall c, idle tables_wf c -> idle tables_wf (over c).2) -> all_ops well_behaved (over_cap_p d over).
Proof using.
  intros Hm. split; [by apply reg_behaved|]. intros [[[] []]|e]; try done; apply tear_down_behaved.
Qed.
Lemma resolve_user_behaved cid : all_ops well_behaved (resolve_user_p cid).
Proof using.
  assert (Hl : well_behaved _ (with_reg (lookup_user_id cid)))
    by (apply reg_behaved; intros c; apply (run_reg_wf domain (OpLookupUser cid))).
  unfold resolve_user_p. destruct (is_empty cid); [done|]. split; [done|]. intros [[uid|]|e]; [done| |done].
  split; [apply reg_behaved; intros c; apply (run_reg_wf domain (OpAddUser cid))|].
  intros [uid|[]]; try done. split; [done|]. by intros [[uid|]|e].
Qed.
Lemma enforce_behaved pol d user cap now : all_ops well_behaved (enforce_pooled_cap_p pol d user cap now).
Proof using.
  unfold enforce_pooled_cap_p, resolve_cap_p. behaves; try done.
  - apply over_cap_behaved. intros c. apply (run_reg_wf domain (OpPrune _ _)).
  - apply over_cap_behaved. intros c. apply (run_reg_wf domain (OpOverCap _ _)).
Qed.
Lemma relay_auth_behaved key : all_ops well_behaved (relay_auth_p key).
Proof using.
  unfold relay_auth_p, gate_authenticate_p, validate_p, on_granted_p, on_not_licensed_p, on_unavailable_p. cbv zeta.
  behaves; try done; try apply resolve_user_behaved; apply enforce_behaved.
Qed.
Lemma activate_silent key : all_ops silent (relay_activate_p key).
Proof using. unfold relay_activate_p, ensure_activated_p. cbv zeta. behaves. Qed.
Lemma deactivate_silent key : all_ops silent (relay_deactivate_p key).
Proof using. unfold relay_deactivate_p, release_activation_p. behaves. Qed.

(** The relay's gate keeps its promises to the interleaved sessions. *)
Lemma relay_task_laws : GateTaskLaws (Relay B).
Proof using.
  split; intros tok; cbn [gate_activate_p gate_deactivate_p gate_auth_p RelayGateTasks].
  - eapply all_ops_mono; [|apply activate_silent]. by intros X op [H _].
  - eapply all_ops_mono; [|apply deactivate_silent]. by intros X op [H _].
  - eapply all_ops_mono; [|apply relay_auth_behaved]. by intros X op [H _].
Qed.
Lemma relay_gate_fixed : GateFixed (Relay B).
Proof using.
  assert (Hb : forall r r', r_gate r' = r_gate r -> gate_installed r' = gate_installed r) by (intros r r' E; cbn; by rewrite E).
  assert (Hr : forall A (m : Conn -> A * Conn) r, r_gate (with_reg m r).2 = r_gate r)
    by (intros A m r; unfold with_reg, in_world; by destruct (on_reg m (r_world r))).
  split; [intros uid; split; intros| |done].
  - done.
  - apply Hb, Hr.
  - apply Hb, Hr.
  - apply Hb, Hr.
  - apply Hb. cbn. destruct (r_tcp w); [|done]. by destruct (ensure_bound _ _ _).
  - eapply all_ops_mono; [|apply activate_silent]. intros X op [_ H] r. apply Hb, H.
  - apply Hb. cbn. destruct (r_gate w) eqn:E; [|done]. unfold in_world. by destruct (cap_for _ _ _ _).
  - eapply all_ops_mono; [|apply deactivate_silent]. intros X op [_ H] r. apply Hb, H.
  - done.
  - apply Hb, Hr.
  - apply Hb, Hr.
  - apply Hb. unfold commit_evict. by destruct (evict_routes _ _ _).
  - apply Hb, Hr.
  - intros uid. split; intros k r; apply Hb, Hr.
Qed.
Lemma relay_gate_bounded : GateBounded (Relay B).
Proof using.
  split; intros tok; cbn [gate_activate_p gate_deactivate_p RelayGateTasks].
  - unfold relay_activate_p, ensure_activated_p. cbn [takes]. intros r. repeat case_match; cbn [takes]; try done.
    intros r1. repeat case_match; cbn [takes]; try done. intros r2 r3. repeat case_match; done.
  - unfold relay_deactivate_p, release_activation_p. cbn [takes]. intros r. repeat case_match; cbn [takes]; try done.
    intros r1. repeat case_match; cbn [takes]; try done. intros r2. repeat case_match; done.
Qed.
End steps.
