(* ===== verification/SystemDemo.v ===== *)
(** * Interleaved sessions on a concrete relay

    The relay of Relay.v under the schedules of System.v: that it meets the
    interfaces of SystemProps.v, SystemRely.v and SystemBounds.v, the theorems at
    work, and three schedules the code's separate locks allow and its comments do
    not mention. *)
From stdpp Require Import pretty.
From S2P Require Import Prelude Limits Frames Router Auth Registry RegistryInv RegistryProps Polar PolarProps Codec Session SessionProps Relay Interleave System SystemTasks SystemProps SystemRely SystemBounds GateSteps.
Local Open Scope Z_scope.

(** ** A relay with two users *)
(** A license server that grants the keys ["key"] and ["key2"] to one customer, and
    counts activations: the next id and the ids in use. *)
Definition Seats : Type := nat * list string.
#[local] Instance SeatBackend : PolarBackend Seats := {
  validate key b := (if String.eqb key "key" || String.eqb key "key2" then VGranted "cust" "pro" else VNotLicensed, b);
  activate key label b := (Activated (pretty b.1), (S b.1, pretty b.1 :: b.2));
  deactivate key a b := (Ok (), (b.1, filter (fun x => x <> a) b.2));
}.
#[local] Existing Instances PolarDemo.sound_cache.
#[local] Instance race_engine : Engine := {|
  engine_fails _ := false;
  clock n := 1000 + Z.of_nat n;
  os_rng n := [byte_of (65 + Z.of_nat n)];
  sha256 s := byte_of <$> (Z.of_nat ∘ Ascii.nat_of_ascii <$> String.list_ascii_of_string s);
  base64url bs := String.string_of_list_ascii (Ascii.ascii_of_byte <$> bs);
|}.
#[local] Instance race_env : RelayEnv := {| unix_now n := 1000; mono_now n := 0; os_bind n p := Ok () |}.
Definition apex : string := "relay.dev".
#[local] Instance race_auth : Authenticator (Relay Seats) := RelayAuth apex.
#[local] Instance race_sessions : SessionWorld (Relay Seats) := RelayWorld apex PolarDemo.say.
#[local] Instance race_view : OwnerView (Relay Seats) := RelayView apex.
#[local] Instance race_laws : SessionLaws (Relay Seats) := relay_laws apex PolarDemo.say.
#[local] Instance race_tasks : GateTasks (Relay Seats) := RelayGateTasks apex PolarDemo.say.
#[local] Instance race_task_laws : GateTaskLaws (Relay Seats) := relay_task_laws apex PolarDemo.say.
#[local] Instance race_gate : GateFixed (Relay Seats) := relay_gate_fixed apex PolarDemo.say.
#[local] Instance race_bounded : GateBounded (Relay Seats) := relay_gate_bounded apex PolarDemo.say.

(** [mat] (user 1) holds demo.relay.dev and port 20000; [eve] (user 2) holds
    nothing; both have a token. *)
Definition race_conn : Conn :=
  run_ops apex [OpAddUser "mat"; OpAddUser "eve"; OpAddHost "demo" "mat"; OpAddPort 20000 "mat";
    OpCreateToken "mat" None; OpCreateToken "eve" None] new_conn.
Definition race_relay (gate : option PolarPolicy) : Relay Seats :=
  mkRelay (mkWorld (mkCache ∅ 0) (ValidateBudget_new 10 20 0) (0%nat, []) (Some apex) race_conn Router_new [])
    gate (Some (mkTcp (20000, 20100) ∅)) 0.
Lemma race_inv (gate : option PolarPolicy) : auth_inv (race_relay gate).
Proof.
  split; [|intros d [= <-]; reflexivity].
  apply run_ops_wf. split; [apply no_tables_wf|reflexivity].
Qed.
Definition calm (n : nat) : bool := false.
Local Abbreviation moves := (moves calm PolarDemo.say "1.0" true).
Local Abbreviation amoves := (amoves calm PolarDemo.say "1.0" true).

Definition hello (token : string) : Move := Connect (HsGot (Ok 1)) (HsGot (Ok (Hello (mkSecret token) "1.0" 1 3))).
(** A daemon with a registry token joins: one call. *)
Definition joins (id : Z) (token : string) : list Move := [hello token; HsAct id; HsDone id].
Definition claims (id : Z) : Move := Start id (EvFrame (Claim ["demo.relay.dev"] [])).
Definition releases (id : Z) : Move := Start id (EvFrame (Release ["demo.relay.dev"] [])).
Definition acts (n : nat) (id : Z) : list Move := replicate n (Act id).
Definition acts_hs (n : nat) (id : Z) : list Move := replicate n (HsAct id).
Definition mat_joins (id : Z) : list Move := joins id "etun_N".
Definition eve_joins (id : Z) : list Move := joins id "etun_Q".

(** ** A claim overtaken by a change of owner

    [mat] has two daemons.  The first claims demo.relay.dev and is granted the
    registry row; before it reaches the router the second releases the name and
    [eve] claims it and is served; then the first goes on. *)
Definition stale_claim : list Move :=
  mat_joins 1 ++ mat_joins 2 ++ eve_joins 3 ++ [claims 1] ++ acts 3 1 ++
  [releases 2] ++ acts 3 2 ++ [Reply_to 2; claims 3] ++ acts 4 3 ++ [Reply_to 3] ++
  acts 2 1 ++ [Reply_to 1].
Definition idle_and_up {W : Type} (l : Live W) : bool :=
  match l_task l with None => l_ctrl l && l_conn l | Some _ => false end.
Definition all_idle {W : Type} (s : System W) : bool :=
  forallb (fun kl => idle_and_up kl.2) (map_to_list (sys_sessions s)).
(** A schedule that the relay admits. *)
Definition admits (ms : list Move) : bool :=
  from_option (fun _ => true) false (moves ms (init (race_relay None))).
Definition ends_in (ms : list Move) : System (Relay Seats) :=
  default (init (race_relay None)) (moves ms (init (race_relay None))).
Lemma admitted (ms : list Move) :
  admits ms = true -> moves ms (init (race_relay None)) = Some (ends_in ms).
Proof. unfold admits, ends_in. by destruct (System.moves _ _ _ _ ms _). Qed.

(** C39 The ownership a claim checked can be gone when it routes: there is a schedule
    after which every session is connected and at rest, [eve] owns the hostname and
    was told it is granted, and visitors of it reach a daemon of [mat], who owned it
    before. *)
Theorem stale_claim_misroutes :
  exists ms s, moves ms (init (race_relay None)) = Some s /\ all_idle s = true /\
    host_owner (sys_world s) "demo.relay.dev" = Some 2 /\
    lookup_http (router_of (sys_world s)) "demo.relay.dev" = Some (mkHandle 1 1) /\
    (l_out <$> sys_sessions s !! 3) = Some [Welcome 3 "1.0" 3; Granted ["demo.relay.dev"] []].
Proof.
  exists stale_claim, (ends_in stale_claim). split; [apply admitted; vm_compute; reflexivity|].
  split_and!; vm_compute; reflexivity.
Qed.
(** The next re-validation of that daemon drops the route. *)
Definition stale_then_tick : list Move := stale_claim ++ [Start 1 EvTick] ++ acts 6 1 ++ [Reply_to 1].
Example stale_claim_heals :
  admits stale_then_tick = true /\
  lookup_http (router_of (sys_world (ends_in stale_then_tick))) "demo.relay.dev" = None.
Proof. split; vm_compute; reflexivity. Qed.

(** ** A release overtaken by a new owner

    [mat]'s daemon releases the name: the registry row goes first, the routes
    are evicted later, by name.  In between [eve] claims the name. *)
Definition late_release : list Move :=
  mat_joins 1 ++ eve_joins 2 ++ [claims 1] ++ acts 4 1 ++ [Reply_to 1; releases 1] ++ acts 1 1 ++
  [claims 2] ++ acts 5 2 ++ [Reply_to 2] ++ acts 2 1 ++ [Reply_to 1].
(** A release can cut off the next owner: there is a schedule after which every
    session is connected and at rest, [eve] owns the hostname and was told it is
    granted, and the hostname is routed nowhere, without a frame that tells her. *)
Theorem late_release_unroutes_owner :
  exists ms s, moves ms (init (race_relay None)) = Some s /\ all_idle s = true /\
    host_owner (sys_world s) "demo.relay.dev" = Some 2 /\
    lookup_http (router_of (sys_world s)) "demo.relay.dev" = None /\
    (l_out <$> sys_sessions s !! 2) = Some [Welcome 3 "1.0" 2; Granted ["demo.relay.dev"] []] /\
    forall f, (mkHandle 2 2, f) ∉ Polar.w_sent (r_world (sys_world s)).
Proof.
  exists late_release, (ends_in late_release). split; [apply admitted; vm_compute; reflexivity|].
  split_and!; try (vm_compute; reflexivity).
  intros f Hf. assert (H : bool_decide (mkHandle 2 2 ∈ (Polar.w_sent (r_world (sys_world (ends_in late_release)))).*1) = false)
    by (vm_compute; reflexivity).
  apply bool_decide_eq_false in H. apply H, list_elem_of_fmap. by exists (mkHandle 2 2, f).
Qed.

(** ** Two daemons of one license

    Both present the same key for the first time, their authentications in lock
    step: each finds no account, one creates it, the other is told it exists and
    looks it up. *)
Definition gated : System (Relay Seats) := init (race_relay (Some PolarDemo.demo_policy)).
Definition gated_end (ms : list Move) : System (Relay Seats) := default gated (moves ms gated).
Definition lock_step (n : nat) : list Move := concat (replicate n [HsAct 1; HsAct 2]).
Definition both_join : list Move :=
  [hello "key"; hello "key"] ++ lock_step 10 ++ acts_hs 5 2 ++ acts_hs 4 1 ++ [HsDone 1; HsDone 2].
Example first_contact_race :
  from_option (fun _ => true) false (moves both_join gated) = true /\
  (l_user <$> sys_sessions (gated_end both_join) !! 1) = Some (mkAuthedUser 3 "cust") /\
  (l_user <$> sys_sessions (gated_end both_join) !! 2) = Some (mkAuthedUser 3 "cust") /\
  length (users (db (w_reg (r_world (sys_world (gated_end both_join)))))) = 3%nat.
Proof. vm_compute. split_and!; reflexivity. Qed.

(** Then both claim, each having looked for an activation before the other stored
    its own, and in the end both release. *)
Definition claims_host (id : Z) (h : string) : Move := Start id (EvFrame (Claim [h] [])).
Definition releases_host (id : Z) (h : string) : Move := Start id (EvFrame (Release [h] [])).
Definition activate_twice : list Move :=
  both_join ++ [claims_host 1 "a.relay.dev"; claims_host 2 "b.relay.dev"] ++ acts 4 1 ++ acts 4 2 ++
  acts 7 1 ++ [Reply_to 1] ++ acts 7 2 ++ [Reply_to 2; releases_host 1 "a.relay.dev"] ++ acts 4 1 ++
  [Reply_to 1; releases_host 2 "b.relay.dev"] ++ acts 9 2 ++ [Reply_to 2].
(** One key can hold two activations, and one is never given back: there is a
    schedule after which every session is at rest, the account owns nothing, the
    relay has forgotten its activation, and one is still in use at the license
    server. *)
Theorem double_activation_leaks :
  exists ms s, moves ms gated = Some s /\ all_idle s = true /\
    host_owner (sys_world s) "a.relay.dev" = None /\ host_owner (sys_world s) "b.relay.dev" = None /\
    (activation_id <$> table (w_cache (r_world (sys_world s))) !! hash_key "key") = Some None /\
    (w_backend (r_world (sys_world s))).2 = ["0"%string].
Proof.
  exists activate_twice, (gated_end activate_twice). split.
  - assert (H : from_option (fun _ => true) false (moves activate_twice gated) = true) by (vm_compute; reflexivity).
    unfold gated_end. by destruct (System.moves _ _ _ _ activate_twice gated).
  - split_and!; vm_compute; reflexivity.
Qed.

(** ** The theorems at work *)

(** [mat] and [eve] claim the same free name at the same time, and [mat] its port. *)
Definition both_claim : list Move :=
  mat_joins 1 ++ eve_joins 2 ++ [Start 1 (EvFrame (Claim ["blog.relay.dev"] [20000]));
   Start 2 (EvFrame (Claim ["blog.relay.dev"] []))] ++
  acts 2 1 ++ acts 2 2 ++ acts 3 1 ++ acts 1 2 ++ [Reply_to 2] ++ acts 1 1 ++ [Reply_to 1; Exit 2].
Lemma both_claim_admitted : moves both_claim (init (race_relay None)) = Some (ends_in both_claim).
Proof. apply admitted. vm_compute. reflexivity. Qed.
Lemma any_interleaving_sound_witness :
  lookup_http (router_of (sys_world (ends_in both_claim))) "blog.relay.dev" = Some (mkHandle 1 1) /\
  router_wf (router_of (sys_world (ends_in both_claim))).
Proof.
  split; [vm_compute; reflexivity|].
  exact (proj1 (proj2 (any_interleaving_sound calm PolarDemo.say "1.0" true both_claim (race_relay None)
    (ends_in both_claim) (race_inv None) eq_refl both_claim_admitted))).
Defined.
Lemma both_claim_only : claim_only calm PolarDemo.say "1.0" true 1 both_claim (init (race_relay None)) = true.
Proof. vm_compute. reflexivity. Qed.
Lemma claims_race_free_witness :
  host_owner (sys_world (ends_in both_claim)) "blog.relay.dev" = Some 1.
Proof.
  refine (proj1 (claims_race_free calm PolarDemo.say "1.0" true 1 both_claim (race_relay None)
    (ends_in both_claim) (race_inv None) eq_refl eq_refl both_claim_only both_claim_admitted)
    "blog.relay.dev" (mkHandle 1 1) _ eq_refl).
  vm_compute. reflexivity.
Defined.

(** A claim of a host and a port with its calls made one by one. *)
Definition connected : System (Relay Seats) := ends_in (mat_joins 1 ++ eve_joins 2).
Lemma connected_admitted : moves (mat_joins 1 ++ eve_joins 2) (init (race_relay None)) = Some connected.
Proof. apply admitted. vm_compute. reflexivity. Qed.
Definition big_claim : Move := Start 1 (EvFrame (Claim ["blog.relay.dev"; "demo.relay.dev"] [20000])).
Definition claimed : System (Relay Seats) := default connected (moves (big_claim :: acts 6 1) connected).
Lemma claimed_admitted : moves (big_claim :: acts 6 1) connected = Some claimed.
Proof.
  assert (H : from_option (fun _ => true) false (moves (big_claim :: acts 6 1) connected) = true) by (vm_compute; reflexivity).
  unfold claimed. by destruct (System.moves _ _ _ _ (big_claim :: acts 6 1) connected).
Qed.
Lemma frame_work_bounded_witness : sum_list (acts_of 1 <$> acts 6 1) = 6%nat /\ (sum_list (acts_of 1 <$> acts 6 1) <= 778)%nat.
Proof.
  split; [reflexivity|].
  exact (frame_work_bounded calm PolarDemo.say "1.0" true (race_relay None) (mat_joins 1 ++ eve_joins 2) (acts 6 1) 1
    (Claim ["blog.relay.dev"; "demo.relay.dev"] [20000]) connected claimed connected_admitted claimed_admitted eq_refl).
Defined.

(** A run with each event at once, on a relay with the license gate. *)
Definition demo_hello (token : string) : AtomicMove :=
  AConnect (HsGot (Ok 1)) (HsGot (Ok (Hello (mkSecret token) "1.0" 1 3))).
Definition handover : list AtomicMove :=
  [demo_hello "etun_N"; demo_hello "wrong"; demo_hello "etun_Q";
   AEvent 1 (EvFrame (Claim ["demo.relay.dev"] [20000]));
   AEvent 3 (EvFrame (Claim ["demo.relay.dev"] [])); AEvent 1 EvTick;
   AEvent 1 (EvFrame (Release ["Demo.relay.dev"] [])); AEvent 3 (EvFrame (Claim ["demo.relay.dev"] []));
   AExit 1].
Definition handed_over : System (Relay Seats) := default gated (amoves handover gated).
Lemma handover_runs : amoves handover gated = Some handed_over.
Proof.
  assert (H : from_option (fun _ => true) false (amoves handover gated) = true) by (vm_compute; reflexivity).
  unfold handed_over. by destruct (System.amoves _ _ _ _ handover gated).
Qed.
Lemma served_by_live_owner_witness :
  exists l, sys_sessions handed_over !! 3 = Some l /\ l_handle l = mkHandle 3 2 /\
    host_owner (sys_world handed_over) "demo.relay.dev" = Some (Auth.user_id (l_user l)) /\ l_conn l = true.
Proof.
  assert (Hr : router_of (race_relay (Some PolarDemo.demo_policy)) = Router_new) by reflexivity.
  destruct (proj1 (served_by_live_owner calm PolarDemo.say "1.0" true handover (race_relay (Some PolarDemo.demo_policy))
    handed_over (race_inv _) Hr handover_runs) "demo.relay.dev" (mkHandle 3 2)) as (l & H1 & H2 & H3 & H4);
    [vm_compute; reflexivity|].
  exists l. split; [exact H1|]. split; [exact H2|]. split; [exact H3|]. apply H4. reflexivity.
Defined.
(** A late event does leak its route, with every event handled at once: the claim
    is read after the actor has exited, and the name leads to a dead connection. *)
Definition late_event : list AtomicMove :=
  [demo_hello "etun_N"; AExit 1; AEvent 1 (EvFrame (Claim ["demo.relay.dev"] []))].
Example late_event_leaks_route :
  late 1 late_event = true /\
  match amoves late_event gated with
  | Some s => lookup_http (router_of (sys_world s)) "demo.relay.dev" = Some (mkHandle 1 1) /\
              (l_conn <$> sys_sessions s !! 1) = Some false
  | None => False
  end.
Proof. vm_compute. split_and!; reflexivity. Qed.
Lemma atomic_runs_refined_witness :
  moves (schedules calm PolarDemo.say "1.0" true handover gated) gated = Some handed_over.
Proof. exact (atomic_runs_refined calm PolarDemo.say "1.0" true handover gated handed_over handover_runs). Defined.
(** The schedule really makes the calls: 60 steps for the nine moves. *)
Example handover_schedule : length (schedules calm PolarDemo.say "1.0" true handover gated) = 60%nat.
Proof. vm_compute. reflexivity. Qed.

(** ** Ports are not re-checked

    The operator takes a reserved port back while it is served: re-validation
    looks at hostnames only, so the session goes on and keeps the port. *)
Definition port_revoked : Sess (Relay Seats) :=
  mkSess (mkRelay (mkWorld (mkCache ∅ 0) (ValidateBudget_new 10 20 0) (0%nat, []) (Some apex)
            (run_reg apex (OpRemovePort 20000) race_conn)
            (claim (mkHandle 1 1) ["demo.relay.dev"] [20000] Router_new).1 []) None
            (Some (mkTcp (20000, 20100) {[20000]})) 0) [] 0.
Example revoked_port_still_routed :
  let (n, s') := revalidate calm PolarDemo.say 1 (mkAuthedUser 1 "mat") "etun_N" port_revoked in
  n = Continue /\ port_owner (world s') 20000 = None /\
  lookup_tcp (router_of (world s')) 20000 = Some (mkHandle 1 1).
Proof. vm_compute. split_and!; reflexivity. Qed.
