(* ===== verification/Control.v ===== *)
(** * The control side of a session (crates/relay/src/session.rs, router.rs)

    What surrounds the control loop of Session.v: the shared [SessionCtx] with
    its session ids, the bounded channel of control frames with its single
    writer task (Module [Ctrl]), and the terminal [deny].  Times are in
    milliseconds. *)
From S2P Require Import Prelude Limits Frames Codec Router Auth RateLimit Polar Session.
Local Open Scope Z_scope.

(** ** [SessionCtx] *)
Record SessionCtx (A : Type) := mkCtx {
  ctx_router : RouterInner;
  ctx_auth : A;
  ctx_server_version : string;
  ctx_tcp : option TcpPortManager;
  ctx_polar : option PolarPolicy;
  ctx_session_limiter : option ConnLimiter;
  ctx_revalidate_ms : Z;
  next_session_id : Z;
}.
Arguments mkCtx {A}.
Arguments ctx_router {A}.
Arguments ctx_auth {A}.
Arguments ctx_server_version {A}.
Arguments ctx_tcp {A}.
Arguments ctx_polar {A}.
Arguments ctx_session_limiter {A}.
Arguments ctx_revalidate_ms {A}.
Arguments next_session_id {A}.

(** [u64::saturating_mul]. *)
Definition u64_saturating_mul (a b : Z) : Z := Z.min u64_max (a * b).

Section ctx.
Context {A : Type}.
Implicit Type c : SessionCtx A.

Definition SessionCtx_new (router : RouterInner) (auth : A) (server_version : string) : SessionCtx A :=
  mkCtx router auth server_version None None None (TOKEN_REVALIDATE_INTERVAL * 1000) 1.
Definition set_session_limiter (limiter : ConnLimiter) c : SessionCtx A :=
  mkCtx (ctx_router c) (ctx_auth c) (ctx_server_version c) (ctx_tcp c) (ctx_polar c) (Some limiter)
    (ctx_revalidate_ms c) (next_session_id c).
Definition set_token_revalidate_interval_secs (secs : Z) c : SessionCtx A :=
  mkCtx (ctx_router c) (ctx_auth c) (ctx_server_version c) (ctx_tcp c) (ctx_polar c) (ctx_session_limiter c)
    (u64_saturating_mul secs 1000) (next_session_id c).
Definition token_revalidate_interval c : Z := ctx_revalidate_ms c.
Definition set_tcp (manager : TcpPortManager) c : SessionCtx A :=
  mkCtx (ctx_router c) (ctx_auth c) (ctx_server_version c) (Some manager) (ctx_polar c) (ctx_session_limiter c)
    (ctx_revalidate_ms c) (next_session_id c).
Definition set_polar (gate : PolarPolicy) c : SessionCtx A :=
  mkCtx (ctx_router c) (ctx_auth c) (ctx_server_version c) (ctx_tcp c) (Some gate) (ctx_session_limiter c)
    (ctx_revalidate_ms c) (next_session_id c).
(** [fetch_add] wraps at 64 bits. *)
Definition next_id c : Z * SessionCtx A :=
  (next_session_id c,
   mkCtx (ctx_router c) (ctx_auth c) (ctx_server_version c) (ctx_tcp c) (ctx_polar c) (ctx_session_limiter c)
     (ctx_revalidate_ms c) ((next_session_id c + 1) mod 2 ^ 64)).

(** The period of the re-validation ticker, and whether its branch is enabled. *)
Definition tick_period c : Z :=
  if decide (token_revalidate_interval c = 0) then 60 * 60 * 24 * 365 * 1000 else token_revalidate_interval c.
Definition revalidates c : bool := negb (bool_decide (token_revalidate_interval c = 0)).

(** What the relay does with the context while sessions come and go. *)
Inductive CtxOp :=
  | OpNextId
  | OpLimiter (l : ConnLimiter)
  | OpInterval (secs : Z)
  | OpTcp (m : TcpPortManager)
  | OpPolar (g : PolarPolicy).
Fixpoint ctx_run (ops : list CtxOp) c : list Z * SessionCtx A :=
  match ops with
  | [] => ([], c)
  | OpNextId :: rest => let (id, c1) := next_id c in let (ids, c2) := ctx_run rest c1 in (id :: ids, c2)
  | OpLimiter l :: rest => ctx_run rest (set_session_limiter l c)
  | OpInterval secs :: rest => ctx_run rest (set_token_revalidate_interval_secs secs c)
  | OpTcp m :: rest => ctx_run rest (set_tcp m c)
  | OpPolar g :: rest => ctx_run rest (set_polar g c)
  end.

Lemma ctx_run_ids (ops : list CtxOp) (c : SessionCtx A) (i : nat) (id : Z) :
  0 <= next_session_id c < 2 ^ 64 -> (ctx_run ops c).1 !! i = Some id ->
  id = (next_session_id c + Z.of_nat i) mod 2 ^ 64.
Proof using.
  revert c i. induction ops as [|[|l|secs|m|g] ops IH]; intros c i Hc; cbn [ctx_run];
    [done| |intros Hi; by apply IH in Hi..].
  cbn [next_id]. destruct (ctx_run ops _) as [ids c2] eqn:E. destruct i as [|i]; cbn.
  - intros [= <-]. rewrite Z.add_0_r, Z.mod_small; lia.
  - intros Hi. pose proof (f_equal fst E) as E1. cbn in E1. rewrite <- E1 in Hi.
    apply IH in Hi; [|apply Z.mod_pos_bound; lia]. rewrite Hi. cbn [next_session_id].
    rewrite Zplus_mod_idemp_l. f_equal. lia.
Qed.

(** Session ids are never reused: however the context's operations interleave,
    the ids handed out while the counter makes fewer than 2^64 steps are pairwise
    different, so the routing table, which knows a session by its id, never
    confuses two sessions. *)
Theorem session_ids_fresh (ops : list CtxOp) (c : SessionCtx A) (i j : nat) (a b : Z) :
  0 <= next_session_id c < 2 ^ 64 -> Z.of_nat (length (ctx_run ops c).1) <= 2 ^ 64 ->
  (ctx_run ops c).1 !! i = Some a -> (ctx_run ops c).1 !! j = Some b -> a = b -> i = j.
Proof using.
  intros Hc Hlen Hi Hj Hab. pose proof (lookup_lt_Some _ _ _ Hi). pose proof (lookup_lt_Some _ _ _ Hj).
  apply ctx_run_ids in Hi, Hj; [|done..]. subst a b.
  assert (Hd : (Z.of_nat i - Z.of_nat j) mod 2 ^ 64 = 0).
  { replace (Z.of_nat i - Z.of_nat j)
      with ((next_session_id c + Z.of_nat i) - (next_session_id c + Z.of_nat j)) by lia.
    by rewrite Zminus_mod, Hab, Z.sub_diag. }
  apply Z.mod_divide in Hd as [k Hk]; [|lia]. nia.
Qed.

(** The cadence of re-validation: what [serve] configures is what the loop uses,
    zero switches the branch off, and the product never overflows. *)
Theorem revalidate_cadence (secs : Z) (c : SessionCtx A) :
  0 <= secs <= u64_max ->
  let c' := set_token_revalidate_interval_secs secs c in
  revalidates c' = negb (bool_decide (secs = 0)) /\
  0 < tick_period c' <= u64_max /\ (0 < secs -> secs * 1000 <= u64_max -> tick_period c' = secs * 1000).
Proof using.
  intros Hs. cbv zeta.
  unfold revalidates, tick_period, token_revalidate_interval, set_token_revalidate_interval_secs, u64_saturating_mul, u64_max in *.
  cbn [ctx_revalidate_ms]. split_and!.
  - repeat case_bool_decide; lia || done.
  - case_decide; lia.
  - case_decide; lia.
  - intros ??. case_decide; lia.
Qed.
End ctx.

Definition ctx0 : SessionCtx unit := SessionCtx_new Router_new () "1".
Lemma session_ids_fresh_witness :
  (ctx_run [OpNextId; OpInterval 0; OpNextId] ctx0).1 = [1; 2] /\ (1 = 2 -> 0%nat = 1%nat).
Proof.
  split; [reflexivity|].
  apply (session_ids_fresh [OpNextId; OpInterval 0; OpNextId] ctx0 0 1 1 2); cbn; try done; lia.
Defined.
Lemma revalidate_cadence_witness :
  revalidates (set_token_revalidate_interval_secs 0 ctx0) = false /\
  0 < tick_period (set_token_revalidate_interval_secs 0 ctx0) <= u64_max.
Proof.
  destruct (revalidate_cadence 0 ctx0) as (H1 & H2 & _); [unfold u64_max; lia|]. split; [exact H1|exact H2].
Defined.

(** ** The control channel and its writer task

    [mpsc::channel(64)]: the control task sends with [push], which waits for a
    slot; everyone else (supersession and eviction notices) with [send_ctrl],
    which drops the frame when there is none.  A slot freed while a [push] waits
    is reserved for it.  The writer task takes one frame at a time. *)
Module Ctrl.
Definition CAPACITY : nat := 64.
Definition CTRL_SEND_TIMEOUT : Z := 15 * 1000.
Definition WRITE_TIMEOUT : Z := 30 * 1000.

Inductive WriterTask := Idle | Writing (f : ControlFrame) (since : Z) | Ended.
#[global] Arguments CAPACITY : simpl never.
(** [waiter]: the frame a [push] waits with, since when, and whether a slot is
    reserved for it.  [accepted], [written] and [pushed] record the history: the
    frames the channel took ([true]: from [push]), the frames written in full, and
    the answers of [push]. *)
Record St := mkSt {
  queue : list ControlFrame;
  waiter : option (ControlFrame * Z * bool);
  wtask : WriterTask;
  wire : writer;
  cancelled : bool;
  control_running : bool;
  accepted : list (bool * ControlFrame);
  written : list ControlFrame;
  pushed : list (ControlFrame * bool);
}.
Definition new (w : writer) : St := mkSt [] None Idle w false true [] [] [].

Inductive Event :=
  | EvTrySend (f : ControlFrame)
  | EvPush (f : ControlFrame)
  | EvResume                      (* the waiting [push] is polled again *)
  | EvPushTimeout
  | EvRecv
  | EvWritten
  | EvWriteTimeout (k : nat)      (* [k] bytes of the frame had gone out *)
  | EvControlDone
  | EvSendersGone.

Definition is_ended (t : WriterTask) : bool := match t with Ended => true | _ => false end.
Definition reserved (s : St) : nat := match waiter s with Some (_, _, true) => 1 | _ => 0 end.
Definition is_full (s : St) : bool := (CAPACITY <=? length (queue s) + reserved s)%nat.

Definition enqueue (by_push : bool) (f : ControlFrame) (s : St) : St :=
  mkSt (queue s ++ [f]) (waiter s) (wtask s) (wire s) (cancelled s) (control_running s)
    (accepted s ++ [(by_push, f)]) (written s) (pushed s).
Definition set_waiter (x : option (ControlFrame * Z * bool)) (s : St) : St :=
  mkSt (queue s) x (wtask s) (wire s) (cancelled s) (control_running s) (accepted s) (written s) (pushed s).
(** [push] returns. *)
Definition answer (f : ControlFrame) (ok : bool) (s : St) : St :=
  mkSt (queue s) None (wtask s) (wire s) (cancelled s) (control_running s) (accepted s) (written s)
    (pushed s ++ [(f, ok)]).
(** The writer leaves its loop: the receiver is dropped with what it holds. *)
Definition end_writer (w : writer) (s : St) : St :=
  mkSt [] (waiter s) Ended w true (control_running s) (accepted s) (written s) (pushed s).

Section ctrl.
Context `{!Wire ControlFrame}.

Definition send_ctrl (f : ControlFrame) (s : St) : St :=
  if is_ended (wtask s) || is_full s then s else enqueue false f s.

Definition push_start (t : Z) (f : ControlFrame) (s : St) : St :=
  if is_ended (wtask s) then answer f false s
  else if is_full s then set_waiter (Some (f, t, false)) s
  else answer f true (enqueue true f s).
Definition push_resume (s : St) : option St :=
  '(f, _, slot) ← waiter s;
  if is_ended (wtask s) then Some (answer f false s)
  else if (slot : bool) then Some (answer f true (enqueue true f s))
  else None.
Definition push_timeout (t : Z) (s : St) : option St :=
  '(f, t0, slot) ← waiter s;
  if is_ended (wtask s) || slot then None
  else if t0 + CTRL_SEND_TIMEOUT <=? t then Some (answer f false s) else None.

(** The writer task: [recv] hands the freed slot to a waiting [push]. *)
Definition writer_recv (t : Z) (s : St) : option St :=
  match wtask s, queue s with
  | Idle, f :: q =>
      Some (mkSt q ((fun x => (fst x, true)) <$> waiter s) (Writing f t) (wire s) (cancelled s)
              (control_running s) (accepted s) (written s) (pushed s))
  | _, _ => None
  end.
Definition writer_written (s : St) : option St :=
  match wtask s with
  | Writing f _ =>
      match write_frame f MAX_CONTROL_FRAME (wire s) with
      | (Ok _, w') => Some (mkSt (queue s) (waiter s) Idle w' (cancelled s) (control_running s) (accepted s)
                             (written s ++ [f]) (pushed s))
      | (Err _, w') => Some (end_writer w' s)
      end
  | _ => None
  end.
Definition cut_writer (k : nat) (w w' : writer) : writer :=
  mkWriter (take (length (Codec.w_sent w) + k) (Codec.w_sent w')) (w_room w') (w_flush_ok w').
Definition writer_timeout (t : Z) (k : nat) (s : St) : option St :=
  match wtask s with
  | Writing f t0 =>
      if t0 + WRITE_TIMEOUT <=? t
      then Some (end_writer (cut_writer k (wire s) (write_frame f MAX_CONTROL_FRAME (wire s)).2) s)
      else None
  | _ => None
  end.

(** The end of [control_task], which [spawn_control] follows by a cancellation
    whatever it returned, and the end of the channel once no sender is left. *)
Definition control_done (s : St) : St :=
  mkSt (queue s) (waiter s) (wtask s) (wire s) true false (accepted s) (written s) (pushed s).

Definition step (t : Z) (ev : Event) (s : St) : option St :=
  match ev with
  | EvTrySend f => Some (send_ctrl f s)
  | EvPush f =>
      match waiter s with
      | None => if control_running s then Some (push_start t f s) else None
      | Some _ => None
      end
  | EvResume => push_resume s
  | EvPushTimeout => push_timeout t s
  | EvRecv => writer_recv t s
  | EvWritten => writer_written s
  | EvWriteTimeout k => writer_timeout t k s
  | EvControlDone => match waiter s with
                     | None => if control_running s then Some (control_done s) else None
                     | Some _ => None
                     end
  | EvSendersGone =>
      match wtask s, queue s with
      | Idle, [] => if control_running s then None else Some (end_writer (wire s) s)
      | _, _ => None
      end
  end.

(** The two armed timers.  Tokio wakes a task when its timer is due: the waiting
    [push] is then polled, its send first and its deadline after
    ([tokio::time::timeout]); the writer finds its frame not written, [cut] bytes
    of it being out.  What the task does when it is woken is its own code. *)
Context (cut : Z -> nat).
Definition push_deadline (s : St) : option Z :=
  (fun x : ControlFrame * Z * bool => x.1.2 + CTRL_SEND_TIMEOUT) <$> waiter s.
Definition writer_deadline (s : St) : option Z :=
  match wtask s with Writing _ t0 => Some (t0 + WRITE_TIMEOUT) | _ => None end.
Definition poll_push (t : Z) (s : St) : St :=
  match push_resume s with Some s' => s' | None => default s (push_timeout t s) end.
Definition poll_writer (t : Z) (s : St) : St := default s (writer_timeout t (cut t) s).

(** The timers that fell due before [t] and were not served by an event, the
    earlier one first. *)
Definition wake_push (t : Z) (s : St) : St :=
  match push_deadline s with Some d => if d <? t then poll_push d s else s | None => s end.
Definition wake_writer (t : Z) (s : St) : St :=
  match writer_deadline s with Some d => if d <? t then poll_writer d s else s | None => s end.
Definition wake (t : Z) (s : St) : St :=
  match push_deadline s, writer_deadline s with
  | Some d, Some d' => if d <=? d' then wake_writer t (wake_push t s) else wake_push t (wake_writer t s)
  | _, _ => wake_writer t (wake_push t s)
  end.

(** Runs: the clock does not go back, any event may come at any time, and what
    fell due in between is woken before it. *)
Fixpoint run (evs : list (Z * Event)) (now : Z) (s : St) : option (Z * St) :=
  match evs with
  | [] => Some (now, s)
  | (t, ev) :: rest =>
      if now <=? t then s' ← step t ev (wake t s); run rest t s' else None
  end.

(** Waking is a sequence of at most two steps of the tasks. *)
Definition wakes (ev : Event) : bool :=
  match ev with EvResume | EvPushTimeout | EvWriteTimeout _ => true | _ => false end.
Definition stable (P : St -> Prop) : Prop :=
  forall t ev s s', wakes ev = true -> step t ev s = Some s' -> P s -> P s'.
Lemma poll_push_stable (P : St -> Prop) (t : Z) (s : St) : stable P -> P s -> P (poll_push t s).
Proof using.
  intros HP Hs. unfold poll_push. destruct (push_resume s) as [s'|] eqn:E.
  - by apply (HP t EvResume s s').
  - destruct (push_timeout t s) as [s'|] eqn:E'; [|done]. by apply (HP t EvPushTimeout s s').
Qed.
Lemma poll_writer_stable (P : St -> Prop) (t : Z) (s : St) : stable P -> P s -> P (poll_writer t s).
Proof using.
  intros HP Hs. unfold poll_writer. destruct (writer_timeout t (cut t) s) as [s'|] eqn:E; [|done].
  by apply (HP t (EvWriteTimeout (cut t)) s s').
Qed.
Lemma wake_push_stable (P : St -> Prop) (t : Z) (s : St) : stable P -> P s -> P (wake_push t s).
Proof using.
  intros HP Hs. unfold wake_push. destruct (push_deadline s); [|done]. destruct (_ <? _); [|done].
  by apply poll_push_stable.
Qed.
Lemma wake_writer_stable (P : St -> Prop) (t : Z) (s : St) : stable P -> P s -> P (wake_writer t s).
Proof using.
  intros HP Hs. unfold wake_writer. destruct (writer_deadline s); [|done]. destruct (_ <? _); [|done].
  by apply poll_writer_stable.
Qed.
Lemma wake_stable (P : St -> Prop) (t : Z) (s : St) : stable P -> P s -> P (wake t s).
Proof using.
  intros HP Hs.
  assert (Hpw : P (wake_writer t (wake_push t s))) by (by apply wake_writer_stable, wake_push_stable).
  assert (Hwp : P (wake_push t (wake_writer t s))) by (by apply wake_push_stable, wake_writer_stable).
  unfold wake. destruct (push_deadline s), (writer_deadline s); try done. by destruct (_ <=? _).
Qed.
End ctrl.

(** ** The invariant *)
Definition in_flight (t : WriterTask) : list ControlFrame := match t with Writing f _ => [f] | _ => [] end.
Definition push_order (l : list (bool * ControlFrame)) : list ControlFrame :=
  snd <$> filter (fun x => fst x = true) l.
Definition confirmed (l : list (ControlFrame * bool)) : list ControlFrame :=
  fst <$> filter (fun x => snd x = true) l.
(** Reading [bs] gives the frames [fs] and then leaves [tail]. *)
Definition decodes `{!Wire ControlFrame} (bs : list byte) (fs : list ControlFrame) (tail : list byte) : Prop :=
  forall rest, read_frames (length fs) MAX_CONTROL_FRAME (bs ++ rest) = (Ok fs, tail ++ rest).
Record inv `{!Wire ControlFrame} (s : St) : Prop := {
  inv_cap : (length (queue s) + reserved s <= CAPACITY)%nat;
  inv_fifo : wtask s <> Ended -> (accepted s).*2 = written s ++ in_flight (wtask s) ++ queue s;
  inv_prefix : written s `prefix_of` (accepted s).*2;
  inv_push : push_order (accepted s) = confirmed (pushed s);
  inv_wire : exists tail, decodes (Codec.w_sent (wire s)) (written s) tail /\
    (wtask s <> Ended -> tail = []);
  inv_end : wtask s = Ended -> cancelled s = true /\ queue s = [];
  inv_wait : forall f t, waiter s = Some (f, t, false) -> wtask s <> Ended -> is_full s = true;
}.

Lemma push_order_snoc (l : list (bool * ControlFrame)) (b : bool) (f : ControlFrame) :
  push_order (l ++ [(b, f)]) = push_order l ++ (if b then [f] else []).
Proof. unfold push_order. rewrite filter_app, fmap_app. by destruct b. Qed.
Lemma confirmed_snoc (l : list (ControlFrame * bool)) (f : ControlFrame) (b : bool) :
  confirmed (l ++ [(f, b)]) = confirmed l ++ (if b then [f] else []).
Proof. unfold confirmed. rewrite filter_app, fmap_app. by destruct b. Qed.

Lemma write_all_extends (bs : list byte) (w : writer) :
  exists x, Codec.w_sent (write_all bs w).2 = Codec.w_sent w ++ x.
Proof. unfold write_all. split_matches; cbn; eauto. Qed.
Lemma write_frame_extends `{!Wire ControlFrame} (f : ControlFrame) (max : Z) (w : writer) :
  exists x, Codec.w_sent (write_frame f max w).2 = Codec.w_sent w ++ x.
Proof.
  unfold write_frame. destruct (to_stdvec f) as [bytes|]; [|exists []; by rewrite app_nil_r].
  case_decide; [exists []; by rewrite app_nil_r|]. unfold mbind, st_bind.
  set (hd := to_le_bytes 4 _). destruct (write_all_extends hd w) as [x Hx].
  destruct (write_all hd w) as [[[]|e] w1]; [|by exists x].
  destruct (write_all_extends bytes w1) as [y Hy]. cbn [snd] in *.
  exists (x ++ y). rewrite app_assoc, <- Hx, <- Hy.
  destruct (write_all bytes w1) as [[[]|e] w2]; [|done]. unfold flush. by destruct (w_flush_ok w2).
Qed.

Lemma read_frames_app `{!Wire ControlFrame} (n m : nat) (max : Z) (r r1 r2 : list byte) (fs gs : list ControlFrame) :
  read_frames n max r = (Ok fs, r1) -> read_frames m max r1 = (Ok gs, r2) ->
  read_frames (n + m) max r = (Ok (fs ++ gs), r2).
Proof.
  revert r fs. induction n as [|n IH]; intros r fs; cbn [read_frames Nat.add].
  - by intros [= <- <-].
  - intros H1 H2. run_ok H1. run_ok H1. injection H1 as <- <-.
    unfold mbind, st_bind. rewrite E. by rewrite (IH _ _ E0 H2).
Qed.
Lemma decodes_snoc `{!Wire ControlFrame, !WireLaw ControlFrame} (f : ControlFrame) (fs : list ControlFrame) (w w' : writer) :
  decodes (Codec.w_sent w) fs [] -> write_frame f MAX_CONTROL_FRAME w = (Ok (), w') ->
  decodes (Codec.w_sent w') (fs ++ [f]) [].
Proof.
  intros Hd Hw rest. apply write_frame_Ok in Hw as (bytes & Hx & Hlen & ->); [|done].
  rewrite length_app, <- app_assoc. eapply read_frames_app; [apply Hd|]. cbn [read_frames length].
  unfold mbind, st_bind. rewrite app_nil_l. by rewrite (read_frame_bytes f) by done.
Qed.
Lemma decodes_app `{!Wire ControlFrame} (fs : list ControlFrame) (bs x : list byte) :
  decodes bs fs [] -> decodes (bs ++ x) fs x.
Proof. intros Hd rest. by rewrite <- app_assoc, Hd. Qed.

Section preserved.
Context `{!Wire ControlFrame, !WireLaw ControlFrame}.

Ltac fields :=
  cbn [queue waiter wtask wire cancelled control_running accepted written pushed
       new enqueue set_waiter answer end_writer control_done in_flight].
Lemma is_full_false (s : St) : is_full s = false -> (length (queue s) + reserved s < CAPACITY)%nat.
Proof using. unfold is_full. by intros ?%Nat.leb_gt. Qed.
Lemma is_full_true (s : St) : is_full s = true <-> (CAPACITY <= length (queue s) + reserved s)%nat.
Proof using. apply Nat.leb_le. Qed.
Lemma inv_new (w : writer) : Codec.w_sent w = [] -> inv (new w).
Proof using.
  intros Hw. split; fields; try done; [cbn; unfold CAPACITY; lia|]. exists []. split; [|done].
  intros rest. by rewrite Hw.
Qed.
(** A frame enters the channel, from [send_ctrl] or with the answer of [push]. *)
Lemma inv_send (f : ControlFrame) (s : St) : inv s -> is_ended (wtask s) = false -> is_full s = false -> inv (enqueue false f s).
Proof using.
  intros [Hc Hf Hp Ho Hw He Hwt] Hne Hfull%is_full_false. split; fields; try done.
  - rewrite length_app. unfold reserved in *. cbn in *. lia.
  - intros Hn. by rewrite fmap_app, (Hf Hn), <- !app_assoc.
  - rewrite fmap_app. by apply prefix_app_r.
  - by rewrite push_order_snoc, app_nil_r.
  - intros H0. by rewrite H0 in Hne.
  - intros g t Hg Hn. specialize (Hwt g t Hg Hn). apply is_full_true in Hwt. lia.
Qed.
Lemma inv_pushed (f : ControlFrame) (s : St) :
  inv s -> is_ended (wtask s) = false -> (is_full s = false /\ waiter s = None \/ reserved s = 1%nat) ->
  inv (answer f true (enqueue true f s)).
Proof using.
  intros [Hc Hf Hp Ho Hw He Hwt] Hne Hroom. split; fields; try done.
  - rewrite length_app. destruct Hroom as [[Hfull%is_full_false Hn]|Hr]; unfold reserved in *; cbn in *.
    + rewrite Hn in *. lia.
    + rewrite Hr in Hc. lia.
  - intros Hn. by rewrite fmap_app, (Hf Hn), <- !app_assoc.
  - rewrite fmap_app. by apply prefix_app_r.
  - by rewrite push_order_snoc, confirmed_snoc, Ho.
  - intros H0. by rewrite H0 in Hne.
Qed.
Lemma inv_refused (f : ControlFrame) (s : St) : inv s -> inv (answer f false s).
Proof using.
  intros [Hc Hf Hp Ho Hw He Hwt]. split; fields; try done.
  - unfold reserved in *. cbn. lia.
  - by rewrite confirmed_snoc, app_nil_r.
Qed.
Lemma inv_wait_start (f : ControlFrame) (t : Z) (s : St) :
  inv s -> waiter s = None -> is_full s = true -> inv (set_waiter (Some (f, t, false)) s).
Proof using.
  intros [Hc Hf Hp Ho Hw He Hwt] Hn Hfull. split; fields; try done.
  - unfold reserved in *. cbn. lia.
  - intros _ _ _ _. unfold is_full, reserved in *. cbn. by rewrite Hn in Hfull.
Qed.
Lemma inv_end_writer (w : writer) (x : list byte) (s : St) :
  inv s -> wtask s <> Ended -> Codec.w_sent w = Codec.w_sent (wire s) ++ x -> inv (end_writer w s).
Proof using.
  intros [Hc Hf Hp Ho (tail & Hd & Ht) He Hwt] Hne Hx. split; fields; try done.
  - unfold reserved in *. cbn. lia.
  - exists x. split; [|done]. rewrite Hx. apply decodes_app. by rewrite (Ht Hne) in Hd.
Qed.
Lemma inv_recv (t : Z) (s s' : St) : inv s -> writer_recv t s = Some s' -> inv s'.
Proof using.
  unfold writer_recv. intros [Hc Hf Hp Ho Hw He Hwt]. destruct (wtask s) eqn:Ew; [|done..].
  destruct (queue s) as [|f q] eqn:Eq; [done|]. intros [= <-]. split; fields; try done.
  - unfold reserved in *. cbn in *. destruct (waiter s) as [[[g t0] []]|]; cbn in *; lia.
  - intros _. by rewrite (Hf ltac:(done)).
  - destruct Hw as (tail & Hd & Ht). exists tail. split; [done|]. intros _. by apply Ht.
  - intros g t0. destruct (waiter s) as [[[h t1] b]|]; by intros [=].
Qed.
Lemma inv_written (s s' : St) : inv s -> writer_written s = Some s' -> inv s'.
Proof using WireLaw0.
  intros Hi. unfold writer_written. destruct (wtask s) as [|f t0|] eqn:Ew; [done| |done].
  destruct (write_frame f _ (wire s)) as [[[]|e] w'] eqn:E; intros [= <-].
  - destruct Hi as [Hc Hf Hp Ho (tail & Hd & Ht) He Hwt]. rewrite Ew in *.
    pose proof (Ht ltac:(done)) as ->. split; fields; try done.
    + intros _. by rewrite (Hf ltac:(done)), <- app_assoc.
    + rewrite (Hf ltac:(done)). rewrite app_assoc. by apply prefix_app_r.
    + exists []. split; [|done]. by apply (decodes_snoc f _ (wire s)).
    + intros g t Hg _. by apply (Hwt g t).
  - destruct (write_frame_extends f MAX_CONTROL_FRAME (wire s)) as [x Hx]. rewrite E in Hx.
    apply (inv_end_writer _ x); [done| |done]. by rewrite Ew.
Qed.
Lemma inv_write_timeout (t : Z) (k : nat) (s s' : St) : inv s -> writer_timeout t k s = Some s' -> inv s'.
Proof using.
  intros Hi. unfold writer_timeout. destruct (wtask s) as [|f t0|] eqn:Ew; [done| |done].
  destruct (_ <=? _); [|done]. intros [= <-].
  destruct (write_frame_extends f MAX_CONTROL_FRAME (wire s)) as [x Hx].
  apply (inv_end_writer _ (take k x)); [done|by rewrite Ew|]. cbn. by rewrite Hx, take_app_add.
Qed.
Lemma inv_push_start (t : Z) (f : ControlFrame) (s : St) : inv s -> waiter s = None -> inv (push_start t f s).
Proof using.
  intros Hi Hn. unfold push_start. destruct (is_ended (wtask s)) eqn:E; [by apply inv_refused|].
  destruct (is_full s) eqn:F; [by apply inv_wait_start|]. apply inv_pushed; eauto.
Qed.
Lemma inv_push_resume (s s' : St) : inv s -> push_resume s = Some s' -> inv s'.
Proof using.
  intros Hi. unfold push_resume. destruct (waiter s) as [[[f t0] slot]|] eqn:Ew; [|done]. cbn.
  destruct (is_ended (wtask s)) eqn:E; [intros [= <-]; by apply inv_refused|].
  destruct slot; [|done]. intros [= <-]. apply inv_pushed; [done..|]. right. unfold reserved. by rewrite Ew.
Qed.
Lemma inv_step (t : Z) (ev : Event) (s s' : St) : inv s -> step t ev s = Some s' -> inv s'.
Proof using WireLaw0.
  intros Hi. destruct ev as [f|f| | | | |k| |]; cbn [step].
  - intros [= <-]. unfold send_ctrl. destruct (is_ended (wtask s)) eqn:E; [done|].
    destruct (is_full s) eqn:F; [done|]. by apply inv_send.
  - destruct (waiter s) eqn:Ew; [done|]. destruct (control_running s); [|done]. intros [= <-].
    by apply inv_push_start.
  - by apply inv_push_resume.
  - unfold push_timeout. destruct (waiter s) as [[[f t0] slot]|] eqn:Ew; [|done]. cbn.
    destruct (_ || _); [done|]. destruct (_ <=? _); [|done]. intros [= <-]. by apply inv_refused.
  - by apply inv_recv.
  - by apply inv_written.
  - by apply inv_write_timeout.
  - destruct (waiter s) eqn:Ew; [done|]. destruct (control_running s); [|done]. intros [= <-].
    destruct Hi. split; cbn; naive_solver.
  - destruct (wtask s) eqn:Ew; [|done..]. destruct (queue s); [|done].
    destruct (control_running s); [done|]. intros [= <-].
    apply (inv_end_writer _ []); [done|by rewrite Ew|by rewrite app_nil_r].
Qed.
Lemma inv_run (cut : Z -> nat) (evs : list (Z * Event)) (now t : Z) (s s' : St) :
  inv s -> run cut evs now s = Some (t, s') -> inv s'.
Proof using WireLaw0.
  revert now s. induction evs as [|[t1 ev] evs IH]; intros now s Hi; cbn [run].
  - by intros [= _ <-].
  - destruct (_ <=? _); [|done]. intros (s1 & Hs & Hr)%bind_Some. apply (IH t1 s1); [|done].
    eapply inv_step; [|exact Hs]. apply wake_stable; [|done]. intros ?????. eauto using inv_step.
Qed.
End preserved.

(** ** The channel implements the session's [push]

    Session.v answers its sends from an oracle, [stalls].  [oracle s] is the one a
    run of the channel gives; [replay] makes the session's sends with it. *)
Definition oracle (s : St) (n : nat) : bool :=
  match pushed s !! n with Some (_, ok) => negb ok | None => false end.
Fixpoint replay {W : Type} (stalls : nat -> bool) (fs : list ControlFrame) (x : Sess W) : list bool * Sess W :=
  match fs with
  | [] => ([], x)
  | f :: rest => let (ok, x1) := push stalls f x in
                 let (oks, x2) := replay stalls rest x1 in (ok :: oks, x2)
  end.
Lemma replay_oracle {W : Type} (s : St) (l : list (ControlFrame * bool)) (x : Sess W) :
  (forall i y, l !! i = Some y -> pushed s !! (sends x + i)%nat = Some y) ->
  replay (oracle s) l.*1 x = (l.*2, mkSess (world x) (out x ++ confirmed l) (sends x + length l)).
Proof.
  revert x. induction l as [|[f ok] l IH]; intros x Hl; cbn [replay fmap list_fmap fst snd length].
  - destruct x. by rewrite app_nil_r, Nat.add_0_r.
  - assert (Hor : oracle s (sends x) = negb ok).
    { unfold oracle. rewrite <- (Nat.add_0_r (sends x)). by rewrite (Hl 0%nat (f, ok) eq_refl). }
    assert (Hrest : forall i y, l !! i = Some y -> pushed s !! (S (sends x) + i)%nat = Some y).
    { intros i y Hi. rewrite Nat.add_succ_comm. by apply (Hl (S i)). }
    change (confirmed ((f, ok) :: l)) with (confirmed ([(f, ok)] ++ l)).
    unfold confirmed. rewrite filter_app, fmap_app. fold (confirmed l).
    unfold push. rewrite Hor. destruct ok; cbn [negb]; rewrite IH by exact Hrest; cbn [world out sends];
      rewrite Nat.add_succ_comm; [by rewrite <- app_assoc|done].
Qed.
Lemma push_order_prefix (l k : list (bool * ControlFrame)) :
  l `prefix_of` k -> push_order l `prefix_of` push_order k.
Proof. intros [j ->]. unfold push_order. rewrite filter_app, fmap_app. by apply prefix_app_r. Qed.

Section theorems.
Context `{!Wire ControlFrame, !WireLaw ControlFrame}.

(** C16 The control channel implements the session's [push] and delivers in order.
    In every run of the channel (senders, a full queue, timeouts, a failing or
    stalled wire): the session's sends, replayed with the channel's answers, are
    answered the same way; the frames they put out are exactly those the channel
    took from [push], in order; the daemon reads from the wire a prefix of the
    frames the channel took, whole and in order, and so never a frame the session
    did not confirm; the queue holds at most 64; and while the writer lives no
    frame is lost: what was taken is on the wire, being written, or queued. *)
Theorem channel_refines_push {W : Type} (cut : Z -> nat) (world0 : W) (evs : list (Z * Event)) (w : writer) (t0 t : Z) (s : St) :
  Codec.w_sent w = [] -> run cut evs t0 (new w) = Some (t, s) ->
  let (oks, sess) := replay (oracle s) (pushed s).*1 (mkSess world0 [] 0) in
  oks = (pushed s).*2 /\ out sess = push_order (accepted s) /\ (length (queue s) <= CAPACITY)%nat /\
  exists delivered rest,
    read_frames (length delivered) MAX_CONTROL_FRAME (Codec.w_sent (wire s)) = (Ok delivered.*2, rest) /\
    delivered `prefix_of` accepted s /\ push_order delivered `prefix_of` out sess /\
    (wtask s <> Ended -> rest = [] /\ (accepted s).*2 = delivered.*2 ++ in_flight (wtask s) ++ queue s).
Proof using WireLaw0.
  intros Hw Hrun. pose proof (inv_run cut evs t0 t (new w) s (inv_new w Hw) Hrun) as [Hc Hf Hp Ho (tail & Hd & Ht) _ _].
  rewrite replay_oracle by (by intros i y). cbn [out world sends app]. rewrite <- Ho.
  split; [done|]. split; [done|]. split; [unfold reserved in Hc; lia|].
  exists (take (length (written s)) (accepted s)), tail.
  assert (Hdel : (take (length (written s)) (accepted s)).*2 = written s).
  { destruct Hp as [k Hk]. by rewrite fmap_take, Hk, take_app_length. }
  assert (Hlen : length (take (length (written s)) (accepted s)) = length (written s)).
  { by rewrite <- (length_fmap snd), Hdel. }
  rewrite Hdel, Hlen. split; [|split; [|split]].
  - specialize (Hd []). by rewrite !app_nil_r in Hd.
  - by apply prefix_take.
  - apply push_order_prefix. by apply prefix_take.
  - intros Hn. split; [by apply Ht|]. by apply Hf.
Qed.

(** ** Stalls are bounded *)
Lemma step_writing (t : Z) (ev : Event) (f : ControlFrame) (t0 : Z) (s s' : St) :
  wtask s = Writing f t0 -> ev <> EvWritten -> step t ev s = Some s' ->
  wtask s' = Writing f t0 \/ wtask s' = Ended /\ cancelled s' = true.
Proof using.
  intros Hw Hne. destruct ev as [g|g| | | | |k| |]; cbn [step]; unfold push_resume, push_timeout, writer_recv, writer_timeout;
    rewrite ?Hw; cbn [is_ended]; try done.
  - intros [= <-]. unfold send_ctrl. rewrite Hw. cbn [is_ended orb]. destruct (is_full s); cbn; eauto.
  - destruct (waiter s); [done|]. destruct (control_running s); [|done]. intros [= <-].
    unfold push_start. rewrite Hw. cbn [is_ended orb]. destruct (is_full s); cbn; eauto.
  - destruct (waiter s) as [[[g t1] []]|]; cbn; [|done..]. intros [= <-]. cbn; eauto.
  - destruct (waiter s) as [[[g t1] []]|]; cbn; [done| |done]. destruct (_ <=? _); [|done]. intros [= <-]. cbn; eauto.
  - destruct (_ <=? _); [|done]. intros [= <-]. cbn; eauto.
  - destruct (waiter s); [done|]. destruct (control_running s); [|done]. intros [= <-]. cbn; eauto.
Qed.
Lemma step_ended (t : Z) (ev : Event) (s s' : St) :
  wtask s = Ended -> cancelled s = true -> step t ev s = Some s' -> wtask s' = Ended /\ cancelled s' = true.
Proof using.
  intros Hw Hc. destruct ev as [g|g| | | | |k| |]; cbn [step];
    unfold push_resume, push_timeout, writer_recv, writer_written, writer_timeout, send_ctrl, push_start;
    rewrite ?Hw; cbn [is_ended orb]; try done.
  - by intros [= <-].
  - destruct (waiter s); [done|]. destruct (control_running s); [|done]. by intros [= <-].
  - destruct (waiter s) as [[[g t1] b]|]; cbn; [|done]. by intros [= <-].
  - by destruct (waiter s) as [[[g t1] b]|].
  - destruct (waiter s); [done|]. destruct (control_running s); [|done]. by intros [= <-].
Qed.
Definition closed (s : St) : Prop := wtask s = Ended /\ cancelled s = true.
Lemma closed_stable : stable closed.
Proof using. intros t ev s s' _ Hs [Hw Hc]. by apply (step_ended t ev s s'). Qed.
Lemma run_ended (cut : Z -> nat) (evs : list (Z * Event)) (now t : Z) (s s' : St) :
  closed s -> run cut evs now s = Some (t, s') -> closed s'.
Proof using.
  revert now s. induction evs as [|[t1 ev] evs IH]; intros now s Hc; cbn [run].
  - by intros [= _ <-].
  - destruct (_ <=? _); [|done]. intros (s1 & Hs & Hr)%bind_Some. apply (IH t1 s1); [|done].
    destruct (wake_stable cut closed t1 s closed_stable Hc) as [H1 H2]. by apply (step_ended t1 ev (wake cut t1 s)).
Qed.
Lemma step_waiting (t : Z) (ev : Event) (x : ControlFrame * Z) (b : bool) (s s' : St) :
  waiter s = Some (x, b) -> step t ev s = Some s' ->
  (exists b', waiter s' = Some (x, b') /\ pushed s' = pushed s) \/
  exists ok, pushed s' = pushed s ++ [(fst x, ok)].
Proof using.
  destruct x as [f t0]. intros Hw.
  destruct ev as [g|g| | | | |k| |]; cbn [step];
    unfold push_resume, push_timeout, writer_recv, writer_written, writer_timeout, send_ctrl; rewrite ?Hw; cbn; try done.
  - intros [= <-]. destruct (_ || _); cbn; eauto.
  - destruct (is_ended _); [intros [= <-]; cbn; eauto|]. destruct b; [|done]. intros [= <-]. cbn. eauto.
  - destruct (_ || _); [done|]. destruct (_ <=? _); [|done]. intros [= <-]. cbn. eauto.
  - destruct (wtask s); [|done..]. destruct (queue s); [done|]. intros [= <-]. cbn. eauto.
  - destruct (wtask s); [done| |done]. destruct (write_frame _ _ _) as [[] w']; intros [= <-]; cbn; eauto.
  - destruct (wtask s); [done| |done]. destruct (_ <=? _); [|done]. intros [= <-]. cbn. eauto.
  - destruct (wtask s); [|done..]. destruct (queue s); [|done]. destruct (control_running s); [done|].
    intros [= <-]. cbn. eauto.
Qed.
(** The writer on a frame: waking before the deadline leaves it there, waking
    after it ends the session. *)
Definition writing_or_closed (f : ControlFrame) (t0 : Z) (s : St) : Prop :=
  wtask s = Writing f t0 \/ closed s.
Lemma writing_stable (f : ControlFrame) (t0 : Z) : stable (writing_or_closed f t0).
Proof using.
  intros t ev s s' Hev Hs [Hw|Hc]; [|right; by eapply closed_stable].
  apply (step_writing t ev f t0 s s' Hw); [|done]. by intros ->.
Qed.
Lemma wake_writer_due (cut : Z -> nat) (f : ControlFrame) (t0 t : Z) (s : St) :
  writing_or_closed f t0 s -> t0 + WRITE_TIMEOUT < t -> closed (wake_writer cut t s).
Proof using.
  intros [Hw|Hc] Ht; [|apply wake_writer_stable; [exact closed_stable|done]].
  unfold wake_writer, writer_deadline, poll_writer, writer_timeout. rewrite Hw.
  assert ((t0 + WRITE_TIMEOUT <? t) = true) as -> by lia. rewrite Z.leb_refl. by cbn.
Qed.
Lemma wake_closes (cut : Z -> nat) (f : ControlFrame) (t0 t : Z) (s : St) :
  writing_or_closed f t0 s -> t0 + WRITE_TIMEOUT < t -> closed (wake cut t s).
Proof using.
  intros Hw Ht. unfold wake.
  assert (Hpw : closed (wake_writer cut t (wake_push t s)))
    by (apply (wake_writer_due cut f t0); [apply wake_push_stable; [apply writing_stable|done]|done]).
  assert (Hwp : closed (wake_push t (wake_writer cut t s)))
    by (apply wake_push_stable; [exact closed_stable|by apply (wake_writer_due cut f t0)]).
  destruct (push_deadline s), (writer_deadline s); try done. by destruct (_ <=? _).
Qed.
Lemma run_writing (cut : Z -> nat) (evs : list (Z * Event)) (now t : Z) (f : ControlFrame) (t0 : Z) (s s' : St) :
  run cut evs now s = Some (t, s') -> writing_or_closed f t0 s -> now <= t0 + WRITE_TIMEOUT ->
  Forall (fun e => e.2 <> EvWritten) evs -> t0 + WRITE_TIMEOUT < t -> closed s'.
Proof using.
  revert now s. induction evs as [|[t1 ev] evs IH]; intros now s; cbn [run].
  - intros [= <- <-]. lia.
  - destruct (now <=? t1); [|done]. intros (s1 & Hs & Hr)%bind_Some Hw Hnow [Hne Hall]%Forall_cons Hlate.
    destruct (decide (t0 + WRITE_TIMEOUT < t1)) as [Hdue|Hearly].
    + apply (run_ended cut evs t1 t s1 s'); [|done]. destruct (wake_closes cut f t0 t1 s Hw Hdue) as [H1 H2].
      by apply (step_ended t1 ev (wake cut t1 s)).
    + apply (IH t1 s1); [done| |lia|done|done].
      destruct (wake_stable cut _ t1 s (writing_stable f t0) Hw) as [Hw1|[H1 H2]].
      * by apply (step_writing t1 ev f t0 (wake cut t1 s)).
      * right. by apply (step_ended t1 ev (wake cut t1 s)).
Qed.
Lemma step_pushed (t : Z) (ev : Event) (s s' : St) : step t ev s = Some s' -> pushed s `prefix_of` pushed s'.
Proof using.
  destruct ev as [g|g| | | | |k| |]; cbn [step];
    unfold push_start, push_resume, push_timeout, writer_recv, writer_written, writer_timeout, send_ctrl, mbind, option_bind;
    intros E; split_matches_in E; simplify_eq/=; first [done|by eexists].
Qed.
Lemma run_pushed (cut : Z -> nat) (evs : list (Z * Event)) (now t : Z) (s s' : St) :
  run cut evs now s = Some (t, s') -> pushed s `prefix_of` pushed s'.
Proof using.
  revert now s. induction evs as [|[t1 ev] evs IH]; intros now s; cbn [run].
  - by intros [= _ <-].
  - destruct (_ <=? _); [|done]. intros (s1 & Hs & Hr)%bind_Some.
    etrans; [|by eapply IH]. etrans; [|by eapply step_pushed].
    apply (wake_stable cut (fun x => pushed s `prefix_of` pushed x)); [|done].
    intros t2 ev2 s2 s3 _ H1 H2. etrans; [exact H2|by eapply step_pushed].
Qed.

(** A [push] that waits with [f] since [t0], or has had its answer. *)
Definition answered (f : ControlFrame) (p : list (ControlFrame * bool)) (s : St) : Prop :=
  exists ok, p ++ [(f, ok)] `prefix_of` pushed s.
Definition waits (f : ControlFrame) (t0 : Z) (p : list (ControlFrame * bool)) (s : St) : Prop :=
  (exists b, waiter s = Some (f, t0, b)) /\ pushed s = p.
Lemma answered_step (t : Z) (ev : Event) (f : ControlFrame) (p : list (ControlFrame * bool)) (s s' : St) :
  step t ev s = Some s' -> answered f p s -> answered f p s'.
Proof using. intros Hs [ok Hk]. exists ok. etrans; [exact Hk|by eapply step_pushed]. Qed.
Lemma waits_step (t : Z) (ev : Event) (f : ControlFrame) (t0 : Z) (p : list (ControlFrame * bool)) (s s' : St) :
  step t ev s = Some s' -> waits f t0 p s \/ answered f p s -> waits f t0 p s' \/ answered f p s'.
Proof using.
  intros Hs [[[b Hw] Hp]|Ha]; [|right; by eapply answered_step].
  destruct (step_waiting t ev (f, t0) b s s' Hw Hs) as [(b' & Hw1 & Hp1)|[ok Hp1]].
  - left. split; [by exists b'|by rewrite Hp1].
  - right. exists ok. by rewrite Hp1, Hp.
Qed.
Lemma waits_stable (f : ControlFrame) (t0 : Z) (p : list (ControlFrame * bool)) :
  stable (fun s => waits f t0 p s \/ answered f p s).
Proof using. intros t ev s s' _. apply waits_step. Qed.
Lemma answered_stable (f : ControlFrame) (p : list (ControlFrame * bool)) : stable (answered f p).
Proof using. intros t ev s s' _. apply answered_step. Qed.
Lemma wake_push_due (f : ControlFrame) (t0 t : Z) (p : list (ControlFrame * bool)) (s : St) :
  waits f t0 p s \/ answered f p s -> t0 + CTRL_SEND_TIMEOUT < t -> answered f p (wake_push t s).
Proof using Wire0.
  intros [[[b Hw] <-]|Ha] Ht; [|apply wake_push_stable; [apply answered_stable|done]].
  unfold wake_push, push_deadline, poll_push, push_resume, push_timeout. rewrite Hw. cbn [fmap option_fmap option_map fst snd mbind option_bind].
  assert ((t0 + CTRL_SEND_TIMEOUT <? t) = true) as -> by lia.
  destruct (is_ended (wtask s)); [by exists false|]. destruct b; [by exists true|].
  cbn [orb]. rewrite Z.leb_refl. by exists false.
Qed.
Lemma wake_answers (cut : Z -> nat) (f : ControlFrame) (t0 t : Z) (p : list (ControlFrame * bool)) (s : St) :
  waits f t0 p s \/ answered f p s -> t0 + CTRL_SEND_TIMEOUT < t -> answered f p (wake cut t s).
Proof using.
  intros Hw Ht. unfold wake.
  assert (Hpw : answered f p (wake_writer cut t (wake_push t s)))
    by (apply wake_writer_stable; [apply answered_stable|by apply (wake_push_due f t0)]).
  assert (Hwp : answered f p (wake_push t (wake_writer cut t s))).
  { apply (wake_push_due f t0); [|done].
    apply (wake_writer_stable cut (fun x => waits f t0 p x \/ answered f p x)); [apply waits_stable|done]. }
  destruct (push_deadline s), (writer_deadline s); try done. by destruct (_ <=? _).
Qed.
Lemma run_waiting (cut : Z -> nat) (evs : list (Z * Event)) (now t : Z) (f : ControlFrame) (t0 : Z)
    (p : list (ControlFrame * bool)) (s s' : St) :
  run cut evs now s = Some (t, s') -> waits f t0 p s \/ answered f p s -> now <= t0 + CTRL_SEND_TIMEOUT ->
  t0 + CTRL_SEND_TIMEOUT < t -> answered f p s'.
Proof using.
  revert now s. induction evs as [|[t1 ev] evs IH]; intros now s; cbn [run].
  - intros [= <- <-]. lia.
  - destruct (now <=? t1); [|done]. intros (s1 & Hs & Hr)%bind_Some Hw Hnow Hlate.
    destruct (decide (t0 + CTRL_SEND_TIMEOUT < t1)) as [Hdue|Hearly].
    + destruct (answered_step t1 ev f p _ s1 Hs (wake_answers cut f t0 t1 p s Hw Hdue)) as [ok Hk].
      exists ok. etrans; [exact Hk|by eapply run_pushed].
    + apply (IH t1 s1); [done| |lia|done]. eapply waits_step; [exact Hs|].
      by apply (wake_stable cut (fun x => waits f t0 p x \/ answered f p x)); [apply waits_stable|].
Qed.

(** C28 A daemon that stops reading cannot hold a session.  Events come at any
    time; tokio wakes each task when its timer is due, and what the tasks then do
    is enough: once the writer has been on one frame for 30 seconds the session is
    cancelled and its channel closed, and whatever happens no send of the control
    task waits more than 15 seconds for its answer. *)
Theorem stalls_are_bounded (cut : Z -> nat) (evs : list (Z * Event)) (now t : Z) (s s' : St) :
  run cut evs now s = Some (t, s') ->
  (forall f t0, wtask s = Writing f t0 -> now <= t0 + 30000 -> t0 + 30000 < t ->
     Forall (fun e => e.2 <> EvWritten) evs -> wtask s' = Ended /\ cancelled s' = true) /\
  (forall f t0 b, waiter s = Some (f, t0, b) -> now <= t0 + 15000 -> t0 + 15000 < t ->
     exists ok more, pushed s' = pushed s ++ (f, ok) :: more).
Proof using.
  intros Hr. split.
  - intros f t0 Hw Hn Ht Hall. by apply (run_writing cut evs now t f t0 s s' Hr); [left| | |].
  - intros f t0 b Hw Hn Ht.
    destruct (run_waiting cut evs now t f t0 (pushed s) s s' Hr) as [ok [more Hk]]; [left; split; eauto|done|done|].
    exists ok, more. by rewrite Hk, <- app_assoc.
Qed.

(** ** Where the words and the code part *)
Definition one_push (f : ControlFrame) : list (Z * Event) := [(0, EvPush f); (0, EvRecv); (0, EvWritten)].
Lemma one_push_fails (cut : Z -> nat) (f : ControlFrame) (w w' : writer) (e : CodecError) :
  write_frame f MAX_CONTROL_FRAME w = (Err e, w') ->
  exists s, run cut (one_push f) 0 (new w) = Some (0, s) /\ pushed s = [(f, true)] /\ written s = [] /\
    wire s = w' /\ wtask s = Ended /\ cancelled s = true.
Proof using.
  intros Hw. unfold one_push, run. cbn -[write_frame MAX_CONTROL_FRAME]. change (is_full (new w)) with false.
  cbn -[write_frame MAX_CONTROL_FRAME]. change (0 + WRITE_TIMEOUT <? 0) with false.
  unfold writer_written. cbn -[write_frame MAX_CONTROL_FRAME]. rewrite Hw. cbn.
  eexists. split; [reflexivity|]. by split_and!.
Qed.
(** [Welcome] goes through the channel: the control task is told it was sent while
    not a byte of it reaches a connection that just failed. *)
Theorem welcome_may_be_lost (cut : Z -> nat) (proto session_id : Z) (version : string) (flush_ok : bool) :
  let f := Welcome proto version session_id in
  exists s, run cut (one_push f) 0 (new (mkWriter [] (Some 0%nat) flush_ok)) = Some (0, s) /\
    pushed s = [(f, true)] /\ Codec.w_sent (wire s) = [] /\ written s = [].
Proof using.
  cbv zeta. set (f := Welcome _ _ _).
  assert (Hw : exists e, write_frame f MAX_CONTROL_FRAME (mkWriter [] (Some 0%nat) flush_ok)
    = (Err e, mkWriter [] (Some 0%nat) flush_ok)).
  { unfold write_frame. destruct (to_stdvec f); [|by eexists]. case_decide; [by eexists|]. by eexists. }
  destruct Hw as [e Hw]. destruct (one_push_fails cut f _ _ e Hw) as (s & H1 & H2 & H3 & H4 & _).
  exists s. by rewrite H4.
Qed.
(** An answer whose encoding is over the frame limit (the listing of an account
    with many names) is confirmed to the control task, never sent, and ends the
    session. *)
Theorem oversize_answer_ends_session (cut : Z -> nat) (f : ControlFrame) (bytes : list byte) (w : writer) :
  to_stdvec f = Ok bytes -> MAX_CONTROL_FRAME < Z.of_nat (length bytes) ->
  exists s, run cut (one_push f) 0 (new w) = Some (0, s) /\ pushed s = [(f, true)] /\
    wire s = w /\ wtask s = Ended /\ cancelled s = true.
Proof using.
  intros Hf Hlen.
  assert (Hw : write_frame f MAX_CONTROL_FRAME w = (Err (TooLarge (Z.of_nat (length bytes)) MAX_CONTROL_FRAME), w)).
  { unfold write_frame. rewrite Hf. by rewrite decide_True. }
  destruct (one_push_fails cut f w w _ Hw) as (s & H1 & H2 & _ & H4 & H5 & H6). exists s. by split_and!.
Qed.

(** ** [deny]

    The terminal refusal: written directly, then the stream is drained until the
    peer closes it, for five seconds at most.  [reads]: the reads that complete,
    with their times. *)
Inductive DrainRead := DrRead (n : nat) | DrError.
Fixpoint drain (deadline : Z) (reads : list (Z * DrainRead)) : Z :=
  match reads with
  | [] => deadline
  | (t, r) :: rest =>
      if deadline <=? t then deadline
      else match r with
           | DrRead O | DrError => t
           | DrRead (S _) => drain deadline rest
           end
  end.
Definition deny (code : DenyCode) (message : string) (reads : list (Z * DrainRead)) (now : Z) (w : writer) :
    result CodecError Z * writer :=
  match write_frame (Denied code message) MAX_CONTROL_FRAME w with
  | (Err e, w') => (Err e, w')
  | (Ok _, w') => (Ok (drain (now + 5000) reads), w')
  end.
(** The part of [control_task] that ends before the loop: the error it returns
    with, if any, and when. *)
Definition handshake_end (h : Handshake) (reads : list (Z * DrainRead)) (now : Z) (w : writer) :
    result CodecError Z * writer :=
  match h with
  | HsDropped => (Ok now, w)
  | HsFailed e => (Err e, w)
  | HsDenied code message => deny code message reads now w
  | HsAccepted _ _ _ => (Ok now, w)
  end.

Lemma drain_bounds (now deadline : Z) (reads : list (Z * DrainRead)) :
  now <= deadline -> Forall (fun x => now <= x.1) reads -> now <= drain deadline reads <= deadline.
Proof using.
  intros Hd. induction reads as [|[t r] reads IH]; intros Hall; cbn [drain]; [lia|].
  apply Forall_cons in Hall as [Ht Hall]. cbn in Ht. destruct (deadline <=? t) eqn:E; [lia|].
  apply Z.leb_gt in E. destruct r as [[|n]|]; [lia|by apply IH|lia].
Qed.
(** A refused handshake tells the peer why and is over in five seconds: when
    the write succeeds the wire carries exactly one frame more, the peer reads it
    as the [Denied] the handshake decided on, and the task ends within five
    seconds of it however the peer keeps sending. *)
Theorem refusal_is_heard (code : DenyCode) (message : string) (reads : list (Z * DrainRead)) (now t : Z) (w w' : writer) :
  Forall (fun x => now <= x.1) reads ->
  handshake_end (HsDenied code message) reads now w = (Ok t, w') ->
  now <= t <= now + 5000 /\
  exists bs, Codec.w_sent w' = Codec.w_sent w ++ bs /\
    forall rest, read_frame MAX_CONTROL_FRAME (bs ++ rest) = (Ok (Denied code message), rest).
Proof using WireLaw0.
  intros Hall. cbn [handshake_end]. unfold deny.
  destruct (write_frame _ _ w) as [[[]|e] w1] eqn:E; [|done]. intros [= <- <-].
  split; [apply drain_bounds; [lia|done]|].
  apply write_frame_Ok in E as (bytes & Hx & Hlen & Hs); [|done]. exists (frame_bytes bytes). split; [done|].
  intros rest. by apply read_frame_bytes.
Qed.
End theorems.

(** ** Examples

    An encoding of a few frames, enough to run the channel. *)
Module Demo.
Definition big : {n : nat | MAX_CONTROL_FRAME < Z.of_nat n}.
Proof. exists (Z.to_nat 70000). unfold MAX_CONTROL_FRAME. lia. Qed.
Definition big_bytes : list byte := replicate (proj1_sig big) Byte.x01.
#[local] Instance demo_wire : Wire ControlFrame := {|
  to_stdvec f := match f with
                 | Ping n => if decide (0 <= n < 256) then Ok [byte_of n] else Err ()
                 | Goodbye => Ok []
                 | Denied AuthFailed EmptyString => Ok [Byte.x00; Byte.x00]
                 | ListOwned => Ok big_bytes
                 | _ => Err ()
                 end;
  from_bytes bs := match bs with
                   | [b] => Ok (Ping (byte_val b))
                   | [] => Ok Goodbye
                   | _ => if (length bs =? 2)%nat then Ok (Denied AuthFailed EmptyString) else Ok ListOwned
                   end;
|}.
#[local] Instance demo_wire_law : WireLaw ControlFrame.
Proof.
  intros f bs. destruct f as [| |code msg| | |n| | | | | | | | |]; cbn; try done.
  - destruct code; try done. destruct msg; [|done]. by intros [= <-].
  - case_decide; [|done]. intros [= <-]. by rewrite byte_val_of, Z.mod_small.
  - by intros [= <-].
  - intros [= <-]. assert (Hb : 65536 < Z.of_nat (proj1_sig big)) by exact (proj2_sig big). unfold big_bytes.
    destruct (proj1_sig big) as [|[|n]]; [lia..|]. cbn. rewrite length_replicate.
    by destruct n; [lia|].
Qed.
Definition fill (n : nat) : list (Z * Event) := replicate n (0, EvTrySend (Ping 7)).
Definition w0 : writer := mkWriter [] None true.
Definition cut0 (_ : Z) : nat := 2.
(** A full queue: one more notice is dropped, a [push] waits, and gets the slot
    the writer frees. *)
Definition full_run : list (Z * Event) :=
  fill 65 ++ [(1, EvPush (Ping 9)); (2, EvRecv); (3, EvTrySend (Ping 8)); (4, EvResume); (5, EvWritten)].
Lemma channel_refines_push_witness :
  exists s, run cut0 full_run 0 (new w0) = Some (5, s) /\ pushed s = [(Ping 9, true)] /\ length (queue s) = 64%nat /\
  let (oks, sess) := replay (oracle s) (pushed s).*1 (mkSess () [] 0) in
  oks = (pushed s).*2 /\ out sess = push_order (accepted s) /\ (length (queue s) <= CAPACITY)%nat /\
  exists delivered rest,
    read_frames (length delivered) MAX_CONTROL_FRAME (Codec.w_sent (wire s)) = (Ok delivered.*2, rest) /\
    delivered `prefix_of` accepted s /\ push_order delivered `prefix_of` out sess /\
    (wtask s <> Ended -> rest = [] /\ (accepted s).*2 = delivered.*2 ++ in_flight (wtask s) ++ queue s).
Proof.
  eexists. split; [vm_compute; reflexivity|]. split; [reflexivity|]. split; [reflexivity|].
  apply (channel_refines_push cut0 () full_run w0 0 5); [reflexivity|vm_compute; reflexivity].
Defined.

(** The writer is stuck on its first frame, a send waits, and nothing happens but
    time: both timers are served before the notice that comes at 30001. *)
Definition stuck : St :=
  mkSt (replicate 64 (Ping 7)) (Some (Ping 9, 1000, false)) (Writing (Ping 7) 0) w0 false true [] [] [].
Definition stuck_run : list (Z * Event) := [(30001, EvTrySend (Ping 1))].
Lemma stalls_are_bounded_witness :
  exists s', run cut0 stuck_run 2000 stuck = Some (30001, s') /\ wtask s' = Ended /\ cancelled s' = true /\
  exists ok more, pushed s' = [] ++ (Ping 9, ok) :: more.
Proof.
  destruct (run cut0 stuck_run 2000 stuck) as [[t s']|] eqn:E; [|vm_compute in E; discriminate E].
  assert (t = 30001) as -> by (vm_compute in E; congruence). exists s'. split; [reflexivity|].
  destruct (stalls_are_bounded cut0 stuck_run 2000 30001 stuck s' E) as [H1 H2].
  destruct (H1 (Ping 7) 0 eq_refl) as [Hw Hc]; [lia|lia|repeat constructor; discriminate|].
  split; [exact Hw|]. split; [exact Hc|]. by apply (H2 (Ping 9) 1000 false eq_refl); lia.
Defined.
Lemma oversize_answer_ends_session_witness :
  exists s, run cut0 (one_push ListOwned) 0 (new w0) = Some (0, s) /\ pushed s = [(ListOwned, true)] /\
    wire s = w0 /\ wtask s = Ended /\ cancelled s = true.
Proof.
  apply (oversize_answer_ends_session cut0 ListOwned big_bytes w0); [reflexivity|].
  unfold big_bytes. rewrite length_replicate. exact (proj2_sig big).
Defined.
Lemma refusal_is_heard_witness :
  exists w', handshake_end (HsDenied AuthFailed EmptyString) [(10, DrRead 5); (20, DrRead 0)] 3 w0 = (Ok 20, w') /\
  3 <= 20 <= 3 + 5000 /\
  exists bs, Codec.w_sent w' = Codec.w_sent w0 ++ bs /\
    forall rest, read_frame MAX_CONTROL_FRAME (bs ++ rest) = (Ok (Denied AuthFailed EmptyString), rest).
Proof.
  eexists. split; [vm_compute; reflexivity|].
  apply (refusal_is_heard AuthFailed EmptyString [(10, DrRead 5); (20, DrRead 0)] 3 20 w0).
  - repeat constructor; cbn; lia.
  - vm_compute. reflexivity.
Defined.
End Demo.
End Ctrl.
