(* ===== verification/Http.v ===== *)
(** * HTTP headers at the edge (crates/relay/src/proxy.rs, listener.rs)

    The header map and the rewriting every proxied request and response goes
    through: hop-by-hop headers are stripped, the visitor's forwarding headers
    are replaced by the relay's, and the [Host] decides the route. *)
From Stdlib Require Import Ascii.
From S2P Require Import Prelude Frames.

(** ** Header maps

    [hyper::HeaderMap]: the values of each (lower-case) name, in order. *)
Abbreviation HeaderMap := (gmap string (list string)).
Definition get_all (name : string) (h : HeaderMap) : list string := default [] (h !! name).
Definition header_get (name : string) (h : HeaderMap) : option string := head (get_all name h).
Definition contains_key (name : string) (h : HeaderMap) : bool :=
  bool_decide (get_all name h <> []).
Definition header_remove (name : string) (h : HeaderMap) : HeaderMap := delete name h.
Definition header_insert (name value : string) (h : HeaderMap) : HeaderMap := <[name := [value]]> h.

(** [HeaderValue::to_str]: visible ASCII and tab.  [HeaderValue::from_str]: no
    control character but tab, bytes above 127 allowed. *)
Definition visible (c : ascii) : bool :=
  let n := nat_of_ascii c in ((32 <=? n) && (n <? 127) || (n =? 9))%nat.
Definition to_str (v : string) : option string := if str_forall visible v then Some v else None.
Definition value_byte (c : ascii) : bool :=
  let n := nat_of_ascii c in ((32 <=? n) && negb (n =? 127) || (n =? 9))%nat.
Definition from_str (v : string) : option string := if str_forall value_byte v then Some v else None.

(** ** String helpers of the standard library *)
Fixpoint split_on (sep : ascii) (s : string) : list string :=
  match s with
  | EmptyString => [EmptyString]
  | String c s' =>
      match split_on sep s' with
      | [] => []
      | t :: ts => if Ascii.eqb c sep then EmptyString :: t :: ts else String c t :: ts
      end
  end.
(** [hay.contains(needle)]. *)
Fixpoint contains_str (needle hay : string) : bool :=
  starts_with needle hay || match hay with EmptyString => false | String _ s => contains_str needle s end.

(** ** Scrubbing *)
Definition CONNECTION : string := "connection".
Definition UPGRADE : string := "upgrade".
Definition HOST : string := "host".
Definition TRANSFER_ENCODING : string := "transfer-encoding".
Definition CONTENT_LENGTH : string := "content-length".
Definition HOP_BY_HOP : list string :=
  ["keep-alive"; "proxy-connection"; "proxy-authenticate"; "proxy-authorization"; "te"; "trailer";
   "transfer-encoding"]%string.

(** The tokens listed in [Connection]. *)
Definition listed_tokens (h : HeaderMap) : list string :=
  match header_get CONNECTION h ≫= to_str with
  | Some v => filter (fun t => is_empty t = false)
                ((fun t => to_ascii_lowercase (trim t)) <$> split_on ","%char v)
  | None => []
  end.

Definition strip_hop_by_hop (keep_upgrade : bool) (h : HeaderMap) : HeaderMap :=
  let listed := listed_tokens h in
  let h1 := foldl (fun h token =>
              if keep_upgrade && String.eqb token "upgrade" then h else header_remove token h) h listed in
  let h2 := if contains_key TRANSFER_ENCODING h1 || existsb (String.eqb "transfer-encoding") listed
            then header_remove CONTENT_LENGTH h1 else h1 in
  let h3 := foldl (fun h name => header_remove name h) h2 HOP_BY_HOP in
  if keep_upgrade then h3 else header_remove UPGRADE (header_remove CONNECTION h3).

Definition is_upgrade (h : HeaderMap) : bool :=
  match header_get CONNECTION h ≫= to_str with
  | Some v => contains_str "upgrade" (to_ascii_lowercase v)
  | None => false
  end && contains_key UPGRADE h.

Definition insert_str (name value : string) (h : HeaderMap) : HeaderMap :=
  match from_str value with Some v => header_insert name v h | None => h end.
Definition FORWARDING : list string :=
  ["x-forwarded-for"; "x-forwarded-proto"; "x-forwarded-host"; "forwarded"]%string.
Definition scrub_request (peer_ip host : string) (upgrading : bool) (h : HeaderMap) : HeaderMap :=
  let h1 := strip_hop_by_hop upgrading h in
  let h2 := foldl (fun h name => header_remove name h) h1 FORWARDING in
  let h3 := insert_str "x-forwarded-for" peer_ip h2 in
  let h4 := header_insert "x-forwarded-proto" "https" h3 in
  insert_str "x-forwarded-host" host h4.

Definition SWITCHING_PROTOCOLS : Z := 101.
Definition scrub_response (status : Z) (h : HeaderMap) : HeaderMap :=
  header_remove "server" (strip_hop_by_hop (bool_decide (status = SWITCHING_PROTOCOLS)) h).

(** ** The route key *)
Definition before_colon (s : string) : string := from_option id s (head (split_on ":"%char s)).
Definition host_of (h : HeaderMap) : option string :=
  match get_all HOST h with
  | [raw] => to_ascii_lowercase <$> (before_colon <$> to_str raw)
  | _ => None
  end.
Definition header_contains (name needle : string) (h : HeaderMap) : bool :=
  match header_get name h ≫= to_str with
  | Some v => contains_str needle (to_ascii_lowercase v)
  | None => false
  end.
Definition is_websocket_upgrade (h : HeaderMap) : bool :=
  header_contains UPGRADE "websocket" h && header_contains CONNECTION "upgrade" h.

(** ** Lookups after removals *)
Lemma get_all_remove (k name : string) (h : HeaderMap) :
  get_all k (header_remove name h) = if decide (k = name) then [] else get_all k h.
Proof.
  unfold get_all, header_remove. case_decide; subst; [by rewrite lookup_delete_eq|by rewrite lookup_delete_ne].
Qed.
Lemma get_all_insert (k name v : string) (h : HeaderMap) :
  get_all k (header_insert name v h) = if decide (k = name) then [v] else get_all k h.
Proof.
  unfold get_all, header_insert. case_decide; subst; [by rewrite lookup_insert_eq|by rewrite lookup_insert_ne].
Qed.
Lemma get_all_remove_all (k : string) (names : list string) (h : HeaderMap) :
  get_all k (foldl (fun h name => header_remove name h) h names) = if decide (k ∈ names) then [] else get_all k h.
Proof.
  revert h. induction names as [|n names IH]; intros h; cbn [foldl]; [by rewrite decide_False by apply not_elem_of_nil|].
  rewrite IH, get_all_remove. destruct (decide (k ∈ names)) as [Hk|Hk].
  - rewrite decide_True; [done|by constructor].
  - destruct (decide (k = n)) as [->|Hn]; [rewrite decide_True; [done|by constructor]|].
    rewrite decide_False; [done|]. by apply not_elem_of_cons.
Qed.
Lemma get_all_listed (keep : bool) (k : string) (tokens : list string) (h : HeaderMap) :
  get_all k (foldl (fun h token => if keep && String.eqb token "upgrade" then h else header_remove token h) h tokens)
  = if decide (k ∈ tokens /\ ~ (keep = true /\ k = "upgrade"%string)) then [] else get_all k h.
Proof.
  revert h. induction tokens as [|t tokens IH]; intros h; cbn [foldl].
  { rewrite decide_False; [done|]. intros [H _]. by apply not_elem_of_nil in H. }
  rewrite IH. destruct (decide (k ∈ tokens /\ _)) as [[Hk Hu]|Hk].
  - rewrite decide_True; [done|]. split; [by constructor|done].
  - destruct (String.eqb_spec t "upgrade") as [->|Ht]; destruct keep; cbn [andb]; rewrite ?get_all_remove;
      repeat case_decide; try done; exfalso; set_solver.
Qed.
Lemma get_all_insert_str (k name v : string) (h : HeaderMap) :
  get_all k (insert_str name v h) =
  if decide (k = name /\ str_forall value_byte v = true) then [v] else get_all k h.
Proof.
  unfold insert_str, from_str. destruct (str_forall value_byte v); [rewrite get_all_insert|];
    repeat case_decide; naive_solver.
Qed.

(** What stripping leaves of a name, in full. *)
Definition stripped (keep : bool) (h : HeaderMap) (k : string) : Prop :=
  k ∈ HOP_BY_HOP \/ (k ∈ listed_tokens h /\ ~ (keep = true /\ k = "upgrade"%string)) \/
  (keep = false /\ (k = CONNECTION \/ k = UPGRADE)) \/
  (k = CONTENT_LENGTH /\ (contains_key TRANSFER_ENCODING h = true \/ TRANSFER_ENCODING ∈ listed_tokens h)).
#[export] Instance stripped_dec keep h k : Decision (stripped keep h k).
Proof. unfold stripped. apply _. Defined.
Lemma strip_lookup (keep : bool) (h : HeaderMap) (k : string) :
  get_all k (strip_hop_by_hop keep h) = if decide (stripped keep h k) then [] else get_all k h.
Proof.
  unfold strip_hop_by_hop. set (listed := listed_tokens h).
  set (h1 := foldl _ h listed).
  assert (H1 : forall x, get_all x h1 = if decide (x ∈ listed /\ ~ (keep = true /\ x = "upgrade"%string))
                                   then [] else get_all x h) by (intros x; apply get_all_listed).
  assert (Hte : existsb (String.eqb "transfer-encoding") listed = true <-> TRANSFER_ENCODING ∈ listed).
  { rewrite existsb_exists. split; [intros (x & Hx & <-%String.eqb_eq)|intros Hx; exists TRANSFER_ENCODING];
      rewrite <- ?list_elem_of_In in *; [done|split; [done|apply String.eqb_refl]]. }
  assert (Hcl : (contains_key TRANSFER_ENCODING h1 || existsb (String.eqb "transfer-encoding") listed) = true
     <-> contains_key TRANSFER_ENCODING h = true \/ TRANSFER_ENCODING ∈ listed).
  { rewrite orb_true_iff, Hte. unfold contains_key. rewrite !bool_decide_eq_true, H1.
    destruct (decide (TRANSFER_ENCODING ∈ listed)) as [Ht|Ht]; [tauto|].
    rewrite decide_False by tauto. tauto. }
  set (c := contains_key TRANSFER_ENCODING h1 || _) in *.
  assert (H2 : get_all k (if c then header_remove CONTENT_LENGTH h1 else h1) =
     if decide (k = CONTENT_LENGTH /\ c = true) then [] else get_all k h1).
  { destruct c; [rewrite get_all_remove|]; repeat case_decide; naive_solver. }
  assert (H3 : get_all k (foldl (fun h name => header_remove name h) (if c then header_remove CONTENT_LENGTH h1 else h1) HOP_BY_HOP)
    = if decide (k ∈ HOP_BY_HOP \/ k = CONTENT_LENGTH /\ c = true \/
                 (k ∈ listed /\ ~ (keep = true /\ k = "upgrade"%string))) then [] else get_all k h).
  { rewrite get_all_remove_all, H2, H1. repeat case_decide; try done; exfalso; tauto. }
  unfold stripped. fold listed.
  destruct keep; rewrite ?get_all_remove, H3; repeat case_decide; try done; exfalso;
    clear H1 H2 H3; rewrite Hcl in *; naive_solver.
Qed.

(** ** What reaches the daemon *)

Lemma scrub_lookup (peer_ip host : string) (upgrading : bool) (h : HeaderMap) (k : string) :
  get_all k (scrub_request peer_ip host upgrading h) =
  if decide (k = "x-forwarded-for"%string) then (if str_forall value_byte peer_ip then [peer_ip] else [])
  else if decide (k = "x-forwarded-proto"%string) then ["https"%string]
  else if decide (k = "x-forwarded-host"%string) then (if str_forall value_byte host then [host] else [])
  else if decide (k = "forwarded"%string \/ stripped upgrading h k) then [] else get_all k h.
Proof.
  unfold scrub_request. rewrite get_all_insert_str, get_all_insert, get_all_insert_str, get_all_remove_all, strip_lookup.
  unfold FORWARDING.
  destruct (decide (k = "x-forwarded-for"%string)) as [->|H1].
  { rewrite decide_False, decide_False by naive_solver. destruct (str_forall value_byte peer_ip).
    - by rewrite decide_True.
    - rewrite decide_False by naive_solver. by rewrite decide_True by set_solver. }
  destruct (decide (k = "x-forwarded-proto"%string)) as [->|H2]; [by rewrite decide_False by naive_solver|].
  destruct (decide (k = "x-forwarded-host"%string)) as [->|H3].
  { destruct (str_forall value_byte host); [by rewrite decide_True|].
    rewrite decide_False, decide_False by naive_solver. by rewrite decide_True by set_solver. }
  rewrite decide_False, decide_False by naive_solver.
  destruct (decide (k = "forwarded"%string)) as [->|H4].
  { rewrite decide_True by set_solver. by rewrite decide_True by auto. }
  rewrite decide_False by set_solver. repeat case_decide; naive_solver.
Qed.

(** The names the first [Connection] line lists, if it can be read as text. *)
Definition first_line_lists (h : HeaderMap) (k : string) : Prop :=
  exists v part, head (get_all "connection" h) = Some v /\ str_forall visible v = true /\
    part ∈ split_on ","%char v /\ k = to_ascii_lowercase (trim part) /\ k <> EmptyString.
(** What a request loses on its way to the daemon. *)
Definition dropped_header (upgrading : bool) (h : HeaderMap) (k : string) : Prop :=
  k ∈ ["forwarded"; "keep-alive"; "proxy-connection"; "proxy-authenticate"; "proxy-authorization"; "te"; "trailer";
       "transfer-encoding"]%string \/
  (first_line_lists h k /\ ~ (upgrading = true /\ k = "upgrade"%string)) \/
  (upgrading = false /\ (k = "connection"%string \/ k = "upgrade"%string)) \/
  (k = "content-length"%string /\ (get_all "transfer-encoding" h <> [] \/ first_line_lists h "transfer-encoding")).
Lemma listed_tokens_elem (h : HeaderMap) (k : string) : k ∈ listed_tokens h <-> first_line_lists h k.
Proof.
  unfold listed_tokens, first_line_lists, header_get, CONNECTION, to_str.
  destruct (head (get_all "connection" h)) as [v|]; cbn; [|split; [by intros ?%not_elem_of_nil|naive_solver]].
  destruct (str_forall visible v) eqn:Ev;
    [|split; [by intros ?%not_elem_of_nil|intros (v' & part & [= <-] & Hv & _); congruence]].
  rewrite list_elem_of_filter, list_elem_of_fmap. split.
  - intros [Hne (part & -> & Hp)]. exists v, part. split_and!; try done. intros E. by rewrite E in Hne.
  - intros (v' & part & [= <-] & _ & Hp & -> & Hne). split; [|eauto]. by destruct (to_ascii_lowercase (trim part)).
Qed.
Lemma dropped_stripped (upgrading : bool) (h : HeaderMap) (k : string) :
  dropped_header upgrading h k <-> k = "forwarded"%string \/ stripped upgrading h k.
Proof.
  unfold dropped_header, stripped. rewrite !listed_tokens_elem. unfold contains_key. rewrite bool_decide_eq_true.
  rewrite elem_of_cons. unfold HOP_BY_HOP. tauto.
Qed.

(** C24 Scrubbing a request is exact, header by header.  Whatever the visitor sent,
    the daemon gets the relay's own three forwarding headers (the address and the
    name only when they are valid header values).  Of the others it does not get
    [Forwarded], the fixed hop-by-hop headers, [Connection] and [Upgrade] unless the
    request is an upgrade, a [Content-Length] next to a transfer encoding, and any
    header the first [Connection] line lists ([Host] included, if it is listed
    there); every other header arrives unchanged, also one that only a second
    [Connection] line lists. *)
Theorem scrub_request_exact (peer_ip host : string) (upgrading : bool) (h : HeaderMap) (k : string) :
  let h' := scrub_request peer_ip host upgrading h in
  get_all "x-forwarded-for" h' = (if str_forall value_byte peer_ip then [peer_ip] else []) /\
  get_all "x-forwarded-proto" h' = ["https"%string] /\
  get_all "x-forwarded-host" h' = (if str_forall value_byte host then [host] else []) /\
  (k ∉ ["x-forwarded-for"; "x-forwarded-proto"; "x-forwarded-host"]%string ->
     (dropped_header upgrading h k -> get_all k h' = []) /\
     (~ dropped_header upgrading h k -> get_all k h' = get_all k h)).
Proof.
  cbv zeta. rewrite !scrub_lookup. repeat (rewrite decide_True by done || rewrite decide_False by done).
  split_and!; try done. intros Hk. rewrite dropped_stripped.
  rewrite !decide_False by (intros ->; apply Hk; set_solver).
  split; intros Hd; [by rewrite decide_True|by rewrite decide_False].
Qed.

(** A response keeps nothing hop-by-hop either, except what an upgrade needs, and
    does not name the server software. *)
Theorem scrub_response_exact (status : Z) (h : HeaderMap) (k : string) :
  get_all k (scrub_response status h) =
  if decide (k = "server"%string \/ stripped (bool_decide (status = SWITCHING_PROTOCOLS)) h k)
  then [] else get_all k h.
Proof.
  unfold scrub_response. rewrite get_all_remove, strip_lookup. repeat case_decide; naive_solver.
Qed.

(** A visitor can take its own [Host] away from the local service: a request that
    lists it in [Connection] is routed by the name and forwarded without it. *)
Theorem host_header_strippable :
  exists h, host_of h = Some "a.relay.dev"%string /\ get_all HOST h = ["a.relay.dev"%string] /\
    forall peer_ip host, get_all HOST (scrub_request peer_ip host false h) = [].
Proof.
  exists (<["connection" := ["close, Host"]]> (<["host" := ["a.relay.dev"]]> ∅))%string.
  split; [vm_compute; reflexivity|]. split; [vm_compute; reflexivity|].
  intros ip host. rewrite scrub_lookup. repeat (rewrite decide_False by done).
  rewrite decide_True; [done|]. right. right. left. split; [vm_compute; set_solver|]. by intros [[=] _].
Qed.
(** Only the first [Connection] line is read: a header listed in a second one is
    forwarded. *)
Theorem second_connection_line_ignored :
  exists h, "x-hop"%string ∈ (get_all CONNECTION h) /\
    forall peer_ip host, get_all "x-hop" (scrub_request peer_ip host false h) = ["v"%string].
Proof.
  exists (<["connection" := ["close"; "x-hop"]]> (<["x-hop" := ["v"]]> ∅))%string.
  split; [vm_compute; set_solver|]. intros ip host. rewrite scrub_lookup.
  repeat (rewrite decide_False by done). rewrite decide_False; [vm_compute; reflexivity|].
  vm_compute. intros [[=]|[H|[[H _]|[[_ H]|[[=] _]]]]]; set_solver.
Qed.

(** The key a visitor's request is routed by is lower-case and has no port. *)
Lemma ascii_lower_idem (c : ascii) : ascii_lower (ascii_lower c) = ascii_lower c.
Proof. destruct c as [[] [] [] [] [] [] [] []]; vm_compute; reflexivity. Qed.
Lemma to_ascii_lowercase_idem (s : string) : to_ascii_lowercase (to_ascii_lowercase s) = to_ascii_lowercase s.
Proof. induction s as [|c s IH]; [done|]. cbn. by rewrite ascii_lower_idem, IH. Qed.
Lemma host_of_lower (h : HeaderMap) (host : string) :
  host_of h = Some host -> to_ascii_lowercase host = host.
Proof.
  unfold host_of. destruct (get_all HOST h) as [|raw []]; try done.
  intros (x & _ & ->)%fmap_Some. apply to_ascii_lowercase_idem.
Qed.
