(* ===== verification/Edge.v ===== *)
(** * The public edge (crates/relay/src/listener.rs, proxy.rs, tcp.rs, config.rs)

    How a connection is admitted, how its requests are routed, and how visitor
    traffic reaches a daemon: the accept loops of the public listener and of the
    raw TCP ports, the request router, the control upgrade and the HTTP proxy.
    Connections, splices and sessions are accounted to the limiters they hold
    permits of. *)
From Stdlib Require Import Ascii.
From stdpp Require Import gmultiset.
From S2P Require Import Prelude Frames Router F64 RateLimit Auth Registry RegistryAuth Http.
Local Open Scope Z_scope.

(** ** Hostnames of a relay (config.rs) *)
Definition connect_host (domain : string) : string := "connect." +:+ domain.
Definition is_tunnel_host (domain host : string) : bool :=
  if String.eqb host (connect_host domain) || String.eqb host domain then false
  else match strip_suffix (suffix domain) host with
       | None => false
       | Some label =>
           if is_empty label || contains_char "."%char label then false
           else negb (bool_decide (label ∈ RESERVED_LABELS))
       end.

(** The limits of [LimitsConfig] the edge uses, with their defaults. *)
Record LimitsConfig := mkLimits {
  max_connections : Z;
  max_connections_per_ip : Z;
  max_sessions : Z;
  max_sessions_per_ip : Z;
  proxy_idle_timeout_secs : Z;
  proxy_absolute_max_secs : Z;
  accept_rate_per_sec : Z;
  accept_burst : Z;
}.
Definition default_limits : LimitsConfig := mkLimits 4096 64 4096 64 1800 0 20 40.
Record Config := mkConfig { domain : string; apex_response : string; limits : LimitsConfig }.

(** ** Opening a stream (router.rs, session.rs) *)
Inductive OpenError := SessionClosed | OpenTimeout | Mux.
(** What comes back on the reply channel within the five seconds. *)
Inductive OpenReply := ReplyResult (r : result OpenError ()) | ReplyDropped | ReplyLate.
Definition open_stream (sent : bool) (reply : OpenReply) : result OpenError () :=
  if negb sent then Err SessionClosed
  else match reply with
       | ReplyResult r => r
       | ReplyDropped => Err SessionClosed
       | ReplyLate => Err OpenTimeout
       end.

(** ** Responses *)
Inductive Body := Static (text : string) | Streamed.
Record Resp := mkResp { resp_status : Z; resp_headers : HeaderMap; resp_body : Body }.
Definition page (status : Z) (content_type text : string) : Resp :=
  mkResp status (header_insert "cache-control" "no-store" (header_insert "content-type" content_type ∅)) (Static text).
Definition switching_protocols (l : list (string * string)) : Resp :=
  mkResp SWITCHING_PROTOCOLS (foldl (fun h kv => <[kv.1 := get_all kv.1 h ++ [kv.2]]> h) ∅ l) (Static EmptyString).
Definition html : string := "text/html; charset=utf-8".
Definition text_plain : string := "text/plain; charset=utf-8".
Definition relay_404 : Resp := page 404 html
  "<!doctype html><meta charset=utf-8><title>404</title><h1>404 - no such tunnel</h1><p>No tunnel is registered for this hostname.</p>".
Definition relay_502 : Resp := page 502 html
  "<!doctype html><meta charset=utf-8><title>502</title><h1>502 - tunnel unavailable</h1><p>The tunnel is registered but its daemon is not reachable.</p>".
Definition relay_504 : Resp := page 504 html
  "<!doctype html><meta charset=utf-8><title>504</title><h1>504 - upstream timeout</h1><p>The tunnel's local service did not respond in time.</p>".

(** [dur_or_off]: seconds, 0 disables. *)
Definition dur_or_off (secs : Z) : option Z := if decide (0 < secs) then Some secs else None.

(** ** The HTTP proxy *)
Record Peer := mkPeer { peer_ip : IpAddr; peer_port : Z }.
Record Request := mkRequest { req_method : string; req_headers : HeaderMap }.
(** What the daemon side answers, step by step. *)
Inductive Answer := AnswerTimeout | AnswerFailed | AnswerResponse (status : Z) (headers : HeaderMap).
Record Upstream := mkUpstream {
  up_sent : bool;
  up_reply : OpenReply;
  up_handshake : bool;
  up_answer : Answer;
}.
Record Splice := mkSplice { sp_permit : option IpAddr; sp_idle : option Z; sp_absolute : option Z }.

(** What handling a request did: the response ([None]: it panicked), the session
    that was asked for a stream with the header the stream starts with (the actor
    may open it even when its answer comes too late for the proxy), the headers
    sent on the stream, the splice or the session
    spawned, and where the connection's permit is now. *)
Record Handled := mkHandled {
  h_resp : option Resp;
  h_target : option (SessionHandle * StreamHeader);
  h_forwarded : option HeaderMap;
  h_splice : option Splice;
  h_session : option (option IpAddr);
  h_cell : option IpAddr;
  h_released : option IpAddr;
}.
Definition plain (r : Resp) (cell : option IpAddr) : Handled := mkHandled (Some r) None None None None cell None.

Section edge.
(** [IpAddr]'s display form and the WebSocket accept key. *)
Context (show_ip : IpAddr -> string) (derive_accept_key : string -> string).

Definition proxy_http (r : RouterInner) (req : Request) (host : string) (peer : Peer) (lim : LimitsConfig)
    (up : Upstream) (cell : option IpAddr) : Handled :=
  match lookup_http r host with
  | None => plain relay_404 cell
  | Some session =>
      let target := if up_sent up then Some (session, Http host (peer_ip peer) (peer_port peer)) else None in
      match open_stream (up_sent up) (up_reply up) with
      | Err _ => mkHandled (Some relay_502) target None None None cell None
      | Ok _ =>
          if negb (up_handshake up) then mkHandled (Some relay_502) target None None None cell None
          else
            let upgrading := is_upgrade (req_headers req) in
            let sent := Some (scrub_request (show_ip (peer_ip peer)) host upgrading (req_headers req)) in
            match up_answer up with
            | AnswerFailed => mkHandled (Some relay_502) target sent None None cell None
            | AnswerTimeout => mkHandled (Some relay_504) target sent None None cell None
            | AnswerResponse status headers =>
                let resp := Some (mkResp status (scrub_response status headers) Streamed) in
                if decide (status = SWITCHING_PROTOCOLS) then
                  if upgrading then
                    mkHandled resp target sent
                      (Some (mkSplice cell (dur_or_off (proxy_idle_timeout_secs lim))
                               (dur_or_off (proxy_absolute_max_secs lim)))) None None None
                  else mkHandled (Some relay_502) target sent None None cell None
                else mkHandled resp target sent None None cell None
            end
      end
  end.

(** ** The control upgrade *)
Definition handle_control_upgrade (req : Request) (peer : Peer) (sessions : option ConnLimiter)
    (cell : option IpAddr) : Handled * option ConnLimiter :=
  if negb (String.eqb (req_method req) "GET") || negb (is_websocket_upgrade (req_headers req))
  then (plain (page 400 text_plain "expected websocket upgrade") cell, sessions)
  else match derive_accept_key <$> header_get "sec-websocket-key" (req_headers req) with
       | None => (plain (page 400 text_plain "missing Sec-WebSocket-Key") cell, sessions)
       | Some accept =>
           let (admitted, sessions') :=
             match sessions with
             | None => (Some None, None)
             | Some limiter => let (p, limiter') := try_admit (peer_ip peer) limiter in (Some <$> p, Some limiter')
             end in
           match admitted with
           | None => (plain (page 503 text_plain "relay at capacity") cell, sessions')
           | Some permit =>
               let resp := v ← from_str accept;
                 Some (switching_protocols [(CONNECTION, "upgrade"); (UPGRADE, "websocket");
                                            ("sec-websocket-accept", v)]%string) in
               (mkHandled resp None None None (Some permit) None cell, sessions')
           end
       end.

(** ** The request router *)
Definition route (cfg : Config) (r : RouterInner) (req : Request) (peer : Peer) (up : Upstream)
    (sessions : option ConnLimiter) (cell : option IpAddr) : Handled * option ConnLimiter :=
  let host := host_of (req_headers req) in
  if decide (host = Some (connect_host (domain cfg))) then handle_control_upgrade req peer sessions cell
  else if decide (host = Some (domain cfg)) then (plain (page 200 text_plain (apex_response cfg)) cell, sessions)
  else match host with
       | Some h => if is_tunnel_host (domain cfg) h
                   then (proxy_http r req h peer (limits cfg) up cell, sessions)
                   else (plain (page 404 text_plain "not found") cell, sessions)
       | None => (plain (page 404 text_plain "not found") cell, sessions)
       end.

(** ** Accepting (listener.rs, tcp.rs) *)
Definition accept (ip : IpAddr) (now : Z) (rate : RateLimiter) (conns : ConnLimiter) :
    option IpAddr * RateLimiter * ConnLimiter :=
  let (ok, rate') := check ip now rate in
  if negb ok then (None, rate', conns)
  else let (permit, conns') := try_admit ip conns in (permit, rate', conns').
(** [serve_conn] up to the splice: who serves the port, and with which header. *)
Definition serve_conn (r : RouterInner) (port : Z) (peer : Peer) (sent : bool) (reply : OpenReply) :
    option (SessionHandle * StreamHeader) :=
  session ← lookup_tcp r port;
  match open_stream sent reply with
  | Ok _ => Some (session, Tcp port (peer_ip peer) (peer_port peer))
  | Err _ => None
  end.

(** ** The edge as it runs

    Keep-alive connections, raw TCP connections, splices and sessions, each with
    the permit it holds. *)
Record Edge := mkEdge {
  rate : RateLimiter;
  conns : ConnLimiter;
  sess : ConnLimiter;
  open_conns : gmultiset IpAddr;
  tcp_conns : gmultiset IpAddr;
  splices : gmultiset IpAddr;
  sessions : gmultiset IpAddr;
}.
Definition Edge_new (lim : LimitsConfig) : Edge :=
  mkEdge (RateLimiter_new (accept_rate_per_sec lim) (accept_burst lim))
    (ConnLimiter_new (max_connections lim) (max_connections_per_ip lim))
    (ConnLimiter_new (max_sessions lim) (max_sessions_per_ip lim)) ∅ ∅ ∅ ∅.

Definition opt_ms (o : option IpAddr) : gmultiset IpAddr :=
  match o with Some k => {[+ k +]} | None => ∅ end.
(** What handling a request on the connection that holds permit [k] leaves: the
    connection goes on while its permit is in the cell; an upgrade moves it to
    the splice, or gives it back once the session has its own. *)
Definition settle (k : IpAddr) (h : Handled) (sess' : ConnLimiter) (e : Edge) : Edge :=
  mkEdge (rate e)
    (match h_released h with Some p => drop_permit p (conns e) | None => conns e end)
    sess'
    (open_conns e ∖ {[+ k +]} ⊎ opt_ms (h_cell h))
    (tcp_conns e)
    (match h_splice h with Some s => splices e ⊎ opt_ms (sp_permit s) | None => splices e end)
    (match h_session h with Some p => sessions e ⊎ opt_ms p | None => sessions e end).

Inductive edge_step (cfg : Config) : Edge -> Edge -> Prop :=
  | es_sweep e now : edge_step cfg e (mkEdge (sweep now (rate e)) (conns e) (sess e) (open_conns e) (tcp_conns e) (splices e) (sessions e))
  | es_accept e ip now rate' conns' permit :
      accept ip now (rate e) (conns e) = (permit, rate', conns') ->
      edge_step cfg e (mkEdge rate' conns' (sess e) (open_conns e ⊎ opt_ms permit) (tcp_conns e) (splices e) (sessions e))
  | es_accept_tcp e ip now rate' conns' permit :
      accept ip now (rate e) (conns e) = (permit, rate', conns') ->
      edge_step cfg e (mkEdge rate' conns' (sess e) (open_conns e) (tcp_conns e ⊎ opt_ms permit) (splices e) (sessions e))
  | es_request e k r req peer up h sess' :
      k ∈ open_conns e ->
      route cfg r req peer up (Some (sess e)) (Some k) = (h, Some sess') ->
      edge_step cfg e (settle k h sess' e)
  | es_close e k :
      k ∈ open_conns e ->
      edge_step cfg e (mkEdge (rate e) (drop_permit k (conns e)) (sess e) (open_conns e ∖ {[+ k +]}) (tcp_conns e) (splices e) (sessions e))
  | es_tcp_end e k :
      k ∈ tcp_conns e ->
      edge_step cfg e (mkEdge (rate e) (drop_permit k (conns e)) (sess e) (open_conns e) (tcp_conns e ∖ {[+ k +]}) (splices e) (sessions e))
  | es_splice_end e k :
      k ∈ splices e ->
      edge_step cfg e (mkEdge (rate e) (drop_permit k (conns e)) (sess e) (open_conns e) (tcp_conns e) (splices e ∖ {[+ k +]}) (sessions e))
  | es_session_end e k :
      k ∈ sessions e ->
      edge_step cfg e (mkEdge (rate e) (conns e) (drop_permit k (sess e)) (open_conns e) (tcp_conns e) (splices e) (sessions e ∖ {[+ k +]})).
End edge.

(** ** Permits in hand *)

(** [live] holds exactly the permits that are out. *)
Definition held (g m : Z) (cl : ConnLimiter) (live : gmultiset IpAddr) : Prop :=
  cl_inv g (mkSys cl ∅ live 0) /\ per_key_max cl = m.
Lemma held_proper (g m : Z) (cl : ConnLimiter) (l1 l2 : gmultiset IpAddr) : l1 = l2 -> held g m cl l1 -> held g m cl l2.
Proof. by intros ->. Qed.
Lemma held_new (g m : Z) : held (clamp_global g) (Z.max m 1) (ConnLimiter_new g m) ∅.
Proof. split; [apply Sys_new_inv|done]. Qed.
Lemma held_admit (g m : Z) (ip : IpAddr) (cl cl' : ConnLimiter) (p : option IpAddr) (l : gmultiset IpAddr) :
  held g m cl l -> try_admit ip cl = (p, cl') -> held g m cl' (l ⊎ opt_ms p).
Proof.
  intros [Hi Hm] Ht. unfold try_admit in Ht. destruct (acquire_global cl) as [cl1|] eqn:Ea.
  2:{ injection Ht as <- <-. cbn [opt_ms]. rewrite gmultiset_disj_union_right_id. by split. }
  assert (Hm1 : per_key_max cl1 = m) by (unfold acquire_global in Ea; case_decide; by simplify_eq).
  pose proof (cl_step_inv _ _ _ Hi (step_acquire (mkSys cl ∅ l 0) ip cl1 Ea)) as H1. cbn [lim pending live releasing] in H1.
  set (k := limiter_key ip) in *.
  assert (Hk : k ∈ ({[+ k +]} ⊎ ∅ : gmultiset IpAddr)) by multiset_solver.
  destruct (admit_key k cl1) as [[] cl2] eqn:E.
  - injection Ht as <- <-. split; [|unfold admit_key in E; case_decide; by simplify_eq].
    pose proof (cl_step_inv _ _ _ H1 (step_admit (mkSys cl1 _ l 0) k cl2 Hk E)) as H2. cbn [lim pending live releasing] in H2. cbn [opt_ms].
    replace (({[+ k +]} ⊎ ∅) ∖ {[+ k +]}) with (∅ : gmultiset IpAddr) in H2 by multiset_solver.
    replace (l ⊎ {[+ k +]}) with ({[+ k +]} ⊎ l) by multiset_solver. done.
  - injection Ht as <- <-. cbn [opt_ms]. rewrite gmultiset_disj_union_right_id.
    split; [|unfold admit_key in E; case_decide; by simplify_eq].
    pose proof (cl_step_inv _ _ _ H1 (step_reject (mkSys cl1 _ l 0) k cl2 Hk E)) as H2. cbn [lim pending live releasing] in H2.
    pose proof (cl_step_inv _ _ _ H2 (step_release (mkSys cl2 _ l 1) 0 eq_refl)) as H3. cbn [lim pending live releasing] in H3.
    by replace (({[+ k +]} ⊎ ∅) ∖ {[+ k +]}) with (∅ : gmultiset IpAddr) in H3 by multiset_solver.
Qed.
Lemma held_drop (g m : Z) (k : IpAddr) (cl : ConnLimiter) (l : gmultiset IpAddr) :
  held g m cl l -> k ∈ l -> held g m (drop_permit k cl) (l ∖ {[+ k +]}).
Proof.
  intros [Hi Hm] Hk.
  pose proof (cl_step_inv _ _ _ Hi (step_drop (mkSys cl ∅ l 0) k Hk)) as H1. cbn [lim pending live releasing] in H1.
  pose proof (cl_step_inv _ _ _ H1 (step_release (mkSys (drop_key k cl) ∅ _ 1) 0 eq_refl)) as H2.
  split; [done|]. unfold drop_permit, drop_key. by destruct (per_key cl !! k).
Qed.
Lemma held_bound (g m : Z) (cl : ConnLimiter) (l : gmultiset IpAddr) :
  held g m cl l -> Z.of_nat (size l) <= g /\ forall k, Z.of_nat (multiplicity k l) <= m.
Proof.
  intros [[H1 H2 H3 H4 H5] <-]. cbn in *. split; [|done]. rewrite gmultiset_size_empty in H1. lia.
Qed.

(** ** Routing *)
(** [host] is what the request's one [Host] header names, in lower case and without
    a port, and it is one label, not a reserved one, under the relay's domain. *)
Definition names_tunnel (domain : string) (h : HeaderMap) (host : string) : Prop :=
  (exists raw v, get_all HOST h = [raw] /\ to_str raw = Some v /\ host = to_ascii_lowercase (before_colon v)) /\
  (exists label, host = label +:+ "." +:+ domain /\ label <> EmptyString /\ contains_char "."%char label = false /\
     label ∉ RESERVED_LABELS).
Lemma host_of_Some (h : HeaderMap) (host : string) :
  host_of h = Some host <->
  exists raw v, get_all HOST h = [raw] /\ to_str raw = Some v /\ host = to_ascii_lowercase (before_colon v).
Proof.
  unfold host_of. split.
  - destruct (get_all HOST h) as [|raw [|]]; try done. destruct (to_str raw) as [v|] eqn:Ev; [|done].
    intros [= <-]. eauto.
  - by intros (raw & v & -> & -> & ->).
Qed.
Lemma is_tunnel_host_true (domain host : string) :
  is_tunnel_host domain host = true <->
  (exists label, host = label +:+ "." +:+ domain /\ label <> EmptyString /\ contains_char "."%char label = false /\
     label ∉ RESERVED_LABELS) /\ host <> connect_host domain /\ host <> domain.
Proof.
  unfold is_tunnel_host. destruct (String.eqb_spec host (connect_host domain)) as [Hc|Hc]; [cbn; split; [done|tauto]|].
  destruct (String.eqb_spec host domain) as [Hd|Hd]; [cbn; split; [done|tauto]|]. cbn [orb].
  destruct (strip_suffix (suffix domain) host) as [label|] eqn:E.
  - apply strip_suffix_Some in E. split.
    + intros Hl. split; [|done]. exists label. split; [done|].
      destruct label; [done|]. cbn [is_empty orb] in Hl. destruct (contains_char _ _); [done|].
      apply negb_true_iff, bool_decide_eq_false in Hl. by split_and!.
    + intros [(label' & -> & Hne & Hdot & Hr) _]. apply string_app_inj_r in E as <-.
      destruct label'; [done|]. cbn [is_empty orb]. rewrite Hdot. by rewrite bool_decide_false.
  - split; [done|]. intros [(label & -> & _) _]. fold (suffix domain) in E. by rewrite strip_suffix_app in E.
Qed.
(** A label that is not reserved is not [connect], and no name is longer than itself. *)
Lemma names_not_ours (domain host : string) :
  (exists label, host = label +:+ "." +:+ domain /\ label <> EmptyString /\ contains_char "."%char label = false /\
     label ∉ RESERVED_LABELS) -> host <> connect_host domain /\ host <> domain.
Proof.
  intros (label & -> & Hne & _ & Hr). split.
  - unfold connect_host. change ("connect." +:+ domain) with ("connect" +:+ ("." +:+ domain)).
    intros ->%string_app_inj_r. apply Hr. unfold RESERVED_LABELS. by constructor.
  - intros E%(f_equal String.length). rewrite !string_length_app in E. cbn in E. lia.
Qed.

Section props.
Context (show_ip : IpAddr -> string) (derive_accept_key : string -> string).

Lemma proxy_sound (r : RouterInner) (req : Request) (host : string) (peer : Peer) (lim : LimitsConfig) (up : Upstream)
    (cell : option IpAddr) :
  let h := proxy_http show_ip r req host peer lim up cell in
  (forall s hd, h_target h = Some (s, hd) <->
     lookup_http r host = Some s /\ hd = Http host (peer_ip peer) (peer_port peer) /\ up_sent up = true) /\
  (forall f, h_forwarded h = Some f -> is_Some (h_target h) /\
     f = scrub_request (show_ip (peer_ip peer)) host (is_upgrade (req_headers req)) (req_headers req)).
Proof using.
  clear derive_accept_key. cbv zeta. unfold proxy_http. destruct (lookup_http r host) as [s|]; [|cbn; split; [|done]; naive_solver].
  unfold open_stream. destruct (up_sent up); cbn [negb]; [|cbn; split; [|done]; naive_solver].
  destruct (up_reply up) as [[[]|]| |]; [|cbn; split; [|done]; naive_solver..].
  destruct (up_handshake up); cbn [negb]; [|cbn; split; [|done]; naive_solver].
  destruct (up_answer up) as [| |status headers]; try case_decide; try case_match; cbn;
    (split; [naive_solver|intros f [= <-]; eauto]).
Qed.

(** C19 Where a request can go.  A session is asked for a stream exactly when the
    request carries one [Host] header, whose value, in lower case and without its
    port, is a single non-reserved label under the relay's domain that is routed to
    that session, and the session is still there to be asked; the stream's header
    carries that name and the visitor's real address; and a request is forwarded
    only on such a stream, with its headers scrubbed for that name and address. *)
Theorem route_sound (cfg : Config) (r : RouterInner) (req : Request) (peer : Peer) (up : Upstream)
    (sl : option ConnLimiter) (cell : option IpAddr) :
  let h := (route show_ip derive_accept_key cfg r req peer up sl cell).1 in
  (forall s hd, h_target h = Some (s, hd) <-> exists host,
     names_tunnel (domain cfg) (req_headers req) host /\ lookup_http r host = Some s /\
     hd = Http host (peer_ip peer) (peer_port peer) /\ up_sent up = true) /\
  (forall f, h_forwarded h = Some f -> is_Some (h_target h) /\ exists host,
     names_tunnel (domain cfg) (req_headers req) host /\
     f = scrub_request (show_ip (peer_ip peer)) host (is_upgrade (req_headers req)) (req_headers req)).
Proof using.
  cbv zeta. unfold route, names_tunnel. setoid_rewrite <- host_of_Some.
  case_decide as Hc.
  { assert (Hn : h_target (handle_control_upgrade derive_accept_key req peer sl cell).1 = None /\
      h_forwarded (handle_control_upgrade derive_accept_key req peer sl cell).1 = None).
    { unfold handle_control_upgrade. repeat (case_match; simplify_eq; try done). }
    destruct Hn as [-> ->]. split; [|done]. intros s hd. split; [done|].
    intros (host & [Hh Hl] & _). apply names_not_ours in Hl as [Hl _]. congruence. }
  case_decide as Hd.
  { cbn. split; [|done]. intros s hd. split; [done|].
    intros (host & [Hh Hl] & _). apply names_not_ours in Hl as [_ Hl]. congruence. }
  destruct (host_of (req_headers req)) as [host|] eqn:Eh; [|cbn; split; [|done]; intros s hd; split; [done|];
    by intros (host & [? _] & _)].
  destruct (is_tunnel_host (domain cfg) host) eqn:Et; cbn [fst].
  2:{ split; [|done]. intros s hd. split; [done|]. intros (host' & [[= <-] Hl] & _).
      pose proof (names_not_ours _ _ Hl). apply not_true_iff_false in Et. destruct Et. by apply is_tunnel_host_true. }
  apply is_tunnel_host_true in Et as [Hl _].
  destruct (proxy_sound r req host peer (limits cfg) up cell) as [H1 H2]. split.
  - intros s hd. rewrite H1. split; [intros Hx; exists host; naive_solver|].
    intros (host' & [[= <-] _] & Hx). exact Hx.
  - intros f Hf. destruct (H2 f Hf) as [Ht Hs]. split; [done|]. by exists host.
Qed.

(** Upgrades are disciplined: a visitor gets a 101 only when it asked for an
    upgrade, and then the connection's permit moves to the splice; a daemon gets
    one only with a session permit, and gives its connection permit back; with any
    other answer nothing is spawned and the connection keeps its permit. *)
Theorem upgrade_discipline (cfg : Config) (r : RouterInner) (req : Request) (peer : Peer) (up : Upstream)
    (sl : option ConnLimiter) (cell : option IpAddr) :
  (forall k, str_forall value_byte (derive_accept_key k) = true) ->
  let h := (route show_ip derive_accept_key cfg r req peer up sl cell).1 in
  exists resp, h_resp h = Some resp /\
  if decide (resp_status resp = SWITCHING_PROTOCOLS) then
    h_cell h = None /\
    (is_upgrade (req_headers req) = true /\ h_session h = None /\ h_released h = None /\
       (exists s, h_splice h = Some s /\ sp_permit s = cell) \/
     is_websocket_upgrade (req_headers req) = true /\ h_splice h = None /\ h_released h = cell /\
       (exists p, h_session h = Some p /\ (sl = None \/ p = Some (limiter_key (peer_ip peer)))))
  else h_cell h = cell /\ h_splice h = None /\ h_session h = None /\ h_released h = None.
Proof using.
  intros Hkey. cbv zeta. unfold route. case_decide.
  { unfold handle_control_upgrade. destruct (is_websocket_upgrade (req_headers req)) eqn:Ew;
      [|rewrite orb_true_r; eexists; split; [done|]; by rewrite decide_False].
    destruct (String.eqb _ _); cbn [negb orb]; [|eexists; split; [done|]; by rewrite decide_False].
    destruct (header_get _ _) as [key|]; cbn [fmap option_fmap option_map];
      [|eexists; split; [done|]; by rewrite decide_False].
    unfold from_str. rewrite Hkey. cbn [mbind option_bind].
    assert (Hup : forall p sl', (sl = None \/ p = Some (limiter_key (peer_ip peer))) ->
      let h := (mkHandled (Some (switching_protocols [(CONNECTION, "upgrade"); (UPGRADE, "websocket");
         ("sec-websocket-accept", derive_accept_key key)]%string)) None None None (Some p) None cell, sl' : option ConnLimiter).1 in
      exists resp, h_resp h = Some resp /\ if decide (resp_status resp = SWITCHING_PROTOCOLS) then
        h_cell h = None /\ (is_upgrade (req_headers req) = true /\ h_session h = None /\ h_released h = None /\
            (exists s, h_splice h = Some s /\ sp_permit s = cell) \/
          true = true /\ h_splice h = None /\ h_released h = cell /\
            (exists q, h_session h = Some q /\ (sl = None \/ q = Some (limiter_key (peer_ip peer)))))
      else h_cell h = cell /\ h_splice h = None /\ h_session h = None /\ h_released h = None).
    { intros p sl' Hp. eexists. split; [done|]. rewrite decide_True by done. split; [done|]. right. eauto 7. }
    destruct sl as [limiter|]; [|by apply Hup; left].
    destruct (try_admit (peer_ip peer) limiter) as [[p|] lim'] eqn:E; cbn [fmap option_fmap option_map];
      [|eexists; split; [done|]; by rewrite decide_False].
    apply Hup. right. unfold try_admit in E. repeat case_match; by simplify_eq. }
  case_decide; [eexists; split; [done|]; by rewrite decide_False|].
  destruct (host_of (req_headers req)) as [host|]; [|eexists; split; [done|]; by rewrite decide_False].
  destruct (is_tunnel_host (domain cfg) host); [|eexists; split; [done|]; by rewrite decide_False].
  cbn [fst]. unfold proxy_http. destruct (lookup_http r host); [|eexists; split; [done|]; by rewrite decide_False].
  destruct (open_stream _ _); [|eexists; split; [done|]; by rewrite decide_False].
  destruct (up_handshake up); cbn [negb]; [|eexists; split; [done|]; by rewrite decide_False].
  destruct (up_answer up) as [| |status headers]; try (eexists; split; [done|]; by rewrite decide_False).
  destruct (decide (status = SWITCHING_PROTOCOLS)) as [->|Hs];
    [|eexists; split; [done|]; by rewrite decide_False].
  destruct (is_upgrade (req_headers req)); eexists; (split; [done|]);
    [rewrite decide_True by done; split; [done|]; left; eauto 7|by rewrite decide_False].
Qed.

(** ** Accounting *)
Inductive permit_flow (ip : IpAddr) (sl sl' : ConnLimiter) (k : IpAddr) (h : Handled) : Prop :=
  | flow_kept : h_cell h = Some k -> h_splice h = None -> h_session h = None -> h_released h = None ->
      sl' = sl \/ try_admit ip sl = (None, sl') -> permit_flow ip sl sl' k h
  | flow_splice s : h_cell h = None -> h_splice h = Some s -> sp_permit s = Some k -> h_session h = None ->
      h_released h = None -> sl' = sl -> permit_flow ip sl sl' k h
  | flow_session p : h_cell h = None -> h_splice h = None -> h_session h = Some (Some p) ->
      h_released h = Some k -> try_admit ip sl = (Some p, sl') -> permit_flow ip sl sl' k h.
Lemma route_permits (cfg : Config) (r : RouterInner) (req : Request) (peer : Peer) (up : Upstream)
    (sl sl' : ConnLimiter) (k : IpAddr) (h : Handled) :
  route show_ip derive_accept_key cfg r req peer up (Some sl) (Some k) = (h, Some sl') ->
  permit_flow (peer_ip peer) sl sl' k h.
Proof using.
  assert (Hkeep : forall resp, (plain resp (Some k), Some sl) = (h, Some sl') -> permit_flow (peer_ip peer) sl sl' k h).
  { intros resp [= <- <-]. apply flow_kept; auto. }
  unfold route. case_decide.
  { unfold handle_control_upgrade. case_match; [apply Hkeep|]. case_match; [|apply Hkeep].
    destruct (try_admit (peer_ip peer) sl) as [[p|] lim'] eqn:E; cbn [fmap option_fmap option_map];
      intros [= <- <-]; [by eapply flow_session|apply flow_kept; auto]. }
  case_decide; [apply Hkeep|]. destruct (host_of (req_headers req)) as [host|]; [|apply Hkeep].
  case_match; [|apply Hkeep]. intros [= <- <-]. unfold proxy_http.
  destruct (lookup_http r host); [|apply flow_kept; auto]. destruct (open_stream _ _); [|apply flow_kept; auto].
  destruct (up_handshake up); cbn [negb]; [|apply flow_kept; auto].
  destruct (up_answer up) as [| |status headers]; [apply flow_kept; auto..|].
  destruct (decide (status = SWITCHING_PROTOCOLS)); [|apply flow_kept; auto].
  destruct (is_upgrade (req_headers req)); [by eapply flow_splice|apply flow_kept; auto].
Qed.

Definition edge_inv (lim : LimitsConfig) (e : Edge) : Prop :=
  held (clamp_global (max_connections lim)) (Z.max (max_connections_per_ip lim) 1) (conns e)
    (open_conns e ⊎ tcp_conns e ⊎ splices e) /\
  held (clamp_global (max_sessions lim)) (Z.max (max_sessions_per_ip lim) 1) (sess e) (sessions e).
Lemma accept_held (g m : Z) (ip : IpAddr) (now : Z) (rt rt' : RateLimiter) (cl cl' : ConnLimiter)
    (p : option IpAddr) (l : gmultiset IpAddr) :
  accept ip now rt cl = (p, rt', cl') -> held g m cl l -> held g m cl' (l ⊎ opt_ms p).
Proof using.
  unfold accept. destruct (check ip now rt) as [[] r1]; cbn [negb].
  - destruct (try_admit ip cl) as [q cl1] eqn:E. intros [= <- <- <-] Hh. by eapply held_admit.
  - intros [= <- <- <-] Hh. cbn [opt_ms]. by rewrite gmultiset_disj_union_right_id.
Qed.
Lemma settle_inv (lim : LimitsConfig) (ip k : IpAddr) (sl' : ConnLimiter) (h : Handled) (e : Edge) :
  k ∈ open_conns e -> permit_flow ip (sess e) sl' k h -> edge_inv lim e -> edge_inv lim (settle k h sl' e).
Proof using.
  clear show_ip derive_accept_key.
  intros Hk Hf [H1 H2]. unfold edge_inv, settle. cbn [conns sess open_conns tcp_conns splices sessions].
  destruct Hf as [-> -> -> -> Hsl|s -> -> Hp -> -> ->|p -> -> -> -> Ht]; cbn [opt_ms].
  - split; [eapply held_proper; [|exact H1]; multiset_solver|].
    destruct Hsl as [->|Hsl]; [done|]. eapply held_proper; [|eapply held_admit; [exact H2|exact Hsl]]. multiset_solver.
  - rewrite Hp. cbn [opt_ms]. split; [|done]. eapply held_proper; [|exact H1]. multiset_solver.
  - split; [|by eapply (held_admit _ _ _ _ _ (Some p))].
    eapply held_proper; [|apply (held_drop _ _ k); [exact H1|]]; multiset_solver.
Qed.
Lemma edge_step_inv (cfg : Config) (e e' : Edge) :
  edge_step show_ip derive_accept_key cfg e e' -> edge_inv (limits cfg) e -> edge_inv (limits cfg) e'.
Proof using.
  intros Hs Hi. pose proof Hi as [H1 H2].
  destruct Hs as [e now|e ip now rate' conns' p Ha|e ip now rate' conns' p Ha|e k r req peer up h sess' Hk Hr
    |e k Hk|e k Hk|e k Hk|e k Hk];
    try (split; cbn [conns sess open_conns tcp_conns splices sessions]; [|exact H2]).
  - exact H1.
  - eapply held_proper; [|eapply accept_held; [exact Ha|exact H1]]. multiset_solver.
  - eapply held_proper; [|eapply accept_held; [exact Ha|exact H1]]. multiset_solver.
  - apply route_permits in Hr. by eapply settle_inv.
  - eapply held_proper; [|apply (held_drop _ _ k); [exact H1|]]; multiset_solver.
  - eapply held_proper; [|apply (held_drop _ _ k); [exact H1|]]; multiset_solver.
  - eapply held_proper; [|apply (held_drop _ _ k); [exact H1|]]; multiset_solver.
  - split; [exact H1|]. by apply held_drop.
Qed.

(** C17 The relay stays within its budget: whatever connections arrive, whatever they
    request and in whatever order things end, open connections, raw TCP
    connections and upgraded splices together never exceed [max_connections], nor
    [max_connections_per_ip] for one source; live sessions never exceed
    [max_sessions] and [max_sessions_per_ip]. *)
Theorem edge_bounded (cfg : Config) (e : Edge) :
  rtc (edge_step show_ip derive_accept_key cfg) (Edge_new (limits cfg)) e ->
  Z.of_nat (size (open_conns e) + size (tcp_conns e) + size (splices e))
    <= clamp_global (max_connections (limits cfg)) /\
  (forall k, Z.of_nat (multiplicity k (open_conns e) + multiplicity k (tcp_conns e) + multiplicity k (splices e))
    <= Z.max (max_connections_per_ip (limits cfg)) 1) /\
  Z.of_nat (size (sessions e)) <= clamp_global (max_sessions (limits cfg)) /\
  (forall k, Z.of_nat (multiplicity k (sessions e)) <= Z.max (max_sessions_per_ip (limits cfg)) 1).
Proof using.
  intros Hr. assert (H0 : edge_inv (limits cfg) (Edge_new (limits cfg))).
  { split; cbn; [eapply held_proper; [|apply held_new]; multiset_solver|apply held_new]. }
  assert (Hi : edge_inv (limits cfg) e).
  { induction Hr as [x|x y z Hs _ IH]; [done|]. apply IH. by eapply edge_step_inv. }
  destruct Hi as [H1 H2]. apply held_bound in H1 as [H1 H1']. apply held_bound in H2 as [H2 H2'].
  rewrite !gmultiset_size_disj_union in H1. split_and!; try done.
  intros k. specialize (H1' k). by rewrite !multiplicity_disj_union in H1'.
Qed.

(** ** Names *)

Lemma valid_not_reserved (label : string) :
  is_ok (validate_label label) = true -> label <> "connect"%string /\ label ∉ RESERVED_LABELS.
Proof using.
  unfold validate_label. destruct label as [|c s]; [done|]. set (label := String c s).
  destruct (decide (63 < String.length label)%nat); [done|]. destruct (negb (ok_edge c) || _); [done|].
  destruct (negb (str_forall ok_inner label)); [done|].
  case_bool_decide as Hr; [done|]. intros _. clearbody label. split; [|done].
  intros ->. apply Hr. unfold RESERVED_LABELS. by constructor.
Qed.
(** Every name the registry can hand out is served: a hostname whose label the
    registry accepts is a tunnel host of the relay. *)
Theorem registered_is_tunnel_host (dom fqdn label : string) :
  label_of dom fqdn = Some label -> is_tunnel_host dom fqdn = true.
Proof using.
  intros [-> Hv]%label_of_Some. unfold is_tunnel_host, connect_host.
  assert (Hnot : label <> "connect"%string /\ label ∉ RESERVED_LABELS) by (by apply valid_not_reserved).
  destruct Hnot as [Hc Hr]. destruct (valid_label_shape label Hv) as [He Hd].
  assert (E1 : String.eqb (label +:+ suffix dom) ("connect." +:+ dom) = false).
  { apply String.eqb_neq. intros E. apply Hc. apply (string_app_inj_r label "connect" (suffix dom)). exact E. }
  assert (E2 : String.eqb (label +:+ suffix dom) dom = false).
  { apply String.eqb_neq. intros E%(f_equal String.length). unfold suffix in E.
    rewrite !string_length_app in E. cbn in E. lia. }
  rewrite E1, E2. cbn [orb]. rewrite strip_suffix_app, He, Hd. cbn [orb].
  by rewrite bool_decide_eq_false_2.
Qed.
End props.

(** ** A relay at work *)
Definition demo_cfg : Config := mkConfig "relay.dev" "EtherTunnel relay" default_limits.
Definition visitor : Peer := mkPeer (V4 [Byte.x0a; Byte.x00; Byte.x00; Byte.x01]) 4242.
Definition demo_router : RouterInner := (claim (mkHandle 7 1) ["demo.relay.dev"] [] Router_new).1.
(** A WebSocket upgrade to [Demo.relay.dev:443], with a forged forwarding header. *)
Definition ws_request : Request := mkRequest "GET"
  (<["host" := ["Demo.relay.dev:443"]]> (<["connection" := ["keep-alive, Upgrade"]]>
   (<["upgrade" := ["websocket"]]> (<["x-forwarded-for" := ["127.0.0.1"]]> ∅))))%string.
Definition ws_upstream : Upstream :=
  mkUpstream true (ReplyResult (Ok ())) true
    (AnswerResponse 101 (<["connection" := ["upgrade"]]> (<["server" := ["nginx"]]> ∅))%string).
Definition demo_ip (ip : IpAddr) : string := "10.0.0.1".
Definition demo_key (k : string) : string := "s3pPLMBiTxaQ9kYGzzhZRbK+xOo=".
Definition ws_handled : Handled :=
  (route demo_ip demo_key demo_cfg demo_router ws_request visitor ws_upstream None (Some (peer_ip visitor))).1.

Example ws_forwarded :
  get_all "x-forwarded-for" (default ∅ (h_forwarded ws_handled)) = ["10.0.0.1"%string] /\
  h_target ws_handled = Some (mkHandle 7 1, Http "demo.relay.dev" (peer_ip visitor) 4242).
Proof. vm_compute. split; reflexivity. Qed.
Lemma upgrade_discipline_witness :
  (exists resp, h_resp ws_handled = Some resp) /\ h_splice ws_handled = Some (mkSplice (Some (peer_ip visitor)) (Some 1800) None).
Proof.
  split; [|vm_compute; reflexivity].
  destruct (upgrade_discipline demo_ip demo_key demo_cfg demo_router ws_request visitor ws_upstream None
    (Some (peer_ip visitor)) (fun _ => eq_refl)) as (resp & Hr & _).
  exists resp. exact Hr.
Defined.
Lemma registered_is_tunnel_host_witness : is_tunnel_host "relay.dev" "demo.relay.dev" = true.
Proof. apply (registered_is_tunnel_host "relay.dev" "demo.relay.dev" "demo"). vm_compute. reflexivity. Defined.

(** One connection accepted. *)
Definition edge_start : Edge := Edge_new default_limits.
Definition edge_accepted : Edge :=
  let a := accept (peer_ip visitor) 0 (rate edge_start) (conns edge_start) in
  mkEdge a.1.2 a.2 (sess edge_start) (open_conns edge_start ⊎ opt_ms a.1.1) (tcp_conns edge_start)
    (splices edge_start) (sessions edge_start).
Lemma edge_bounded_witness :
  size (open_conns edge_accepted) = 1%nat /\
  Z.of_nat (size (open_conns edge_accepted) + size (tcp_conns edge_accepted) + size (splices edge_accepted)) <= 4096.
Proof.
  split; [vm_compute; reflexivity|].
  refine (proj1 (edge_bounded demo_ip demo_key demo_cfg edge_accepted _)).
  apply rtc_once. apply (es_accept demo_ip demo_key demo_cfg edge_start (peer_ip visitor) 0).
  destruct (accept (peer_ip visitor) 0 (rate edge_start) (conns edge_start)) as [[p r] c]. reflexivity.
Defined.
