(* ===== verification/Front.v ===== *)
(** * The running relay: its loops and its shutdown (crates/relay/src/listener.rs, tcp.rs)

    [serve_with] wires the shared session context and starts the accept loop of
    the public listener and the sweeper; the port manager starts one accept loop
    per bound port.  All of them stop on the relay-wide cancellation, which
    [RelayHandle::shutdown] and dropping the handle trigger.  The model runs these
    loops on top of the permits of Edge.v and the context of Control.v. *)
From stdpp Require Import gmultiset.
From S2P Require Import Prelude Frames Router RateLimit Auth Polar Session Control Edge.
Local Open Scope Z_scope.

Record Front (A : Type) := mkFront {
  fr_ctx : SessionCtx A;
  fr_edge : Edge;
  fr_accepting : bool;          (* the public accept loop runs *)
  fr_ports : gset Z;            (* ports whose accept loop runs *)
  fr_taken : gmap (option Z) IpAddr;   (* the connection a loop is in the middle of accepting *)
  fr_sweeping : bool;
  fr_cancelled : bool;
}.
Arguments mkFront {A}.
Arguments fr_ctx {A}.
Arguments fr_edge {A}.
Arguments fr_accepting {A}.
Arguments fr_ports {A}.
Arguments fr_taken {A}.
Arguments fr_sweeping {A}.
Arguments fr_cancelled {A}.

(** An accept loop is the public one ([None]) or that of a port.  It takes a
    connection from its listener and then admits it, and may be told to stop in
    between. *)
Inductive FrontEvent :=
  | FeTake (loop : option Z) (ip : IpAddr)
  | FeAccept (loop : option Z) (now : Z)
  | FeAcceptError (loop : option Z)
  | FeSweep (now : Z)
  | FeBind (port : Z) (bind : result string ())
  | FeRequest (k : IpAddr) (r : RouterInner) (req : Request) (peer : Peer) (up : Upstream)
  | FeClose (k : IpAddr)
  | FeTcpEnd (k : IpAddr)
  | FeSpliceEnd (k : IpAddr)
  | FeSessionEnd (k : IpAddr)
  | FeShutdown
  | FeAcceptStops
  | FePortStops (port : Z)
  | FeSweepStops.

Section front.
Context {A : Type} (show_ip : IpAddr -> string) (derive_accept_key : string -> string) (cfg : Config).
Implicit Type f : Front A.

(** [serve_with], once the listener is bound. *)
Definition serve_front (range : Z * Z) (revalidate_secs : Z) (ctx : SessionCtx A) : Front A :=
  let edge := Edge_new (limits cfg) in
  let ctx1 := set_session_limiter (sess edge) ctx in
  let ctx2 := set_token_revalidate_interval_secs revalidate_secs ctx1 in
  mkFront (set_tcp (mkTcp range ∅) ctx2) edge true ∅ ∅ true false.

Definition set_edge (e : Edge) f : Front A :=
  mkFront (set_session_limiter (sess e) (fr_ctx f)) e (fr_accepting f) (fr_ports f) (fr_taken f) (fr_sweeping f) (fr_cancelled f).
Definition set_taken (t : gmap (option Z) IpAddr) f : Front A :=
  mkFront (fr_ctx f) (fr_edge f) (fr_accepting f) (fr_ports f) t (fr_sweeping f) (fr_cancelled f).
(** [RelayHandle::shutdown], and its [Drop]. *)
Definition shutdown f : Front A :=
  mkFront (fr_ctx f) (fr_edge f) (fr_accepting f) (fr_ports f) (fr_taken f) (fr_sweeping f) true.

Definition alive (loop : option Z) f : bool :=
  match loop with None => fr_accepting f | Some port => bool_decide (port ∈ fr_ports f) end.
(** The [select!] of an accept loop is biased: the cancellation is polled first.
    Past it, the connection taken is admitted or dropped whatever happens. *)
Definition take_turn (loop : option Z) (ip : IpAddr) f : option (Front A) :=
  if fr_cancelled f || negb (alive loop f) then None
  else match fr_taken f !! loop with
       | Some _ => None
       | None => Some (set_taken (<[loop := ip]> (fr_taken f)) f)
       end.
Definition is_tcp (loop : option Z) : bool := match loop with Some _ => true | None => false end.
Definition accept_turn (loop : option Z) (now : Z) f : option (Front A) :=
  ip ← fr_taken f !! loop;
  let e := fr_edge f in
  match accept ip now (rate e) (conns e) with
  | (permit, rate', conns') =>
      Some (set_taken (delete loop (fr_taken f)) (set_edge (mkEdge rate' conns' (sess e)
        (if is_tcp loop then open_conns e else open_conns e ⊎ opt_ms permit)
        (if is_tcp loop then tcp_conns e ⊎ opt_ms permit else tcp_conns e) (splices e) (sessions e)) f))
  end.
Definition accept_error (loop : option Z) f : option (Front A) :=
  if fr_cancelled f || negb (alive loop f) then None else Some f.
(** The sweeper's [select!] is not biased: a tick may still win after the
    cancellation, until the sweeper has seen it. *)
Definition sweep_turn (now : Z) f : option (Front A) :=
  if negb (fr_sweeping f) then None
  else let e := fr_edge f in
       Some (set_edge (mkEdge (sweep now (rate e)) (conns e) (sess e) (open_conns e) (tcp_conns e) (splices e) (sessions e)) f).
(** [ensure_bound]: the first time it also starts the port's accept loop. *)
Definition bind_turn (port : Z) (bind : result string ()) f : option (Front A) :=
  m ← ctx_tcp (fr_ctx f);
  match ensure_bound port bind m with
  | (Ok _, m') =>
      Some (mkFront (set_tcp m' (fr_ctx f)) (fr_edge f) (fr_accepting f)
        (if decide (port ∈ bound m) then fr_ports f else {[port]} ∪ fr_ports f) (fr_taken f) (fr_sweeping f) (fr_cancelled f))
  | (Err _, m') => Some f
  end.
(** A loop leaves at its next poll after the cancellation, not in the middle of
    accepting. *)
Definition may_stop (loop : option Z) f : bool :=
  fr_cancelled f && alive loop f && bool_decide (fr_taken f !! loop = None).

(** The end of a connection, a splice or a session gives its permit back. *)
Definition ends (k : IpAddr) (live : gmultiset IpAddr) (e' : Edge) f : option (Front A) :=
  if decide (k ∈ live) then Some (set_edge e' f) else None.

Definition front_step (ev : FrontEvent) f : option (Front A) :=
  let e := fr_edge f in
  match ev with
  | FeTake loop ip => take_turn loop ip f
  | FeAccept loop now => accept_turn loop now f
  | FeAcceptError loop => accept_error loop f
  | FeSweep now => sweep_turn now f
  | FeBind port bind => bind_turn port bind f
  | FeRequest k r req peer up =>
      if decide (k ∈ open_conns e) then
        match route show_ip derive_accept_key cfg r req peer up (Some (sess e)) (Some k) with
        | (h, Some sess') => Some (set_edge (settle k h sess' e) f)
        | (_, None) => None
        end
      else None
  | FeClose k => ends k (open_conns e)
      (mkEdge (rate e) (drop_permit k (conns e)) (sess e) (open_conns e ∖ {[+ k +]}) (tcp_conns e) (splices e) (sessions e)) f
  | FeTcpEnd k => ends k (tcp_conns e)
      (mkEdge (rate e) (drop_permit k (conns e)) (sess e) (open_conns e) (tcp_conns e ∖ {[+ k +]}) (splices e) (sessions e)) f
  | FeSpliceEnd k => ends k (splices e)
      (mkEdge (rate e) (drop_permit k (conns e)) (sess e) (open_conns e) (tcp_conns e) (splices e ∖ {[+ k +]}) (sessions e)) f
  | FeSessionEnd k => ends k (sessions e)
      (mkEdge (rate e) (conns e) (drop_permit k (sess e)) (open_conns e) (tcp_conns e) (splices e) (sessions e ∖ {[+ k +]})) f
  | FeShutdown => Some (shutdown f)
  | FeAcceptStops =>
      if may_stop None f
      then Some (mkFront (fr_ctx f) e false (fr_ports f) (fr_taken f) (fr_sweeping f) true) else None
  | FePortStops port =>
      if may_stop (Some port) f
      then Some (mkFront (fr_ctx f) e (fr_accepting f) (fr_ports f ∖ {[port]}) (fr_taken f) (fr_sweeping f) true) else None
  | FeSweepStops =>
      if fr_cancelled f && fr_sweeping f
      then Some (mkFront (fr_ctx f) e (fr_accepting f) (fr_ports f) (fr_taken f) false true) else None
  end.
Fixpoint front_run (evs : list FrontEvent) f : option (Front A) :=
  match evs with
  | [] => Some f
  | ev :: rest => f' ← front_step ev f; front_run rest f'
  end.

(** ** The invariant *)
Definition front_inv (range : Z * Z) f : Prop :=
  rtc (edge_step show_ip derive_accept_key cfg) (Edge_new (limits cfg)) (fr_edge f) /\
  ctx_session_limiter (fr_ctx f) = Some (sess (fr_edge f)) /\
  (exists m, ctx_tcp (fr_ctx f) = Some m /\ port_range m = range /\ fr_ports f ⊆ bound m) /\
  forall loop ip, fr_taken f !! loop = Some ip -> alive loop f = true.

Lemma inv_set_edge (range : Z * Z) (e' : Edge) f :
  edge_step show_ip derive_accept_key cfg (fr_edge f) e' -> front_inv range f -> front_inv range (set_edge e' f).
Proof using.
  intros Hs (Hr & _ & Hm & Ht). split; [eapply rtc_r; [exact Hr|exact Hs]|]. by split.
Qed.
Lemma inv_bind (range : Z * Z) (port : Z) (bind : result string ()) f f' :
  front_inv range f -> bind_turn port bind f = Some f' -> front_inv range f'.
Proof using.
  intros (Hr & Hl & (m & Hm & Hg & Hb) & Ht). unfold bind_turn. rewrite Hm. cbn. unfold ensure_bound.
  case_bool_decide as Hport; [|destruct bind as [u|e]]; intros [= <-]; split; try done; (split; [done|]); cbn.
  - rewrite decide_True by done. split; [by exists m|done].
  - rewrite decide_False by done. split; [eexists; split; [reflexivity|]; cbn; split; [done|set_solver]|].
    intros loop ip Hx. specialize (Ht loop ip Hx). destruct loop as [p|]; cbn in *; [|done].
    apply bool_decide_eq_true in Ht. apply bool_decide_eq_true. set_solver.
  - split; [by exists m|done].
Qed.
Lemma inv_take (range : Z * Z) (loop : option Z) (ip : IpAddr) f f' :
  front_inv range f -> take_turn loop ip f = Some f' -> front_inv range f'.
Proof using.
  intros (Hr & Hl & Hm & Ht). unfold take_turn. destruct (fr_cancelled f); [done|].
  destruct (alive loop f) eqn:Ea; [|done]. cbn. destruct (fr_taken f !! loop); [done|]. intros [= <-].
  split_and!; try done. cbn. intros l ip'. rewrite lookup_insert_Some. intros [[<- <-]|[_ Hx]]; [exact Ea|by eapply Ht].
Qed.
Lemma inv_accept (range : Z * Z) (loop : option Z) (now : Z) f f' :
  front_inv range f -> accept_turn loop now f = Some f' -> front_inv range f'.
Proof using.
  intros Hi. unfold accept_turn. intros (ip & Hip & H)%bind_Some.
  destruct (accept _ _ _ _) as [[p r'] c'] eqn:E. injection H as <-. cbv zeta in E.
  set (e' := mkEdge _ _ _ _ _ _ _). assert (Hs : edge_step show_ip derive_accept_key cfg (fr_edge f) e').
  { unfold e'. destruct loop; cbn; [by eapply es_accept_tcp|by eapply es_accept]. }
  destruct (inv_set_edge range e' f Hs Hi) as (Hr & Hl & Hm & Ht). split_and!; try done.
  intros l ip'. cbn [fr_taken set_taken]. intros [_ Hx]%lookup_delete_Some. by apply (Ht l ip').
Qed.
Lemma inv_stop (range : Z * Z) (port : Z) f :
  may_stop (Some port) f = true -> front_inv range f ->
  front_inv range (mkFront (fr_ctx f) (fr_edge f) (fr_accepting f) (fr_ports f ∖ {[port]}) (fr_taken f) (fr_sweeping f) true).
Proof using.
  intros [_ Hn%bool_decide_eq_true]%andb_true_iff (Hr & Hl & (m & Hm & Hg & Hb) & Ht).
  split; [done|]. split; [done|]. split; [exists m; cbn; split_and!; [done|done|set_solver]|].
  intros loop ip Hx. cbn in Hx. specialize (Ht loop ip Hx). destruct loop as [p|]; cbn in *; [|done].
  apply bool_decide_eq_true in Ht. apply bool_decide_eq_true. set_unfold. split; [done|]. intros ->. congruence.
Qed.
Lemma inv_front_step (range : Z * Z) (ev : FrontEvent) f f' :
  front_inv range f -> front_step ev f = Some f' -> front_inv range f'.
Proof using.
  intros Hi. destruct ev as [loop ip|loop now|loop|now|port bind|k r req peer up|k|k|k|k| | |port|];
    cbn [front_step]; unfold accept_error, sweep_turn, ends.
  - by apply inv_take.
  - by apply inv_accept.
  - destruct (_ || _); [done|]. by intros [= <-].
  - destruct (negb _); [done|]. intros [= <-]. apply inv_set_edge; [|done]. apply es_sweep.
  - by apply inv_bind.
  - case_decide; [|done]. destruct (route _ _ _ _ _ _ _ _ _) as [h [sess'|]] eqn:E; [|done]. intros [= <-].
    apply inv_set_edge; [|done]. by eapply es_request.
  - case_decide; [|done]. intros [= <-]. apply inv_set_edge; [|done]. by apply es_close.
  - case_decide; [|done]. intros [= <-]. apply inv_set_edge; [|done]. by apply es_tcp_end.
  - case_decide; [|done]. intros [= <-]. apply inv_set_edge; [|done]. by apply es_splice_end.
  - case_decide; [|done]. intros [= <-]. apply inv_set_edge; [|done]. by apply es_session_end.
  - by intros [= <-].
  - destruct (may_stop None f) eqn:E; [|done]. intros [= <-]. destruct Hi as (Hr & Hl & Hm & Ht).
    apply andb_true_iff in E as [_ Hn%bool_decide_eq_true]. split_and!; try done.
    intros loop ip Hx. cbn in Hx. specialize (Ht loop ip Hx). by destruct loop; [|congruence].
  - destruct (may_stop (Some port) f) eqn:E; [|done]. intros [= <-]. by apply inv_stop.
  - destruct (_ && _); [|done]. by intros [= <-].
Qed.
Lemma inv_serve (range : Z * Z) (secs : Z) (ctx : SessionCtx A) : front_inv range (serve_front range secs ctx).
Proof using.
  split; [apply rtc_refl|]. split; [done|]. split; [eexists; split; [reflexivity|]; by split|].
  intros loop ip. cbn. by rewrite lookup_empty.
Qed.

(** ** After the shutdown *)
Definition holding (e : Edge) : nat := size (open_conns e) + size (tcp_conns e) + size (splices e).
(** The connections held, and those a loop is in the middle of accepting. *)
Definition load f : nat := holding (fr_edge f) + size (fr_taken f).
Lemma settle_holding (ip k : IpAddr) (h : Handled) (sl' : ConnLimiter) (e : Edge) :
  k ∈ open_conns e -> permit_flow ip (sess e) sl' k h -> (holding (settle k h sl' e) <= holding e)%nat.
Proof using.
  clear cfg show_ip derive_accept_key. intros Hk Hf. unfold holding, settle.
  cbn [conns sess open_conns tcp_conns splices sessions].
  assert (Hs : size (open_conns e) = S (size (open_conns e ∖ {[+ k +]}))).
  { rewrite (gmultiset_disj_union_difference' k (open_conns e)) at 1 by done.
    rewrite gmultiset_size_disj_union, gmultiset_size_singleton. lia. }
  destruct Hf as [H1 H2 _ _ _|s H1 H2 Hp _ _ _|p H1 H2 _ _ _]; rewrite H1, H2; cbn [opt_ms];
    rewrite ?Hp; cbn [opt_ms]; rewrite !gmultiset_size_disj_union, ?gmultiset_size_singleton, ?gmultiset_size_empty; lia.
Qed.
Lemma size_minus (X : gmultiset IpAddr) (k : IpAddr) : (size (X ∖ {[+ k +]}) <= size X)%nat.
Proof using. clear. apply gmultiset_subseteq_size. multiset_solver. Qed.
Lemma opt_ms_size (o : option IpAddr) : (size (opt_ms o) <= 1)%nat.
Proof using. clear. destruct o; cbn; [by rewrite gmultiset_size_singleton|rewrite gmultiset_size_empty; lia]. Qed.
(** Admitting what a loop had taken does not raise the load. *)
Lemma accept_load (loop : option Z) (now : Z) f f' :
  accept_turn loop now f = Some f' -> fr_cancelled f' = fr_cancelled f /\ (load f' <= load f)%nat.
Proof using.
  unfold accept_turn. intros (ip & Hip & H)%bind_Some. destruct (accept _ _ _ _) as [[p r'] c'] eqn:E. injection H as <-.
  split; [done|]. unfold load, holding. cbn.
  assert (Hd : size (fr_taken f) = S (size (delete loop (fr_taken f)))).
  { rewrite <- (insert_delete_id (fr_taken f) loop ip Hip) at 1. by rewrite map_size_insert_None by apply lookup_delete_eq. }
  pose proof (opt_ms_size p). destruct (is_tcp loop); rewrite ?gmultiset_size_disj_union; lia.
Qed.
Lemma cancelled_step (ev : FrontEvent) f f' :
  fr_cancelled f = true -> front_step ev f = Some f' ->
  fr_cancelled f' = true /\ (load f' <= load f)%nat.
Proof using.
  intros Hc. destruct ev as [loop ip|loop now|loop|now|port bind|k r req peer up|k|k|k|k| | |port|];
    cbn [front_step]; unfold take_turn, accept_error, sweep_turn, ends, bind_turn, may_stop; rewrite ?Hc; cbn [orb andb]; try done.
  - intros [H1 H2]%accept_load. by rewrite H1.
  - destruct (negb _); [done|]. by intros [= <-].
  - destruct (ctx_tcp (fr_ctx f)) as [m|]; [|done]. cbn.
    unfold ensure_bound. case_bool_decide; [|destruct bind]; by intros [= <-].
  - case_decide as Hk; [|done]. destruct (route _ _ _ _ _ _ _ _ _) as [h [sess'|]] eqn:E; [|done]. intros [= <-].
    split; [done|]. apply route_permits in E. pose proof (settle_holding _ _ _ _ _ Hk E). unfold load. cbn. lia.
  - case_decide; [|done]. intros [= <-]. split; [done|]. unfold load, holding. cbn. pose proof (size_minus (open_conns (fr_edge f)) k). lia.
  - case_decide; [|done]. intros [= <-]. split; [done|]. unfold load, holding. cbn. pose proof (size_minus (tcp_conns (fr_edge f)) k). lia.
  - case_decide; [|done]. intros [= <-]. split; [done|]. unfold load, holding. cbn. pose proof (size_minus (splices (fr_edge f)) k). lia.
  - case_decide; [|done]. by intros [= <-].
  - by intros [= <-].
  - destruct (_ && _); [|done]. by intros [= <-].
  - destruct (_ && _); [|done]. by intros [= <-].
  - destruct (fr_sweeping f); [|done]. by intros [= <-].
Qed.

(** C18 The running relay implements the edge and stops when told.  In every run of
    the relay's loops: the permits evolve only by the edge's steps, so its bounds
    hold of the process; sessions are admitted by the very limiter the
    configuration sets; the port manager keeps the configured range, an accept loop
    runs only on a bound port, and only a running loop takes a connection.  Once
    shut down no loop takes another connection: each may only finish with the one
    it was in the middle of accepting, and the connections held together with those
    become fewer. *)
Theorem front_refines_edge (range : Z * Z) (secs : Z) (ctx : SessionCtx A) (evs1 evs2 : list FrontEvent) (f1 f2 : Front A) :
  front_run evs1 (serve_front range secs ctx) = Some f1 -> front_run evs2 f1 = Some f2 ->
  front_inv range f1 /\ front_inv range f2 /\
  (fr_cancelled f1 = true -> fr_cancelled f2 = true /\ (load f2 <= load f1)%nat).
Proof using.
  intros H1 H2.
  assert (Hrun : forall evs g g', front_run evs g = Some g' -> front_inv range g -> front_inv range g').
  { induction evs as [|ev evs IH]; intros g g'; cbn [front_run]; [by intros [= <-]|].
    intros (g1 & Hs & Hr)%bind_Some Hg. eapply IH; [exact Hr|]. by eapply inv_front_step. }
  assert (Hi1 : front_inv range f1) by (eapply Hrun; [exact H1|apply inv_serve]).
  split; [done|]. split; [by eapply Hrun|]. clear H1 Hi1 Hrun. revert f1 H2.
  induction evs2 as [|ev evs IH]; intros f1; cbn [front_run].
  - by intros [= <-].
  - intros (g1 & Hs & Hr)%bind_Some Hc. destruct (cancelled_step ev f1 g1 Hc Hs) as [Hc1 Hh].
    destruct (IH g1 Hr Hc1). split; [done|]. lia.
Qed.
End front.

(** ** A run *)
Definition front0 : Front () := serve_front demo_cfg (20000, 20010) 60 ctx0.
Definition before_stop : list FrontEvent :=
  [FeTake None (peer_ip visitor); FeAccept None 0; FeBind 20001 (Ok ()); FeBind 20001 (Err "in use"%string);
   FeTake (Some 20001) (peer_ip visitor); FeSweep 5; FeShutdown].
Definition after_stop : list FrontEvent :=
  [FeAcceptStops; FeAccept (Some 20001) 1; FeSweep 6; FePortStops 20001;
   FeTcpEnd (limiter_key (peer_ip visitor)); FeSweepStops].
Definition shut_down : Front () := default front0 (front_run demo_ip demo_key demo_cfg before_stop front0).
Definition drained : Front () := default front0 (front_run demo_ip demo_key demo_cfg after_stop shut_down).
Lemma run_default {X : Type} (o : option X) (d : X) :
  match o with Some _ => true | None => false end = true -> o = Some (default d o).
Proof. by destruct o. Qed.
Lemma front_refines_edge_witness :
  load shut_down = 2%nat /\ load drained = 1%nat /\
  fr_cancelled drained = true /\ (load drained <= load shut_down)%nat.
Proof.
  split; [vm_compute; reflexivity|]. split; [vm_compute; reflexivity|].
  apply (front_refines_edge demo_ip demo_key demo_cfg (20000, 20010) 60 ctx0 before_stop after_stop shut_down drained).
  - apply run_default. vm_compute. reflexivity.
  - apply run_default. vm_compute. reflexivity.
  - vm_compute. reflexivity.
Defined.
