(* ===== verification/Fs.v ===== *)
(** * Files on disk (crates/client/src/paths.rs, crates/relay/src/acme.rs)

    The file system is a map from file names to contents and modes whose
    operations may fail ([faults]).  A program of operations may be killed
    anywhere, also in the middle of the bytes ([crash_points]); and the machine may
    stop there ([stops]), which also loses or garbles what was written to a file and
    not yet synced ([survives]).  Both crates write their files through the same
    [atomic_write]: a temporary file, synced, then renamed. *)
From S2P Require Import Prelude.
Local Open Scope Z_scope.

(** ** The file system *)
Record File := mkFile { content : list byte; mode : Z }.
#[export] Instance File_eq_dec : EqDecision File.
Proof. solve_decision. Defined.
Abbreviation Files := (gmap string File).

(** Does the next operation fail, and after how many bytes written? *)
Inductive Fault := Works | Fails (written : nat).
Record Disk := mkDisk { files : Files; faults : list Fault }.

Inductive FsOp :=
  | Remove (p : string)
  | Create (p : string) (m : Z)            (* O_EXCL *)
  | Append (p : string) (bytes : list byte)
  | Sync (p : string)
  | Rename (p q : string).

Definition append_to (p : string) (bytes : list byte) (fs : Files) : Files :=
  alter (fun f => mkFile (content f ++ bytes) (mode f)) p fs.

(** One operation on the files; [None] when the system refuses it. *)
Definition fs_apply (op : FsOp) (fs : Files) : option Files :=
  match op with
  | Remove p => match fs !! p with Some _ => Some (delete p fs) | None => None end
  | Create p m => match fs !! p with Some _ => None | None => Some (<[p := mkFile [] m]> fs) end
  | Append p bytes => match fs !! p with Some _ => Some (append_to p bytes fs) | None => None end
  | Sync _ => Some fs
  | Rename p q => match fs !! p with Some f => Some (<[q := f]> (delete p fs)) | None => None end
  end.
(** What a failing operation may have done. *)
Definition fs_partial (op : FsOp) (k : nat) (fs : Files) : Files :=
  match op with
  | Append p bytes => append_to p (take k bytes) fs
  | _ => fs
  end.

Definition fs_do (op : FsOp) : st Disk string () :=
  fun d =>
    match faults d with
    | Fails k :: fl => (Err "io error"%string, mkDisk (fs_partial op k (files d)) fl)
    | _ =>
        match fs_apply op (files d) with
        | Some fs => (Ok (), mkDisk fs (tail (faults d)))
        | None => (Err "io error"%string, mkDisk (files d) (tail (faults d)))
        end
    end.
(** [let _ = op] and [op.ok()]. *)
Definition fs_try (op : FsOp) : st Disk string () := fun d => (Ok (), (fs_do op d).2).

(** A program of operations; the flag tells whether an error ends it. *)
Fixpoint fs_run (ops : list (FsOp * bool)) : st Disk string () :=
  match ops with
  | [] => mret ()
  | (op, true) :: rest => fs_do op ;; fs_run rest
  | (op, false) :: rest => fs_try op ;; fs_run rest
  end.

(** The states in which a crash can leave the disk: before an operation, in the
    middle of one, and at the end. *)
Fixpoint crash_points (ops : list (FsOp * bool)) (d : Disk) : list Files :=
  files d ::
  match ops with
  | [] => []
  | (op, must) :: rest =>
      match op with
      | Append p bytes => (fun k => fs_partial op k (files d)) <$> seq 0 (S (length bytes))
      | _ => []
      end ++
      match fs_do op d with
      | (Ok _, d') => crash_points rest d'
      | (Err _, d') => files d' :: if must then [] else crash_points rest d'
      end
  end.

(** ** When the machine stops

    The files whose bytes are not known to be on the medium.  A rename takes the
    state of the bytes with it; names themselves (create, rename, remove) are
    journalled in order by the file system, so an interrupted program leaves the
    names as they were at one of its points. *)
Definition dirty_ok (op : FsOp) (D : gset string) : gset string :=
  match op with
  | Remove p => D ∖ {[p]}
  | Create p _ | Append p _ => {[p]} ∪ D
  | Sync p => D ∖ {[p]}
  | Rename p q => if decide (p ∈ D) then {[q]} ∪ (D ∖ {[p]}) else D ∖ {[p; q]}
  end.
Definition dirty_err (op : FsOp) (D : gset string) : gset string :=
  match op with Append p _ => {[p]} ∪ D | _ => D end.
Fixpoint stops (ops : list (FsOp * bool)) (d : Disk) (D : gset string) : list (Files * gset string) :=
  (files d, D) ::
  match ops with
  | [] => []
  | (op, must) :: rest =>
      match op with
      | Append p bytes => (fun k => (fs_partial op k (files d), dirty_err op D)) <$> seq 0 (S (length bytes))
      | _ => []
      end ++
      match fs_do op d with
      | (Ok _, d') => stops rest d' (dirty_ok op D)
      | (Err _, d') => (files d', dirty_err op D) :: if must then [] else stops rest d' (dirty_err op D)
      end
  end.
(** What is found when the machine is up again: an unsynced file has its name and
    its mode, and any content. *)
Definition survives (fs : Files) (D : gset string) (fs' : Files) : Prop :=
  forall q, if decide (q ∈ D)
            then match fs !! q with
                 | None => fs' !! q = None
                 | Some f => exists c, fs' !! q = Some (mkFile c (mode f))
                 end
            else fs' !! q = fs !! q.

Lemma stops_cons (op : FsOp) (must : bool) rest (d : Disk) (D : gset string) :
  stops ((op, must) :: rest) d D =
  (files d, D) ::
  match op with
  | Append p bytes => (fun k => (fs_partial op k (files d), dirty_err op D)) <$> seq 0 (S (length bytes))
  | _ => []
  end ++
  match fs_do op d with
  | (Ok _, d') => stops rest d' (dirty_ok op D)
  | (Err _, d') => (files d', dirty_err op D) :: if must then [] else stops rest d' (dirty_err op D)
  end.
Proof. reflexivity. Qed.
(** The machine stops where the program can. *)
Lemma stops_files (ops : list (FsOp * bool)) (d : Disk) (D : gset string) : (stops ops d D).*1 = crash_points ops d.
Proof.
  revert d D. induction ops as [|[op must] ops IH]; intros d D; [done|].
  cbn [stops crash_points]. rewrite fmap_cons, fmap_app. f_equal. f_equal.
  - destruct op; try done. by rewrite <- list_fmap_compose.
  - destruct (fs_do op d) as [[u|e] d']; [apply IH|]. rewrite fmap_cons. f_equal. destruct must; [done|apply IH].
Qed.

Lemma crash_points_cons (op : FsOp) (must : bool) rest (d : Disk) :
  crash_points ((op, must) :: rest) d =
  files d ::
  match op with
  | Append p bytes => (fun k => fs_partial op k (files d)) <$> seq 0 (S (length bytes))
  | _ => []
  end ++
  match fs_do op d with
  | (Ok _, d') => crash_points rest d'
  | (Err _, d') => files d' :: if must then [] else crash_points rest d'
  end.
Proof. reflexivity. Qed.

(** ** Paths *)

(** [Path::with_extension] on a file name: everything after the last dot is
    replaced, a leading dot does not count. *)
Fixpoint find_stem (s : string) : option string :=
  match s with
  | EmptyString => None
  | String c rest =>
      match find_stem rest with
      | Some stem => Some (String c stem)
      | None => if Ascii.eqb c (Ascii.ascii_of_nat 46) then Some EmptyString else None
      end
  end.
Definition file_stem (s : string) : string :=
  match find_stem s with
  | None | Some EmptyString => s
  | Some stem => stem
  end.
Definition with_extension (s ext : string) : string := file_stem s +:+ "." +:+ ext.

(** [main] sets the process umask to 0o077 before anything else: the mode a new
    file gets from the mode it is created with. *)
Definition UMASK : Z := 63.
Definition masked (m : Z) : Z := Z.land m (Z.lnot UMASK).

Definition atomic_write_ops (path : string) (bytes : list byte) (m : Z) : list (FsOp * bool) :=
  let tmp := with_extension path "tmp" in
  [(Remove tmp, false); (Create tmp (masked m), true); (Append tmp bytes, true); (Sync tmp, false);
   (Rename tmp path, true)].
Definition atomic_write (path : string) (bytes : list byte) (m : Z) : st Disk string () :=
  fs_run (atomic_write_ops path bytes m).

(** ** Atomicity of [atomic_write] *)
Section Atomic.
Context (path : string) (bytes : list byte) (mode0 : Z).
Local Abbreviation m := (masked mode0).
Local Abbreviation tmp := (with_extension path "tmp").

(** What may be found after a crash or an error: [path] is as before or has all
    the new bytes and the asked-for mode; the temporary file holds a prefix of
    them under that mode, if it is not a stale one; nothing else changed. *)
Definition intact (fs0 fs : Files) : Prop :=
  (fs !! path = fs0 !! path \/ fs !! path = Some (mkFile bytes m)) /\
  (fs !! tmp = fs0 !! tmp \/ fs !! tmp = None \/ exists k, fs !! tmp = Some (mkFile (take k bytes) m)) /\
  (forall q, q <> path -> q <> tmp -> fs !! q = fs0 !! q).

(** Before the rename only the temporary file changes. *)
Definition staged (fs0 fs : Files) (f : option File) : Prop :=
  fs !! tmp = f /\ forall q, q <> tmp -> fs !! q = fs0 !! q.

Lemma fs_do_cases (op : FsOp) (d : Disk) :
  (exists k fl, fs_do op d = (Err "io error"%string, mkDisk (fs_partial op k (files d)) fl)) \/
  (exists fs fl, fs_apply op (files d) = Some fs /\ fs_do op d = (Ok (), mkDisk fs fl)) \/
  (exists fl, fs_apply op (files d) = None /\ fs_do op d = (Err "io error"%string, mkDisk (files d) fl)).
Proof using.
  unfold fs_do. destruct (faults d) as [|[|k] fl]; [| |by left; eauto]; right;
    destruct (fs_apply op (files d)); eauto 6.
Qed.

Context (Htmp : tmp <> path).
Definition allowed (fs0 : Files) (f : option File) : Prop :=
  f = fs0 !! tmp \/ f = None \/ exists k, f = Some (mkFile (take k bytes) m).

Lemma staged_intact fs0 fs f : staged fs0 fs f -> allowed fs0 f -> intact fs0 fs.
Proof using Htmp. intros [<- Hq] Ha. split_and!; auto. Qed.

Lemma whole_allowed fs0 : allowed fs0 (Some (mkFile bytes m)).
Proof using. right; right. exists (length bytes). by rewrite firstn_all. Qed.

Lemma append_staged fs0 fs bs : staged fs0 fs (Some (mkFile [] m)) ->
  staged fs0 (append_to tmp bs fs) (Some (mkFile bs m)).
Proof using.
  intros [Ht Hq]. unfold append_to. split.
  - by rewrite lookup_alter_eq, Ht.
  - intros q Hne. rewrite lookup_alter_ne by done. auto.
Qed.

(** The rename, the last step. *)
Lemma rename_crash fs0 d fs :
  staged fs0 (files d) (Some (mkFile bytes m)) ->
  fs ∈ crash_points [(Rename tmp path, true)] d -> intact fs0 fs.
Proof using Htmp.
  intros Hs. pose proof (staged_intact _ _ _ Hs (whole_allowed fs0)) as Hi. cbn [crash_points app].
  intros [->|Hin]%elem_of_cons; [done|].
  destruct (fs_do_cases (Rename tmp path) d) as [(k & fl & E)|[(fs1 & fl & Ha & E)|(fl & Ha & E)]];
    rewrite E in Hin; cbn in Hin.
  - by apply list_elem_of_singleton in Hin as ->.
  - apply list_elem_of_singleton in Hin as ->. cbn in Ha. destruct Hs as [Ht Hq]. rewrite Ht in Ha.
    injection Ha as <-. split_and!.
    + right. by rewrite lookup_insert_eq.
    + right; left. rewrite lookup_insert_ne by done. by rewrite lookup_delete_eq.
    + intros q Hp Hne. rewrite lookup_insert_ne, lookup_delete_ne by done. auto.
  - by apply list_elem_of_singleton in Hin as ->.
Qed.

Lemma sync_crash fs0 d fs :
  staged fs0 (files d) (Some (mkFile bytes m)) ->
  fs ∈ crash_points [(Sync tmp, false); (Rename tmp path, true)] d -> intact fs0 fs.
Proof using Htmp.
  intros Hs. pose proof (staged_intact _ _ _ Hs (whole_allowed fs0)) as Hi.
  rewrite crash_points_cons. cbn [app]. intros [->|Hin]%elem_of_cons; [done|].
  destruct (fs_do_cases (Sync tmp) d) as [(k & fl & E)|[(fs1 & fl & Ha & E)|(fl & Ha & E)]]; [| |done];
    rewrite E in Hin.
  - apply elem_of_cons in Hin as [->|Hin]; [done|]. by eapply rename_crash; [|exact Hin].
  - cbn in Ha. injection Ha as <-. by eapply rename_crash; [|exact Hin].
Qed.

Lemma append_crash fs0 d fs :
  staged fs0 (files d) (Some (mkFile [] m)) ->
  fs ∈ crash_points [(Append tmp bytes, true); (Sync tmp, false); (Rename tmp path, true)] d ->
  intact fs0 fs.
Proof using Htmp.
  intros Hs. rewrite crash_points_cons.
  assert (Hpart : forall k, intact fs0 (fs_partial (Append tmp bytes) k (files d))).
  { intros k. eapply staged_intact; [by apply append_staged|]. right; right. by exists k. }
  intros [->|[Hin|Hin]%elem_of_app]%elem_of_cons.
  - eapply staged_intact; [done|]. right; right. by exists 0%nat.
  - apply list_elem_of_fmap in Hin as (k & -> & _). apply Hpart.
  - destruct (fs_do_cases (Append tmp bytes) d) as [(k & fl & E)|[(fs1 & fl & Ha & E)|(fl & Ha & E)]];
      rewrite E in Hin.
    + apply list_elem_of_singleton in Hin as ->. apply Hpart.
    + cbn in Ha. destruct (files d !! tmp); [|done]. injection Ha as <-.
      eapply sync_crash; [|exact Hin]. by apply append_staged.
    + cbn in Ha. destruct Hs as [Ht _]. by rewrite Ht in Ha.
Qed.

Lemma create_crash fs0 d f fs :
  staged fs0 (files d) f -> allowed fs0 f ->
  fs ∈ crash_points [(Create tmp m, true); (Append tmp bytes, true); (Sync tmp, false);
                     (Rename tmp path, true)] d ->
  intact fs0 fs.
Proof using Htmp.
  intros Hs Ha. pose proof (staged_intact _ _ _ Hs Ha) as Hi.
  rewrite crash_points_cons. cbn [app]. intros [->|Hin]%elem_of_cons; [done|].
  destruct (fs_do_cases (Create tmp m) d) as [(k & fl & E)|[(fs1 & fl & Hap & E)|(fl & Hap & E)]];
    rewrite E in Hin.
  - by apply list_elem_of_singleton in Hin as ->.
  - cbn in Hap. destruct (files d !! tmp); [done|]. injection Hap as <-.
    eapply append_crash; [|exact Hin]. destruct Hs as [_ Hq]. split; cbn [files].
    + by rewrite lookup_insert_eq.
    + intros q Hne. rewrite lookup_insert_ne by done. auto.
  - by apply list_elem_of_singleton in Hin as ->.
Qed.

(** Removing a stale temporary file. *)
Lemma remove_staged (d : Disk) :
  exists f, staged (files d) (files (fs_do (Remove tmp) d).2) f /\ allowed (files d) f.
Proof using.
  destruct (fs_do_cases (Remove tmp) d) as [(k & fl & E)|[(fs1 & fl & Hap & E)|(fl & Hap & E)]];
    rewrite E; cbn [snd files fs_partial].
  - eexists. split; [split; [done|auto]|by left].
  - cbn in Hap. destruct (files d !! tmp); [|done]. injection Hap as <-. exists None.
    split; [|by right; left]. split; [by rewrite lookup_delete_eq|].
    intros q Hne. by rewrite lookup_delete_ne.
  - eexists. split; [split; [done|auto]|by left].
Qed.

Lemma atomic_write_crash (d : Disk) (fs : Files) :
  fs ∈ crash_points (atomic_write_ops path bytes mode0) d -> intact (files d) fs.
Proof using Htmp.
  unfold atomic_write_ops. rewrite crash_points_cons. cbn [app].
  assert (H0 : intact (files d) (files d)) by (split_and!; auto).
  intros [->|Hin]%elem_of_cons; [done|].
  destruct (remove_staged d) as (f & Hs & Ha).
  destruct (fs_do (Remove tmp) d) as [[u|e] d1]; cbn [snd] in *.
  - by eapply create_crash; [| |exact Hin].
  - apply elem_of_cons in Hin as [->|Hin]; [by eapply staged_intact|].
    by eapply create_crash; [| |exact Hin].
Qed.

(** ** The machine stops *)
Definition intact_durable (fs0 fs : Files) : Prop :=
  (fs !! path = fs0 !! path \/ fs !! path = Some (mkFile bytes m)) /\
  (fs !! tmp = fs0 !! tmp \/ fs !! tmp = None \/ exists c, fs !! tmp = Some (mkFile c m)) /\
  (forall q, q <> path -> q <> tmp -> fs !! q = fs0 !! q).
Lemma survives_clean (fs fs' : Files) (q : string) (D : gset string) : survives fs D fs' -> q ∉ D -> fs' !! q = fs !! q.
Proof using. intros Hs Hq. specialize (Hs q). by rewrite decide_False in Hs. Qed.
Lemma intact_durable_clean fs0 fs fs' : intact fs0 fs -> survives fs ∅ fs' -> intact_durable fs0 fs'.
Proof using.
  intros (H1 & H2 & H3) Hs. assert (He : forall q, fs' !! q = fs !! q) by (intros q; by apply (survives_clean fs fs' q ∅)).
  unfold intact_durable. rewrite !He. split_and!; [done|naive_solver|]. intros q Hp Ht. rewrite He. auto.
Qed.
(** Once created, only the temporary file is at stake. *)
Lemma staged_durable fs0 fs c (D : gset string) fs' :
  staged fs0 fs (Some (mkFile c m)) -> D ⊆ {[tmp]} -> survives fs D fs' -> intact_durable fs0 fs'.
Proof using Htmp.
  intros [Ht Hq] HD Hs.
  assert (He : forall q, q <> tmp -> fs' !! q = fs0 !! q).
  { intros q Hne. rewrite (survives_clean fs fs' q D Hs) by set_solver. auto. }
  split_and!; [left; by apply He| |intros q _ Hne; by apply He]. right; right.
  specialize (Hs tmp). rewrite Ht in Hs. destruct (decide (tmp ∈ D)); [exact Hs|]. by exists c.
Qed.
Lemma fs_do_faults (op : FsOp) (d : Disk) : faults (fs_do op d).2 = tail (faults d).
Proof using. unfold fs_do. destruct (faults d) as [|[|k] fl]; cbn; try done; by destruct (fs_apply op (files d)). Qed.
Lemma rename_stop fs0 d fs D fs' :
  staged fs0 (files d) (Some (mkFile bytes m)) ->
  (fs, D) ∈ stops [(Rename tmp path, true)] d ∅ -> survives fs D fs' -> intact_durable fs0 fs'.
Proof using Htmp.
  intros Hs Hin Hsv. assert (HD : D = ∅).
  { revert Hin. cbn [stops app]. destruct (fs_do (Rename tmp path) d) as [[u|e] d'];
      intros [[= _ ->]|[[= _ ->]|Hx%not_elem_of_nil]%elem_of_cons]%elem_of_cons; try done.
    cbn. rewrite decide_False by set_solver. set_solver. }
  subst D. apply (intact_durable_clean fs0 fs); [|done]. apply (rename_crash fs0 d); [done|].
  rewrite <- (stops_files _ d ∅). apply list_elem_of_fmap. by exists (fs, ∅).
Qed.
Lemma sync_stop fs0 d fs D0 D fs' :
  staged fs0 (files d) (Some (mkFile bytes m)) -> nth 0 (faults d) Works = Works -> D0 ⊆ {[tmp]} ->
  (fs, D) ∈ stops [(Sync tmp, false); (Rename tmp path, true)] d D0 -> survives fs D fs' -> intact_durable fs0 fs'.
Proof using Htmp.
  intros Hs Hf HD. rewrite stops_cons. cbn [app].
  assert (Hd : exists d', fs_do (Sync tmp) d = (Ok (), d') /\ files d' = files d).
  { unfold fs_do. destruct (faults d) as [|[|k] fl]; cbn in *; [eauto|eauto|done]. }
  destruct Hd as (d' & -> & Hfiles). cbn [dirty_ok].
  replace (D0 ∖ {[tmp]}) with (∅ : gset string) by set_solver.
  intros [[= -> ->]|Hin]%elem_of_cons; [by apply (staged_durable fs0 (files d) bytes D0)|].
  apply (rename_stop fs0 d'); [by rewrite Hfiles|done].
Qed.
Lemma append_stop fs0 d fs D0 D fs' :
  staged fs0 (files d) (Some (mkFile [] m)) -> nth 1 (faults d) Works = Works -> D0 ⊆ {[tmp]} ->
  (fs, D) ∈ stops [(Append tmp bytes, true); (Sync tmp, false); (Rename tmp path, true)] d D0 ->
  survives fs D fs' -> intact_durable fs0 fs'.
Proof using Htmp.
  intros Hs Hf HD. rewrite stops_cons. cbn [dirty_ok dirty_err].
  assert (HD1 : {[tmp]} ∪ D0 ⊆ {[tmp]}) by set_solver.
  assert (Hpart : forall k fs'', survives (fs_partial (Append tmp bytes) k (files d)) ({[tmp]} ∪ D0) fs'' ->
    intact_durable fs0 fs'').
  { intros k fs''. apply (staged_durable fs0 _ (take k bytes)); [by apply append_staged|done]. }
  pose proof (fs_do_faults (Append tmp bytes) d) as Hfl.
  intros [[= -> ->]|[Hin|Hin]%elem_of_app]%elem_of_cons.
  - by apply (staged_durable fs0 (files d) [] D0).
  - apply list_elem_of_fmap in Hin as (k & [= -> ->] & _). apply Hpart.
  - destruct (fs_do_cases (Append tmp bytes) d) as [(k & fl & E)|[(fs1 & fl & Ha & E)|(fl & Ha & E)]];
      rewrite E in Hin, Hfl.
    + apply list_elem_of_singleton in Hin as [= -> ->]. apply Hpart.
    + cbn in Ha. destruct (files d !! tmp); [|done]. injection Ha as <-.
      apply (sync_stop fs0 (mkDisk (append_to tmp bytes (files d)) fl) fs ({[tmp]} ∪ D0) D fs'); [by apply append_staged| |done|done].
      cbn in Hfl. cbn [faults]. rewrite Hfl. by destruct (faults d).
    + cbn in Ha. destruct Hs as [Ht _]. by rewrite Ht in Ha.
Qed.
Lemma create_stop fs0 d f fs D fs' :
  staged fs0 (files d) f -> allowed fs0 f -> nth 2 (faults d) Works = Works ->
  (fs, D) ∈ stops [(Create tmp m, true); (Append tmp bytes, true); (Sync tmp, false); (Rename tmp path, true)] d ∅ ->
  survives fs D fs' -> intact_durable fs0 fs'.
Proof using Htmp.
  intros Hs Ha Hf. pose proof (staged_intact _ _ _ Hs Ha) as Hi.
  rewrite stops_cons. cbn [app]. intros [[= -> ->]|Hin]%elem_of_cons; [by apply intact_durable_clean|].
  pose proof (fs_do_faults (Create tmp m) d) as Hfl.
  destruct (fs_do_cases (Create tmp m) d) as [(k & fl & E)|[(fs1 & fl & Hap & E)|(fl & Hap & E)]];
    rewrite E in Hin, Hfl.
  - apply list_elem_of_singleton in Hin as [= -> ->]. by apply intact_durable_clean.
  - cbn in Hap. destruct (files d !! tmp); [done|]. injection Hap as <-. destruct Hs as [_ Hq].
    apply (append_stop fs0 (mkDisk (<[tmp := mkFile [] m]> (files d)) fl) fs ({[tmp]} ∪ ∅) D fs').
    + split; cbn [files]; [by rewrite lookup_insert_eq|]. intros q Hne. rewrite lookup_insert_ne by done. auto.
    + cbn in Hfl. cbn [faults]. rewrite Hfl. by destruct (faults d).
    + set_solver.
    + exact Hin.
  - apply list_elem_of_singleton in Hin as [= -> ->]. by apply intact_durable_clean.
Qed.
Lemma atomic_write_stop (d : Disk) fs D fs' :
  nth 3 (faults d) Works = Works ->
  (fs, D) ∈ stops (atomic_write_ops path bytes mode0) d ∅ -> survives fs D fs' -> intact_durable (files d) fs'.
Proof using Htmp.
  intros Hf. unfold atomic_write_ops. rewrite stops_cons. cbn [app dirty_err].
  assert (H0 : intact (files d) (files d)) by (split_and!; auto).
  intros [[= -> ->]|Hin]%elem_of_cons; [by apply intact_durable_clean|].
  destruct (remove_staged d) as (f & Hs & Ha). pose proof (fs_do_faults (Remove tmp) d) as Hfl.
  assert (Hf1 : nth 2 (tail (faults d)) Works = Works) by (by destruct (faults d)). rewrite <- Hfl in Hf1.
  cbn [dirty_ok] in Hin. replace (∅ ∖ {[tmp]}) with (∅ : gset string) in Hin by set_solver.
  destruct (fs_do (Remove tmp) d) as [[u|e] d1]; cbn [snd] in *.
  - by eapply create_stop; [| | |exact Hin].
  - apply elem_of_cons in Hin as [[= -> ->]|Hin]; [|by eapply create_stop; [| | |exact Hin]].
    apply intact_durable_clean. by eapply staged_intact.
Qed.

(** A run ends in one of the crash points, and the last one is the success. *)
Lemma fs_run_crash_point (ops : list (FsOp * bool)) (d : Disk) :
  files (fs_run ops d).2 ∈ crash_points ops d.
Proof using.
  revert d. induction ops as [|[op must] ops IH]; intros d; [left|].
  rewrite crash_points_cons. right. apply elem_of_app. right.
  destruct must; cbn [fs_run]; unfold mbind, st_bind, fs_try.
  - destruct (fs_do op d) as [[u|e] d']; [apply IH|left].
  - destruct (fs_do op d) as [[u|e] d']; [apply IH|right; apply IH].
Qed.

Lemma fs_do_ok (op : FsOp) (d d' : Disk) (u : ()) :
  fs_do op d = (Ok u, d') -> fs_apply op (files d) = Some (files d').
Proof using.
  destruct (fs_do_cases op d) as [(k & fl & E)|[(fs1 & fl & Hap & E)|(fl & Hap & E)]];
    rewrite E; [done|by intros [= _ <-]|done].
Qed.

Lemma atomic_write_ok (d d' : Disk) (u : ()) :
  atomic_write path bytes mode0 d = (Ok u, d') ->
  files d' !! path = Some (mkFile bytes m) /\ files d' !! tmp = None.
Proof using Htmp.
  unfold atomic_write, atomic_write_ops. cbn [fs_run]. unfold mbind, st_bind, fs_try.
  generalize (fs_do (Remove tmp) d).2. intros d1.
  destruct (fs_do (Create tmp m) d1) as [[u2|e] d2] eqn:E2; [|done].
  destruct (fs_do (Append tmp bytes) d2) as [[u3|e] d3] eqn:E3; [|done].
  destruct (fs_do (Sync tmp) d3) as [r4 d4] eqn:E4. cbn [snd].
  destruct (fs_do (Rename tmp path) d4) as [[u5|e] d5] eqn:E5; [|done]. intros [= _ <-].
  apply fs_do_ok in E2, E3, E5. cbn in E2, E3, E5.
  assert (H4 : files d4 = files d3).
  { destruct (fs_do_cases (Sync tmp) d3) as [(k & fl & E)|[(fs1 & fl & Hap & E)|(fl & Hap & E)]];
      rewrite E in E4; injection E4 as <- <-; [done| |done]. cbn in Hap. by injection Hap as <-. }
  rewrite H4 in E5. destruct (files d1 !! tmp); [done|]. injection E2 as E2.
  rewrite <- E2, lookup_insert_eq in E3. injection E3 as E3. unfold append_to in E3.
  rewrite <- E3, lookup_alter_eq, lookup_insert_eq in E5. cbn in E5. injection E5 as <-.
  split; [by rewrite lookup_insert_eq|].
  rewrite lookup_insert_ne by done. by rewrite lookup_delete_eq.
Qed.
(** On a disk that works, a write succeeds. *)
Lemma fs_do_works (op : FsOp) (d : Disk) (fs : Files) :
  faults d = [] -> fs_apply op (files d) = Some fs -> fs_do op d = (Ok (), mkDisk fs []).
Proof using. intros Hf Ha. unfold fs_do. by rewrite Hf, Ha. Qed.
Lemma atomic_write_works (d : Disk) :
  faults d = [] -> exists d', atomic_write path bytes mode0 d = (Ok (), d') /\ faults d' = [].
Proof using Htmp.
  intros Hf. unfold atomic_write, atomic_write_ops. cbn [fs_run].
  assert (Hr : exists fs, fs_try (Remove tmp) d = (Ok (), mkDisk fs []) /\ fs !! tmp = None).
  { unfold fs_try, fs_do. rewrite Hf. cbn [fs_apply]. destruct (files d !! tmp) as [f|] eqn:E; cbn.
    - eexists. split; [done|]. apply lookup_delete_eq.
    - by eexists. }
  destruct Hr as (fs & Hr & Hn). unfold mbind, st_bind. rewrite Hr. unfold fs_try.
  rewrite (fs_do_works (Create tmp m) _ (<[tmp := mkFile [] m]> fs)) by (cbn; by rewrite ?Hn).
  cbv beta iota. rewrite (fs_do_works (Append tmp bytes) _ (append_to tmp bytes (<[tmp := mkFile [] m]> fs)))
    by (cbn; by rewrite ?lookup_insert_eq).
  cbv beta iota. erewrite (fs_do_works (Sync tmp)) by reflexivity. cbn [snd].
  erewrite (fs_do_works (Rename tmp path)); [eexists; split; [reflexivity|reflexivity]|reflexivity|]. cbn. unfold append_to.
  by rewrite lookup_alter_eq, lookup_insert_eq.
Qed.
End Atomic.

(** C23 Writes of configurations, credentials, keys and status are atomic.  Wherever
    the write fails or the process is killed, the file has its old content or all of
    the new one under the mode asked for less the umask, at most the temporary file
    is left with a prefix of the bytes under the same mode, and no other file is
    touched; and a write that reports success happened.  When the whole machine
    stops, the same holds of what is found on the disk afterwards, except that the
    temporary file may have any content, provided the sync of the temporary file did
    not fail (its error is ignored: [ignored_sync_error_tears]).  The umask leaves no
    permission for group and others. *)
Theorem atomic_write_atomic (path : string) (bytes : list byte) (m : Z) (d : Disk) :
  with_extension path "tmp" <> path ->
  (forall fs, fs ∈ crash_points (atomic_write_ops path bytes m) d -> intact path bytes m (files d) fs) /\
  (nth 3 (faults d) Works = Works -> forall fs D fs',
     (fs, D) ∈ stops (atomic_write_ops path bytes m) d ∅ -> survives fs D fs' ->
     intact_durable path bytes m (files d) fs') /\
  intact path bytes m (files d) (files (atomic_write path bytes m d).2) /\
  ((atomic_write path bytes m d).1 = Ok () ->
     files (atomic_write path bytes m d).2 !! path = Some (mkFile bytes (masked m))) /\
  Z.land (masked m) UMASK = 0.
Proof.
  intros Htmp. split; [by apply atomic_write_crash|]. split; [intros Hf fs D fs'; by apply atomic_write_stop|]. split_and!.
  - apply atomic_write_crash; [done|]. apply fs_run_crash_point.
  - destruct (atomic_write path bytes m d) as [r d'] eqn:E. cbn. intros ->.
    exact (proj1 (atomic_write_ok _ _ _ Htmp _ _ _ E)).
  - unfold masked. apply Z.bits_inj'. intros n Hn. rewrite !Z.land_spec, Z.lnot_spec, Z.bits_0 by done.
    by destruct (Z.testbit m n), (Z.testbit UMASK n).
Qed.

(** The error of the sync is dropped ([sync_all().ok()]): when it fails the write
    still reports success, and a machine that stops afterwards can come back with
    the file in place and any content at all. *)
Theorem ignored_sync_error_tears (path : string) (old new torn : list byte) (m : Z) :
  with_extension path "tmp" <> path ->
  let d := mkDisk (<[path := mkFile old (masked m)]> ∅) [Works; Works; Works; Fails 0] in
  exists fs D fs', (atomic_write path new m d).1 = Ok () /\
    (fs, D) ∈ stops (atomic_write_ops path new m) d ∅ /\ survives fs D fs' /\
    fs' !! path = Some (mkFile torn (masked m)).
Proof.
  intros Htmp d. set (tmp := with_extension path "tmp") in *.
  exists (<[path := mkFile new (masked m)]> ∅), {[path]}, (<[path := mkFile torn (masked m)]> ∅).
  assert (H0 : (<[path := mkFile old (masked m)]> ∅ : Files) !! tmp = None) by (by rewrite lookup_insert_ne).
  assert (H4 : forall x, delete tmp (<[tmp := x]> (<[path := mkFile old (masked m)]> ∅ : Files)) = <[path := mkFile old (masked m)]> ∅).
  { intros x. by rewrite delete_insert_id. }
  assert (H5 : append_to tmp new (<[tmp := mkFile [] (masked m)]> (<[path := mkFile old (masked m)]> ∅)) =
    <[tmp := mkFile new (masked m)]> (<[path := mkFile old (masked m)]> ∅)).
  { unfold append_to. by rewrite alter_insert_eq. }
  split_and!.
  - unfold atomic_write, atomic_write_ops. fold tmp. unfold d. cbn [fs_run mbind st_bind fs_try fs_do faults tail fs_apply files snd].
    unfold mbind, st_bind, fs_try, fs_do. cbn [faults files fs_apply]. rewrite H0. cbn [snd faults files tail fs_apply].
    rewrite H0. cbn [faults files fs_apply tail]. rewrite lookup_insert_eq. cbn [snd faults files fs_apply fs_partial tail].
    rewrite H5, lookup_insert_eq. done.
  - unfold atomic_write_ops. fold tmp. unfold d.
    do 4 (rewrite stops_cons; apply elem_of_cons; right; apply elem_of_app; right; unfold fs_do at 1;
      cbn [faults files fs_apply tail fs_partial]; rewrite ?H0, ?lookup_insert_eq; cbn [faults files fs_apply tail fs_partial];
      match goal with |- _ ∈ _ :: _ => apply elem_of_cons; right | |- _ => idtac end).
    rewrite H5, stops_cons. apply elem_of_cons. right. cbn [app]. unfold fs_do. cbn [faults files fs_apply tail].
    rewrite lookup_insert_eq. cbn [stops]. rewrite H4, insert_insert_eq. apply list_elem_of_singleton. f_equal.
    cbn [dirty_ok dirty_err files]. rewrite decide_True by set_solver. set_solver.
  - intros q. destruct (decide (q ∈ ({[path]} : gset string))) as [->%elem_of_singleton|Hq].
    + rewrite !lookup_insert_eq. by exists torn.
    + rewrite !lookup_insert_ne by set_solver. done.
  - by rewrite lookup_insert_eq.
Qed.
Lemma ignored_sync_error_tears_witness :
  let d := mkDisk (<["c.toml" := mkFile [Byte.x01] (masked 384)]> ∅) [Works; Works; Works; Fails 0] in
  exists fs D fs', (atomic_write "c.toml" [Byte.x02] 384 d).1 = Ok () /\
    (fs, D) ∈ stops (atomic_write_ops "c.toml" [Byte.x02] 384) d ∅ /\ survives fs D fs' /\
    fs' !! "c.toml"%string = Some (mkFile [] (masked 384)).
Proof. apply (ignored_sync_error_tears "c.toml" [Byte.x01] [Byte.x02] [] 384). discriminate. Defined.

Lemma atomic_write_atomic_witness :
  let path := "credentials.toml"%string in
  let old := <[path := mkFile [Byte.x01] 384]> (∅ : Files) in
  let d := mkDisk old [Works; Works; Fails 1] in
  intact path [Byte.x02; Byte.x03] 384 old
    (files (atomic_write path [Byte.x02; Byte.x03] 384 d).2) /\
  intact_durable path [Byte.x02; Byte.x03] 384 old (<[path := mkFile [Byte.x02; Byte.x03] 384]> ∅).
Proof.
  intros path old d. split.
  - apply (atomic_write_atomic path [Byte.x02; Byte.x03] 384 d). vm_compute. discriminate.
  - apply (proj1 (proj2 (atomic_write_atomic path [Byte.x02; Byte.x03] 384 (mkDisk old [])
      ltac:(vm_compute; discriminate))) eq_refl (<[path := mkFile [Byte.x02; Byte.x03] 384]> ∅) ∅).
    + apply (bool_decide_eq_true_1 _). vm_compute. reflexivity.
    + intros q. rewrite decide_False by apply not_elem_of_empty. reflexivity.
Defined.
