(* ===== verification/Store.v ===== *)
(** * Database files (crates/relay/src/registry.rs and polar.rs, opening)

    The registry and the license cache are SQLite files.  Opening creates the file
    and, through the WAL journal, its two siblings; afterwards their modes are
    tightened, errors ignored.  The engine is a parameter: what opening and
    initialising do to the files. *)
From S2P Require Import Prelude Fs Registry Polar.
Local Open Scope Z_scope.

Definition siblings (path : string) : list string := [path; path +:+ "-wal"; path +:+ "-shm"].

(** [set_permissions] with the error ignored; [may p]: the system allows it. *)
Definition chmod (may : string -> bool) (m : Z) (fs : Files) (p : string) : Files :=
  if may p then alter (fun f => mkFile (content f) m) p fs else fs.
Definition tighten_sqlite_perms (may : string -> bool) (path : string) (fs : Files) : Files :=
  foldl (chmod may 384) fs (siblings path).

(** [Connection::open] and the pragmas and schema of [init]. *)
Record SqliteFiles := mkSqlite {
  connection_open : string -> Files -> result SqlError () * Files;
  init_schema : string -> Files -> result SqlError () * Files;
}.
Definition open_db (lite : SqliteFiles) (may : string -> bool) (path : string) (fs : Files) :
    result SqlError () * Files :=
  match connection_open lite path fs with
  | (Err e, fs1) => (Err e, fs1)
  | (Ok _, fs1) =>
      match init_schema lite path fs1 with
      | (Err e, fs2) => (Err e, fs2)
      | (Ok _, fs2) => (Ok (), tighten_sqlite_perms may path fs2)
      end
  end.
Definition Registry_open (lite : SqliteFiles) (may : string -> bool) (path : string) (fs : Files) :
    result RegistryError () * Files :=
  let (r, fs') := open_db lite may path fs in (map_err Db r, fs').
Definition LicenseCache_open (lite : SqliteFiles) (may : string -> bool) (path : string) (fs : Files) :
    result SqlError () * Files :=
  open_db lite may path fs.

(** Documented behaviour of the engine under the process's umask: it writes only
    the database and its siblings, a file it leaves keeps its mode, and a file it
    creates gets a mode the umask has masked. *)
Definition private (m : Z) : Prop := Z.land m UMASK = 0.
Definition honest (path : string) (fs fs' : Files) : Prop :=
  forall q, (q ∉ siblings path -> fs' !! q = fs !! q) /\
    (forall f', fs' !! q = Some f' -> private (mode f') \/ exists f, fs !! q = Some f /\ mode f' = mode f).
Class SqliteLaw (lite : SqliteFiles) := {
  open_honest : forall path fs, honest path fs (connection_open lite path fs).2;
  init_honest : forall path fs, honest path fs (init_schema lite path fs).2;
}.

Lemma honest_trans (path : string) (a b c : Files) : honest path a b -> honest path b c -> honest path a c.
Proof.
  intros H1 H2 q. destruct (H1 q) as [F1 M1], (H2 q) as [F2 M2]. split.
  - intros Hq. by rewrite F2, F1.
  - intros f' Hf'. destruct (M2 f' Hf') as [Hp|(fb & Hb & Hm)]; [by left|]. rewrite Hm. by apply M1.
Qed.
Lemma chmod_lookup (may : string -> bool) (m : Z) (fs : Files) (p q : string) :
  chmod may m fs p !! q =
  if decide (p = q) then (fun f => if may p then mkFile (content f) m else f) <$> fs !! q else fs !! q.
Proof.
  unfold chmod. destruct (may p), (decide (p = q)) as [->|Hne].
  - by rewrite lookup_alter_eq.
  - by rewrite lookup_alter_ne.
  - by destruct (fs !! q).
  - done.
Qed.
(** Tightening changes nothing but the modes of the three files. *)
Lemma tighten_lookup (may : string -> bool) (path q : string) (fs : Files) :
  tighten_sqlite_perms may path fs !! q =
  if decide (q ∈ siblings path) then (fun f => if may q then mkFile (content f) 384 else f) <$> fs !! q else fs !! q.
Proof.
  unfold tighten_sqlite_perms.
  assert (Hgen : forall l g, foldl (chmod may 384) g l !! q =
    if decide (q ∈ l) then (fun f => if may q then mkFile (content f) 384 else f) <$> g !! q else g !! q).
  { induction l as [|p l IH]; intros g; cbn [foldl]; [by rewrite decide_False by apply not_elem_of_nil|].
    rewrite IH, chmod_lookup. destruct (decide (p = q)) as [->|Hne].
    - rewrite (decide_True _ _ (list_elem_of_here q l)). destruct (decide (q ∈ l)); [|done].
      destruct (g !! q) as [f|]; [|done]. cbn. by destruct (may q).
    - destruct (decide (q ∈ l)) as [Hin|Hout].
      + by rewrite decide_True by (by right).
      + rewrite decide_False; [done|]. by intros [->|?]%elem_of_cons. }
  apply Hgen.
Qed.
Lemma private_600 : private 384.
Proof. reflexivity. Qed.
Lemma honest_tighten (may : string -> bool) (path : string) (fs : Files) : honest path fs (tighten_sqlite_perms may path fs).
Proof.
  intros q. rewrite tighten_lookup. split; [by intros Hq; rewrite decide_False|].
  intros f'. destruct (decide (q ∈ siblings path)); [|by eauto].
  intros (f & -> & ->)%fmap_Some. destruct (may q); [left; exact private_600|right; eauto].
Qed.
Lemma open_db_honest (lite : SqliteFiles) `{!SqliteLaw lite} (may : string -> bool) (path : string) (fs : Files) :
  honest path fs (open_db lite may path fs).2.
Proof.
  unfold open_db. pose proof (open_honest path fs) as H1. destruct (connection_open lite path fs) as [[u|e] fs1]; [|done].
  pose proof (init_honest path fs1) as H2. destruct (init_schema lite path fs1) as [[u2|e] fs2]; cbn [snd] in *.
  - eapply honest_trans; [exact H1|]. eapply honest_trans; [exact H2|]. apply honest_tighten.
  - by eapply honest_trans.
Qed.

(** Database files are private.  Whatever happens when the registry (or, with
    the same code, the license cache) is opened, no file but the database and its
    WAL and SHM siblings changes, and no file becomes readable to others: a file
    with permissions for anyone else had them before.  When opening succeeds and
    the system allows the change, the database and each sibling that exists are
    left at 0600, whatever their modes were. *)
Theorem database_private (lite : SqliteFiles) `{!SqliteLaw lite} (may : string -> bool) (path : string)
    (fs fs' : Files) (r : result RegistryError ()) :
  Registry_open lite may path fs = (r, fs') ->
  (forall q, q ∉ siblings path -> fs' !! q = fs !! q) /\
  (forall q f', fs' !! q = Some f' -> ~ private (mode f') -> exists f, fs !! q = Some f /\ mode f' = mode f) /\
  (r = Ok () -> forall q f', q ∈ siblings path -> may q = true -> fs' !! q = Some f' -> mode f' = 384) /\
  map_err Db (LicenseCache_open lite may path fs).1 = r /\ (LicenseCache_open lite may path fs).2 = fs'.
Proof.
  intros E. pose proof (open_db_honest lite may path fs) as Hh. unfold Registry_open in E. unfold LicenseCache_open.
  destruct (open_db lite may path fs) as [r0 fs0] eqn:E0. injection E as <- <-. cbn [snd] in Hh. split_and!.
  - intros q. apply Hh.
  - intros q f' Hf Hp. destruct (proj2 (Hh q) f' Hf) as [|]; [done|done].
  - intros Hr q f' Hq Hm Hf. destruct r0 as [u|]; [|done]. unfold open_db in E0.
    destruct (connection_open lite path fs) as [[u1|] fs1]; [|done].
    destruct (init_schema lite path fs1) as [[u2|] fs2]; [|done]. injection E0 as _ <-.
    rewrite tighten_lookup, decide_True in Hf by done. rewrite Hm in Hf. by apply fmap_Some in Hf as (f & _ & ->).
  - done.
  - done.
Qed.

(** An engine that creates missing files with the default mode. *)
Definition touch (fs : Files) (q : string) : Files :=
  match fs !! q with Some _ => fs | None => <[q := mkFile [] (masked 420)]> fs end.
Definition demo_sqlite : SqliteFiles :=
  mkSqlite (fun path fs => (Ok (), touch fs path))
           (fun path fs => (Ok (), foldl touch fs [path +:+ "-wal"; path +:+ "-shm"])).
Lemma touch_honest (path q : string) (fs : Files) : q ∈ siblings path -> honest path fs (touch fs q).
Proof.
  intros Hq x. unfold touch. destruct (fs !! q) as [f|] eqn:E; [split; eauto|].
  destruct (decide (q = x)) as [->|Hne].
  - split; [done|]. rewrite lookup_insert_eq. intros f' [= <-]. by left.
  - rewrite lookup_insert_ne by done. split; eauto.
Qed.
#[local] Instance demo_sqlite_law : SqliteLaw demo_sqlite.
Proof.
  split; intros path fs; cbn.
  - apply touch_honest. by left.
  - eapply honest_trans; apply touch_honest; [by right; left|by right; right; left].
Qed.
Definition loose : Files := {["/r.db" := mkFile [] 420]}%string.
Lemma database_private_witness :
  let fs' := (Registry_open demo_sqlite (fun _ => true) "/r.db" loose).2 in
  bool_decide (is_Some (fs' !! "/r.db-wal"%string)) = true /\
  forall q f', q ∈ siblings "/r.db" -> fs' !! q = Some f' -> mode f' = 384.
Proof.
  split; [vm_compute; reflexivity|]. intros q f' Hq.
  apply (database_private demo_sqlite (fun _ => true) "/r.db" loose
    (Registry_open demo_sqlite (fun _ => true) "/r.db" loose).2 (Ok ())); [vm_compute; reflexivity|reflexivity|exact Hq|reflexivity].
Defined.
