(* ===== verification/Certs.v ===== *)
(** * Certificates (crates/relay/src/tls.rs, acme.rs, dns_cloudflare.rs)

    The certificate resolver of the public listener, and the manager that keeps a
    wildcard certificate current: boot from the cache or a self-signed stopgap,
    issue by DNS-01, save, install, sleep until the renewal window.  Parsing of
    PEM and X.509, the ACME server and Cloudflare's API are outside the sources:
    their functions are parameters and their answers inputs.  Times are Unix
    seconds. *)
From S2P Require Import Prelude Fs Registry Edge.
Local Open Scope Z_scope.

(** ** The resolver (tls.rs) *)
Record CertifiedKey := mkCertifiedKey { chain : list (list byte); key : list byte }.
Record SniResolver := mkSniResolver { cert : option CertifiedKey; apex : string; sni_suffix : string }.
Definition SniResolver_new (domain : string) : SniResolver :=
  mkSniResolver None domain ("." +:+ domain).
Definition install (ck : CertifiedKey) (r : SniResolver) : SniResolver :=
  mkSniResolver (Some ck) (apex r) (sni_suffix r).
(** [server_name]: the SNI of the ClientHello, if it has one. *)
Definition resolve_cert (server_name : option string) (r : SniResolver) : option CertifiedKey :=
  name ← server_name;
  if String.eqb name (apex r) || ends_with (sni_suffix r) name then cert r else None.

(** ** Keys and expiry (tls.rs)

    [pem_items]: the certificates of a PEM text, each decoded or not;
    [pem_key]: its private key; [supported]: ring can sign with the key;
    [leaf_not_after]: the expiry of a certificate; [rcgen]: a self-signed pair. *)
Class CertLib := {
  pem_items : list byte -> list (result string (list byte));
  pem_key : list byte -> result string (list byte);
  supported : list byte -> result string ();
  leaf_not_after : list byte -> result string Z;
  rcgen : list string -> result string (list byte * list byte);
}.

Section Tls.
Context `{CertLib}.
Fixpoint collect_certs (l : list (result string (list byte))) : result string (list (list byte)) :=
  match l with
  | [] => Ok []
  | Err e :: _ => Err ("parsing certificate chain: " +:+ e)
  | Ok c :: rest => cs ← collect_certs rest; Ok (c :: cs)
  end.
Definition certified_key_from_pem (chain_pem key_pem : list byte) : result string CertifiedKey :=
  certs ← collect_certs (pem_items chain_pem);
  match certs with
  | [] => Err "no certificates found in PEM chain"%string
  | _ :: _ =>
      k ← map_err (fun e => "parsing private key: " +:+ e) (pem_key key_pem);
      map_err (fun e => "unsupported private key: " +:+ e) (supported k) ;;
      Ok (mkCertifiedKey certs k)
  end.
Definition first_cert_der (chain_pem : list byte) : result string (list byte) :=
  match pem_items chain_pem with
  | Ok c :: _ => Ok c
  | _ => Err "no certificate in PEM chain"%string
  end.
Definition cert_not_after (chain_pem : list byte) : result string Z :=
  der ← first_cert_der chain_pem;
  secs ← map_err (fun e => "parsing leaf certificate: " +:+ e) (leaf_not_after der);
  if secs <? 0 then Err "certificate notAfter is before the unix epoch"%string else Ok secs.
Definition self_signed (domain : string) : result string (CertifiedKey * list byte) :=
  '(der, k) ← rcgen [domain; "*." +:+ domain];
  supported k ;;
  Ok (mkCertifiedKey [der] k, der).

(** ** The manager (acme.rs) *)
Definition RENEW_BEFORE : Z := 30 * 24 * 60 * 60.
Definition RETRY_AFTER : Z := 5 * 60.
Definition PROPAGATION_TIMEOUT : Z := 150.

Record AcmeManager := mkAcme { m_domain : string; m_email : string; directory_url : string }.
(** [staging_url], [production_url]: instant-acme's directories. *)
Definition AcmeManager_new (staging_url production_url domain email : string) (staging : bool) : AcmeManager :=
  mkAcme domain email (if staging then staging_url else production_url).
Definition cert_path : string := "cert.pem".
Definition key_path : string := "key.pem".
Definition account_path : string := "account.json".
(** The relay's own copy of the routine. *)
Definition acme_atomic_write (path : string) (bytes : list byte) (m : Z) : st Disk string () :=
  fs_run (atomic_write_ops path bytes m).

(** The state directory and the live resolver. *)
Record Live := mkLive { disk : Disk; resolver : SniResolver }.
Definition on_disk {A : Type} (c : st Disk string A) : st Live string A :=
  fun l => let (r, d) := c (disk l) in (r, mkLive d (resolver l)).
Definition pure_result {A : Type} (r : result string A) : st Live string A := fun l => (r, l).
Definition install_live (ck : CertifiedKey) : st Live string () :=
  fun l => (Ok (), mkLive (disk l) (install ck (resolver l))).

(** Both files, if they can be read and parse together. *)
Definition load_cached (d : Disk) : option (list byte * list byte) :=
  c ← files d !! cert_path;
  k ← files d !! key_path;
  match certified_key_from_pem (content c) (content k) with
  | Ok _ => Some (content c, content k)
  | Err _ => None
  end.

(** [dir]: did creating and securing the state directory work. *)
Definition save (dir : result string ()) (cert_pem key_pem : list byte) : st Disk string () :=
  (fun d => (dir, d)) ≫= fun _ : () =>
  acme_atomic_write cert_path cert_pem 420 ;; (* 0o644 *)
  acme_atomic_write key_path key_pem 384. (* 0o600 *)

(** [boot], up to the spawn of the loop: what serves at once. *)
Definition boot (mgr : AcmeManager) : st Live string (option (list byte)) :=
  fun l =>
    match load_cached (disk l) with
    | Some (c, k) =>
        match certified_key_from_pem c k with
        | Ok ck => (Ok (match first_cert_der c with Ok d => Some d | Err _ => None end),
                    (install_live ck l).2)
        | Err e => (Err e, l)
        end
    | None =>
        match self_signed (m_domain mgr) with
        | Ok (ck, der) => (Ok (Some der), (install_live ck l).2)
        | Err e => (Err e, l)
        end
    end.

(** [SystemTime::duration_since], zero for a past expiry. *)
Definition remaining (not_after now : Z) : Z := Z.max 0 (not_after - now).

(** What a turn of the loop meets: the clock before and after the issuance, the
    outcome of the issuance and of securing the directory. *)
Record Turn := mkTurn {
  t_now : Z;
  t_issue : result string (list byte * list byte);
  t_dir : result string ();
  t_later : Z;
}.

Definition renew (t : Turn) : st Live string Z :=
  '(cert_pem, key_pem) ← pure_result (map_err (fun e => "issuing wildcard certificate: " +:+ e) (t_issue t));
  on_disk (save (t_dir t) cert_pem key_pem) ;;
  ck ← pure_result (certified_key_from_pem cert_pem key_pem);
  install_live ck ;;
  not_after ← pure_result (cert_not_after cert_pem);
  mret (Z.max (Z.max 0 (remaining not_after (t_later t) - RENEW_BEFORE)) 3600).

Definition ensure_cert (t : Turn) : st Live string Z :=
  fun l =>
    match load_cached (disk l) with
    | Some (c, _) =>
        match cert_not_after c with
        | Ok na =>
            if RENEW_BEFORE <? remaining na (t_now t)
            then (Ok (remaining na (t_now t) - RENEW_BEFORE), l)
            else renew t l
        | Err _ => renew t l
        end
    | None => renew t l
    end.

(** [run]: how long each turn sleeps, until it is cancelled. *)
Definition acme_turn (t : Turn) (l : Live) : Z * Live :=
  match ensure_cert t l with
  | (Ok w, l') => (w, l')
  | (Err _, l') => (RETRY_AFTER, l')
  end.
Fixpoint acme_run (ts : list Turn) (l : Live) : list Z * Live :=
  match ts with
  | [] => ([], l)
  | t :: rest => let (w, l1) := acme_turn t l in let (ws, l2) := acme_run rest l1 in (w :: ws, l2)
  end.
End Tls.

(** *** The account *)
Record CachedAccount := mkCachedAccount { directory : string; credentials : string }.
(** [cached]: the parsed cache; the ACME library restores an account from its
    credentials or registers one; [to_json] renders the cache. *)
Definition account (mgr : AcmeManager) (cached : option CachedAccount)
    (restore : string -> result string string) (register : result string (string * string))
    (dir : result string ()) (to_json : CachedAccount -> list byte) : st Disk string string :=
  let reuse := c ← cached; if decide (directory c = directory_url mgr) then Some (credentials c) else None in
  match reuse with
  | Some creds => fun d => (restore creds, d)
  | None =>
      '(acct, creds) ← (fun d => (map_err (fun e => "creating ACME account: " +:+ e) register, d));
      (fun d => (dir, d)) ≫= fun _ : () =>
      acme_atomic_write account_path (to_json (mkCachedAccount (directory_url mgr) creds)) 384 ;;
      mret acct
  end.

(** ** DNS-01 (dns_cloudflare.rs and the issuance of acme.rs) *)
Record TxtRecord := mkTxtRecord { id : string; name : string }.
(** The zone: record id to name and content. *)
Abbreviation Zone := (gmap string (string * string)).

(** A call of the API: the status is a success and [success] is not [false]. *)
Definition api_ok (status : Z) (success : option bool) : bool :=
  (200 <=? status) && (status <? 300) && negb (bool_decide (success = Some false)).

(** What a create does to the zone and answers: a record under a fresh id whose
    id came back, or a failure, after which the record may exist all the same. *)
Inductive CreateAnswer := Created (rid : string) | CreateFailed (made : option string).
Definition create_txt (n content : string) (a : CreateAnswer) (z : Zone) : result string TxtRecord * Zone :=
  match a with
  | Created rid => (Ok (mkTxtRecord rid n), <[rid := (n, content)]> z)
  | CreateFailed (Some rid) => (Err "cloudflare API"%string, <[rid := (n, content)]> z)
  | CreateFailed None => (Err "cloudflare API"%string, z)
  end.
Definition delete_record (rid : string) (ok : bool) (z : Zone) : result string () * Zone :=
  if ok then (Ok (), delete rid z) else (Err "cloudflare API"%string, z).

(** [txt_visible]: [answers] is the DoH answer's data fields. *)
Fixpoint trim_quotes_start (s : string) : string :=
  match s with
  | String c rest => if Ascii.eqb c (Ascii.ascii_of_nat 34) then trim_quotes_start rest else s
  | EmptyString => EmptyString
  end.
Fixpoint trim_quotes_end (s : string) : string :=
  match s with
  | EmptyString => EmptyString
  | String c rest =>
      match trim_quotes_end rest with
      | EmptyString => if Ascii.eqb c (Ascii.ascii_of_nat 34) then EmptyString else String c EmptyString
      | r => String c r
      end
  end.
Definition txt_visible (expected : string) (answers : option (list (option string))) : bool :=
  match answers with
  | None => false
  | Some l => existsb (fun a => match a with
                                | Some d => String.eqb (trim_quotes_end (trim_quotes_start d)) expected
                                | None => false
                                end) l
  end.

(** [wait_propagated]: the [i]-th probe answers [probe i] ([Err]: the lookup
    failed) and takes [took i] seconds.  The loop is bounded by fuel; [None]
    means the fuel ran out. *)
Fixpoint wait_propagated (expected : string) (probe : nat -> result string (option (list (option string))))
    (took : nat -> Z) (deadline : Z) (fuel : nat) (i : nat) (now : Z) : option (result string ()) :=
  match fuel with
  | O => None
  | S fuel' =>
      let now1 := now + took i in
      if match probe i with Ok a => txt_visible expected a | Err _ => false end then Some (Ok ())
      else if deadline <=? now1 then Some (Err "TXT did not propagate"%string)
      else wait_propagated expected probe took deadline fuel' (S i) (now1 + 3)
  end.

(** An authorization of the order: already valid, or with its DNS-01 challenge:
    the identifier and the value to publish. *)
Inductive Identifier := Dns (d : string) | OtherId (shown : string).
Record Authz := mkAuthz { valid : bool; dns01 : option (Identifier * string) }.
Definition strip_wildcard (d : string) : string :=
  match d with
  | String a (String b rest) =>
      if Ascii.eqb a (Ascii.ascii_of_nat 42) && Ascii.eqb b (Ascii.ascii_of_nat 46) then rest else d
  | _ => d
  end.
(** Pass 1; each authorization is fetched, which may fail. *)
Fixpoint wanted_txts (auths : list (result string Authz)) : result string (list (string * string)) :=
  match auths with
  | [] => Ok []
  | Err e :: _ => Err e
  | Ok a :: rest =>
      if valid a then wanted_txts rest
      else match dns01 a with
           | None => Err "authorization has no DNS-01 challenge"%string
           | Some (OtherId shown, _) => Err ("unexpected identifier type: " +:+ shown)
           | Some (Dns d, v) =>
               l ← wanted_txts rest; Ok (("_acme-challenge." +:+ strip_wildcard d, v) :: l)
           end
  end.

(** The provisioning loop: the records made so far, and whether it went through. *)
Fixpoint provision (wanted : list (string * string)) (answers : list CreateAnswer)
    (created : list TxtRecord) (z : Zone) : result string () * list TxtRecord * Zone :=
  match wanted with
  | [] => (Ok (), created, z)
  | (n, v) :: rest =>
      match create_txt n v (default (CreateFailed None) (head answers)) z with
      | (Ok r, z') => provision rest (tail answers) (created ++ [r]) z'
      | (Err e, z') => (Err e, created, z')
      end
  end.

(** The rest of the exchange: how each record shows up, pass 2 over the
    authorizations with the answer to [set_ready], whether the order became ready,
    the key and the certificate. *)
Record OrderIo := mkOrderIo {
  io_probes : nat -> (nat -> result string (option (list (option string)))) * (nat -> Z);
  io_second : list (result string (Authz * result string ()));
  io_ready : result string bool;
  io_key : result string (list byte);
  io_cert : result string (list byte);
}.
(** Each record is waited for in turn; fifty-two probes are enough. *)
Fixpoint wait_all (wanted : list (string * string)) (io : OrderIo) (i : nat) : result string () :=
  match wanted with
  | [] => Ok ()
  | (_, v) :: rest =>
      let (probe, took) := io_probes io i in
      match wait_propagated v probe took PROPAGATION_TIMEOUT 52 0 0 with
      | Some (Ok _) => wait_all rest io (S i)
      | Some (Err e) => Err e
      | None => Err "unreachable"%string
      end
  end.
Fixpoint set_all_ready (auths : list (result string (Authz * result string ()))) : result string () :=
  match auths with
  | [] => Ok ()
  | Err e :: _ => Err e
  | Ok (a, ready) :: rest =>
      if valid a then set_all_ready rest
      else match dns01 a with
           | None => Err "authorization has no DNS-01 challenge"%string
           | Some _ => ready ;; set_all_ready rest
           end
  end.
Definition finalize (wanted : list (string * string)) (io : OrderIo) : result string (list byte * list byte) :=
  wait_all wanted io 0 ;;
  set_all_ready (io_second io) ;;
  ready ← map_err (fun e => "polling order: " +:+ e) (io_ready io);
  if negb ready then Err "ACME order did not become ready"%string
  else
    key_pem ← map_err (fun e => "finalizing order: " +:+ e) (io_key io);
    cert_pem ← map_err (fun e => "downloading certificate: " +:+ e) (io_cert io);
    Ok (cert_pem, key_pem).
Definition provision_and_finalize (wanted : list (string * string)) (answers : list CreateAnswer)
    (io : OrderIo) (z : Zone) : result string (list byte * list byte) * list TxtRecord * Zone :=
  match provision wanted answers [] z with
  | (Ok _, created, z') => (finalize wanted io, created, z')
  | (Err e, created, z') => (Err e, created, z')
  end.
Fixpoint cleanup (created : list TxtRecord) (oks : list bool) (z : Zone) : Zone :=
  match created with
  | [] => z
  | r :: rest => cleanup rest (tail oks) (delete_record (id r) (default true (head oks)) z).2
  end.
(** [placed]: what loading the account and placing the order gave. *)
Definition issue (placed : result string ()) (auths : list (result string Authz)) (answers : list CreateAnswer)
    (io : OrderIo) (deletes : list bool) (z : Zone) : result string (list byte * list byte) * Zone :=
  match placed with
  | Err e => (Err e, z)
  | Ok _ =>
      match wanted_txts auths with
      | Err e => (Err e, z)
      | Ok wanted =>
          match provision_and_finalize wanted answers io z with
          | (r, created, z') => (r, cleanup created deletes z')
          end
      end
  end.

(** ** Theorems *)

(** *** The resolver *)
Lemma sni_installed (domain : string) (ck : CertifiedKey) (n : string) :
  resolve_cert (Some n) (install ck (SniResolver_new domain)) = Some ck <->
  n = domain \/ exists p, n = p +:+ "." +:+ domain.
Proof.
  cbn. unfold ends_with. pose proof (String.eqb_spec n domain) as Hn.
  pose proof (strip_suffix_Some ("." +:+ domain) n) as Hs.
  destruct (strip_suffix ("." +:+ domain) n) as [p|].
  - rewrite orb_true_r. split; [|done]. intros _. right. exists p. by apply Hs.
  - destruct Hn as [Hn|Hn]; cbn; [naive_solver|]. split; [done|].
    intros [?|[p Hp]]; [done|]. exfalso. by apply Hs in Hp.
Qed.
Lemma tunnel_host_under (domain h : string) :
  is_tunnel_host domain h = true -> exists p, h = p +:+ "." +:+ domain.
Proof.
  unfold is_tunnel_host. destruct (_ || _); [done|].
  destruct (strip_suffix (suffix domain) h) as [p|] eqn:E; [|done]. exists p.
  by apply strip_suffix_Some in E.
Qed.

(** The listener shows its certificate exactly to its own names: with a
    certificate installed, a ClientHello gets it iff its SNI is the relay's domain
    or lies under it, so every tunnel host gets it, and nothing is shown without an
    SNI or before a certificate is installed. *)
Theorem sni_exact (domain : string) (ck : CertifiedKey) (sni : option string) :
  (resolve_cert sni (install ck (SniResolver_new domain)) = Some ck <->
     exists n, sni = Some n /\ (n = domain \/ exists p, n = p +:+ "." +:+ domain)) /\
  (forall h, is_tunnel_host domain h = true ->
     resolve_cert (Some h) (install ck (SniResolver_new domain)) = Some ck) /\
  resolve_cert sni (SniResolver_new domain) = None.
Proof.
  split_and!.
  - destruct sni as [n|]; [rewrite sni_installed; naive_solver|]. split; [done|by intros (? & ? & _)].
  - intros h Hh. apply sni_installed. right. by apply tunnel_host_under.
  - destruct sni as [n|]; [|done]. cbn. by destruct (_ || _).
Qed.

(** *** Propagation *)
Section Propagation.
Context (expected : string) (probe : nat -> result string (option (list (option string)))).
Context (took : nat -> Z) (Htook : forall i, 0 <= took i).
Context (deadline : Z).
Definition seen (i : nat) : bool :=
  match probe i with Ok a => txt_visible expected a | Err _ => false end.
(** When the [k]-th probe, counted from [i] at [now], has its answer. *)
Fixpoint answered (i k : nat) (now : Z) : Z :=
  match k with
  | O => now + took i
  | S k' => answered (S i) k' (now + took i + 3)
  end.

Lemma wait_spec (fuel i : nat) (now : Z) :
  deadline - now < 3 * Z.of_nat fuel ->
  exists r, wait_propagated expected probe took deadline (S fuel) i now = Some r /\
    (r = Ok () <-> exists k, seen (i + k) = true /\
       forall j, (j < k)%nat -> seen (i + j) = false /\ answered i j now < deadline).
Proof using Htook.
  revert i now. induction fuel as [|fuel IH]; intros i now Hf; pose proof (Htook i);
    cbn [wait_propagated]; fold (seen i).
  - destruct (seen i) eqn:Hs.
    { eexists. split; [done|]. split; [|done]. intros _. exists 0%nat. rewrite Nat.add_0_r. split; [done|lia]. }
    destruct (Z.leb_spec deadline (now + took i)); [|lia]. eexists. split; [done|]. split; [done|].
    intros ([|k] & Hk & Hj); [by rewrite Nat.add_0_r, Hs in Hk|]. destruct (Hj 0%nat); [lia|]. cbn in *. lia.
  - destruct (seen i) eqn:Hs.
    { eexists. split; [done|]. split; [|done]. intros _. exists 0%nat. rewrite Nat.add_0_r. split; [done|lia]. }
    destruct (Z.leb_spec deadline (now + took i)) as [Hd|Hd].
    + eexists. split; [done|]. split; [done|].
      intros ([|k] & Hk & Hj); [by rewrite Nat.add_0_r, Hs in Hk|]. destruct (Hj 0%nat); [lia|]. cbn in *. lia.
    + destruct (IH (S i) (now + took i + 3)) as (r & E & Hr); [lia|]. exists r. split; [exact E|].
      rewrite Hr. split.
      * intros (k & Hk & Hj). exists (S k). split; [by rewrite Nat.add_succ_r|].
        intros [|j] Hlt; [rewrite Nat.add_0_r; split; [done|cbn; lia]|].
        rewrite Nat.add_succ_r. apply Hj. lia.
      * intros ([|k] & Hk & Hj); [by rewrite Nat.add_0_r, Hs in Hk|]. exists k.
        split; [by rewrite Nat.add_succ_r in Hk|]. intros j Hlt.
        destruct (Hj (S j)) as [H1 H2]; [lia|]. by rewrite Nat.add_succ_r in H1.
Qed.

(** Waiting for a TXT record ends: whatever the probes answer and however
    long each takes, at most fifty-two of them are made within the propagation
    timeout, and the wait succeeds exactly when some probe sees the record before
    an earlier one ran past the deadline. *)
Theorem propagation_ends :
  deadline = PROPAGATION_TIMEOUT ->
  exists r, wait_propagated expected probe took deadline 52 0 0 = Some r /\
    (r = Ok () <-> exists k, seen k = true /\
       forall j, (j < k)%nat -> seen j = false /\ answered 0 j 0 < deadline).
Proof using Htook.
  intros Hd. destruct (wait_spec 51 0 0) as (r & E & Hr); [rewrite Hd; unfold PROPAGATION_TIMEOUT; lia|].
  exists r. split; [exact E|exact Hr].
Qed.
End Propagation.

Lemma propagation_ends_witness :
  let probe i := if decide (i < 2)%nat then Err "nxdomain"%string else Ok (Some [Some "v"%string]) in
  exists r, wait_propagated "v" probe (fun _ => 1) 150 52 0 0 = Some r /\
    (r = Ok () <-> exists k, seen "v" probe k = true /\
       forall j, (j < k)%nat -> seen "v" probe j = false /\ answered (fun _ => 1) 0 j 0 < 150).
Proof.
  intros probe. apply (propagation_ends "v" probe (fun _ => 1)); [lia|reflexivity].
Defined.

(** *** Cleanup *)
Definition created_ids (answers : list CreateAnswer) : list string :=
  omap (fun a => match a with Created rid => Some rid | CreateFailed _ => None end) answers.
Definition leaves_nothing (a : CreateAnswer) : bool :=
  match a with CreateFailed (Some _) => false | _ => true end.

Lemma cleanup_delete (rid : string) (l : list TxtRecord) (z : Zone) :
  cleanup l [] (delete rid z) = delete rid (cleanup l [] z).
Proof.
  revert z. induction l as [|r l IH]; intros z; [done|].
  cbn [cleanup head tail default from_option Datatypes.id delete_record snd]. rewrite delete_delete. apply IH.
Qed.

Lemma provision_zone wanted answers created z :
  forallb leaves_nothing answers = true -> NoDup (created_ids answers) ->
  (forall rid, rid ∈ created_ids answers -> z !! rid = None) ->
  let '(r, created', z') := provision wanted answers created z in
  exists new, created' = created ++ new /\ cleanup new [] z' = z.
Proof.
  revert answers created z. induction wanted as [|[n v] wanted IH]; intros answers created z Hl Hn Hz;
    cbn [provision].
  { exists []. by rewrite app_nil_r. }
  destruct answers as [|[rid|made] answers]; cbn [head default from_option Datatypes.id create_txt tail].
  - exists []. by rewrite app_nil_r.
  - change (created_ids (Created rid :: answers)) with (rid :: created_ids answers) in *.
    rewrite NoDup_cons in Hn. destruct Hn as [Hnew Hn]. cbn in Hl.
    assert (Hz' : forall rid', rid' ∈ created_ids answers -> <[rid := (n, v)]> z !! rid' = None).
    { intros rid' Hin. rewrite lookup_insert_ne by (by intros ->). apply Hz. by right. }
    specialize (IH answers (created ++ [mkTxtRecord rid n]) (<[rid := (n, v)]> z) Hl Hn Hz').
    destruct (provision wanted answers _ _) as [[r created'] z'].
    destruct IH as (new & -> & Hc). exists (mkTxtRecord rid n :: new).
    split; [by rewrite <- app_assoc|].
    cbn [cleanup head default from_option Datatypes.id delete_record id snd tail].
    rewrite cleanup_delete, Hc, delete_insert_id; [done|]. apply Hz. by left.
  - cbn in Hl. destruct made; [done|]. exists []. by rewrite app_nil_r.
Qed.

(** A wait never runs out of probes when time does not run backwards. *)
Lemma waits_decided (v : string) probe (took : nat -> Z) :
  (forall i, 0 <= took i) -> wait_propagated v probe took PROPAGATION_TIMEOUT 52 0 0 <> None.
Proof.
  intros Ht. destruct (wait_spec v probe took Ht PROPAGATION_TIMEOUT 51 0 0) as (r & -> & _); [|done].
  unfold PROPAGATION_TIMEOUT. lia.
Qed.
(** A record is published when its wait ends well. *)
Definition published (v : string) (io : OrderIo) (i : nat) : Prop :=
  exists k, seen v (io_probes io i).1 k = true.
Lemma wait_all_published (wanted : list (string * string)) (io : OrderIo) (i : nat) :
  (forall j k, 0 <= (io_probes io j).2 k) -> wait_all wanted io i = Ok () ->
  forall j n v, wanted !! j = Some (n, v) -> published v io (i + j).
Proof.
  intros Ht. revert i. induction wanted as [|[n v] wanted IH]; intros i Hw j n' v' Hj; [done|].
  cbn [wait_all] in Hw. pose proof (Ht i) as Hti. destruct (io_probes io i) as [probe took] eqn:Ei. cbn [snd] in Hti.
  destruct (wait_spec v probe took Hti PROPAGATION_TIMEOUT 51 0 0) as (r & E & Hr);
    [unfold PROPAGATION_TIMEOUT; lia|]. rewrite E in Hw.
  destruct r as [[]|]; [|done]. destruct j as [|j].
  - injection Hj as <- <-. rewrite Nat.add_0_r. destruct Hr as [Hr _].
    destruct (Hr eq_refl) as (k & Hk & _). exists k. by rewrite Ei.
  - rewrite Nat.add_succ_r. by apply (IH (S i) Hw j n').
Qed.
Lemma finalize_ok (wanted : list (string * string)) (io : OrderIo) c k :
  finalize wanted io = Ok (c, k) ->
  wait_all wanted io 0 = Ok () /\ set_all_ready (io_second io) = Ok () /\ io_ready io = Ok true /\
  io_cert io = Ok c /\ io_key io = Ok k.
Proof.
  unfold finalize. destruct (wait_all wanted io 0) as [[]|]; [|done]. cbn.
  destruct (set_all_ready (io_second io)) as [[]|]; [|done]. cbn.
  destruct (io_ready io) as [[]|]; [|done..]. cbn. destruct (io_key io); [|done]. cbn.
  destruct (io_cert io); [|done]. by intros [= -> ->].
Qed.

(** An issuance leaves no challenge records behind: whether or not the
    provisioning goes through and whatever the ACME exchange gives, the zone ends
    as it was, provided the deletions work and a create that reports failure
    created nothing (record ids being fresh).  When it returns a certificate, every
    wanted record had been seen in the DNS before the challenges were marked ready,
    and the order was ready. *)
Theorem issue_cleans_up placed auths answers io z :
  forallb leaves_nothing answers = true -> NoDup (created_ids answers) ->
  (forall rid, rid ∈ created_ids answers -> z !! rid = None) ->
  (forall j k, 0 <= (io_probes io j).2 k) ->
  (issue placed auths answers io [] z).2 = z /\
  (forall c k, (issue placed auths answers io [] z).1 = Ok (c, k) ->
     exists wanted, wanted_txts auths = Ok wanted /\
       (forall j n v, wanted !! j = Some (n, v) -> published v io j) /\
       set_all_ready (io_second io) = Ok () /\ io_ready io = Ok true /\ io_cert io = Ok c /\ io_key io = Ok k).
Proof.
  intros Hl Hn Hz Ht. unfold issue, provision_and_finalize. destruct placed; [|done].
  destruct (wanted_txts auths) as [wanted|e]; [|done].
  pose proof (provision_zone wanted answers [] z Hl Hn Hz) as Hp.
  destruct (provision wanted answers [] z) as [[[u|e] created] z']; destruct Hp as (new & -> & Hc);
    (split; [done|]); [|done].
  intros c k (Hw & Hr & Hs & Hcert & Hkey)%finalize_ok. exists wanted. split_and!; try done.
  intros j n v. by apply (wait_all_published wanted io 0).
Qed.

Definition two_auths : list (result string Authz) :=
  [Ok (mkAuthz false (Some (Dns "r.dev", "a"))); Ok (mkAuthz false (Some (Dns "*.r.dev", "b")))]%string.
Definition good_order : OrderIo :=
  mkOrderIo (fun i => (fun k => if decide (k < 2)%nat then Ok None
                                else Ok (Some [Some (if decide (i = 0%nat) then "a" else "b")%string]),
                       fun _ => 1))
    [Ok (mkAuthz false (Some (Dns "r.dev", "a")), Ok ()); Ok (mkAuthz true None, Ok ())]%string
    (Ok true) (Ok [Byte.x02]) (Ok [Byte.x01]).
Lemma issue_cleans_up_witness :
  (issue (Ok ()) two_auths [Created "1"; Created "2"] good_order [] ∅).1 = Ok ([Byte.x01], [Byte.x02]) /\
  (issue (Ok ()) two_auths [Created "1"; Created "2"] good_order [] ∅).2 = (∅ : Zone).
Proof.
  split; [vm_compute; reflexivity|].
  apply (issue_cleans_up (Ok ()) two_auths [Created "1"; Created "2"]%string good_order ∅).
  - reflexivity.
  - apply (bool_decide_unpack _). vm_compute. exact I.
  - intros rid _. reflexivity.
  - intros j k. cbn. lia.
Defined.

(** *** Renewal *)
Section Renewal.
Context `{CertLib}.

Lemma pem_tmp (p : string) : p = cert_path \/ p = key_path -> with_extension p "tmp" <> p.
Proof using. by intros [->| ->]. Qed.

Lemma acme_write_ok p bs m d u d' :
  p = cert_path \/ p = key_path -> acme_atomic_write p bs m d = (Ok u, d') ->
  files d' !! p = Some (mkFile bs (masked m)) /\
  (forall q, q = cert_path \/ q = key_path -> q <> p -> files d' !! q = files d !! q).
Proof using.
  intros Hp E. pose proof (fs_run_crash_point (atomic_write_ops p bs m) d) as Hc.
  unfold acme_atomic_write in E. rewrite E in Hc.
  apply atomic_write_crash in Hc as (_ & _ & Hq); [|by apply pem_tmp].
  apply atomic_write_ok in E as [Hf _]; [|by apply pem_tmp]. split; [done|].
  intros q Hown Hne. apply Hq; [done|]. by destruct Hp as [->| ->], Hown as [->| ->].
Qed.

Lemma save_ok dir c k d u d' :
  save dir c k d = (Ok u, d') ->
  files d' !! cert_path = Some (mkFile c (masked 420)) /\ files d' !! key_path = Some (mkFile k (masked 384)).
Proof using.
  intros E. unfold save in E. apply st_bind_ok in E as (v & d1 & E1 & E).
  apply st_bind_ok in E as (v2 & d2 & E2 & E3).
  apply acme_write_ok in E2 as [Hc _]; [|by left]. apply acme_write_ok in E3 as [Hk Hq]; [|by right].
  rewrite Hq; [done|by left|done].
Qed.

(** What a renewal that went through has done. *)
Lemma renew_ok t l w l' :
  renew t l = (Ok w, l') ->
  exists c k ck na, t_issue t = Ok (c, k) /\ certified_key_from_pem c k = Ok ck /\
    cert_not_after c = Ok na /\ cert (resolver l') = Some ck /\
    files (disk l') !! cert_path = Some (mkFile c (masked 420)) /\
    files (disk l') !! key_path = Some (mkFile k (masked 384)) /\
    w = Z.max (Z.max 0 (remaining na (t_later t) - RENEW_BEFORE)) 3600.
Proof using.
  intros E. unfold renew in E. apply st_bind_ok in E as ([c k] & l1 & E1 & E).
  assert (Hi : t_issue t = Ok (c, k) /\ l1 = l).
  { unfold pure_result in E1. destruct (t_issue t) as [p|]; cbn in E1; [by injection E1 as -> <-|done]. }
  destruct Hi as [Hi ->]. apply st_bind_ok in E as (v & l2 & E2 & E).
  unfold on_disk in E2. destruct (save (t_dir t) c k (disk l)) as [r d1] eqn:Es. injection E2 as -> <-.
  apply save_ok in Es as [Hc Hk]. apply st_bind_ok in E as (ck & l3 & E3 & E).
  injection E3 as Hck <-. apply st_bind_ok in E as (v3 & l4 & E4 & E). injection E4 as _ <-.
  apply st_bind_ok in E as (na & l5 & E5 & E). injection E5 as Hna <-. injection E as <- <-.
  exists c, k, ck, na. split_and!; auto.
Qed.

(** On a working disk, an issued pair that parses is saved and installed. *)
Lemma save_works c k d :
  faults d = [] -> exists d', save (Ok ()) c k d = (Ok (), d').
Proof using.
  intros Hf. unfold save, mbind, st_bind, acme_atomic_write.
  destruct (atomic_write_works cert_path c 420 (pem_tmp cert_path (or_introl eq_refl)) d Hf) as (d1 & E1 & Hf1).
  unfold atomic_write in E1. rewrite E1.
  destruct (atomic_write_works key_path k 384 (pem_tmp key_path (or_intror eq_refl)) d1 Hf1) as (d2 & E2 & _).
  unfold atomic_write in E2. rewrite E2. by exists d2.
Qed.
Definition obtainable (t : Turn) (l : Live) : Prop :=
  exists c k ck na, t_issue t = Ok (c, k) /\ t_dir t = Ok () /\ faults (disk l) = [] /\
    certified_key_from_pem c k = Ok ck /\ cert_not_after c = Ok na.
Lemma renew_works t l : obtainable t l -> is_ok (renew t l).1 = true.
Proof using.
  intros (c & k & ck & na & Hi & Hd & Hf & Hck & Hna).
  destruct (save_works c k (disk l) Hf) as [d' Hs].
  unfold renew, mbind, st_bind, pure_result, on_disk. rewrite Hi. cbn. rewrite Hd, Hs, Hck. cbn.
  by rewrite Hna.
Qed.

Definition still_current (t : Turn) (l l' : Live) (w : Z) : Prop :=
  exists c k na, load_cached (disk l) = Some (c, k) /\ cert_not_after c = Ok na /\
    t_now t + RENEW_BEFORE < na /\ l' = l /\ t_now t + w = na - RENEW_BEFORE.
Definition renewed (t : Turn) (l' : Live) (w : Z) : Prop :=
  exists c k ck na, t_issue t = Ok (c, k) /\ certified_key_from_pem c k = Ok ck /\
    cert_not_after c = Ok na /\ cert (resolver l') = Some ck /\
    files (disk l') !! cert_path = Some (mkFile c (masked 420)) /\
    files (disk l') !! key_path = Some (mkFile k (masked 384)) /\
    3600 <= w /\ (t_later t + RENEW_BEFORE + 3600 <= na -> t_later t + w = na - RENEW_BEFORE).
Definition due (t : Turn) (l : Live) : Prop :=
  forall c k na, load_cached (disk l) = Some (c, k) -> cert_not_after c = Ok na ->
    na <= t_now t + RENEW_BEFORE.

Lemma ensure_cases t l :
  (exists c k na, load_cached (disk l) = Some (c, k) /\ cert_not_after c = Ok na /\
     t_now t + RENEW_BEFORE < na /\ ensure_cert t l = (Ok (na - t_now t - RENEW_BEFORE), l)) \/
  (due t l /\ ensure_cert t l = renew t l).
Proof using.
  unfold due, ensure_cert. destruct (load_cached (disk l)) as [[c k]|]; [|by right].
  destruct (cert_not_after c) as [na|x] eqn:Hna;
    [|right; split; [|done]; intros c' k' na' [= <- <-]; congruence].
  unfold remaining, RENEW_BEFORE in *.
  destruct (Z.ltb_spec (30 * 24 * 60 * 60) (Z.max 0 (na - t_now t))).
  - left. exists c, k, na. split_and!; [done..|lia|]. do 2 f_equal. lia.
  - right. split; [|done]. intros c' k' na' [= <- <-] Hn. assert (na' = na) as -> by congruence. lia.
Qed.

(** Renewal comes in time: every turn of the certificate loop either finds a
    cached certificate more than thirty days from expiry, changes nothing and
    wakes exactly when its thirty-day window opens; or installs the certificate it
    was just issued, after saving both files, and sleeps at least
    an hour and, for a certificate of normal length, until its window opens; or
    tries again in five minutes, which happens only when a renewal was due and no
    usable certificate could be issued and saved. *)
Theorem renewal_in_time (t : Turn) (l l' : Live) (w : Z) :
  acme_turn t l = (w, l') ->
  still_current t l l' w \/ (due t l /\ renewed t l' w) \/
  (due t l /\ w = RETRY_AFTER /\ ~ obtainable t l).
Proof using.
  unfold acme_turn. destruct (ensure_cases t l) as [(c & k & na & Hc & Hna & Hlt & ->)|[Hd ->]].
  - intros [= <- <-]. left. exists c, k, na. split_and!; auto; lia.
  - destruct (renew t l) as [[w0|e] l0] eqn:Er; intros [= <- <-]; right.
    + left. split; [done|]. apply renew_ok in Er as (c & k & ck & na & H1 & H2 & H3 & H4 & H5 & H6 & ->).
      exists c, k, ck, na. unfold remaining, RENEW_BEFORE. split_and!; auto; lia.
    + right. split_and!; [done..|]. intros Ho%renew_works. by rewrite Er in Ho.
Qed.

(** C40 A torn save is never repaired: the chain and the key are saved by two
    separate writes.  If the relay stops between them, the new chain lies beside
    the old key; nothing checks that they belong together, so the cache loads, the
    loop takes it as current until the new chain's window opens, and the next boot
    serves the mismatched pair. *)
Theorem torn_save_poisons (mgr : AcmeManager) (d d1 : Disk) (r : SniResolver) (c1 k0 : list byte)
    (m : Z) (ck : CertifiedKey) (na : Z) (t : Turn) :
  files d !! key_path = Some (mkFile k0 m) ->
  acme_atomic_write cert_path c1 420 d = (Ok (), d1) ->
  certified_key_from_pem c1 k0 = Ok ck -> cert_not_after c1 = Ok na ->
  t_now t + RENEW_BEFORE < na ->
  acme_turn t (mkLive d1 r) = (na - t_now t - RENEW_BEFORE, mkLive d1 r) /\
  cert (resolver (boot mgr (mkLive d1 r)).2) = Some ck.
Proof using.
  intros Hk Hw Hck Hna Hnow. apply acme_write_ok in Hw as [Hc Hq]; [|by left].
  assert (Hk1 : files d1 !! key_path = Some (mkFile k0 m)) by (rewrite Hq; [done|by right|done]).
  assert (Hload : load_cached d1 = Some (c1, k0)).
  { unfold load_cached. rewrite Hc. cbn. rewrite Hk1. cbn. by rewrite Hck. }
  split.
  - unfold acme_turn, ensure_cert. cbn [disk]. rewrite Hload, Hna.
    unfold remaining, RENEW_BEFORE in *.
    destruct (Z.ltb_spec (30 * 24 * 60 * 60) (Z.max 0 (na - t_now t))); [|lia]. f_equal. lia.
  - unfold boot. cbn [disk]. by rewrite Hload, Hck.
Qed.
End Renewal.

(** ** A concrete library: a PEM is its own certificate, good for a hundred days *)
Section Demo.
Local Instance demo_certs : CertLib := {|
  pem_items b := match b with [] => [] | _ => [Ok b] end;
  pem_key b := Ok b;
  supported _ := Ok ();
  leaf_not_after _ := Ok (100 * 86400);
  rcgen _ := Ok ([], []);
|}.
Definition old_files : Files :=
  <[cert_path := mkFile [Byte.x01] 420]> (<[key_path := mkFile [Byte.x02] 384]> ∅).
Definition demo_turn : Turn := mkTurn 86400 (Ok ([Byte.x03], [Byte.x04])) (Ok ()) 86400.

Lemma renewal_in_time_witness :
  let l := mkLive (mkDisk old_files []) (SniResolver_new "r.dev") in
  let out := acme_turn demo_turn l in
  out.1 = 69 * 86400 /\
  (still_current demo_turn l out.2 out.1 \/ (due demo_turn l /\ renewed demo_turn out.2 out.1) \/
   (due demo_turn l /\ out.1 = RETRY_AFTER /\ ~ obtainable demo_turn l)).
Proof.
  intros l out. split; [vm_compute; reflexivity|].
  apply (renewal_in_time demo_turn l out.2 out.1). vm_compute. reflexivity.
Defined.

Lemma torn_save_poisons_witness :
  let d1 := (acme_atomic_write cert_path [Byte.x03] 420 (mkDisk old_files [])).2 in
  let l := mkLive d1 (SniResolver_new "r.dev") in
  acme_turn demo_turn l = (100 * 86400 - 86400 - RENEW_BEFORE, l) /\
  cert (resolver (boot (mkAcme "r.dev" "a@b" "le") l).2) = Some (mkCertifiedKey [[Byte.x03]] [Byte.x02]).
Proof.
  apply (torn_save_poisons (mkAcme "r.dev" "a@b" "le") (mkDisk old_files [])
    (acme_atomic_write cert_path [Byte.x03] 420 (mkDisk old_files [])).2 (SniResolver_new "r.dev")
    [Byte.x03] [Byte.x02] 384 (mkCertifiedKey [[Byte.x03]] [Byte.x02]) (100 * 86400) demo_turn).
  - reflexivity.
  - vm_compute. reflexivity.
  - reflexivity.
  - reflexivity.
  - vm_compute. reflexivity.
Defined.

(** An expired certificate in the cache is installed at boot all the same. *)
Example expired_cache_is_served :
  cert (resolver (boot (mkAcme "r.dev" "a@b" "le") (mkLive (mkDisk old_files []) (SniResolver_new "r.dev"))).2)
  = Some (mkCertifiedKey [[Byte.x01]] [Byte.x02]).
Proof. vm_compute. reflexivity. Qed.
End Demo.
