(* ===== verification/Acme.v ===== *)
(** * Issuance against the DNS provider (crates/relay/src/dns_cloudflare.rs, acme.rs)

    The Cloudflare client on JSON answers, the issuance that drives it, and the
    certificate loop with that issuance inside.  The provider is a server with a
    state of its own; what it is documented to do is the class [CloudflareLaw].
    The client implements the record operations of Certs.v. *)
From stdpp Require Import pretty.
From S2P Require Import Prelude Fs Certs.
Local Open Scope Z_scope.
Local Set Warnings "-register-all".

(** ** JSON values ([serde_json::Value]) *)
Inductive Json :=
  | JNull
  | JBool (b : bool)
  | JNum (n : Z)
  | JStr (s : string)
  | JArr (l : list Json)
  | JObj (fields : list (string * Json)).
(** [get], [j\[k\]], [as_str] and [as_array]. *)
Fixpoint field (k : string) (fields : list (string * Json)) : option Json :=
  match fields with
  | [] => None
  | (k', v) :: rest => if decide (k = k') then Some v else field k rest
  end.
Definition json_get (k : string) (j : Json) : option Json :=
  match j with JObj fields => field k fields | _ => None end.
Definition json_index (k : string) (j : Json) : Json := default JNull (json_get k j).
Definition as_str (j : Json) : option string := match j with JStr s => Some s | _ => None end.
Definition as_array (j : Json) : option (list Json) := match j with JArr l => Some l | _ => None end.

(** ** The client *)
Inductive Method := GET | POST | DELETE.
Record ApiRequest := mkRequest {
  rq_method : Method;
  rq_url : string;
  rq_headers : list (string * string);
  rq_body : option Json;
}.
(** What comes back: nothing, a body that breaks off, or a status and a body,
    [None] when it is not JSON. *)
Inductive ApiAnswer := NoAnswer (e : string) | BodyLost (e : string) | Answer (status : Z) (body : option Json).

Definition API : string := "https://api.cloudflare.com/client/v4".
Definition DOH : string := "https://cloudflare-dns.com/dns-query".

(** The [success] field when it is a boolean. *)
Definition success_of (j : Json) : option bool :=
  match json_get "success" j with Some (JBool b) => Some b | _ => None end.

Section cloudflare.
Context {S : Type} (server : ApiRequest -> S -> ApiAnswer * S).
Context (show : Json -> string) (zone_id token : string).

Definition api_request (method : Method) (url : string) (body : option Json) : ApiRequest :=
  mkRequest method url
    [("Authorization", "Bearer " +:+ token); ("Content-Type", "application/json"); ("User-Agent", "ethertunnel/0.1")]%string
    body.
Definition api_result (a : ApiAnswer) : result string Json :=
  match a with
  | NoAnswer e => Err ("cloudflare API request: " +:+ e)
  | BodyLost e => Err ("reading cloudflare response: " +:+ e)
  | Answer status body =>
      let json := default JNull body in
      if api_ok status (success_of json) then Ok json
      else Err ("cloudflare API " +:+ pretty status +:+ ": " +:+ show (json_index "errors" json))
  end.
Definition api (method : Method) (url : string) (body : option Json) : st S string Json :=
  fun s => let (a, s') := server (api_request method url body) s in (api_result a, s').

Definition txt_body (name content : string) : Json :=
  JObj [("type", JStr "TXT"); ("name", JStr name); ("content", JStr content); ("ttl", JNum 60)]%string.
Definition create_url : string := API +:+ "/zones/" +:+ zone_id +:+ "/dns_records".
Definition delete_url (rid : string) : string := API +:+ "/zones/" +:+ zone_id +:+ "/dns_records/" +:+ rid.

Definition record_id (json : Json) : option string := as_str (json_index "id" (json_index "result" json)).
Definition cf_create_txt (n content : string) : st S string TxtRecord :=
  json ← api POST create_url (Some (txt_body n content));
  match record_id json with
  | Some rid => mret (mkTxtRecord rid n)
  | None => st_fail "cloudflare response missing record id"%string
  end.
Definition cf_delete_record (rid : string) : st S string () :=
  api DELETE (delete_url rid) None ;; mret ().

(** One lookup over DNS-over-HTTPS: the [data] fields of the answers. *)
Definition doh_request (n : string) : ApiRequest :=
  mkRequest GET (DOH +:+ "?name=" +:+ n +:+ "&type=TXT")
    [("Accept", "application/dns-json"); ("User-Agent", "ethertunnel/0.1")]%string None.
Definition doh_data (a : Json) : option string :=
  match json_get "data" a with Some d => as_str d | None => None end.
Definition doh_answers (body : option Json) : option (list (option string)) :=
  match json_get "Answer" (default JNull body) with
  | Some a => match as_array a with Some l => Some (map doh_data l) | None => None end
  | None => None
  end.
Definition cf_txt_visible (expected : string) (a : ApiAnswer) : result string bool :=
  match a with
  | NoAnswer e => Err ("DoH request: " +:+ e)
  | BodyLost e => Err e
  | Answer _ body => Ok (txt_visible expected (doh_answers body))
  end.

(** [verify_dns_edit]. *)
Definition cf_verify_dns_edit (apex : string) : st S string () :=
  rec ← st_map_err (fun e => "creating probe TXT (token needs Zone:DNS:Edit): " +:+ e)
          (cf_create_txt ("_etun-probe." +:+ apex) "etun-doctor-probe");
  st_map_err (fun e => "deleting probe TXT: " +:+ e) (cf_delete_record (id rec)).

(** ** The issuance, with the provider inside *)
Fixpoint cf_provision (wanted : list (string * string)) (created : list TxtRecord) (s : S) :
    result string () * list TxtRecord * S :=
  match wanted with
  | [] => (Ok (), created, s)
  | (n, v) :: rest =>
      match cf_create_txt n v s with
      | (Ok r, s') => cf_provision rest (created ++ [r]) s'
      | (Err e, s') => (Err e, created, s')
      end
  end.
Fixpoint cf_cleanup (created : list TxtRecord) (s : S) : S :=
  match created with
  | [] => s
  | r :: rest => cf_cleanup rest (cf_delete_record (id r) s).2
  end.
Definition cf_issue (placed : result string ()) (auths : list (result string Authz)) (io : OrderIo) (s : S) :
    result string (list byte * list byte) * S :=
  match placed with
  | Err e => (Err e, s)
  | Ok _ =>
      match wanted_txts auths with
      | Err e => (Err e, s)
      | Ok wanted =>
          match cf_provision wanted [] s with
          | (Ok _, created, s') => (finalize wanted io, cf_cleanup created s')
          | (Err e, created, s') => (Err e, cf_cleanup created s')
          end
      end
  end.
End cloudflare.

(** ** The provider

    [zone_of] is the zone the provider holds.  Documented behaviour: a request to
    create a record that answers success with an id has created it under that
    fresh id; one that does not has created nothing, or a record whose id is lost;
    a deletion removes the record when it answers success, and at most that record
    otherwise. *)
Class CloudflareLaw {S : Type} (server : ApiRequest -> S -> ApiAnswer * S) (show : Json -> string)
    (zone_id token : string) (zone_of : S -> Zone) := {
  law_create : forall n v s a s',
    server (api_request token POST (create_url zone_id) (Some (txt_body n v))) s = (a, s') ->
    match api_result show a with
    | Ok json => match record_id json with
                 | Some rid => zone_of s !! rid = None /\ zone_of s' = <[rid := (n, v)]> (zone_of s)
                 | None => zone_of s' = zone_of s \/ exists rid, zone_of s' = <[rid := (n, v)]> (zone_of s)
                 end
    | Err _ => zone_of s' = zone_of s \/ exists rid, zone_of s' = <[rid := (n, v)]> (zone_of s)
    end;
  law_delete : forall rid s a s',
    server (api_request token DELETE (delete_url zone_id rid) None) s = (a, s') ->
    match api_result show a with
    | Ok _ => zone_of s' = delete rid (zone_of s)
    | Err _ => zone_of s' = zone_of s \/ zone_of s' = delete rid (zone_of s)
    end;
}.

Definition same_outcome {A : Type} (r r' : result string A) : Prop :=
  match r, r' with Ok a, Ok b => a = b | Err _, Err _ => True | _, _ => False end.

Section refine.
Context {S : Type} (server : ApiRequest -> S -> ApiAnswer * S) (show : Json -> string) (zone_id token : string).
Context (zone_of : S -> Zone) `{!CloudflareLaw server show zone_id token zone_of}.
Local Abbreviation create := (cf_create_txt server show zone_id token).
Local Abbreviation del := (cf_delete_record server show zone_id token).

(** Each call is one of the abstract record operations on the provider's zone. *)
Lemma create_refines (n v : string) (s : S) :
  exists a, same_outcome (create n v s).1 (create_txt n v a (zone_of s)).1 /\
    zone_of (create n v s).2 = (create_txt n v a (zone_of s)).2 /\
    (forall r, (create n v s).1 = Ok r -> a = Created (id r) /\ r = mkTxtRecord (id r) n /\ zone_of s !! id r = None).
Proof using CloudflareLaw0.
  unfold cf_create_txt, api, mbind, st_bind.
  destruct (server _ s) as [a s'] eqn:E. apply law_create in E. destruct (api_result show a) as [json|e].
  - destruct (record_id json) as [rid|].
    + destruct E as [Hf E]. exists (Created rid). split_and!; [done..|]. by intros r [= <-].
    + destruct E as [E|[rid E]]; [exists (CreateFailed None)|exists (CreateFailed (Some rid))]; by split_and!.
  - destruct E as [E|[rid E]]; [exists (CreateFailed None)|exists (CreateFailed (Some rid))]; by split_and!.
Qed.
Lemma delete_refines (rid : string) (s : S) :
  exists ok, zone_of (del rid s).2 = (delete_record rid ok (zone_of s)).2.
Proof using CloudflareLaw0.
  unfold cf_delete_record, api, mbind, st_bind.
  destruct (server _ s) as [a s'] eqn:E. apply law_delete in E. destruct (api_result show a).
  - by exists true.
  - destruct E as [E|E]; [by exists false|by exists true].
Qed.
Lemma provision_refines (wanted : list (string * string)) (created : list TxtRecord) (s : S) :
  let '(r, c, s') := cf_provision server show zone_id token wanted created s in
  exists answers r', provision wanted answers created (zone_of s) = (r', c, zone_of s') /\ same_outcome r r'.
Proof using CloudflareLaw0.
  revert created s. induction wanted as [|[n v] wanted IH]; intros created s; cbn [cf_provision].
  { by exists [], (Ok ()). }
  destruct (create_refines n v s) as (a & Ho & Hz & Hok). destruct (create n v s) as [[r|e] s1]; cbn [fst snd] in *.
  - destruct (Hok r eq_refl) as (-> & Hr & _). specialize (IH (created ++ [r]) s1).
    destruct (cf_provision server show zone_id token wanted (created ++ [r]) s1) as [[r1 c1] s2].
    destruct IH as (answers & r' & Hp & Hs). exists (Created (id r) :: answers), r'. cbn [provision head tail default from_option].
    unfold Datatypes.id. cbn [create_txt] in *. rewrite <- Hr, <- Hp. split; [|done]. by rewrite Hz.
  - exists [a], (Err "cloudflare API"%string). cbn [provision head tail default from_option]. unfold Datatypes.id.
    destruct a as [rid|[rid|]]; [done|..]; cbn [create_txt] in *; by rewrite Hz.
Qed.
Lemma cleanup_refines (created : list TxtRecord) (s : S) :
  exists oks, zone_of (cf_cleanup server show zone_id token created s) = cleanup created oks (zone_of s).
Proof using CloudflareLaw0.
  revert s. induction created as [|r created IH]; intros s; cbn [cf_cleanup]; [by exists []|].
  destruct (delete_refines (id r) s) as [ok Hok]. destruct (IH (del (id r) s).2) as [oks Ho].
  exists (ok :: oks). cbn [cleanup head tail default from_option]. unfold Datatypes.id. by rewrite Ho, Hok.
Qed.

(** The issuance against the provider's API implements the issuance on an
    abstract zone: whatever the API answers (no answer, an error status, a refusal,
    a body that is not JSON or has no id, a lost deletion), there are answers of the
    abstract record operations under which both give the same certificate or both
    fail, and the provider's zone ends as the abstract one. *)
Theorem issue_refines (placed : result string ()) (auths : list (result string Authz)) (io : OrderIo) (s : S) :
  exists answers deletes,
    let '(r, s') := cf_issue server show zone_id token placed auths io s in
    same_outcome r (issue placed auths answers io deletes (zone_of s)).1 /\
    zone_of s' = (issue placed auths answers io deletes (zone_of s)).2.
Proof using CloudflareLaw0.
  assert (Hrefl : forall r : result string (list byte * list byte), same_outcome r r) by (by intros []).
  unfold cf_issue, issue, provision_and_finalize. destruct placed as [u|e]; [|by exists [], []].
  destruct (wanted_txts auths) as [wanted|e]; [|by exists [], []].
  pose proof (provision_refines wanted [] s) as Hp.
  destruct (cf_provision server show zone_id token wanted [] s) as [[[u1|e] created] s1].
  - destruct Hp as (answers & [u2|e2] & Hp & Hs); [|done].
    destruct (cleanup_refines created s1) as [oks Hc]. exists answers, oks. rewrite Hp. split; [apply Hrefl|done].
  - destruct Hp as (answers & [u2|e2] & Hp & Hs); [done|].
    destruct (cleanup_refines created s1) as [oks Hc]. exists answers, oks. by rewrite Hp.
Qed.

(** ** The certificate loop with the issuance inside *)

(** A provider on which a failed create made nothing and deletions work. *)
Definition reliable : Prop :=
  (forall n v s, is_ok (create n v s).1 = false -> zone_of (create n v s).2 = zone_of s) /\
  (forall rid s, zone_of (del rid s).2 = delete rid (zone_of s)).
Lemma cleanup_reliable (created : list TxtRecord) (s : S) :
  reliable -> zone_of (cf_cleanup server show zone_id token created s) = cleanup created [] (zone_of s).
Proof using.
  intros [_ Hd]. revert s. induction created as [|r created IH]; intros s; [done|].
  cbn [cf_cleanup cleanup head tail default from_option delete_record snd]. unfold Datatypes.id. by rewrite IH, Hd.
Qed.
Lemma provision_clean (wanted : list (string * string)) (created : list TxtRecord) (s : S) :
  reliable ->
  let '(r, c, s') := cf_provision server show zone_id token wanted created s in
  exists new, c = created ++ new /\ zone_of (cf_cleanup server show zone_id token new s') = zone_of s.
Proof using CloudflareLaw0.
  intros Hrel. revert created s. induction wanted as [|[n v] wanted IH]; intros created s; cbn [cf_provision].
  { exists []. by rewrite app_nil_r. }
  destruct (create_refines n v s) as (a & Ho & Hz & Hok). pose proof (proj1 Hrel n v s) as Hfail.
  destruct (create n v s) as [[r|e] s1]; cbn [fst snd is_ok] in *.
  - destruct (Hok r eq_refl) as (-> & Hr & Hfresh). specialize (IH (created ++ [r]) s1).
    destruct (cf_provision server show zone_id token wanted (created ++ [r]) s1) as [[r1 c1] s2].
    destruct IH as (new & -> & Hc). exists (r :: new). rewrite <- app_assoc. split; [done|].
    rewrite cleanup_reliable in * by done. cbn [cleanup head tail default from_option delete_record snd].
    unfold Datatypes.id. rewrite cleanup_delete, Hc, Hz. cbn [create_txt snd]. by apply delete_insert_id.
  - exists []. rewrite app_nil_r. split; [done|]. by apply Hfail.
Qed.
Lemma issue_clean placed auths io (s : S) :
  reliable -> zone_of (cf_issue server show zone_id token placed auths io s).2 = zone_of s.
Proof using CloudflareLaw0.
  intros Hrel. unfold cf_issue. destruct placed; [|done]. destruct (wanted_txts auths) as [wanted|]; [|done].
  pose proof (provision_clean wanted [] s Hrel) as Hp.
  by destruct (cf_provision server show zone_id token wanted [] s) as [[[u|e] created] s1]; destruct Hp as (new & -> & Hc).
Qed.
Lemma issue_sound placed auths io (s : S) c k :
  (forall j i, 0 <= (io_probes io j).2 i) ->
  (cf_issue server show zone_id token placed auths io s).1 = Ok (c, k) ->
  exists wanted, placed = Ok () /\ wanted_txts auths = Ok wanted /\
    (forall j n v, wanted !! j = Some (n, v) -> published v io j) /\
    set_all_ready (io_second io) = Ok () /\ io_ready io = Ok true /\ io_cert io = Ok c /\ io_key io = Ok k.
Proof using.
  intros Ht. unfold cf_issue. destruct placed as [[]|]; [|done]. destruct (wanted_txts auths) as [wanted|]; [|done].
  destruct (cf_provision server show zone_id token wanted [] s) as [[[u|e] created] s1]; [|done]. cbn [fst].
  intros (Hw & Hr & Hs & Hcert & Hkey)%finalize_ok. exists wanted. split_and!; try done.
  intros j n v. by apply (wait_all_published wanted io 0).
Qed.

Context `{CertLib}.
(** The guard of [ensure_cert]: the cached certificate is not in its window. *)
Definition cert_current (now : Z) (l : Live) : option Z :=
  match load_cached (disk l) with
  | Some (c, _) =>
      match cert_not_after c with
      | Ok na => if RENEW_BEFORE <? remaining na now then Some (remaining na now - RENEW_BEFORE) else None
      | Err _ => None
      end
  | None => None
  end.
(** What the turn meets: the clock, the account ([account], which may write its
    cache), the answer to the new order, the authorizations and the rest of the
    exchange. *)
Record FullTurn := mkFullTurn {
  f_now : Z;
  f_later : Z;
  f_dir : result string ();
  f_account : st Disk string string;
  f_order : result string ();
  f_auths : list (result string Authz);
  f_io : OrderIo;
}.
Definition full_turn (t : FullTurn) (l : Live) (s : S) : Z * Live * S :=
  match cert_current (f_now t) l with
  | Some w => (w, l, s)
  | None =>
      let (acct, d1) := f_account t (disk l) in
      let l1 := mkLive d1 (resolver l) in
      let placed := acct ≫= fun _ => map_err (fun e => "creating ACME order: " +:+ e) (f_order t) in
      let (issued, s1) := cf_issue server show zone_id token placed (f_auths t) (f_io t) s in
      match renew (mkTurn (f_now t) issued (f_dir t) (f_later t)) l1 with
      | (Ok w, l2) => (w, l2, s1)
      | (Err _, l2) => (RETRY_AFTER, l2, s1)
      end
  end.
Lemma renew_resolver t l :
  cert (resolver (renew t l).2) = cert (resolver l) \/
  exists c k ck, t_issue t = Ok (c, k) /\ certified_key_from_pem c k = Ok ck /\
    cert (resolver (renew t l).2) = Some ck.
Proof using.
  unfold renew, mbind, st_bind, pure_result, on_disk. destruct (t_issue t) as [[c k]|]; cbn; [|by left].
  destruct (save (t_dir t) c k (disk l)) as [[u|] d1]; cbn; [|by left].
  destruct (certified_key_from_pem c k) as [ck|] eqn:Eck; cbn; [|by left]. right. exists c, k, ck.
  by destruct (cert_not_after c).
Qed.

(** C34 The certificate loop, end to end.  A turn that finds the cached certificate
    outside its renewal window calls nobody and wakes when the window opens.
    Otherwise it runs an issuance; the served certificate changes only to one whose
    every challenge value was seen in the DNS, whose challenges were accepted and
    whose order was ready; a turn that succeeds has also saved both files; one that
    fails is repeated in five minutes, and a relay that serves a certificate never
    stops serving one.  A reliable provider's zone is left as it was. *)
Theorem renewal_end_to_end (t : FullTurn) (l l' : Live) (s s' : S) (w : Z) :
  (forall j i, 0 <= (io_probes (f_io t) j).2 i) -> full_turn t l s = (w, l', s') ->
  (reliable -> zone_of s' = zone_of s) /\
  (cert (resolver l) <> None -> cert (resolver l') <> None) /\
  (is_Some (cert_current (f_now t) l) -> l' = l /\ s' = s /\ cert_current (f_now t) l = Some w) /\
  (cert (resolver l') <> cert (resolver l) ->
     exists c k ck wanted, certified_key_from_pem c k = Ok ck /\ cert (resolver l') = Some ck /\
       wanted_txts (f_auths t) = Ok wanted /\
       (forall j n v, wanted !! j = Some (n, v) -> published v (f_io t) j) /\
       set_all_ready (io_second (f_io t)) = Ok () /\ io_ready (f_io t) = Ok true /\
       io_cert (f_io t) = Ok c /\ io_key (f_io t) = Ok k) /\
  (cert_current (f_now t) l = None -> w = RETRY_AFTER \/
     3600 <= w /\ exists c k, io_cert (f_io t) = Ok c /\ io_key (f_io t) = Ok k /\
       files (disk l') !! cert_path = Some (mkFile c (masked 420)) /\
       files (disk l') !! key_path = Some (mkFile k (masked 384))).
Proof using CloudflareLaw0.
  intros Ht. unfold full_turn. destruct (cert_current (f_now t) l) as [w0|].
  { intros [= <- <- <-]. split_and!; try done. }
  destruct (f_account t (disk l)) as [acct d1]. set (placed := acct ≫= _). set (l1 := mkLive d1 (resolver l)).
  pose proof (issue_clean placed (f_auths t) (f_io t) s) as Hclean.
  pose proof (issue_sound placed (f_auths t) (f_io t) s) as Hsound.
  destruct (cf_issue server show zone_id token placed (f_auths t) (f_io t) s) as [issued s1]. cbn [fst snd] in *.
  set (tt := mkTurn (f_now t) issued (f_dir t) (f_later t)).
  destruct (renew_resolver tt l1) as [Hres|(c & k & ck & Hi & Hck & Hres)];
  destruct (renew tt l1) as [[w1|e] l2] eqn:Er; intros [= <- <- <-]; cbn [snd] in Hres;
    (split; [done|]); (split; [rewrite Hres; done|]); (split; [by intros []|]); split.
  all: try (intros Hne; by rewrite Hres in Hne).
  all: try (intros _; by left).
  - intros _. right. apply renew_ok in Er as (c & k & ck & na & H1 & _ & _ & _ & H5 & H6 & ->).
    split; [lia|]. destruct (Hsound c k Ht H1) as (wanted & _ & _ & _ & _ & _ & Hc & Hk). by exists c, k.
  - intros _. destruct (Hsound c k Ht Hi) as (wanted & _ & H1 & H2 & H3 & H4 & H5 & H6). by exists c, k, ck, wanted.
  - intros _. right. apply renew_ok in Er as (c' & k' & ck' & na & H1 & _ & _ & _ & H5 & H6 & ->).
    split; [lia|]. destruct (Hsound c' k' Ht H1) as (wanted & _ & _ & _ & _ & _ & Hc & Hk). by exists c', k'.
  - intros _. destruct (Hsound c k Ht Hi) as (wanted & _ & H1 & H2 & H3 & H4 & H5 & H6). by exists c, k, ck, wanted.
Qed.
End refine.

(** ** A concrete provider *)
Module Demo.
(** It numbers its records and refuses when the number is taken. *)
Definition demo_server (rq : ApiRequest) (z : Zone) : ApiAnswer * Zone :=
  match rq_method rq with
  | POST =>
      let f k := default EmptyString (as_str (json_index k (default JNull (rq_body rq)))) in
      let rid := pretty (size z) in
      match z !! rid with
      | None => (Answer 200 (Some (JObj [("success", JBool true); ("result", JObj [("id", JStr rid)])]))%string,
                 <[rid := (f "name", f "content")%string]> z)
      | Some _ => (Answer 409 None, z)
      end
  | DELETE => (Answer 200 None, filter (fun kv => delete_url "z" kv.1 <> rq_url rq) z)
  | GET => (Answer 200 None, z)
  end.
Lemma string_app_inj_l (p a b : string) : p +:+ a = p +:+ b -> a = b.
Proof. induction p as [|c p IH]; [done|]. rewrite !string_app_cons. by intros [= ?%IH]. Qed.
Lemma demo_delete (rid : string) (z : Zone) : filter (fun kv => delete_url "z" kv.1 <> delete_url "z" rid) z = delete rid z.
Proof.
  apply map_eq. intros k. destruct (decide (k = rid)) as [->|Hne].
  - rewrite lookup_delete_eq. apply map_lookup_filter_None. right. cbn. intros x _ Hx. by apply Hx.
  - rewrite lookup_delete_ne by done. destruct (z !! k) as [x|] eqn:E.
    + apply map_lookup_filter_Some. split; [done|]. cbn. intros Hu. apply Hne. unfold delete_url in Hu.
      by repeat apply string_app_inj_l in Hu.
    + apply map_lookup_filter_None. by left.
Qed.
#[local] Instance demo_law : CloudflareLaw demo_server (fun _ => EmptyString) "z" "t" (fun z => z).
Proof.
  split.
  - intros n v z a z'. unfold demo_server. cbn [rq_method api_request rq_body].
    destruct (z !! pretty (size z)) eqn:E; intros [= <- <-]; cbn.
    + by left.
    + rewrite bool_decide_false by done. by split.
  - intros rid z a z'. unfold demo_server. cbn [rq_method api_request rq_url]. rewrite demo_delete.
    intros E. injection E as <- <-. reflexivity.
Qed.
Lemma demo_reliable : reliable demo_server (fun _ => EmptyString) "z" "t" (fun z => z).
Proof.
  split.
  - intros n v z. unfold cf_create_txt, api, mbind, st_bind, demo_server. cbn [rq_method api_request rq_body].
    destruct (z !! pretty (size z)); cbn; [done|]. by rewrite bool_decide_false by done.
  - intros rid z. unfold cf_delete_record, api, mbind, st_bind, demo_server.
    cbn [rq_method api_request rq_url]. by rewrite demo_delete.
Qed.
#[local] Instance demo_certs : CertLib := {|
  pem_items b := match b with [] => [] | _ => [Ok b] end;
  pem_key b := Ok b;
  supported _ := Ok ();
  leaf_not_after _ := Ok (100 * 86400);
  rcgen _ := Ok ([], []);
|}.
Definition turn0 : FullTurn :=
  mkFullTurn (90 * 86400) (90 * 86400) (Ok ()) (fun d => (Ok "acct"%string, d)) (Ok ()) two_auths good_order.
Definition live0 : Live := mkLive (mkDisk old_files []) (SniResolver_new "r.dev").
Definition zone0 : Zone := {["www" := ("www.r.dev", "x")]}%string.

Lemma issue_refines_witness :
  exists answers deletes,
    let '(r, s') := cf_issue demo_server (fun _ => EmptyString) "z" "t" (Ok ()) two_auths good_order zone0 in
    same_outcome r (issue (Ok ()) two_auths answers good_order deletes zone0).1 /\
    s' = (issue (Ok ()) two_auths answers good_order deletes zone0).2.
Proof. apply (issue_refines demo_server (fun _ => EmptyString) "z" "t" (fun z => z)). Defined.

Lemma renewal_end_to_end_witness :
  exists w l' s', full_turn demo_server (fun _ => EmptyString) "z" "t" turn0 live0 zone0 = (w, l', s') /\
    w = 3600 /\ cert (resolver l') = Some (mkCertifiedKey [[Byte.x01]] [Byte.x02]) /\ s' = zone0 /\
    exists wanted, wanted_txts two_auths = Ok wanted /\
      forall j n v, wanted !! j = Some (n, v) -> published v good_order j.
Proof.
  assert (Hv : (full_turn demo_server (fun _ => EmptyString) "z" "t" turn0 live0 zone0).1.1 = 3600 /\
    cert (resolver (full_turn demo_server (fun _ => EmptyString) "z" "t" turn0 live0 zone0).1.2)
      = Some (mkCertifiedKey [[Byte.x01]] [Byte.x02])) by (split; vm_compute; reflexivity).
  destruct (full_turn demo_server (fun _ => EmptyString) "z" "t" turn0 live0 zone0) as [[w l'] s'] eqn:E.
  cbn [fst snd] in Hv.
  destruct Hv as [Hw Hc]. exists w, l', s'. split; [reflexivity|]. split; [exact Hw|]. split; [exact Hc|].
  destruct (renewal_end_to_end demo_server (fun _ => EmptyString) "z" "t" (fun z => z) turn0 live0 l' zone0 s' w)
    as (H1 & _ & _ & H4 & _).
  - intros j i. cbn. lia.
  - exact E.
  - split; [exact (H1 demo_reliable)|].
    destruct H4 as (c & k & ck & wanted & _ & _ & Hwant & Hpub & _); [rewrite Hc; discriminate|].
    exists wanted. split; [exact Hwant|exact Hpub].
Defined.
End Demo.
