(* ===== verification/Serve.v ===== *)
(** * Starting and administering the relay
      (crates/cli/src/main.rs, crates/relay/src/config.rs, listener.rs, tls.rs)

    [run_serve] up to the accept loop: the registry is opened and checked, the
    license gate is wired from its configuration, and the certificate the
    listener shows is put in place.  [run_admin] finds the database and domain
    and runs one registry operation.  Reading and parsing files and opening
    databases are inputs: what they gave. *)
From stdpp Require Import pretty.
From S2P Require Import Prelude Auth Registry RegistryInv RegistryProps RegistryTokens Router Polar Session Edge Fs Certs.
Local Open Scope Z_scope.

(** ** Configuration (config.rs) *)
Inductive TlsMode := Acme | SelfSigned | Manual.
Record CloudflareConfig := mkCloudflare { zone_id : string; api_token_file : string }.
Record AcmeConfig := mkAcmeConfig { email : string; staging : bool; cloudflare : CloudflareConfig }.
Record ManualConfig := mkManual { cert_file : string; key_file : string }.
Record TlsConfig := mkTlsConfig {
  tls_mode : TlsMode;
  state_dir : string;
  acme : option AcmeConfig;
  manual : option ManualConfig;
}.
Definition default_tls : TlsConfig := mkTlsConfig SelfSigned "/var/lib/ethertunnel/tls" None None.
Record PolarConfig := mkPolarConfig {
  po_organization_id : string;
  po_api_base : string;
  po_cache_ttl_secs : Z;
  po_staleness_secs : Z;
  po_cap_prune_grace_secs : Z;
  po_activate_on_claim : bool;
  po_benefits : gmap string Z;
  po_max_validate_per_sec : Z;
  po_validate_burst : Z;
}.
(** A [polar] section that names only the organization. *)
Definition default_polar (org : string) : PolarConfig :=
  mkPolarConfig org "https://api.polar.sh" 300 259200 2592000 true ∅ 10 30.
Record TcpConfig := mkTcpConfig { tcp_port_range : Z * Z }.
Definition default_tcp : TcpConfig := mkTcpConfig (20000, 20999).
Definition tcp_in_range (c : TcpConfig) (port : Z) : bool :=
  (fst (tcp_port_range c) <=? port) && (port <=? snd (tcp_port_range c)).
Definition default_db_path : string := "/var/lib/ethertunnel/registry.db".
Record RelayConfig := mkRelayConfig {
  server : Config;
  tls : TlsConfig;
  db_path : string;
  tcp : TcpConfig;
  polar : option PolarConfig;
}.
(** A configuration that sets only the domain. *)
Definition default_relay (d : string) : RelayConfig :=
  mkRelayConfig (mkConfig d "EtherTunnel relay" default_limits) default_tls default_db_path default_tcp None.

(** [CloudflareConfig::token]; [read]: the text of a file. *)
Definition cloudflare_token (read : string -> result string string) (c : CloudflareConfig) :
    result string string :=
  match read (api_token_file c) with
  | Ok raw => Ok (trim raw)
  | Err e => Err ("reading " +:+ api_token_file c +:+ ": " +:+ e)
  end.

(** [TcpPortManager::new]. *)
Definition TcpPortManager_new (range : Z * Z) : TcpPortManager := mkTcp range ∅.

(** ** The certificate a starting relay shows (listener.rs, [serve_with]) *)
Section Tls.
Context `{CertLib}.
(** [read], [read_text]: the bytes and the text of a file. *)
Context (read : string -> result string (list byte)) (read_text : string -> result string string).
Context (staging_url production_url : string).

Definition read_named (path : string) : result string (list byte) :=
  map_err (fun e => "reading " +:+ path +:+ ": " +:+ e) (read path).
Definition setup_tls (cfg : RelayConfig) (injected : option (CertifiedKey * list byte)) :
    st Live string (option (list byte)) :=
  match injected with
  | Some (ck, der) => install_live ck ;; mret (Some der)
  | None =>
      match tls_mode (tls cfg) with
      | SelfSigned =>
          '(ck, der) ← pure_result (self_signed (domain (server cfg)));
          install_live ck ;; mret (Some der)
      | Manual =>
          match manual (tls cfg) with
          | None => st_fail "tls.mode = manual requires [tls.manual]"%string
          | Some m =>
              c ← pure_result (read_named (cert_file m));
              k ← pure_result (read_named (key_file m));
              ck ← pure_result (certified_key_from_pem c k);
              install_live ck ;;
              mret (match first_cert_der c with Ok d => Some d | Err _ => None end)
          end
      | Acme =>
          match acme (tls cfg) with
          | None => st_fail "tls.mode = acme requires [tls.acme]"%string
          | Some a =>
              pure_result (cloudflare_token read_text (cloudflare a)) ;;
              boot (AcmeManager_new staging_url production_url (domain (server cfg)) (email a) (staging a))
          end
      end
  end.
Definition serve_tls (cfg : RelayConfig) (injected : option (CertifiedKey * list byte)) (d : Disk) :
    result string (option (list byte)) * Live :=
  setup_tls cfg injected (mkLive d (SniResolver_new (domain (server cfg)))).
End Tls.

(** ** [etun serve] (main.rs) *)

(** [Registry::integrity_check], from the row of the pragma. *)
Definition integrity_check (row : result SqlError string) : result RegistryError () :=
  match row with
  | Err e => Err (Db e)
  | Ok r => if String.eqb r "ok" then Ok () else Err (Db EngineFailure)
  end.

(** The policy handed to the gate. *)
Definition policy_of (po : PolarConfig) : PolarPolicy :=
  mkPolicy (po_organization_id po) (po_cache_ttl_secs po) (po_staleness_secs po)
    (po_cap_prune_grace_secs po) (po_activate_on_claim po) (po_benefits po)
    (po_max_validate_per_sec po) (po_validate_burst po).

Inductive ServeError :=
  | LoadConfig (e : string) | OpenRegistry (e : RegistryError) | Integrity (e : RegistryError)
  | OpenCache (e : string) | Listen (e : string).
(** What a successful start gives: the check's verdict, or the gate's policy (if
    licensing is on) and the listener with its certificate. *)
Inductive Served := Checked | Running (gate : option PolarPolicy) (shown : option (list byte)) (l : Live).
(** What the outside gave on the way: the parsed configuration, the opened
    registry, the row of its integrity check, the opened license cache, the bound
    socket. *)
Record ServeIo := mkServeIo {
  s_load : result string RelayConfig;
  s_open : result RegistryError ();
  s_integrity : result SqlError string;
  s_cache : result string ();
  s_bind : result string ();
}.
Section Run.
Context `{CertLib}.
Context (read : string -> result string (list byte)) (read_text : string -> result string string).
Context (staging_url production_url : string).
Definition run_serve (check : bool) (io : ServeIo) (d : Disk) : result ServeError Served :=
  cfg ← map_err LoadConfig (s_load io);
  map_err OpenRegistry (s_open io) ;;
  map_err Integrity (integrity_check (s_integrity io)) ;;
  if check then mret Checked
  else
    gate ← match polar cfg with
           | None => mret None
           | Some po =>
               map_err OpenCache (s_cache io) ;;
               mret (Some (PolarGate_new (policy_of po)))
           end;
    match serve_tls read read_text staging_url production_url cfg None d with
    | (Err e, _) => Err (Listen e)
    | (Ok shown, l) => map_err Listen (s_bind io) ;; mret (Running gate shown l)
    end.
End Run.

(** ** [etun admin] (main.rs) *)
Inductive UserCmd := UserAdd (nm : string) | UserLs | UserRm (nm : string) (force : bool).
Inductive TokenCmd :=
  | TokenCreate (user : string) (label : option string)
  | TokenLs (user : option string) | TokenRevoke (id : Z).
Inductive HostnameCmd :=
  | HostnameAdd (label user : string) | HostnameLs (user : option string) | HostnameRm (label : string).
Inductive PortCmd := PortAdd (port : Z) (user : string) | PortLs | PortRm (port : Z).
Inductive AdminAction :=
  | AUser (cmd : UserCmd) | AToken (cmd : TokenCmd) | AHostname (cmd : HostnameCmd)
  | APort (cmd : PortCmd) | ADoctor.

Definition tab : string := String (Ascii.ascii_of_nat 9) EmptyString.
Definition nl : string := String (Ascii.ascii_of_nat 10) EmptyString.
Definition token_line (user token : string) : string :=
  "token for " +:+ user +:+ " (shown once, store it now):" +:+ nl +:+ nl +:+ "  " +:+ token +:+ nl.

Inductive AdminError :=
  | NeedConfig (why : string) | ConfigError (e : string) | OpenDb (e : RegistryError)
  | RegError (e : RegistryError).
Inductive AdminEnd := Printed (lines : list string) | DoctorOk | ExitFailure.

(** The databases of the host, by path; a new one has empty tables. *)
Abbreviation Dbs := (gmap string Conn).
Definition db_at (p : string) (dbs : Dbs) : Conn := default new_conn (dbs !! p).

(** The database and the domain: flags first, then the configuration. *)
Definition admin_target (load : string -> result string RelayConfig)
    (config dbf domainf : option string) : result AdminError (string * string) :=
  match dbf, domainf with
  | Some p, Some d => Ok (p, d)
  | _, _ =>
      match config with
      | None => Err (NeedConfig "provide --config, or both --db and --domain")
      | Some path =>
          cfg ← map_err ConfigError (load path);
          Ok (default (db_path cfg) dbf, default (domain (server cfg)) domainf)
      end
  end.

Section Admin.
Context `{!Engine}.
(** The lines printed; [unreachable!] for the action dispatched earlier. *)
Definition admin_dispatch (domain : string) (action : AdminAction) :
    st Conn RegistryError (list string) :=
  match action with
  | AUser (UserAdd nm) => add_user nm ;; mret ["added user " +:+ nm]
  | AUser UserLs =>
      us ← list_users; mret ((fun '(id, nm, _) => pretty (id : Z) +:+ tab +:+ nm) <$> us)
  | AUser (UserRm nm force) => remove_user nm force ;; mret ["removed user " +:+ nm]
  | AToken (TokenCreate user label) =>
      token ← create_token user label; mret [token_line user token]
  | AToken (TokenLs user) =>
      ts ← list_tokens user;
      mret ((fun t => pretty (tr_id t) +:+ tab +:+ tr_user t +:+ tab +:+
                      (if tr_revoked t then "revoked" else "active") +:+ tab +:+
                      default EmptyString (tr_label t)) <$> ts)
  | AToken (TokenRevoke id) =>
      done ← revoke_token id;
      mret [if done : bool then "revoked token " +:+ pretty id
            else "token " +:+ pretty id +:+ " not found or already revoked"]
  | AHostname (HostnameAdd label user) =>
      add_hostname label user ;; mret ["granted " +:+ label +:+ "." +:+ domain +:+ " to " +:+ user]
  | AHostname (HostnameLs user) =>
      hs ← list_hostnames user;
      mret ((fun '(label, owner) => label +:+ "." +:+ domain +:+ tab +:+ owner) <$> hs)
  | AHostname (HostnameRm label) =>
      done ← remove_hostname label;
      mret [if done : bool then "removed " +:+ label +:+ "." +:+ domain else "no such hostname: " +:+ label]
  | APort (PortAdd port user) =>
      add_port port user ;; mret ["reserved port " +:+ pretty port +:+ " for " +:+ user]
  | APort PortLs =>
      ps ← list_ports; mret ((fun '(port, owner) => pretty (port : Z) +:+ tab +:+ owner) <$> ps)
  | APort (PortRm port) =>
      done ← remove_port port;
      mret [if done : bool then "released port " +:+ pretty port
            else "no such reserved port: " +:+ pretty port]
  | ADoctor => mret []
  end.

(** [open]: what opening a database gave; [doctor]: the verdict of the relay's
    doctor. *)
Definition run_admin (load : string -> result string RelayConfig)
    (open : string -> string -> result RegistryError ()) (doctor : RelayConfig -> bool)
    (config dbf domainf : option string) (action : AdminAction) : st Dbs AdminError AdminEnd :=
  fun dbs =>
    match action with
    | ADoctor =>
        match config with
        | None => (Err (NeedConfig "doctor needs --config <relay.toml>"), dbs)
        | Some path =>
            match load path with
            | Err e => (Err (ConfigError e), dbs)
            | Ok cfg => (Ok (if doctor cfg then DoctorOk else ExitFailure), dbs)
            end
        end
    | _ =>
        match admin_target load config dbf domainf with
        | Err e => (Err e, dbs)
        | Ok (p, d) =>
            match open p d with
            | Err e => (Err (OpenDb e), dbs)
            | Ok _ =>
                let (r, c) := admin_dispatch d action (db_at p dbs) in
                (map_ok Printed (map_err RegError r), <[p := c]> dbs)
            end
        end
    end.
End Admin.

(** ** Theorems *)

(** *** The certificate of a started relay *)
Definition shows_all (d : string) (ck : CertifiedKey) (r : SniResolver) : Prop :=
  forall n, n = d \/ n = connect_host d \/ is_tunnel_host d n = true -> resolve_cert (Some n) r = Some ck.
Lemma installed_shows_all (d : string) (ck : CertifiedKey) :
  shows_all d ck (install ck (SniResolver_new d)).
Proof.
  intros n Hn. apply sni_installed. destruct Hn as [->|[->|Hn]]; [by left|..]; right.
  - by exists "connect"%string.
  - by apply tunnel_host_under.
Qed.

Section Started.
Context `{CertLib}.
Context (read : string -> result string (list byte)) (read_text : string -> result string string).
Context (staging_url production_url : string).

Lemma boot_installs (mgr : AcmeManager) (l l' : Live) (shown : option (list byte)) :
  boot mgr l = (Ok shown, l') ->
  exists ck, l' = mkLive (disk l) (install ck (resolver l)).
Proof.
  unfold boot. destruct (load_cached (disk l)) as [[c k]|].
  - destruct (certified_key_from_pem c k) as [ck|]; [|done]. intros [= _ <-]. by exists ck.
  - destruct (self_signed (m_domain mgr)) as [[ck der]|]; [|done]. intros [= _ <-]. by exists ck.
Qed.
Lemma setup_tls_installs (cfg : RelayConfig) inj (l l' : Live) (shown : option (list byte)) :
  setup_tls read read_text staging_url production_url cfg inj l = (Ok shown, l') ->
  exists ck, l' = mkLive (disk l) (install ck (resolver l)) /\
    (inj = None -> tls_mode (tls cfg) = Manual -> exists m c k,
       manual (tls cfg) = Some m /\ read (cert_file m) = Ok c /\ read (key_file m) = Ok k /\
       certified_key_from_pem c k = Ok ck).
Proof.
  unfold setup_tls. destruct inj as [[ck der]|]; [intros [= _ <-]; by exists ck|].
  destruct (tls_mode (tls cfg)).
  - destruct (acme (tls cfg)) as [a|]; [|done]. intros Hr. run_ok Hr.
    unfold pure_result in E. simplify_eq. apply boot_installs in Hr as [ck ->]. by exists ck.
  - intros Hr. run_ok Hr. unfold pure_result in E. simplify_eq. destruct a as [ck der].
    injection Hr as _ <-. by exists ck.
  - destruct (manual (tls cfg)) as [m|]; [|done]. intros Hr. do 3 run_ok Hr.
    unfold pure_result, read_named in *. simplify_eq. injection Hr as _ <-. eexists. split; [done|].
    intros _ _. exists m, a, a0. destruct (read (cert_file m)), (read (key_file m)); simplify_eq/=. eauto.
Qed.

(** A relay that runs is ready for its visitors.  When [etun serve] reaches its
    accept loop, the registry passed its integrity check, the license gate is on
    exactly when the configuration has a [polar] section, with that section's
    limits and a prune window that contains the honoring window, and one
    certificate is already installed and shown for the domain, the control host
    and every tunnel host, in every TLS mode; in manual mode it is the operator's. *)
Theorem started_relay_ready (io : ServeIo) (d : Disk) gate shown l :
  run_serve read read_text staging_url production_url false io d = Ok (Running gate shown l) ->
  exists cfg ck, s_load io = Ok cfg /\ s_integrity io = Ok "ok"%string /\
    gate = (fun po => PolarGate_new (policy_of po)) <$> polar cfg /\
    (forall p, gate = Some p -> staleness_secs p <= cap_prune_grace_secs p) /\
    shows_all (domain (server cfg)) ck (resolver l) /\ disk l = d /\
    (tls_mode (tls cfg) = Manual -> exists m c k,
       manual (tls cfg) = Some m /\ read (cert_file m) = Ok c /\ read (key_file m) = Ok k /\
       certified_key_from_pem c k = Ok ck).
Proof.
  unfold run_serve. destruct (s_load io) as [cfg|]; [|done]. cbn.
  destruct (s_open io); [|done]. cbn. unfold integrity_check.
  destruct (s_integrity io) as [row|]; [|done]. destruct (String.eqb_spec row "ok") as [->|]; [|done]. cbn.
  intros Hr.
  assert (Hg : exists g, g = (fun po => PolarGate_new (policy_of po)) <$> polar cfg /\
    match serve_tls read read_text staging_url production_url cfg None d with
    | (Err e, _) => Err (Listen e)
    | (Ok shown, l) => map_err Listen (s_bind io) ;; mret (Running g shown l)
    end = Ok (Running gate shown l)).
  { destruct (polar cfg) as [po|]; [|by eexists]. destruct (s_cache io); [|done]. by eexists. }
  clear Hr. destruct Hg as (g & Hg & Hr). unfold serve_tls in Hr.
  destruct (setup_tls _ _ _ _ _ _ _) as [[sh|] l'] eqn:E; [|done]. destruct (s_bind io); [|done].
  injection Hr as -> -> ->. apply setup_tls_installs in E as (ck & -> & Hm). exists cfg, ck.
  split_and!; try done; [|apply installed_shows_all|auto].
  intros p ->. destruct (polar cfg) as [po|]; [|done]. injection Hg as ->.
  unfold PolarGate_new. case_decide; cbn in *; lia.
Qed.
End Started.

(** *** Administration *)
Definition op_of (a : AdminAction) : option RegOp :=
  match a with
  | AUser (UserAdd nm) => Some (OpAddUser nm)
  | AUser UserLs => Some OpListUsers
  | AUser (UserRm nm force) => Some (OpRemoveUser nm force)
  | AToken (TokenCreate user label) => Some (OpCreateToken user label)
  | AToken (TokenLs user) => Some (OpListTokens user)
  | AToken (TokenRevoke id) => Some (OpRevoke id)
  | AHostname (HostnameAdd label user) => Some (OpAddHost label user)
  | AHostname (HostnameLs user) => Some (OpListHosts user)
  | AHostname (HostnameRm label) => Some (OpRemoveHost label)
  | APort (PortAdd port user) => Some (OpAddPort port user)
  | APort PortLs => Some OpListPorts
  | APort (PortRm port) => Some (OpRemovePort port)
  | ADoctor => None
  end.
Definition all_sound (dbs : Dbs) : Prop := map_Forall (fun _ c => idle tables_wf c) dbs.
Lemma db_at_sound (p : string) (dbs : Dbs) : all_sound dbs -> idle tables_wf (db_at p dbs).
Proof.
  intros Hs. unfold db_at. destruct (dbs !! p) as [c|] eqn:E; [by apply (Hs p)|]. split; [|done].
  apply no_tables_wf.
Qed.

Section Admin_props.
Context `{!Engine}.
Lemma bind_state {A B : Type} (m : st Conn RegistryError A) (f : A -> B) (c : Conn) :
  ((a ← m; mret (f a)) c).2 = (m c).2.
Proof using. unfold mbind, st_bind. by destruct (m c) as [[]]. Qed.
Lemma admin_dispatch_op (d : string) (a : AdminAction) (op : RegOp) (c : Conn) :
  op_of a = Some op -> (admin_dispatch d a c).2 = run_reg d op c.
Proof using.
  destruct a as [[]|[]|[]|[]|]; cbn [op_of]; intros [= <-]; cbn [admin_dispatch run_reg];
    first [apply bind_state | apply (bind_state _ (fun _ => _))].
Qed.
Lemma op_of_Some (a : AdminAction) : a = ADoctor \/ exists op, op_of a = Some op.
Proof using. destruct a as [[]|[]|[]|[]|]; eauto. Qed.

Context (load : string -> result string RelayConfig) (open : string -> string -> result RegistryError ()).
Context (doctor : RelayConfig -> bool) (config dbf domainf : option string).

(** A run of a registry action, up to the operation itself. *)
Lemma run_admin_cases (a : AdminAction) (op : RegOp) (dbs : Dbs) :
  op_of a = Some op ->
  run_admin load open doctor config dbf domainf a dbs =
  match admin_target load config dbf domainf with
  | Err e => (Err e, dbs)
  | Ok (p, d) =>
      match open p d with
      | Err e => (Err (OpenDb e), dbs)
      | Ok _ => (map_ok Printed (map_err RegError (admin_dispatch d a (db_at p dbs)).1),
                 <[p := run_reg d op (db_at p dbs)]> dbs)
      end
  end.
Proof using.
  intros Ho. assert (Hd : forall d c, (admin_dispatch d a c).2 = run_reg d op c)
    by (intros; by apply admin_dispatch_op).
  unfold run_admin. destruct a; try done;
    (destruct (admin_target _ _ _ _) as [[p d]|]; [|done]; destruct (open p d); [|done];
     specialize (Hd d (db_at p dbs)); destruct (admin_dispatch _ _ _) as [r c]; by rewrite <- Hd).
Qed.

(** An admin command is one registry operation on one database: either nothing
    changed (the doctor, a missing configuration, a database that does not open),
    or the database named by the flags, or else by the configuration, went through
    exactly the operation asked for and no other database was touched.  The tables
    of every database stay well formed, and when both flags are given the
    configuration does not matter. *)
Theorem admin_one_operation (a : AdminAction) (dbs dbs' : Dbs) r :
  run_admin load open doctor config dbf domainf a dbs = (r, dbs') ->
  ((dbs' = dbs /\ (a = ADoctor \/ exists e, r = Err e)) \/
   (exists p d op, admin_target load config dbf domainf = Ok (p, d) /\ op_of a = Some op /\
      dbs' = <[p := run_reg d op (db_at p dbs)]> dbs)) /\
  (all_sound dbs -> all_sound dbs') /\
  (forall p d, dbf = Some p -> domainf = Some d -> admin_target load config dbf domainf = Ok (p, d)).
Proof using.
  intros Hr. split_and!; [..|by intros p d -> ->].
  - destruct (op_of_Some a) as [->|[op Ho]].
    { left. split; [|by left]. unfold run_admin in Hr.
      destruct config as [path|]; [destruct (load path)|]; by simplify_eq. }
    rewrite (run_admin_cases a op dbs Ho) in Hr.
    destruct (admin_target load config dbf domainf) as [[p d]|] eqn:Et; [|simplify_eq; eauto].
    destruct (open p d); simplify_eq; [|left; eauto]. right. by exists p, d, op.
  - intros Hs. destruct (op_of_Some a) as [->|[op Ho]].
    { unfold run_admin in Hr. destruct config as [path|]; [destruct (load path)|]; by simplify_eq. }
    rewrite (run_admin_cases a op dbs Ho) in Hr.
    destruct (admin_target _ _ _ _) as [[p d]|]; [destruct (open p d)|]; simplify_eq; try done.
    apply map_Forall_insert_2; [|done]. apply run_reg_wf, db_at_sound, Hs.
Qed.

(** A created token works and disturbs no other: when [admin token create]
    prints a token, that token authenticates as the named user in the database it
    was created in, and the validity of every other token there is unchanged. *)
Theorem admin_token_works (user : string) (label : option string) (dbs dbs' : Dbs) lines :
  all_sound dbs ->
  run_admin load open doctor config dbf domainf (AToken (TokenCreate user label)) dbs =
    (Ok (Printed lines), dbs') ->
  exists p d c tok uid, admin_target load config dbf domainf = Ok (p, d) /\ dbs' !! p = Some c /\
    lines = [token_line user tok] /\ user_by_name user (db c) = Some uid /\
    (engine_fails (tick c) = false -> (reg_authenticate tok c).1 = Some (mkAuthedUser uid user)) /\
    (forall hash u nm, hash <> sha256 tok ->
       valid_token (db c) hash u nm <-> valid_token (db (db_at p dbs)) hash u nm).
Proof using.
  intros Hs Hr. rewrite (run_admin_cases _ (OpCreateToken user label)) in Hr by done.
  destruct (admin_target _ _ _ _) as [[p d]|]; [|done]. destruct (open p d); [|done].
  pose proof (db_at_sound p dbs Hs) as Hc. pose proof (run_reg_wf d (OpCreateToken user label) _ Hc) as Hw.
  cbn [run_reg admin_dispatch] in Hr, Hw. set (c0 := db_at p dbs) in *.
  destruct (create_token user label c0) as [[tok|e] c] eqn:E;
    unfold mbind, st_bind in Hr; rewrite E in Hr; [|done]. cbn in Hr, Hw.
  injection Hr as <- <-. destruct (create_token_run user label c0 c tok Hc E) as (uid & Hu & Hv & Ho).
  exists p, d, c, tok, uid. split_and!; try done; [apply lookup_insert_eq|].
  intros Hf. apply authenticate_complete; [apply Hw|done..].
Qed.
End Admin_props.

(** *** Witnesses *)
Local Instance serve_certs : CertLib := {|
  pem_items b := match b with [] => [] | _ => [Ok b] end;
  pem_key b := match b with [] => Err "no key"%string | _ => Ok b end;
  supported _ := Ok ();
  leaf_not_after _ := Ok (100 * 86400);
  rcgen _ := Ok ([Byte.x0a], [Byte.x0b]);
|}.
Definition demo_read (p : string) : result string (list byte) :=
  if String.eqb p "c.pem" then Ok [Byte.x01] else if String.eqb p "k.pem" then Ok [Byte.x02]
  else Err "not found"%string.
Definition manual_relay : RelayConfig :=
  mkRelayConfig (mkConfig "r.dev" "EtherTunnel relay" default_limits)
    (mkTlsConfig Manual "/tls" None (Some (mkManual "c.pem" "k.pem"))) "/r.db" default_tcp
    (Some (default_polar "org")).
Definition manual_io : ServeIo := mkServeIo (Ok manual_relay) (Ok ()) (Ok "ok"%string) (Ok ()) (Ok ()).
Lemma started_relay_ready_witness :
  exists ck, shows_all "r.dev" ck (install (mkCertifiedKey [[Byte.x01]] [Byte.x02]) (SniResolver_new "r.dev")).
Proof.
  destruct (@started_relay_ready serve_certs demo_read (fun _ => Err EmptyString) "s" "p" manual_io (mkDisk (∅ : Files) [])
    (Some (PolarGate_new (policy_of (default_polar "org")))) (Some [Byte.x01])
    (mkLive (mkDisk (∅ : Files) []) (install (mkCertifiedKey [[Byte.x01]] [Byte.x02]) (SniResolver_new "r.dev")))
    ltac:(vm_compute; reflexivity)) as (cfg & ck & Hl & _ & _ & _ & Hs & _).
  exists ck. injection Hl as <-. exact Hs.
Defined.

Definition admin_dbs : Dbs := {[ "/r.db" := mkConn one_token None 0 ]}.
Definition demo_admin (a : AdminAction) : result AdminError AdminEnd * Dbs :=
  @run_admin (demo_engine []) (fun _ => Err "none"%string) (fun _ _ => Ok ()) (fun _ => true)
    None (Some "/r.db") (Some "r.dev") a admin_dbs.
Lemma admin_dbs_sound : all_sound admin_dbs.
Proof. apply map_Forall_singleton. split; [apply one_token_wf|done]. Qed.
Lemma admin_one_operation_witness :
  all_sound (demo_admin (AHostname (HostnameAdd "blog" "mat"))).2 /\
  (demo_admin (AHostname (HostnameAdd "blog" "mat"))).1 =
    Ok (Printed ["granted blog.r.dev to mat"]).
Proof.
  split; [|vm_compute; reflexivity].
  destruct (@admin_one_operation (demo_engine []) (fun _ => Err "none"%string) (fun _ _ => Ok ())
    (fun _ => true) None (Some "/r.db") (Some "r.dev") (AHostname (HostnameAdd "blog" "mat")) admin_dbs
    (demo_admin (AHostname (HostnameAdd "blog" "mat"))).2
    (demo_admin (AHostname (HostnameAdd "blog" "mat"))).1 (surjective_pairing _)) as (_ & Hs & _).
  apply Hs, admin_dbs_sound.
Defined.
Lemma admin_token_works_witness :
  exists p c tok uid, (demo_admin (AToken (TokenCreate "mat" None))).2 !! p = Some c /\
    (@reg_authenticate (demo_engine []) tok c).1 = Some (mkAuthedUser uid "mat").
Proof.
  destruct (@admin_token_works (demo_engine []) (fun _ => Err "none"%string) (fun _ _ => Ok ())
    (fun _ => true) None (Some "/r.db") (Some "r.dev") "mat" None admin_dbs
    (demo_admin (AToken (TokenCreate "mat" None))).2
    [token_line "mat" (("etun_" +:+ @base64url (demo_engine []) (@os_rng (demo_engine []) 1)))]
    admin_dbs_sound ltac:(vm_compute; reflexivity)) as (p & d & c & tok & uid & _ & Hl & _ & _ & Ha & _).
  exists p, c, tok, uid. split; [exact Hl|]. apply Ha. reflexivity.
Defined.
