(* ===== verification/Settings.v ===== *)
(** * Reading the relay's configuration (crates/relay/src/config.rs)

    [Config::load]: the file's text, parsed as TOML by the library, is decoded
    field by field as the derived [Deserialize] does: a field that is absent takes
    its declared default or, without one, is an error; a field that is there must
    have its type and fit its width; a field nobody declares is skipped. *)
From S2P Require Import Prelude Edge Serve.
Local Open Scope Z_scope.
Local Set Warnings "-register-all".

(** A parsed TOML document; its keys are distinct and its integers 64-bit. *)
Inductive Toml :=
  | TStr (s : string)
  | TInt (n : Z)
  | TBool (b : bool)
  | TArr (l : list Toml)
  | TTable (fields : list (string * Toml)).
Abbreviation table := (list (string * Toml)).
Fixpoint toml_get (k : string) (t : table) : option Toml :=
  match t with
  | [] => None
  | (k', v) :: rest => if decide (k = k') then Some v else toml_get k rest
  end.

Inductive DecodeError := MissingField (k : string) | WrongType | OutOfRange (n : Z).
Abbreviation dec := (result DecodeError).
Definition required {A : Type} (k : string) (decode : Toml -> dec A) (t : table) : dec A :=
  match toml_get k t with Some v => decode v | None => Err (MissingField k) end.
(** [#[serde(default = ..)]], and an [Option] field. *)
Definition defaulted {A : Type} (k : string) (decode : Toml -> dec A) (d : A) (t : table) : dec A :=
  match toml_get k t with Some v => decode v | None => Ok d end.
Definition optional {A : Type} (k : string) (decode : Toml -> dec A) (t : table) : dec (option A) :=
  defaulted k (fun v => map_ok Some (decode v)) None t.

(** ** Primitive types *)
Definition string_of (v : Toml) : dec string := match v with TStr s => Ok s | _ => Err WrongType end.
Definition bool_of (v : Toml) : dec bool := match v with TBool b => Ok b | _ => Err WrongType end.
Definition int_of (lo hi : Z) (v : Toml) : dec Z :=
  match v with
  | TInt n => if (lo <=? n) && (n <=? hi) then Ok n else Err (OutOfRange n)
  | _ => Err WrongType
  end.
Definition u16_of : Toml -> dec Z := int_of 0 65535.
Definition u32_of : Toml -> dec Z := int_of 0 u32_max.
Definition u64_of : Toml -> dec Z := int_of 0 u64_max.
Definition i64_of : Toml -> dec Z := int_of i64_min i64_max.
Definition table_of (v : Toml) : dec table := match v with TTable t => Ok t | _ => Err WrongType end.
(** A section. *)
Definition section {A : Type} (decode : table -> dec A) (v : Toml) : dec A := t ← table_of v; decode t.
Definition pair_of (v : Toml) : dec (Z * Z) :=
  match v with
  | TArr [a; b] => x ← u16_of a; y ← u16_of b; Ok (x, y)
  | _ => Err WrongType
  end.
Fixpoint int_map (t : table) : dec (gmap string Z) :=
  match t with
  | [] => Ok ∅
  | (k, v) :: rest => n ← i64_of v; m ← int_map rest; Ok (<[k := n]> m)
  end.

(** ** The sections *)
(** [LimitsConfig] in full: what the edge uses and the two timers. *)
Record Limits := mkFullLimits {
  l_edge : LimitsConfig;
  header_read_timeout_secs : Z;
  token_revalidate_interval_secs : Z;
}.
Definition Limits_default : Limits := mkFullLimits default_limits 10 60.
Definition decode_limits (t : table) : dec Limits :=
  mc ← defaulted "max_connections" u64_of 4096 t;
  mci ← defaulted "max_connections_per_ip" u32_of 64 t;
  hr ← defaulted "header_read_timeout_secs" u64_of 10 t;
  ms ← defaulted "max_sessions" u64_of 4096 t;
  msi ← defaulted "max_sessions_per_ip" u32_of 64 t;
  idle ← defaulted "proxy_idle_timeout_secs" u64_of 1800 t;
  abs ← defaulted "proxy_absolute_max_secs" u64_of 0 t;
  tr ← defaulted "token_revalidate_interval_secs" u64_of 60 t;
  rate ← defaulted "accept_rate_per_sec" u32_of 20 t;
  burst ← defaulted "accept_burst" u32_of 40 t;
  Ok (mkFullLimits (mkLimits mc mci ms msi idle abs rate burst) hr tr).

Definition decode_polar (t : table) : dec PolarConfig :=
  org ← required "organization_id" string_of t;
  api ← defaulted "api_base" string_of "https://api.polar.sh"%string t;
  ttl ← defaulted "cache_ttl_secs" i64_of 300 t;
  stale ← defaulted "staleness_secs" i64_of 259200 t;
  grace ← defaulted "cap_prune_grace_secs" i64_of 2592000 t;
  act ← defaulted "activate_on_claim" bool_of true t;
  ben ← defaulted "benefits" (section int_map) ∅ t;
  rate ← defaulted "max_validate_per_sec" u32_of 10 t;
  burst ← defaulted "validate_burst" u32_of 30 t;
  Ok (mkPolarConfig org api ttl stale grace act ben rate burst).

Definition decode_tcp (t : table) : dec TcpConfig :=
  r ← defaulted "port_range" pair_of (20000, 20999) t; Ok (mkTcpConfig r).
Definition decode_registry (t : table) : dec string := defaulted "db_path" string_of default_db_path t.

Definition mode_of (v : Toml) : dec TlsMode :=
  s ← string_of v;
  if String.eqb s "acme" then Ok Acme
  else if String.eqb s "self_signed" then Ok SelfSigned
  else if String.eqb s "manual" then Ok Manual
  else Err WrongType.
Definition decode_cloudflare (t : table) : dec CloudflareConfig :=
  z ← required "zone_id" string_of t; f ← required "api_token_file" string_of t; Ok (mkCloudflare z f).
Definition decode_acme (t : table) : dec AcmeConfig :=
  e ← required "email" string_of t;
  s ← defaulted "staging" bool_of false t;
  c ← required "cloudflare" (section decode_cloudflare) t;
  Ok (mkAcmeConfig e s c).
Definition decode_manual (t : table) : dec ManualConfig :=
  c ← required "cert_file" string_of t; k ← required "key_file" string_of t; Ok (mkManual c k).
Definition decode_tls (t : table) : dec TlsConfig :=
  m ← defaulted "mode" mode_of SelfSigned t;
  d ← defaulted "state_dir" string_of "/var/lib/ethertunnel/tls"%string t;
  a ← optional "acme" (section decode_acme) t;
  mn ← optional "manual" (section decode_manual) t;
  Ok (mkTlsConfig m d a mn).

Section load.
(** [SocketAddr]'s parser. *)
Context (parse_addr : string -> option string).
Definition addr_of (v : Toml) : dec string :=
  s ← string_of v; match parse_addr s with Some a => Ok a | None => Err WrongType end.
Record Server := mkServer { s_domain : string; s_listen : string; s_apex_response : string }.
Definition default_listen : string := "0.0.0.0:443".
Definition default_apex_response : string := "EtherTunnel relay".
Definition decode_server (t : table) : dec Server :=
  d ← required "domain" string_of t;
  l ← defaulted "listen" addr_of default_listen t;
  a ← defaulted "apex_response" string_of default_apex_response t;
  Ok (mkServer d l a).

(** [Config]: what the relay runs on, the listen address and the two timers. *)
Record Settings := mkSettings {
  relay_config : RelayConfig;
  listen : string;
  header_timeout : Z;
  revalidate_secs : Z;
}.
Definition decode_config (t : table) : dec Settings :=
  srv ← required "server" (section decode_server) t;
  tls ← defaulted "tls" (section decode_tls) default_tls t;
  db ← defaulted "registry" (section decode_registry) default_db_path t;
  tcp ← defaulted "tcp" (section decode_tcp) default_tcp t;
  pol ← optional "polar" (section decode_polar) t;
  lim ← defaulted "limits" (section decode_limits) Limits_default t;
  Ok (mkSettings
        (mkRelayConfig (mkConfig (s_domain srv) (s_apex_response srv) (l_edge lim)) tls db tcp pol)
        (s_listen srv) (header_read_timeout_secs lim) (token_revalidate_interval_secs lim)).

Inductive LoadError := Reading (path e : string) | Parsing (e : string + DecodeError).
(** [Config::load]; [read], [toml]: the file's text and the library's parser. *)
Definition Config_load (read : string -> result string string) (toml : string -> result string table)
    (path : string) : result LoadError Settings :=
  match read path with
  | Err e => Err (Reading path e)
  | Ok text =>
      match toml text with
      | Err e => Err (Parsing (inl e))
      | Ok t => map_err (fun e => Parsing (inr e)) (decode_config t)
      end
  end.
End load.

(** ** What loading promises *)

Lemma bind_Ok {E A B : Type} (r : result E A) (f : A -> result E B) (b : B) :
  (r ≫= f) = Ok b -> exists a, r = Ok a /\ f a = Ok b.
Proof. destruct r; [|done]. intros H. by eexists. Qed.
(** The value of an integer field: what the file says, in range, or the default. *)
Definition int_field (k : string) (hi d n : Z) (t : table) : Prop :=
  match toml_get k t with
  | Some v => v = TInt n /\ 0 <= n <= hi
  | None => n = d
  end.
Lemma int_field_of (k : string) (hi d n : Z) (t : table) :
  defaulted k (int_of 0 hi) d t = Ok n -> int_field k hi d n t.
Proof.
  unfold defaulted, int_field. destruct (toml_get k t) as [[s|m|b|l|f]|]; try done; cbn.
  - destruct (0 <=? m) eqn:E1; [|done]. destruct (m <=? hi) eqn:E2; [|done]. cbn. intros [= ->].
    split; [done|]. lia.
  - by intros [= ->].
Qed.

(** The limits that load are those of the file.  When the [limits] section
    decodes, every limit is the number the file gives for it, and fits the width
    it is declared with, or is its default when the file does not give it. *)
Theorem limits_exact (t : table) (l : Limits) :
  decode_limits t = Ok l ->
  let e := l_edge l in
  int_field "max_connections" u64_max 4096 (max_connections e) t /\
  int_field "max_connections_per_ip" u32_max 64 (max_connections_per_ip e) t /\
  int_field "header_read_timeout_secs" u64_max 10 (header_read_timeout_secs l) t /\
  int_field "max_sessions" u64_max 4096 (max_sessions e) t /\
  int_field "max_sessions_per_ip" u32_max 64 (max_sessions_per_ip e) t /\
  int_field "proxy_idle_timeout_secs" u64_max 1800 (proxy_idle_timeout_secs e) t /\
  int_field "proxy_absolute_max_secs" u64_max 0 (proxy_absolute_max_secs e) t /\
  int_field "token_revalidate_interval_secs" u64_max 60 (token_revalidate_interval_secs l) t /\
  int_field "accept_rate_per_sec" u32_max 20 (accept_rate_per_sec e) t /\
  int_field "accept_burst" u32_max 40 (accept_burst e) t.
Proof.
  unfold decode_limits. intros H. repeat (apply bind_Ok in H as (? & ?%int_field_of & H)).
  injection H as <-. by split_and!.
Qed.

Definition top_keys : list string := ["server"; "tls"; "registry"; "tcp"; "polar"; "limits"]%string.
Lemma toml_get_skip (k k' : string) (v : Toml) (l1 l2 : table) :
  k <> k' -> toml_get k (l1 ++ (k', v) :: l2) = toml_get k (l1 ++ l2).
Proof.
  intros Hk. induction l1 as [|[k1 v1] l1 IH]; cbn; [by rewrite decide_False|]. by rewrite IH.
Qed.
(** Old configurations keep loading: a section nobody declares any more is
    skipped, wherever it stands and whatever it holds, and a file that says
    nothing but its domain loads as the default relay. *)
Theorem old_configs_load (parse_addr : string -> option string) (k d : string) (v : Toml) (l1 l2 : table) :
  (k ∉ top_keys -> decode_config parse_addr (l1 ++ (k, v) :: l2) = decode_config parse_addr (l1 ++ l2)) /\
  decode_config parse_addr [("server"%string, TTable [("domain"%string, TStr d)])]
  = Ok (mkSettings (default_relay d) default_listen 10 60).
Proof.
  split; [|reflexivity]. intros Hk. unfold top_keys in Hk. rewrite !not_elem_of_cons in Hk.
  destruct Hk as (H1 & H2 & H3 & H4 & H5 & H6 & _).
  unfold decode_config, required, optional, defaulted. by rewrite !toml_get_skip by done.
Qed.
