(* ===== verification/RelayDoctor.v ===== *)
(** * The relay's doctor (crates/relay/src/doctor.rs)

    The pre-flight diagnostics of a relay: the checks it makes and its verdict,
    and how the verdict relates to what a start would do.  What DNS, the files,
    the clock and the zone answer are inputs. *)
From stdpp Require Import pretty.
From S2P Require Import Prelude Registry Edge Fs Certs Serve.
Local Open Scope Z_scope.

Inductive Level := LPass | LWarn | LFail.
#[export] Instance Level_eq_dec : EqDecision Level.
Proof. solve_decision. Defined.
Record Check := mkCheck { level : Level; label : string; detail : string }.
Definition pass (l d : string) : Check := mkCheck LPass l d.
Definition warn (l d : string) : Check := mkCheck LWarn l d.
Definition fail (l d : string) : Check := mkCheck LFail l d.
Definition is_fail (c : Check) : bool := bool_decide (level c = LFail).

(** What the outside answers: the registry and its integrity row, the addresses of
    a host, the bytes and the text of a file, the clock in Unix seconds, and what
    Cloudflare does with the probe record. *)
Record Outside := mkOutside {
  o_open : result RegistryError ();
  o_integrity : result SqlError string;
  o_lookup : string -> result string (list string);
  o_read : string -> result string (list byte);
  o_text : string -> result string string;
  o_now : Z;
  o_create : CreateAnswer;
  o_delete : bool;
}.

Definition dns_check (out : Outside) (l host : string) : Check :=
  match o_lookup out host with
  | Ok (a :: _) => pass l (host +:+ " -> " +:+ a)
  | Ok [] => fail l (host +:+ " resolved to no addresses")
  | Err e => fail l (host +:+ ": " +:+ e)
  end.

Section Tls.
Context `{CertLib}.
Definition expiry_detail (now : Z) (l : string) (pem : list byte) : Check :=
  match cert_not_after pem with
  | Ok exp =>
      let days := remaining exp now / 86400 in
      if days =? 0 then fail l "certificate has expired"
      else pass l ("valid, ~" +:+ pretty days +:+ " days remaining")
  | Err e => fail l ("unreadable certificate: " +:+ e)
  end.
(** [d]: the state directory. *)
Definition tls_check (out : Outside) (cfg : RelayConfig) (d : Disk) : Check :=
  match tls_mode (tls cfg) with
  | SelfSigned => pass "tls" "self-signed (development only)"
  | Manual =>
      match manual (tls cfg) with
      | None => fail "tls" "tls.mode=manual but [tls.manual] missing"
      | Some m =>
          match o_read out (cert_file m) with
          | Ok pem => expiry_detail (o_now out) "tls (manual)" pem
          | Err e => fail "tls (manual)" (cert_file m +:+ ": " +:+ e)
          end
      end
  | Acme =>
      match files d !! cert_path with
      | Some f => expiry_detail (o_now out) "tls (acme)" (content f)
      | None => pass "tls (acme)" "no cached cert yet; will issue on first boot"
      end
  end.

(** [Cloudflare::verify_dns_edit]: create and delete a throwaway record. *)
Definition verify_dns_edit (apex : string) (out : Outside) (z : Zone) : result string () * Zone :=
  match create_txt ("_etun-probe." +:+ apex) "etun-doctor-probe" (o_create out) z with
  | (Err e, z1) => (Err ("creating probe TXT (token needs Zone:DNS:Edit): " +:+ e), z1)
  | (Ok r, z1) =>
      match delete_record (id r) (o_delete out) z1 with
      | (Err e, z2) => (Err ("deleting probe TXT: " +:+ e), z2)
      | (Ok _, z2) => (Ok (), z2)
      end
  end.

Section Run.
(** [Display] of registry errors. *)
Context (show_reg : RegistryError -> string).
Definition registry_check (out : Outside) (cfg : RelayConfig) : Check :=
  match o_open out with
  | Err e => fail "registry" ("cannot open " +:+ db_path cfg +:+ ": " +:+ show_reg e)
  | Ok _ =>
      match integrity_check (o_integrity out) with
      | Ok _ => pass "registry" (db_path cfg +:+ " integrity ok")
      | Err e => fail "registry" ("integrity check failed: " +:+ show_reg e)
      end
  end.
Definition acme_checks (out : Outside) (cfg : RelayConfig) (z : Zone) : list Check * Zone :=
  match tls_mode (tls cfg) with
  | Acme =>
      match acme (tls cfg) with
      | None => ([fail "acme config" "tls.mode=acme but [tls.acme] missing"], z)
      | Some a =>
          match cloudflare_token (o_text out) (cloudflare a) with
          | Err e => ([fail "acme token" e], z)
          | Ok _ =>
              let read := pass "acme token" ("read " +:+ api_token_file (cloudflare a)) in
              match verify_dns_edit (domain (server cfg)) out z with
              | (Ok _, z') => ([read; pass "cloudflare" "Zone:DNS:Edit confirmed (probe TXT)"], z')
              | (Err e, z') => ([read; fail "cloudflare" e], z')
              end
          end
      end
  | _ => ([], z)
  end.
Definition checks (out : Outside) (cfg : RelayConfig) (d : Disk) (z : Zone) : list Check * Zone :=
  let apex := domain (server cfg) in
  let '(lo, hi) := tcp_port_range (tcp cfg) in
  let '(ac, z') := acme_checks out cfg z in
  ([pass "config" ("domain = " +:+ apex); registry_check out cfg;
    dns_check out "dns apex" apex; dns_check out "dns connect" (connect_host apex);
    dns_check out "dns wildcard" ("etun-doctor-check." +:+ apex);
    tls_check out cfg d;
    warn "raw-tcp firewall" ("raw-TCP tunnels need ports " +:+ pretty (lo : Z) +:+ "-" +:+ pretty (hi : Z) +:+
      "/tcp open INBOUND on the host firewall + cloud security group (HTTPS tunnels need only :443); this cannot be verified externally — see DEPLOY.md")]
   ++ ac, z').
(** [run]: the checks it prints, the verdict, and the zone it leaves. *)
Definition run (out : Outside) (cfg : RelayConfig) (d : Disk) (z : Zone) : list Check * bool * Zone :=
  let '(cs, z') := checks out cfg d z in
  (cs, bool_decide (length (filter (fun c => is_fail c = true) cs) = 0%nat), z').
End Run.
End Tls.

(** ** Theorems *)
Section Verdict.
Context `{CertLib} (show_reg : RegistryError -> string).

Definition resolves (out : Outside) (host : string) : Prop :=
  exists a rest, o_lookup out host = Ok (a :: rest).
(** A certificate with at least a day left. *)
Definition lasting (now : Z) (pem : list byte) : Prop :=
  exists exp, cert_not_after pem = Ok exp /\ now + 86400 <= exp.
Definition tls_ready (out : Outside) (cfg : RelayConfig) (d : Disk) : Prop :=
  match tls_mode (tls cfg) with
  | SelfSigned => True
  | Manual => exists m pem, manual (tls cfg) = Some m /\ o_read out (cert_file m) = Ok pem /\
                            lasting (o_now out) pem
  | Acme => forall f, files d !! cert_path = Some f -> lasting (o_now out) (content f)
  end.
Definition acme_ready (out : Outside) (cfg : RelayConfig) : Prop :=
  tls_mode (tls cfg) = Acme -> exists a text rid, acme (tls cfg) = Some a /\
    o_text out (api_token_file (cloudflare a)) = Ok text /\ o_create out = Created rid /\ o_delete out = true.

Definition passing (cs : list Check) : Prop := Forall (fun c => is_fail c = false) cs.
Lemma expiry_passes (now : Z) (l : string) (pem : list byte) :
  is_fail (expiry_detail now l pem) = false <-> lasting now pem.
Proof using.
  unfold expiry_detail, lasting, remaining. destruct (cert_not_after pem) as [exp|err].
  - destruct (Z.eqb_spec (Z.max 0 (exp - now) / 86400) 0) as [E|E]; cbn.
    + split; [done|]. intros (x & [= <-] & Hx). exfalso.
      apply Z.div_small_iff in E; lia.
    + split; [|done]. intros _. exists exp. split; [done|].
      destruct (decide (now + 86400 <= exp)); [done|]. destruct E. apply Z.div_small. lia.
  - split; [done|]. by intros (x & Hx & _).
Qed.
Lemma tls_passes (out : Outside) (cfg : RelayConfig) (d : Disk) :
  is_fail (tls_check out cfg d) = false <-> tls_ready out cfg d.
Proof using.
  unfold tls_check, tls_ready. destruct (tls_mode (tls cfg)).
  - destruct (files d !! cert_path) as [f|].
    + rewrite expiry_passes. split; [by intros Hl f' [= <-]|auto].
    + split; [done|]. done.
  - done.
  - destruct (manual (tls cfg)) as [m|]; [|by split; [|intros (? & ? & ? & _)]].
    destruct (o_read out (cert_file m)) as [pem|err] eqn:E.
    + rewrite expiry_passes. split; [eauto|]. intros (m' & pem' & [= <-] & Hr & Hl). congruence.
    + split; [done|]. intros (m' & pem' & [= <-] & Hr & _). congruence.
Qed.
Lemma dns_passes (out : Outside) (l host : string) :
  is_fail (dns_check out l host) = false <-> resolves out host.
Proof using.
  unfold dns_check, resolves. destruct (o_lookup out host) as [[|a rest]|]; cbn;
    (split; [try done; eauto|try done; by intros (? & ? & ?)]).
Qed.
Lemma registry_passes (out : Outside) (cfg : RelayConfig) :
  is_fail (registry_check show_reg out cfg) = false <->
  o_open out = Ok () /\ o_integrity out = Ok "ok"%string.
Proof using.
  unfold registry_check, integrity_check. destruct (o_open out) as [[]|]; [|by split; [|intros []]].
  destruct (o_integrity out) as [row|]; [|by split; [|intros []]].
  destruct (String.eqb_spec row "ok") as [->|Hne]; cbn; [by split|].
  split; [done|]. intros [_ [= ->]]. done.
Qed.
Lemma acme_zone (out : Outside) (cfg : RelayConfig) (z : Zone) :
  acme_ready out cfg -> (forall rid, o_create out = Created rid -> z !! rid = None) ->
  (acme_checks out cfg z).2 = z.
Proof using.
  unfold acme_ready, acme_checks, verify_dns_edit, create_txt, delete_record. intros Hr Hf.
  destruct (tls_mode (tls cfg)); try done.
  destruct (Hr eq_refl) as (a & text & rid & -> & Ht & Hc & ->). unfold cloudflare_token. rewrite Ht, Hc. cbn.
  apply delete_insert_id. by apply Hf.
Qed.
Lemma acme_passes (out : Outside) (cfg : RelayConfig) (z : Zone) :
  passing (acme_checks out cfg z).1 <-> acme_ready out cfg.
Proof using.
  unfold acme_checks, acme_ready, passing. destruct (tls_mode (tls cfg)); try by split.
  destruct (acme (tls cfg)) as [a|];
    [|cbn [fst]; rewrite Forall_cons; split; [by intros []|intros Hr; by destruct (Hr eq_refl) as (? & ? & ? & ? & _)]].
  unfold cloudflare_token. destruct (o_text out (api_token_file (cloudflare a))) as [text|err] eqn:Et.
  2: { cbn [fst]. rewrite Forall_cons. split; [by intros []|intros Hr].
       destruct (Hr eq_refl) as (? & ? & ? & [= <-] & ? & _). congruence. }
  unfold verify_dns_edit, create_txt, delete_record.
  destruct (o_create out) as [rid|[rid|]] eqn:Ec; [destruct (o_delete out) eqn:Ed|..];
    cbn; rewrite !Forall_cons; cbn;
    (split; [intros (_ & ? & _)|intros Hr; destruct (Hr eq_refl) as (? & ? & ? & _ & _ & ? & ?)]; try done).
  intros _. by exists a, text, rid.
Qed.

Definition all_ready (out : Outside) (cfg : RelayConfig) (d : Disk) : Prop :=
  let apex := domain (server cfg) in
  (o_open out = Ok () /\ o_integrity out = Ok "ok"%string) /\
  resolves out apex /\ resolves out (connect_host apex) /\
  resolves out ("etun-doctor-check." +:+ apex) /\ tls_ready out cfg d /\ acme_ready out cfg.
Lemma run_verdict (out : Outside) (cfg : RelayConfig) (d : Disk) (z : Zone) :
  (run show_reg out cfg d z).1.2 = true <-> all_ready out cfg d.
Proof using.
  unfold run, checks, all_ready. destruct (tcp_port_range (tcp cfg)) as [lo hi].
  pose proof (acme_passes out cfg z) as Ha. destruct (acme_checks out cfg z) as [ac z']. cbn [fst snd] in *.
  rewrite bool_decide_eq_true, count_none. unfold passing in *. cbn [negb].
  rewrite !Forall_app, !Forall_cons, <- registry_passes, <- !dns_passes, <- tls_passes, Ha.
  split; [intros ((_ & ? & ? & ? & ? & ? & _ & _) & ?); by split_and!|].
  intros (? & ? & ? & ? & ? & ?). split_and!; try done.
Qed.

(** The relay's doctor passes exactly when the registry opens and is intact,
    the apex, the control host and the wildcard resolve, the certificate file its
    TLS mode would read (if there is one to read) has at least a day left, and, in
    ACME mode, the token can be read and the probe record was made and removed.
    A passing doctor leaves the zone as it was. *)
Theorem doctor_exact (out : Outside) (cfg : RelayConfig) (d : Disk) (z : Zone) :
  let verdict := (run show_reg out cfg d z).1.2 in
  (verdict = true <-> all_ready out cfg d) /\
  (verdict = true -> (forall rid, o_create out = Created rid -> z !! rid = None) ->
     (run show_reg out cfg d z).2 = z).
Proof using.
  cbn zeta. split; [apply run_verdict|]. rewrite run_verdict. intros (_ & _ & _ & _ & _ & Hr) Hf.
  pose proof (acme_zone out cfg z Hr Hf) as Hz. unfold run, checks.
  destruct (tcp_port_range (tcp cfg)). by destruct (acme_checks out cfg z).
Qed.

(** The doctor does not look at the private key: in manual mode it can pass for
    a relay that does not start, because it reads only the certificate file while
    the listener needs the key file as well. *)
Theorem doctor_blind_to_key (out : Outside) (cfg : RelayConfig) (d : Disk) (z : Zone)
    (m : ManualConfig) (e staging_url production_url : string) :
  (run show_reg out cfg d z).1.2 = true ->
  tls_mode (tls cfg) = Manual -> manual (tls cfg) = Some m -> o_read out (key_file m) = Err e ->
  run_serve (o_read out) (o_text out) staging_url production_url false
    (mkServeIo (Ok cfg) (o_open out) (o_integrity out) (Ok ()) (Ok ())) d =
  Err (Listen ("reading " +:+ key_file m +:+ ": " +:+ e)).
Proof using.
  rewrite run_verdict. intros ([Ho Hi] & _ & _ & _ & Ht & _) Hm Hs Hk. unfold tls_ready in Ht.
  rewrite Hm in Ht. destruct Ht as (m' & pem & Hs' & Hc & _). rewrite Hs in Hs'. injection Hs' as <-.
  unfold run_serve, serve_tls, setup_tls, read_named, pure_result, mbind, result_bind, st_bind. cbn.
  rewrite Ho, Hi, Hm, Hs, Hc, Hk. cbn. by destruct (polar cfg).
Qed.
End Verdict.

Definition keyless : Outside :=
  mkOutside (Ok ()) (Ok "ok"%string) (fun _ => Ok ["203.0.113.7"%string])
    (fun p => if String.eqb p "c.pem" then Ok [Byte.x01] else Err "not found"%string)
    (fun _ => Err "not found"%string) 86400 (CreateFailed None) false.
Lemma doctor_blind_to_key_witness :
  @run_serve serve_certs (o_read keyless) (o_text keyless) "s" "p" false
    (mkServeIo (Ok manual_relay) (Ok ()) (Ok "ok"%string) (Ok ()) (Ok ())) (mkDisk (∅ : Files) []) =
  Err (Listen "reading k.pem: not found").
Proof.
  apply (@doctor_blind_to_key serve_certs (fun _ => EmptyString) keyless manual_relay (mkDisk (∅ : Files) [])
    (∅ : Zone) (mkManual "c.pem" "k.pem") "not found" "s" "p");
    vm_compute; reflexivity.
Defined.
