(* ===== verification/ClientDaemon.v ===== *)
(** * The client daemon (crates/client/src/supervisor.rs, proxy.rs)

    [run_supervisor] keeps one connection to the relay alive: [connect_once]
    connects, authenticates, claims the configured names and heartbeats until
    the connection ends; the supervisor then waits and tries again.  Streams the
    relay opens are forwarded to local services ([handle_inbound]).

    What the network, the runtime and the operating system answer is an input
    ([ConnIo], [SteadyEvent], [Attempt]); an await that has not completed is
    [Pending].  Times are milliseconds. *)
From stdpp Require Import pretty.
From S2P Require Import Prelude Limits Frames Codec.
Local Open Scope Z_scope.

Record HttpTunnel := mkHttpTunnel { hostname : string; local_host : string; local_port : Z }.
Record TcpTunnel := mkTcpTunnel { public_port : Z; tcp_local_host : string; tcp_local_port : Z }.
Record SocketAddr := mkSocketAddr { sa_ip : IpAddr; sa_port : Z }.
Inductive TrustMode := System | CustomRoot (der : list byte).

Record ClientConfig := mkClientConfig {
  relay_host : string;
  relay_addr : option SocketAddr;
  token : string;
  http_tunnels : list HttpTunnel;
  tcp_tunnels : list TcpTunnel;
  trust : TrustMode;
}.

Definition connect_host (cfg : ClientConfig) : string := "connect." +:+ relay_host cfg.
Definition claim_hostnames (cfg : ClientConfig) : list string := hostname <$> http_tunnels cfg.
Definition claim_ports (cfg : ClientConfig) : list Z := public_port <$> tcp_tunnels cfg.

(** ** Forwarding tables *)
Record LocalTarget := mkLocalTarget { lt_host : string; lt_port : Z }.
#[export] Instance LocalTarget_eq_dec : EqDecision LocalTarget.
Proof. solve_decision. Defined.
Record RouteTable := mkRouteTable { http : gmap string LocalTarget; tcp : gmap Z LocalTarget }.

Definition http_target (t : HttpTunnel) : LocalTarget := mkLocalTarget (local_host t) (local_port t).
Definition tcp_target (t : TcpTunnel) : LocalTarget :=
  mkLocalTarget (tcp_local_host t) (tcp_local_port t).
(** A later tunnel with the same name or port overwrites an earlier one. *)
Definition routes (cfg : ClientConfig) : RouteTable :=
  mkRouteTable
    (foldl (fun m t => <[hostname t := http_target t]> m) ∅ (http_tunnels cfg))
    (foldl (fun m t => <[public_port t := tcp_target t]> m) ∅ (tcp_tunnels cfg)).

(** ** Status and errors *)
Inductive ConnState := Connecting | Connected | StAuthFailed.
#[export] Instance ConnState_eq_dec : EqDecision ConnState.
Proof. solve_decision. Defined.
Record DaemonStatus := mkStatus {
  state : ConnState;
  granted_hostnames : list string;
  granted_ports : list Z;
  reconnects : Z;
}.
Definition default_status : DaemonStatus := mkStatus Connecting [] [] 0.

Inductive ConnError :=
  | ConnAuth
  | Disconnected
  | ConnIoErr (what : string)
  | ConnCodec (e : CodecError)
  | Setup (what : string)
  | Protocol (what : string).
Definition is_auth (e : ConnError) : bool :=
  match e with ConnAuth => true | _ => false end.

(** ** One connection *)

(** What the connection did so far: the published status, the preamble, and the
    frames written to the control stream. *)
Record Conn := mkConn { status : DaemonStatus; preamble : bool; sent : list ControlFrame }.

(** A connection attempt stops early because an await has not completed or with
    an error. *)
Inductive Halt := Suspended | Failed (e : ConnError).
Abbreviation conn := (st Conn Halt).

Definition await {A : Type} (p : Poll (result ConnError A)) : conn A :=
  fun c => match p with
           | Ready (Ok a) => (Ok a, c)
           | Ready (Err e) => (Err (Failed e), c)
           | Pending => (Err Suspended, c)
           end.
Definition fail_with {A : Type} (e : ConnError) : conn A := st_fail (Failed e).

(** [status_tx.send_modify]. *)
Definition publish (f : DaemonStatus -> DaemonStatus) : conn () :=
  fun c => (Ok (), mkConn (f (status c)) (preamble c) (sent c)).
Definition set_state (st : ConnState) (s : DaemonStatus) : DaemonStatus :=
  mkStatus st (granted_hostnames s) (granted_ports s) (reconnects s).
Definition set_granted (hs : list string) (ps : list Z) (s : DaemonStatus) : DaemonStatus :=
  mkStatus (state s) hs ps (reconnects s).

(** The answers one attempt gets, in the order [connect_once] asks for them. *)
Record ConnIo := mkConnIo {
  io_lookup : Poll (result string (list SocketAddr));
  io_tcp : SocketAddr -> Poll (result string ());
  io_client_config : result string ();
  io_server_name : result string ();
  io_tls : Poll (result string ());
  io_ws : Poll (result string ());
  io_control : Poll (result string ());
  io_preamble : Poll (result CodecError ());
  io_hello : Poll (result CodecError ());
  io_hello_reply : Poll (result CodecError ControlFrame);
  io_claim : Poll (result CodecError ());
  io_claim_reply : Poll (result CodecError ControlFrame);
}.

Definition lift_poll {E A : Type} (f : E -> ConnError) (p : Poll (result E A)) :
    Poll (result ConnError A) :=
  match p with Ready r => Ready (map_err f r) | Pending => Pending end.

(** Bookkeeping: what reached the control stream. *)
Definition wrote (f : ControlFrame) (ok : bool) : conn () :=
  fun c => (Ok (), if ok then mkConn (status c) (preamble c) (sent c ++ [f]) else c).
Definition wrote_preamble : conn () := fun c => (Ok (), mkConn (status c) true (sent c)).

Definition write_ctrl (f : ControlFrame) (p : Poll (result CodecError ())) : conn () :=
  await (lift_poll ConnCodec p) ;; wrote f true.

Definition hello_frame (cfg : ClientConfig) (agent_version : string) : ControlFrame :=
  Hello (mkSecret (token cfg)) agent_version 1 PROTOCOL_VERSION.

(** The [Debug] renderings in messages are a parameter. *)
Section Connect.
Context (agent_version : string).
Context (debug_frame : ControlFrame -> string) (debug_code : DenyCode -> string).

(** Resolve, TCP, TLS, WebSocket, control stream. *)
Definition establish (cfg : ClientConfig) (io : ConnIo) : conn () :=
  addr ← match relay_addr cfg with
         | Some a => mret a
         | None =>
             addrs ← await (lift_poll ConnIoErr (io_lookup io));
             match addrs with
             | a :: _ => mret a
             | [] => fail_with (Setup ("no address for " +:+ connect_host cfg))
             end
         end;
  await (lift_poll ConnIoErr (io_tcp io addr)) ;;
  await (Ready (map_err Setup (io_client_config io))) ;;
  await (Ready (map_err (fun e => Setup ("bad server name: " +:+ e)) (io_server_name io))) ;;
  await (lift_poll ConnIoErr (io_tls io)) ;;
  await (lift_poll (fun e => Setup ("websocket handshake: " +:+ e)) (io_ws io)) ;;
  await (lift_poll (fun e => Setup ("open control stream: " +:+ e)) (io_control io)).

(** Preamble, [Hello], and the relay's answer. *)
Definition client_handshake (cfg : ClientConfig) (io : ConnIo) : conn () :=
  await (lift_poll ConnCodec (io_preamble io)) ;;
  wrote_preamble ;;
  write_ctrl (hello_frame cfg agent_version) (io_hello io) ;;
  reply ← await (lift_poll ConnCodec (io_hello_reply io));
  match reply with
  | Welcome _ _ _ => mret ()
  | Denied AuthFailed _ => fail_with ConnAuth
  | Denied code message => fail_with (Protocol (debug_code code +:+ ": " +:+ message))
  | other => fail_with (Protocol ("expected Welcome, got " +:+ debug_frame other))
  end.

Definition client_claim (cfg : ClientConfig) (io : ConnIo) : conn () :=
  match claim_hostnames cfg, claim_ports cfg with
  | [], [] => publish (set_state Connected)
  | hs, ps =>
      write_ctrl (Claim hs ps) (io_claim io) ;;
      reply ← await (lift_poll ConnCodec (io_claim_reply io));
      match reply with
      | Granted hostnames tcp_ports =>
          publish (fun s => set_granted hostnames tcp_ports (set_state Connected s))
      | Denied _ _ => publish (set_state Connected)
      | other => fail_with (Protocol ("expected Granted, got " +:+ debug_frame other))
      end
  end.

(** *** The steady state: the reader task and the heartbeat loop *)
Inductive SteadyEvent :=
  | RFrame (f : ControlFrame)      (* the reader got a frame *)
  | RFail                          (* ... an error or end of file *)
  | RSilent                        (* ... nothing for [SESSION_DEAD_AFTER] *)
  | Heartbeat (ok : bool)          (* the heartbeat sleep ended; did the write work *)
  | Noticed                        (* the loop sees the reader's cancellation *)
  | Cancelled (ok : bool).         (* shutdown; did the [Goodbye] get out *)

(** Does the event end the reader task? *)
Definition ends_reader (ev : SteadyEvent) : bool :=
  match ev with
  | RFrame (Shutdown _) | RFail | RSilent => true
  | _ => false
  end.
(** [reader.await] after the loop: the reader has ended, or ends on its own. *)
Definition join_reader (alive : bool) (evs : list SteadyEvent) : conn () :=
  if alive && negb (existsb ends_reader evs) then st_fail Suspended else mret ().

Fixpoint steady (alive : bool) (nonce : Z) (evs : list SteadyEvent) : conn () :=
  match evs with
  | [] => st_fail Suspended
  | ev :: rest =>
      match ev with
      | RFrame _ | RFail | RSilent => steady (alive && negb (ends_reader ev)) nonce rest
      | Heartbeat ok =>
          let nonce := (nonce + 1) mod 2 ^ 64 in
          wrote (Ping nonce) ok ;;
          if (ok : bool) then steady alive nonce rest
          else join_reader alive rest ;; fail_with Disconnected
      | Noticed => if alive then steady alive nonce rest else fail_with Disconnected
      | Cancelled ok => wrote Goodbye ok ;; join_reader alive rest
      end
  end.

Definition connect_once (cfg : ClientConfig) (io : ConnIo) (evs : list SteadyEvent) : conn () :=
  establish cfg io ;; client_handshake cfg io ;; client_claim cfg io ;; steady true 0 evs.

(** ** The supervisor *)
Definition BACKOFF_MAX : Z := 60 * 1000.
Definition BACKOFF_AUTH : Z := 300 * 1000.
Definition STABLE_RESET : Z := 30 * 1000.

(** Where, if anywhere, [cancel] fires during a turn of the loop. *)
Inductive CancelAt := NoCancel | AtTop | InConnect | AfterConnect | InWait.
#[export] Instance CancelAt_eq_dec : EqDecision CancelAt.
Proof. solve_decision. Defined.
Record Attempt := mkAttempt {
  a_io : ConnIo;
  a_events : list SteadyEvent;
  a_elapsed : Z;
  a_random : Z;
  a_cancel : CancelAt;
}.
Record Sup := mkSup { backoff : Z; sup_reconnects : Z; sup_status : DaemonStatus }.
Definition sup_new : Sup := mkSup 1000 0 default_status.

(** How a turn ends: the loop was left, the connection still lives, or the turn
    waited so long and goes on. *)
Inductive Turn := Stopped | Living | Waited (ms : Z).
#[export] Instance Turn_eq_dec : EqDecision Turn.
Proof. solve_decision. Defined.

(** Has the attempt ended, and then with an authentication failure? *)
Definition ended (r : result Halt ()) : option bool :=
  match r with
  | Err Suspended => None
  | Err (Failed e) => Some (is_auth e)
  | Ok _ => Some false
  end.

(** The rest of a turn after the connection ended, up to the next attempt. *)
Definition sup_wait (auth_failed : bool) (a : Attempt) (cleared : DaemonStatus) (s : Sup) : Turn * Sup :=
  let backoff1 := if negb auth_failed && (STABLE_RESET <? a_elapsed a) then 1000 else backoff s in
  let wait := if auth_failed then BACKOFF_AUTH else backoff1 in
  let st1 := if auth_failed then set_state StAuthFailed cleared else cleared in
  let n := (sup_reconnects s + 1) mod 2 ^ 32 in
  let st2 := mkStatus (state st1) (granted_hostnames st1) (granted_ports st1) n in
  if decide (a_cancel a = InWait) then (Stopped, mkSup backoff1 n st2)
  else
    let backoff2 := if auth_failed then backoff1 else Z.min (backoff1 * 2) BACKOFF_MAX in
    (Waited (wait + a_random a mod 500), mkSup backoff2 n st2).

Definition sup_turn (cfg : ClientConfig) (a : Attempt) (s : Sup) : Turn * Sup :=
  if decide (a_cancel a = AtTop) then (Stopped, s)
  else
    let start := set_state Connecting (sup_status s) in
    let (r, c) := connect_once cfg (a_io a) (a_events a) (mkConn start false []) in
    let with_status st := mkSup (backoff s) (sup_reconnects s) st in
    if decide (a_cancel a = InConnect) then (Stopped, with_status (status c))
    else
      match ended r with
      | None => (Living, with_status (status c))
      | Some auth_failed =>
          let cleared := set_granted [] [] (status c) in
          if decide (a_cancel a = AfterConnect) then (Stopped, with_status cleared)
          else sup_wait auth_failed a cleared s
      end.

(** The loop: the turns it took and the state it is in. *)
Fixpoint run_supervisor (cfg : ClientConfig) (attempts : list Attempt) (s : Sup) : list Turn * Sup :=
  match attempts with
  | [] => ([], s)
  | a :: rest =>
      match sup_turn cfg a s with
      | (Waited ms, s') => let (ts, s'') := run_supervisor cfg rest s' in (Waited ms :: ts, s'')
      | (t, s') => ([t], s')
      end
  end.
End Connect.

(** ** Forwarding an inbound stream (proxy.rs) *)
Definition CONNECT_TIMEOUT : Z := 3000.

(** What [TcpStream::connect] under its timeout gave. *)
Inductive LocalConnect := LocalOk | LocalRefused | LocalTimeout.
(** What becomes of the stream: closed without a byte, spliced to a local
    service, or answered. *)
Inductive Served := ClosedStream | SplicedTo (t : LocalTarget) | Answered (response : string).

Definition crlf : string := String (Ascii.ascii_of_nat 13) (String (Ascii.ascii_of_nat 10) EmptyString).
Definition write_http (status : Z) (reason error_tag body : string) : string :=
  "HTTP/1.1 " +:+ pretty status +:+ " " +:+ reason +:+ crlf +:+
  "Content-Type: text/html; charset=utf-8" +:+ crlf +:+
  "Content-Length: " +:+ pretty (String.length body) +:+ crlf +:+
  "Cache-Control: no-store" +:+ crlf +:+
  "X-Etun-Error: " +:+ error_tag +:+ crlf +:+
  "Connection: close" +:+ crlf +:+ crlf +:+ body.

Definition write_502 (host : string) : string :=
  write_http 502 "Bad Gateway" "local-connect-failed"
    ("<!doctype html><meta charset=utf-8><title>502</title><h1>502 - local service unavailable</h1><p>The tunnel is connected, but nothing accepted the connection on the target for <code>"
      +:+ host +:+ "</code>. Check that your local service is running.</p>").
Definition write_504 (host : string) : string :=
  write_http 504 "Gateway Timeout" "local-connect-timeout"
    ("<!doctype html><meta charset=utf-8><title>504</title><h1>504 - local service timed out</h1><p>The tunnel is connected, but the local target for <code>"
      +:+ host +:+ "</code> did not accept the connection in time.</p>").

Definition forward_tcp (connect : LocalTarget -> LocalConnect) (target : LocalTarget) : Served :=
  match connect target with
  | LocalOk => SplicedTo target
  | _ => ClosedStream
  end.
Definition forward_http (connect : LocalTarget -> LocalConnect) (target : LocalTarget) : Served :=
  match connect target with
  | LocalOk => SplicedTo target
  | LocalRefused => Answered (write_502 (lt_host target))
  | LocalTimeout => Answered (write_504 (lt_host target))
  end.

Definition handle_inbound (rt : RouteTable) (connect : LocalTarget -> LocalConnect)
    (header : result CodecError StreamHeader) : Served :=
  match header with
  | Err _ => ClosedStream
  | Ok (Frames.Http host _ _) =>
      match http rt !! host with
      | Some target => forward_http connect target
      | None => Answered (write_502 host)
      end
  | Ok (Frames.Tcp port _ _) =>
      match tcp rt !! port with
      | Some target => forward_tcp connect target
      | None => ClosedStream
      end
  end.
