(* ===== verification/ClientProps.v ===== *)
(** * The client daemon's guarantees

    Backoff and persistence of the supervisor, the truth of the status it
    publishes, and the forwarding of inbound streams. *)
From S2P Require Import Prelude Limits Frames Codec ClientDaemon.
Local Open Scope Z_scope.

(** ** Stages of a connection *)

(** A computation that ends the same way whatever the status is, and leaves the
    status to the stages that publish. *)
Definition blind {A : Type} (m : conn A) : Prop :=
  forall c c', (m c).1 = (m c').1.
Definition silent {A : Type} (m : conn A) : Prop := forall c, status (m c).2 = status c.

Lemma blind_ret {A : Type} (a : A) : blind (mret a).
Proof using. done. Qed.
Lemma blind_fail {A : Type} (h : Halt) : blind (A:=A) (st_fail h).
Proof using. done. Qed.
Lemma blind_fail_with {A : Type} (e : ConnError) : blind (A:=A) (fail_with e).
Proof using. done. Qed.
Lemma blind_await {A : Type} (p : Poll (result ConnError A)) : blind (await p).
Proof using. intros c c'. by destruct p as [[]|]. Qed.
Lemma blind_wrote f ok : blind (wrote f ok).
Proof using. done. Qed.
Lemma blind_wrote_preamble : blind wrote_preamble.
Proof using. done. Qed.
Lemma blind_publish f : blind (publish f).
Proof using. done. Qed.
Lemma blind_bind {A B : Type} (m : conn A) (f : A -> conn B) :
  blind m -> (forall a, blind (f a)) -> blind (m ≫= f).
Proof using.
  intros Hm Hf c c'. unfold mbind, st_bind. specialize (Hm c c').
  destruct (m c) as [r1 c1], (m c') as [r2 c2]. cbn in Hm. subst r2.
  destruct r1 as [a|e]; [apply Hf|done].
Qed.
Lemma blind_write_ctrl f p : blind (write_ctrl f p).
Proof using. apply blind_bind; [apply blind_await|intros; apply blind_wrote]. Qed.

Lemma silent_ret {A : Type} (a : A) : silent (mret a).
Proof using. done. Qed.
Lemma silent_fail {A : Type} (h : Halt) : silent (A:=A) (st_fail h).
Proof using. done. Qed.
Lemma silent_fail_with {A : Type} (e : ConnError) : silent (A:=A) (fail_with e).
Proof using. done. Qed.
Lemma silent_await {A : Type} (p : Poll (result ConnError A)) : silent (await p).
Proof using. intros c. by destruct p as [[]|]. Qed.
Lemma silent_wrote f ok : silent (wrote f ok).
Proof using. intros c. by destruct ok. Qed.
Lemma silent_wrote_preamble : silent wrote_preamble.
Proof using. done. Qed.
Lemma silent_bind {A B : Type} (m : conn A) (f : A -> conn B) :
  silent m -> (forall a, silent (f a)) -> silent (m ≫= f).
Proof using.
  intros Hm Hf c. unfold mbind, st_bind. specialize (Hm c).
  destruct (m c) as [[a|e] c1]; cbn in *; [|done]. by rewrite Hf.
Qed.
Lemma silent_write_ctrl f p : silent (write_ctrl f p).
Proof using. apply silent_bind; [apply silent_await|intros; apply silent_wrote]. Qed.

#[export] Hint Resolve blind_ret blind_fail blind_fail_with blind_await blind_wrote blind_wrote_preamble
  blind_publish blind_write_ctrl silent_ret silent_fail silent_fail_with silent_await silent_wrote
  silent_wrote_preamble silent_write_ctrl : etun.

(** Walk through the binds and matches of a stage. *)
Ltac stage_step :=
  first [ solve [auto with etun]
        | apply blind_bind; [|intros ?]
        | apply silent_bind; [|intros ?]
        | split_match ].
Ltac stages := repeat stage_step.

Section Stages.
Context (agent_version : string).
Context (debug_frame : ControlFrame -> string) (debug_code : DenyCode -> string).
Local Abbreviation connect_once := (connect_once agent_version debug_frame debug_code).
Local Abbreviation client_handshake := (client_handshake agent_version debug_frame debug_code).
Local Abbreviation client_claim := (client_claim debug_frame).

Lemma establish_blind cfg io : blind (establish cfg io).
Proof using. unfold establish. stages. Qed.
Lemma establish_silent cfg io : silent (establish cfg io).
Proof using. unfold establish. stages. Qed.
Lemma handshake_blind cfg io : blind (client_handshake cfg io).
Proof using. unfold client_handshake. stages. Qed.
Lemma handshake_silent cfg io : silent (client_handshake cfg io).
Proof using. unfold client_handshake. stages. Qed.
Lemma claim_blind cfg io : blind (client_claim cfg io).
Proof using. unfold client_claim. stages. Qed.
Lemma join_blind alive evs : blind (join_reader alive evs).
Proof using. unfold join_reader. stages. Qed.
Lemma join_silent alive evs : silent (join_reader alive evs).
Proof using. unfold join_reader. stages. Qed.
Lemma steady_blind alive nonce evs : blind (steady alive nonce evs).
Proof using.
  revert alive nonce. induction evs as [|ev evs IH]; intros alive nonce; cbn [steady]; [stages|].
  destruct ev; auto; repeat first [apply join_blind | apply IH | stage_step].
Qed.
Lemma steady_silent alive nonce evs : silent (steady alive nonce evs).
Proof using.
  revert alive nonce. induction evs as [|ev evs IH]; intros alive nonce; cbn [steady]; [stages|].
  destruct ev; auto; repeat first [apply join_silent | apply IH | stage_step].
Qed.
Lemma connect_once_blind cfg io evs : blind (connect_once cfg io evs).
Proof using.
  unfold connect_once.
  repeat first [apply establish_blind | apply handshake_blind | apply claim_blind
               | apply steady_blind | apply blind_bind; [|intros _]].
Qed.

(** ** Backoff *)
Local Abbreviation sup_turn := (sup_turn agent_version debug_frame debug_code).
Local Abbreviation run_supervisor := (run_supervisor agent_version debug_frame debug_code).

(** How an attempt ends ([None]: its connection still lives). *)
Definition attempt_ends (cfg : ClientConfig) (a : Attempt) : option bool :=
  ended (connect_once cfg (a_io a) (a_events a) (mkConn default_status false [])).1.

Lemma sup_turn_waits cfg a s auth :
  a_cancel a = NoCancel -> attempt_ends cfg a = Some auth ->
  exists st, sup_turn cfg a s = sup_wait auth a (set_granted [] [] st) s.
Proof using.
  intros Hc He. unfold sup_turn, ClientDaemon.sup_turn, attempt_ends in *. rewrite Hc.
  rewrite !decide_False by done.
  pose proof (connect_once_blind cfg (a_io a) (a_events a) (mkConn default_status false [])
    (mkConn (set_state Connecting (sup_status s)) false [])) as Hb.
  destruct (connect_once cfg _ _ (mkConn (set_state _ _) _ _)) as [r c]. cbn in Hb.
  rewrite Hb in He. rewrite He. eauto.
Qed.

(** The waits of a supervisor that is never cancelled, in milliseconds: [e]
    counts the failed attempts since the last connection that was stable; an
    authentication failure neither uses nor changes it. *)
Fixpoint waits (l : list (bool * Attempt)) (e : nat) : list Z :=
  match l with
  | [] => []
  | (auth, a) :: rest =>
      if (auth : bool) then BACKOFF_AUTH + a_random a mod 500 :: waits rest e
      else let e0 := if STABLE_RESET <? a_elapsed a then 0%nat else e in
           Z.min (1000 * 2 ^ Z.of_nat e0) BACKOFF_MAX + a_random a mod 500 :: waits rest (S e0)
  end.

Lemma double_capped (e : nat) :
  Z.min (Z.min (1000 * 2 ^ Z.of_nat e) BACKOFF_MAX * 2) BACKOFF_MAX =
  Z.min (1000 * 2 ^ Z.of_nat (S e)) BACKOFF_MAX.
Proof using.
  rewrite Nat2Z.inj_succ, Z.pow_succ_r by lia. unfold BACKOFF_MAX. lia.
Qed.

Lemma run_waits cfg (l : list (bool * Attempt)) (e : nat) (s : Sup) :
  Forall (fun p => a_cancel p.2 = NoCancel /\ attempt_ends cfg p.2 = Some p.1) l ->
  backoff s = Z.min (1000 * 2 ^ Z.of_nat e) BACKOFF_MAX ->
  (run_supervisor cfg (l.*2) s).1 = Waited <$> waits l e.
Proof using.
  intros Hl. revert e s. induction Hl as [|[auth a] l [Hc He] _ IH]; intros e s Hb; [done|].
  cbn [fmap list_fmap fst snd] in *. cbn [ClientDaemon.run_supervisor].
  destruct (sup_turn_waits cfg a s auth Hc He) as [st ->]. unfold sup_wait.
  rewrite Hc, decide_False by done. cbn [waits].
  destruct auth; cbn [negb andb].
  - specialize (IH e (mkSup (backoff s) ((sup_reconnects s + 1) mod 2 ^ 32)
      (mkStatus StAuthFailed [] [] ((sup_reconnects s + 1) mod 2 ^ 32))) Hb).
    cbn [set_state set_granted state granted_hostnames granted_ports] in *.
    destruct (run_supervisor cfg _ _). cbn in *. by rewrite IH.
  - set (e0 := if STABLE_RESET <? a_elapsed a then 0%nat else e).
    assert (Hb0 : (if STABLE_RESET <? a_elapsed a then 1000 else backoff s) =
                  Z.min (1000 * 2 ^ Z.of_nat e0) BACKOFF_MAX).
    { subst e0. by destruct (STABLE_RESET <? a_elapsed a). }
    rewrite Hb0, double_capped.
    match goal with |- context [run_supervisor cfg ?x ?y] => specialize (IH (S e0) y eq_refl) end.
    destruct (run_supervisor cfg _ _). cbn in *. by rewrite IH.
Qed.

Lemma waits_bounds (l : list (bool * Attempt)) (e : nat) :
  Forall (fun ms => 1000 <= ms < BACKOFF_AUTH + 500) (waits l e) /\ length (waits l e) = length l.
Proof using.
  revert e. induction l as [|[auth a] l IH]; intros e; [done|].
  pose proof (Z.mod_pos_bound (a_random a) 500 eq_refl).
  assert (Hp : forall k : nat, 1 <= 2 ^ Z.of_nat k).
  { intros k. apply (Z.pow_le_mono_r 2 0); lia. }
  cbn [waits]. unfold BACKOFF_AUTH, BACKOFF_MAX in *. destruct auth; cbn [length].
  - destruct (IH e) as [H1 H2]. split; [constructor; [lia|done]|lia].
  - destruct (IH (S (if STABLE_RESET <? a_elapsed a then 0%nat else e))) as [H1 H2].
    specialize (Hp (if STABLE_RESET <? a_elapsed a then 0%nat else e)).
    split; [constructor; [lia|done]|lia].
Qed.

(** C26 The supervisor never gives up and never hammers the relay: through any
    history of attempts that end, however they end, it makes every next attempt,
    after a wait of one second doubled per failure up to a minute, back to one
    second after a connection that lived over thirty seconds, and five minutes
    after an authentication failure, plus less than half a second of jitter. *)
Theorem supervisor_persists cfg (l : list (bool * Attempt)) :
  Forall (fun p => a_cancel p.2 = NoCancel /\ attempt_ends cfg p.2 = Some p.1) l ->
  (run_supervisor cfg (l.*2) sup_new).1 = Waited <$> waits l 0 /\
  length (run_supervisor cfg (l.*2) sup_new).1 = length l /\
  Forall (fun t => exists ms, t = Waited ms /\ 1000 <= ms < 300500) (run_supervisor cfg (l.*2) sup_new).1.
Proof using.
  intros Hl. rewrite (run_waits cfg l 0 sup_new Hl) by done.
  destruct (waits_bounds l 0) as [Hb Hlen]. split; [done|]. split; [by rewrite length_fmap|].
  apply Forall_fmap. eapply Forall_impl; [exact Hb|]. intros ms Hms. by exists ms.
Qed.

(** ** The published status *)
Lemma bind_inv {A B : Type} (m : conn A) (f : A -> conn B) c r c' :
  (m ≫= f) c = (r, c') ->
  (exists a c1, m c = (Ok a, c1) /\ f a c1 = (r, c')) \/
  (exists e, m c = (Err e, c') /\ r = Err e).
Proof using.
  unfold mbind, st_bind. destruct (m c) as [[a|e] c1]; [left; eauto|intros [= <- <-]; right; eauto].
Qed.

Lemma await_ok {E A : Type} (f : E -> ConnError) (p : Poll (result E A)) c a c' :
  await (lift_poll f p) c = (Ok a, c') -> p = Ready (Ok a) /\ c' = c.
Proof using. destruct p as [[b|x]|]; cbn; by intros [= <- <-]. Qed.

(** Errors that a stage can end with. *)
Definition fails_with {A : Type} (P : ConnError -> Prop) (m : conn A) : Prop :=
  forall c e, (m c).1 = Err (Failed e) -> P e.

Lemma fails_bind {A B : Type} (P : ConnError -> Prop) (m : conn A) (f : A -> conn B) :
  fails_with P m -> (forall a, fails_with P (f a)) -> fails_with P (m ≫= f).
Proof using.
  intros Hm Hf c e. unfold mbind, st_bind. specialize (Hm c). destruct (m c) as [[a|h] c1]; [apply Hf|].
  cbn in *. intros [= ->]. by apply Hm.
Qed.
Lemma fails_lift {E A : Type} (P : ConnError -> Prop) (f : E -> ConnError) (p : Poll (result E A)) :
  (forall e, P (f e)) -> fails_with P (await (lift_poll f p)).
Proof using. intros HP c e. destruct p as [[a|x]|]; cbn; [done| |done]. intros [= <-]. apply HP. Qed.
Lemma fails_ready {E A : Type} (P : ConnError -> Prop) (f : E -> ConnError) (r : result E A) :
  (forall e, P (f e)) -> fails_with P (await (Ready (map_err f r))).
Proof using. intros HP. apply (fails_lift P f (Ready r) HP). Qed.
Lemma fails_write (P : ConnError -> Prop) f p : (forall e, P (ConnCodec e)) -> fails_with P (write_ctrl f p).
Proof using. intros HP. apply fails_bind; [by apply fails_lift|]. by intros _ c e. Qed.
Lemma fails_fail_with {A : Type} (P : ConnError -> Prop) e : P e -> fails_with P (fail_with (A:=A) e).
Proof using. intros HP c e'. cbn. by intros [= <-]. Qed.
Lemma fails_ret {A : Type} (P : ConnError -> Prop) (a : A) : fails_with P (mret a).
Proof using. by intros c e. Qed.

Ltac fails_step :=
  first [ solve [apply fails_ret] | solve [apply fails_fail_with; done] | solve [apply fails_lift; done]
        | solve [apply fails_ready; done] | solve [apply fails_write; done]
        | solve [by intros ? ?]
        | apply fails_bind; [|intros ?] | split_match ].

(** Before the heartbeats start a connection cannot be [Disconnected]. *)
Lemma setup_not_disconnected cfg io :
  fails_with (fun e => e <> Disconnected)
    (establish cfg io ≫= fun _ => client_handshake cfg io ≫= fun _ => client_claim cfg io).
Proof using.
  unfold establish, ClientDaemon.client_handshake, ClientDaemon.client_claim. repeat fails_step.
Qed.

Lemma fails_reply {A B : Type} (P : ConnError -> Prop) (p : Poll (result CodecError A)) (f : A -> conn B) :
  (forall e, P (ConnCodec e)) -> (forall a, p = Ready (Ok a) -> fails_with P (f a)) ->
  fails_with P (await (lift_poll ConnCodec p) ≫= f).
Proof using.
  intros HP Hf c e. destruct p as [[a|x]|]; cbn; [by apply Hf| |done]. intros [= <-]. apply HP.
Qed.

(** Only the relay's own answer is an authentication failure. *)
Lemma auth_only_denied cfg io evs :
  fails_with (fun e => e = ConnAuth -> exists m, io_hello_reply io = Ready (Ok (Denied AuthFailed m)))
    (connect_once cfg io evs).
Proof using.
  unfold connect_once, ClientDaemon.connect_once. apply fails_bind; [unfold establish; repeat fails_step|].
  intros _. apply fails_bind.
  - unfold ClientDaemon.client_handshake. do 3 (apply fails_bind; [repeat fails_step|intros _]).
    apply fails_reply; [done|]. intros f Hf.
    destruct f as [| |[] m| | | | | | | | | | | |]; repeat fails_step.
    intros c e. cbn. intros [= <-] _. by exists m.
  - intros _. apply fails_bind; [unfold ClientDaemon.client_claim; repeat fails_step|intros _].
    generalize true, 0. induction evs as [|ev evs IH]; intros alive nonce; cbn [steady]; [repeat fails_step|].
    destruct ev; auto; repeat first [apply IH | unfold join_reader; fails_step].
Qed.

(** What the claim stage publishes. *)
Lemma claim_publishes cfg io c r c' :
  client_claim cfg io c = (r, c') ->
  (status c' = status c /\ r <> Ok ()) \/
  (r = Ok () /\ status c' = set_state Connected (status c)) \/
  (exists hs ps, r = Ok () /\ io_claim_reply io = Ready (Ok (Granted hs ps)) /\
     status c' = set_granted hs ps (set_state Connected (status c))).
Proof using.
  unfold ClientDaemon.client_claim. intros E.
  assert (Hclaim : forall hs ps,
    (write_ctrl (Claim hs ps) (io_claim io) ;;
     reply ← await (lift_poll ConnCodec (io_claim_reply io));
     match reply with
     | Granted hostnames tcp_ports =>
         publish (fun s => set_granted hostnames tcp_ports (set_state Connected s))
     | Denied _ _ => publish (set_state Connected)
     | other => fail_with (Protocol ("expected Granted, got " +:+ debug_frame other))
     end) c = (r, c') ->
    (status c' = status c /\ r <> Ok ()) \/
    (r = Ok () /\ status c' = set_state Connected (status c)) \/
    (exists hs ps, r = Ok () /\ io_claim_reply io = Ready (Ok (Granted hs ps)) /\
       status c' = set_granted hs ps (set_state Connected (status c)))).
  { clear E. intros hs ps [(u & c1 & Hw & E)|(e & Hw & ->)]%bind_inv;
      pose proof (silent_write_ctrl (Claim hs ps) (io_claim io) c) as Hs; rewrite Hw in Hs;
      cbn [snd] in Hs; [|by left].
    apply bind_inv in E as [(f & c2 & Ha & E)|(e & Ha & ->)];
      pose proof (silent_await (lift_poll ConnCodec (io_claim_reply io)) c1) as Hs2;
      rewrite Ha in Hs2; cbn [snd] in Hs2; [|left; split; [congruence|done]].
    apply await_ok in Ha as [Hf _].
    rewrite <- Hs, <- Hs2. destruct f; cbn in E; injection E as <- <-; eauto 10. }
  destruct (claim_hostnames cfg), (claim_ports cfg); eauto.
  cbn in E. injection E as <- <-. eauto.
Qed.

Definition welcomed (io : ConnIo) : Prop := exists p v sid, io_hello_reply io = Ready (Ok (Welcome p v sid)).

Lemma handshake_welcomed cfg io c u c' : client_handshake cfg io c = (Ok u, c') -> welcomed io.
Proof using.
  unfold ClientDaemon.client_handshake.
  do 3 (intros [(? & ? & _ & E)|(? & _ & ?)]%bind_inv; [revert E|done]).
  intros [(f & c1 & Ha & E)|(? & _ & ?)]%bind_inv; [|done].
  apply await_ok in Ha as [Hf _]. unfold welcomed. rewrite Hf.
  destruct f as [| |[] m| | | | | | | | | | | |]; cbn in E; try done; eauto.
Qed.

(** How a connection attempt leaves the status: untouched, or connected after a
    welcome, with the names of the relay's own grant. *)
Lemma connect_status cfg io evs c r c' :
  connect_once cfg io evs c = (r, c') ->
  (status c' = status c /\ r <> Ok () /\ r <> Err (Failed Disconnected)) \/
  (welcomed io /\
    (status c' = set_state Connected (status c) \/
     exists hs ps, io_claim_reply io = Ready (Ok (Granted hs ps)) /\
       status c' = set_granted hs ps (set_state Connected (status c)))).
Proof using.
  intros E. pose proof (setup_not_disconnected cfg io c) as Hnd.
  unfold connect_once, ClientDaemon.connect_once in E.
  pose proof (establish_silent cfg io c) as Hs1. unfold mbind in Hnd. cbn [st_bind] in Hnd.
  apply bind_inv in E as [(u1 & c1 & H1 & E)|(e & H1 & ->)]; rewrite H1 in Hs1; cbn [snd] in Hs1;
    unfold st_bind in Hnd; rewrite H1 in Hnd; [|left; naive_solver].
  pose proof (handshake_silent cfg io c1) as Hs2.
  apply bind_inv in E as [(u2 & c2 & H2 & E)|(e & H2 & ->)]; rewrite H2 in Hs2, Hnd; cbn [snd] in Hs2;
    [|left; split; [congruence|naive_solver]].
  apply handshake_welcomed in H2. rewrite <- Hs1, <- Hs2.
  apply bind_inv in E as [(u3 & c3 & H3 & E)|(e & H3 & ->)]; rewrite H3 in Hnd;
    apply claim_publishes in H3.
  - right. split; [done|]. pose proof (steady_silent true 0 evs c3) as Hs4. rewrite E in Hs4.
    cbn [snd] in Hs4. rewrite Hs4. destruct u3. naive_solver.
  - left. destruct H3 as [[-> _]|[[? _]|(? & ? & ? & _)]]; [|done|done]. naive_solver.
Qed.

Definition nothing_granted (st : DaemonStatus) : Prop :=
  granted_hostnames st = [] /\ granted_ports st = [].
Definition grant_shown (a : Attempt) (st : DaemonStatus) : Prop :=
  state st = Connected /\ welcomed (a_io a) /\
  io_claim_reply (a_io a) = Ready (Ok (Granted (granted_hostnames st) (granted_ports st))).
Definition denied_auth (a : Attempt) : Prop :=
  exists m, io_hello_reply (a_io a) = Ready (Ok (Denied AuthFailed m)).

Lemma sup_wait_status auth a cleared s t s' :
  sup_wait auth a cleared s = (t, s') ->
  granted_hostnames (sup_status s') = granted_hostnames cleared /\
  granted_ports (sup_status s') = granted_ports cleared /\
  state (sup_status s') = if auth then StAuthFailed else state cleared.
Proof using. unfold sup_wait. case_decide; intros [= <- <-]; by destruct auth. Qed.

Lemma turn_status cfg a s t s' :
  nothing_granted (sup_status s) -> sup_turn cfg a s = (t, s') ->
  (nothing_granted (sup_status s') \/ (grant_shown a (sup_status s') /\ forall ms, t <> Waited ms)) /\
  (state (sup_status s') = StAuthFailed ->
     denied_auth a \/ state (sup_status s) = StAuthFailed).
Proof using.
  intros Hn. unfold ClientDaemon.sup_turn. case_decide; [intros [= <- <-]; auto|].
  destruct (connect_once cfg _ _ _) as [r c] eqn:E.
  pose proof (auth_only_denied cfg (a_io a) (a_events a)
    (mkConn (set_state Connecting (sup_status s)) false [])) as Hauth. rewrite E in Hauth. cbn [fst] in Hauth.
  apply connect_status in E. cbn [status] in E.
  assert (Hst : state (status c) <> StAuthFailed) by (destruct E as [[-> _]|[_ [->|(? & ? & _ & ->)]]]; done).
  assert (Hg : nothing_granted (status c) \/ grant_shown a (status c)).
  { destruct E as [[-> _]|[Hw [->|(hs & ps & Hr & ->)]]]; [by left|by left|by right]. }
  case_decide; [intros [= <- <-]; split; [destruct Hg; [by left|by right]|intros Hs; by destruct Hst]|].
  destruct (ended r) as [auth|] eqn:He;
    [|intros [= <- <-]; split; [destruct Hg; [by left|by right]|intros Hs; by destruct Hst]].
  case_decide; [intros [= <- <-]; split; [by left|intros Hs; by destruct Hst]|].
  intros (Hh & Hp & Hs)%sup_wait_status. split; [by left|]. rewrite Hs.
  destruct auth; [|done]. intros _. left.
  destruct r as [u|[|e]]; cbn in He; try done. injection He as He.
  destruct e; try done. by eapply Hauth.
Qed.

Lemma run_status cfg attempts s ts s' :
  nothing_granted (sup_status s) -> run_supervisor cfg attempts s = (ts, s') ->
  (nothing_granted (sup_status s') \/
     (exists a, a ∈ attempts /\ grant_shown a (sup_status s') /\ forall ms, last ts <> Some (Waited ms))) /\
  (state (sup_status s') = StAuthFailed ->
     (exists a, a ∈ attempts /\ denied_auth a) \/ state (sup_status s) = StAuthFailed).
Proof using.
  revert s ts. induction attempts as [|a attempts IH]; intros s ts Hn; cbn [ClientDaemon.run_supervisor].
  { intros [= <- <-]. auto. }
  destruct (sup_turn cfg a s) as [t s1] eqn:E. pose proof (turn_status cfg a s t s1 Hn E) as [Hg Ha].
  assert (Hstop : ([t], s1) = (ts, s') -> (forall ms, t <> Waited ms) ->
    (nothing_granted (sup_status s') \/
     (exists b, b ∈ a :: attempts /\ grant_shown b (sup_status s') /\ forall ms, last ts <> Some (Waited ms))) /\
    (state (sup_status s') = StAuthFailed ->
     (exists b, b ∈ a :: attempts /\ denied_auth b) \/ state (sup_status s) = StAuthFailed)).
  { intros [= <- <-] Hw. split; [|intros Hs; destruct (Ha Hs); [left; exists a; split; [left|done]|by right]].
    destruct Hg as [?|[? _]]; [by left|right]. exists a. split; [left|]. split; [done|].
    cbn. intros ms [= E']. by eapply Hw. }
  destruct t as [| |ms]; [intros H; by apply Hstop|intros H; by apply Hstop|].
  destruct Hg as [Hg|[_ Hw]]; [|by destruct (Hw ms)].
  destruct (run_supervisor cfg attempts s1) as [ts' s2] eqn:E2. intros [= <- <-].
  destruct (IH s1 ts' Hg E2) as [IHg IHa]. split.
  - destruct IHg as [?|(b & Hb & Hsh & Hl)]; [by left|right]. exists b.
    split; [by right|]. split; [done|]. intros ms'. destruct ts' as [|t' ts']; [|apply Hl].
    exfalso. destruct attempts as [|a' ?]; [by apply not_elem_of_nil in Hb|].
    cbn in E2. destruct (sup_turn cfg a' s1) as [[| |] ?]; [done|done|].
    by destruct (run_supervisor cfg _ _).
  - intros Hs. destruct (IHa Hs) as [(b & Hb & Hd)|Hs1]; [left; exists b; split; [by right|done]|].
    destruct (Ha Hs1); [left; exists a; split; [left|done]|by right].
Qed.

(** The status never lies about grants or credentials: at any point of a
    daemon's life, if it shows granted names or ports, it is connected, the relay
    welcomed it, and they are exactly those of the relay's [Granted] reply on the
    current connection; while it waits between connections it shows none; and
    [AuthFailed] is shown only after the relay itself refused the token. *)
Theorem status_grants_real cfg attempts ts s' :
  run_supervisor cfg attempts sup_new = (ts, s') ->
  (nothing_granted (sup_status s') \/
     (exists a, a ∈ attempts /\ grant_shown a (sup_status s') /\ forall ms, last ts <> Some (Waited ms))) /\
  (state (sup_status s') = StAuthFailed -> exists a, a ∈ attempts /\ denied_auth a).
Proof using.
  intros E. destruct (run_status cfg attempts sup_new ts s' ltac:(done) E) as [Hg Ha].
  split; [done|]. intros Hs. by destruct (Ha Hs).
Qed.

(** The phase shown lags behind: when an established connection is lost, the
    status keeps saying [Connected] for the whole of the wait before the next
    attempt, up to a minute. *)
Theorem connected_shown_while_down cfg a s s' c c' (ms : Z) :
  connect_once cfg (a_io a) (a_events a) c = (Err (Failed Disconnected), c') ->
  sup_turn cfg a s = (Waited ms, s') -> state (sup_status s') = Connected.
Proof using.
  intros Hd E. unfold ClientDaemon.sup_turn in E. case_decide; [done|].
  destruct (connect_once cfg (a_io a) (a_events a) (mkConn _ _ _)) as [r c1] eqn:E1.
  pose proof (connect_once_blind cfg (a_io a) (a_events a) c (mkConn (set_state Connecting (sup_status s)) false [])) as Hb.
  rewrite Hd, E1 in Hb. cbn [fst] in Hb. subst r. cbn [ended is_auth] in E.
  do 2 (case_decide; [done|]). apply sup_wait_status in E as (_ & _ & ->).
  apply connect_status in E1 as [(_ & _ & Hne)|[_ [Hst|(hs & ps & _ & Hst)]]]; [done| |];
    cbn [set_granted state]; by rewrite Hst.
Qed.
End Stages.

(** ** Forwarding *)
Lemma foldl_insert_lookup {K V T : Type} `{Countable K} (key : T -> K) (val : T -> V)
    (l : list T) (m : gmap K V) (k : K) :
  foldl (fun m t => <[key t := val t]> m) m l !! k =
    match list_find (fun t => key t = k) (reverse l) with
    | Some (_, t) => Some (val t)
    | None => m !! k
    end.
Proof.
  revert m. induction l as [|t l IH] using rev_ind; intros m; [done|].
  rewrite foldl_app, reverse_snoc. cbn. case_decide as Hk.
  - subst k. by rewrite lookup_insert_eq.
  - rewrite lookup_insert_ne, IH by done. by destruct (list_find _ (reverse l)) as [[i u]|].
Qed.

(** The tunnel that serves a name: the last one configured with it. *)
Definition serving (cfg : ClientConfig) (h : string) : option HttpTunnel :=
  snd <$> list_find (fun t => hostname t = h) (reverse (http_tunnels cfg)).
Definition serving_tcp (cfg : ClientConfig) (p : Z) : option TcpTunnel :=
  snd <$> list_find (fun t => public_port t = p) (reverse (tcp_tunnels cfg)).

Lemma routes_http cfg h : http (routes cfg) !! h = http_target <$> serving cfg h.
Proof.
  unfold routes, serving. cbn. rewrite foldl_insert_lookup, lookup_empty.
  by destruct (list_find _ _) as [[i t]|].
Qed.
Lemma routes_tcp cfg p : tcp (routes cfg) !! p = tcp_target <$> serving_tcp cfg p.
Proof.
  unfold routes, serving_tcp. cbn. rewrite foldl_insert_lookup, lookup_empty.
  by destruct (list_find _ _) as [[i t]|].
Qed.

Lemma serving_claimed cfg h : is_Some (serving cfg h) <-> h ∈ claim_hostnames cfg.
Proof.
  unfold serving, claim_hostnames. rewrite fmap_is_Some, list_elem_of_fmap. split.
  - intros [[i t] (Hi & Hk & _)%list_find_Some]. exists t. split; [done|].
    apply list_elem_of_lookup_2 in Hi. by rewrite elem_of_reverse in Hi.
  - intros (t & -> & Ht). apply (list_find_elem_of _ _ t); [|done].
    by rewrite elem_of_reverse.
Qed.

Lemma serving_at cfg h :
  h ∈ claim_hostnames cfg ->
  exists t, t ∈ http_tunnels cfg /\ hostname t = h /\ http (routes cfg) !! h = Some (http_target t).
Proof.
  intros Hh. destruct (proj2 (serving_claimed cfg h) Hh) as [t Ht]. exists t.
  rewrite routes_http, Ht. unfold serving in Ht.
  apply fmap_Some in Ht as ([i u] & (Hi & Hk & _)%list_find_Some & ->). cbn [snd] in *.
  split_and!; auto. apply list_elem_of_lookup_2 in Hi. by rewrite elem_of_reverse in Hi.
Qed.

Definition lower_case (h : string) : Prop := to_ascii_lowercase h = h.

(** Every name the relay can grant is served: if the configured hostnames
    are in lower case, each name of the grant (the relay answers with the claimed
    names in lower case) reaches the local target of a tunnel configured with
    it, or, when that service is down or slow, the visitor is told so. *)
Theorem granted_is_served cfg connect h ip port :
  Forall lower_case (claim_hostnames cfg) -> h ∈ to_ascii_lowercase <$> claim_hostnames cfg ->
  exists t, t ∈ http_tunnels cfg /\ hostname t = h /\ http (routes cfg) !! h = Some (http_target t) /\
    handle_inbound (routes cfg) connect (Ok (Frames.Http h ip port)) =
      match connect (http_target t) with
      | LocalOk => SplicedTo (http_target t)
      | LocalRefused => Answered (write_502 (local_host t))
      | LocalTimeout => Answered (write_504 (local_host t))
      end.
Proof.
  intros Hlow (g & -> & Hg)%list_elem_of_fmap.
  rewrite Forall_forall in Hlow. rewrite (Hlow g Hg).
  destruct (serving_at cfg g Hg) as (t & Ht & Hk & Hroute). exists t. split_and!; auto.
  cbn [handle_inbound]. rewrite Hroute. unfold forward_http. by destruct (connect _).
Qed.

(** A tunnel whose hostname was configured with a capital letter is dead: the
    relay grants the name in lower case and routes visitors under it, but the
    daemon looks up its own spelling, so every visitor gets the daemon's 502
    page, whatever the local service does. *)
Theorem mixed_case_unserved cfg connect t ip port :
  t ∈ http_tunnels cfg ->
  to_ascii_lowercase (hostname t) ∉ claim_hostnames cfg ->
  to_ascii_lowercase (hostname t) ∈ to_ascii_lowercase <$> claim_hostnames cfg /\
  handle_inbound (routes cfg) connect (Ok (Frames.Http (to_ascii_lowercase (hostname t)) ip port)) =
    Answered (write_502 (to_ascii_lowercase (hostname t))).
Proof.
  intros Ht Hno. split.
  - apply list_elem_of_fmap_2. by apply list_elem_of_fmap_2.
  - cbn [handle_inbound]. rewrite routes_http.
    destruct (serving cfg _) eqn:E; [|done].
    destruct Hno. apply serving_claimed. by rewrite E.
Qed.

(** ** A concrete daemon *)
Definition demo_cfg : ClientConfig :=
  mkClientConfig "ethertunnel.com" None "etun_token"
    [mkHttpTunnel "demo.ethertunnel.com" "127.0.0.1" 8080] [] System.
Definition no_debug {A : Type} (_ : A) : string := EmptyString.

(** A relay that answers [hello] and [claim]. *)
Definition demo_io (hello claim : ControlFrame) : ConnIo :=
  mkConnIo (Ready (Ok [mkSocketAddr (V4 [Byte.x7f; Byte.x00; Byte.x00; Byte.x01]) 443]))
    (fun _ => Ready (Ok ())) (Ok ()) (Ok ()) (Ready (Ok ())) (Ready (Ok ())) (Ready (Ok ()))
    (Ready (Ok ())) (Ready (Ok ())) (Ready (Ok hello)) (Ready (Ok ())) (Ready (Ok claim)).
Definition good_io : ConnIo :=
  demo_io (Welcome 3 "0.1.0" 7) (Granted ["demo.ethertunnel.com"%string] []).
(** A connection that is lost after one heartbeat, one that is refused, one that
    stays up. *)
Definition lost : Attempt := mkAttempt good_io [Heartbeat true; RFail; Noticed] 26000 123 NoCancel.
Definition stable_lost : Attempt := mkAttempt good_io [RFail; Noticed] 60000 700 NoCancel.
Definition refused : Attempt :=
  mkAttempt (demo_io (Denied AuthFailed "no") Goodbye) [] 5 0 NoCancel.
Definition living : Attempt := mkAttempt good_io [Heartbeat true] 0 0 NoCancel.

Local Abbreviation demo_run := (run_supervisor "0.1.0" no_debug no_debug demo_cfg).

Example demo_waits : (demo_run [lost; lost; refused; lost; stable_lost; lost] sup_new).1 =
  Waited <$> [1123; 2123; 300000; 4123; 1200; 2123].
Proof. vm_compute. reflexivity. Qed.

Lemma supervisor_persists_witness :
  (demo_run ([(false, lost); (true, refused); (false, lost)].*2) sup_new).1 =
    Waited <$> waits [(false, lost); (true, refused); (false, lost)] 0 /\
  length (demo_run ([(false, lost); (true, refused); (false, lost)].*2) sup_new).1 = 3%nat /\
  Forall (fun t => exists ms, t = Waited ms /\ 1000 <= ms < 300500)
    (demo_run ([(false, lost); (true, refused); (false, lost)].*2) sup_new).1.
Proof.
  apply (supervisor_persists "0.1.0" no_debug no_debug demo_cfg [(false, lost); (true, refused); (false, lost)]).
  repeat constructor.
Defined.

Lemma status_grants_real_witness :
  let s' := (demo_run [lost; living] sup_new).2 in
  (nothing_granted (sup_status s') \/
     (exists a, a ∈ [lost; living] /\ grant_shown a (sup_status s') /\
        forall ms, last (demo_run [lost; living] sup_new).1 <> Some (Waited ms))) /\
  (state (sup_status s') = StAuthFailed -> exists a, a ∈ [lost; living] /\ denied_auth a).
Proof.
  apply (status_grants_real "0.1.0" no_debug no_debug demo_cfg [lost; living]).
  by destruct (demo_run [lost; living] sup_new).
Defined.
Example demo_granted :
  granted_hostnames (sup_status (demo_run [lost; living] sup_new).2) = ["demo.ethertunnel.com"%string].
Proof. vm_compute. reflexivity. Qed.

Lemma connected_shown_while_down_witness :
  let t := sup_turn "0.1.0" no_debug no_debug demo_cfg lost sup_new in
  t.1 = Waited 1123 /\ state (sup_status t.2) = Connected.
Proof.
  split; [vm_compute; reflexivity|].
  eapply (connected_shown_while_down "0.1.0" no_debug no_debug demo_cfg lost sup_new _
    (mkConn default_status false [])); vm_compute; reflexivity.
Defined.

Lemma granted_is_served_witness :
  exists t, t ∈ http_tunnels demo_cfg /\ hostname t = "demo.ethertunnel.com"%string /\
    http (routes demo_cfg) !! "demo.ethertunnel.com"%string = Some (http_target t) /\
    handle_inbound (routes demo_cfg) (fun _ => LocalOk)
      (Ok (Frames.Http "demo.ethertunnel.com" (V4 []) 5)) = SplicedTo (http_target t).
Proof.
  apply (granted_is_served demo_cfg (fun _ => LocalOk) "demo.ethertunnel.com" (V4 []) 5).
  - repeat constructor.
  - vm_compute. constructor.
Defined.

Definition capital_cfg : ClientConfig :=
  mkClientConfig "ethertunnel.com" None "etun_token"
    [mkHttpTunnel "Demo.ethertunnel.com" "127.0.0.1" 8080] [] System.
Lemma mixed_case_unserved_witness :
  "demo.ethertunnel.com"%string ∈ to_ascii_lowercase <$> claim_hostnames capital_cfg /\
  handle_inbound (routes capital_cfg) (fun _ => LocalOk)
    (Ok (Frames.Http "demo.ethertunnel.com" (V4 []) 5)) =
    Answered (write_502 "demo.ethertunnel.com").
Proof.
  apply (mixed_case_unserved capital_cfg (fun _ => LocalOk)
    (mkHttpTunnel "Demo.ethertunnel.com" "127.0.0.1" 8080) (V4 []) 5).
  - constructor.
  - vm_compute. intros H. inversion H as [|? ? ? H']; inversion H'.
Defined.
