(* ===== verification/ClientRelay.v ===== *)
(** * A daemon connected to a relay

    The client of ClientDaemon.v and the session of Session.v joined by their
    control stream: the relay's control task reads what the daemon writes, the
    daemon reads what the relay queues, in order. *)
From S2P Require Import Prelude Limits Frames Codec Router Auth Polar Session SessionProps ClientDaemon ClientProps.
Local Open Scope Z_scope.

Section Joined.
Context {W : Type} `{!SessionWorld W, !OwnerView W, !SessionLaws W}.
Context (stalls : nat -> bool) (server_version agent_version : string).
Context (debug_resource : Resource -> string).
Context (debug_frame : ControlFrame -> string) (debug_code : DenyCode -> string).
Context (session_id : Z) (revalidate_on : bool).

(** The frames [connect_once] writes after [Hello]. *)
Definition client_events (cfg : ClientConfig) : list CtrlEvent :=
  match claim_hostnames cfg, claim_ports cfg with
  | [], [] => []
  | hs, ps => [EvFrame (Claim hs ps)]
  end.
(** The relay's side, given what [connect_once] writes: preamble, [Hello], and
    the claim. *)
Definition relay_run (cfg : ClientConfig) (w : W) : Handshake * Next * Sess W :=
  control_task stalls server_version debug_resource revalidate_on session_id
    (HsGot (Ok PROTOCOL_VERSION)) (HsGot (Ok (hello_frame cfg agent_version)))
    (client_events cfg) w.

(** What the daemon finds on the control stream. *)
Definition relay_answers (run : Handshake * Next * Sess W) : list ControlFrame :=
  match run with
  | (HsAccepted _ _ _, _, s) => out s
  | (HsDenied code message, _, _) => [Denied code message]
  | _ => []
  end.
Definition answer_at (l : list ControlFrame) (i : nat) : Poll (result CodecError ControlFrame) :=
  match l !! i with Some f => Ready (Ok f) | None => Pending end.

(** A network that works, in front of that relay. *)
Definition joined_io (cfg : ClientConfig) (w : W) : ConnIo :=
  let l := relay_answers (relay_run cfg w) in
  mkConnIo (Ready (Ok [mkSocketAddr (V4 []) 443])) (fun _ => Ready (Ok ())) (Ok ()) (Ok ())
    (Ready (Ok ())) (Ready (Ok ())) (Ready (Ok ())) (Ready (Ok ())) (Ready (Ok ()))
    (answer_at l 0) (Ready (Ok ())) (answer_at l 1).

Definition joined (cfg : ClientConfig) (evs : list SteadyEvent) (w : W) : result Halt () * ClientDaemon.Conn :=
  connect_once agent_version debug_frame debug_code cfg (joined_io cfg w) evs
    (mkConn default_status false []).

(** The relay takes the current version from this client. *)
Lemma client_negotiates : negotiate 1 PROTOCOL_VERSION = Some PROTOCOL_VERSION.
Proof using. reflexivity. Qed.

Definition grant_holds (user : AuthedUser) (hs : list string) (ps : list Z) (w : W) : Prop :=
  (forall h, h ∈ hs -> host_owner w h = Some (user_id user) /\
     lookup_http (router_of w) h = Some (mkHandle session_id (user_id user))) /\
  (forall p, p ∈ ps -> port_owner w p = Some (user_id user) /\
     lookup_tcp (router_of w) p = Some (mkHandle session_id (user_id user))).

(** The claim of a fresh session: a [Granted] after the [Welcome] holds. *)
Lemma fresh_claim (user : AuthedUser) (tok : string) (chs hs : list string) (cps ps : list Z) w1 welcome :
  auth_inv w1 ->
  let r := ctrl_loop stalls debug_resource revalidate_on (mkHandle session_id (user_id user)) user tok
             [EvFrame (Claim chs cps)] (mkSess w1 [welcome] 1) in
  out r.2 !! 1%nat = Some (Granted hs ps) ->
  hs = to_ascii_lowercase <$> chs /\ ps = cps /\ grant_holds user hs ps (world r.2).
Proof using SessionLaws0.
  intros I1. cbn [ctrl_loop ctrl_step on_frame].
  pose proof (handle_claim_run stalls (mkHandle session_id (user_id user)) user tok chs cps
    (mkSess w1 [welcome] 1) eq_refl I1) as Hr.
  destruct (handle_claim _ _ _ _ _ _ _) as [ok s'].
  destruct Hr as (_ & _ & _ & _ & [[_ Hd]|([Ho|Ho] & Hh & Hp)]).
  - destruct ok; cbn [snd]; destruct Hd as [->|(c & m & ->)]; done.
  - destruct ok; cbn [snd]; by rewrite Ho.
  - assert (Hg : out s' !! 1%nat = Some (Granted hs ps) ->
      hs = to_ascii_lowercase <$> chs /\ ps = cps /\ grant_holds user hs ps (world s')).
    { rewrite Ho. cbn. intros [= <- <-]. split_and!; [done..|]. split; [done|].
      intros p Hin. destruct (Hp p Hin) as (? & ? & _). done. }
    by destruct ok.
Qed.

Lemma relay_grant cfg w hs ps :
  safe w -> answer_at (relay_answers (relay_run cfg w)) 1 = Ready (Ok (Granted hs ps)) ->
  exists user n s, (authenticate_any (token cfg) w).1 = Some user /\
    relay_run cfg w = (HsAccepted user (token cfg) PROTOCOL_VERSION, n, s) /\
    hs = to_ascii_lowercase <$> claim_hostnames cfg /\ ps = claim_ports cfg /\
    grant_holds user hs ps (world s).
Proof using SessionLaws0.
  intros Hi. unfold relay_run, control_task, handshake, hello_frame, answer_at.
  rewrite client_negotiates. cbn [expose].
  pose proof (authenticate_any_safe (token cfg) w Hi) as [I1 _].
  destruct (authenticate_any (token cfg) w) as [[user|] w1] eqn:Ea; [|done].
  cbn [snd] in I1. unfold push at 1 2. cbn [sends]. destruct (stalls 0); [done|].
  cbn [sends world out app].
  set (wel := Welcome PROTOCOL_VERSION server_version session_id).
  assert (Hev : client_events cfg = [] \/
    client_events cfg = [EvFrame (Claim (claim_hostnames cfg) (claim_ports cfg))]).
  { unfold client_events. destruct (claim_hostnames cfg), (claim_ports cfg); auto. }
  destruct Hev as [->| ->]; [done|].
  pose proof (fresh_claim user (token cfg) (claim_hostnames cfg) hs (claim_ports cfg) ps w1 wel I1) as Hf.
  destruct (ctrl_loop _ _ _ _ _ _ _ _) as [n s]. cbn [relay_answers snd] in *.
  destruct (out s !! 1%nat) as [f|] eqn:Ef; [|done]. intros [= ->].
  destruct (Hf eq_refl) as (-> & -> & Hg). exists user, n, s. done.
Qed.

(** C5 The tunnel holds from end to end: when a daemon shows a name as granted
    after connecting to a relay, the relay authenticated the daemon's token, speaks
    its newest protocol, owns the name for that user and routes visitors of it to
    this very session; and, provided the names in the daemon's configuration are in
    lower case, a stream the relay opens for such a visitor reaches the local target
    configured for the name. *)
Theorem tunnel_end_to_end (cfg : ClientConfig) (evs : list SteadyEvent) (w : W) (h : string)
    (connect : LocalTarget -> LocalConnect) (ip : IpAddr) (port : Z) :
  safe w -> h ∈ granted_hostnames (status (joined cfg evs w).2) ->
  (exists user n s, (authenticate_any (token cfg) w).1 = Some user /\
     relay_run cfg w = (HsAccepted user (token cfg) PROTOCOL_VERSION, n, s) /\
     host_owner (world s) h = Some (user_id user) /\
     lookup_http (router_of (world s)) h = Some (mkHandle session_id (user_id user))) /\
  (Forall lower_case (claim_hostnames cfg) -> exists t, t ∈ http_tunnels cfg /\ hostname t = h /\
    handle_inbound (routes cfg) connect (Ok (Frames.Http h ip port)) = forward_http connect (http_target t)).
Proof using SessionLaws0.
  intros Hs Hh. destruct (joined cfg evs w) as [r c] eqn:E. unfold joined in E.
  apply connect_status in E as [[Est _]|[_ [Est|(hs & ps & Hr & Est)]]]; cbn [snd] in Hh; rewrite Est in Hh;
    [by apply not_elem_of_nil in Hh|by apply not_elem_of_nil in Hh|].
  destruct (relay_grant cfg w hs ps Hs Hr) as (user & n & s & Ha & Hrun & -> & -> & [Hg _]).
  split; [exists user, n, s; destruct (Hg h Hh); done|].
  intros Hlow. cbn in Hh. apply list_elem_of_fmap in Hh as (g & -> & Hgin).
  rewrite Forall_forall in Hlow. rewrite (Hlow g Hgin).
  destruct (serving_at cfg g Hgin) as (t & Ht & Hk & Hroute). exists t. split_and!; [done..|].
  cbn [handle_inbound]. by rewrite Hroute.
Qed.

(** A refused token stops the hammering: when the relay's authentication
    turns the daemon's token down, the attempt ends as an authentication failure
    and publishes no grant. *)
Theorem refused_token_seen (cfg : ClientConfig) (evs : list SteadyEvent) (w : W) :
  (authenticate_any (token cfg) w).1 = None ->
  (joined cfg evs w).1 = Err (Failed ConnAuth) /\ status (joined cfg evs w).2 = default_status.
Proof using.
  intros Ha. unfold joined, connect_once, joined_io, relay_run, control_task, handshake, hello_frame.
  rewrite client_negotiates. cbn [expose].
  destruct (authenticate_any (token cfg) w) as [u w1]. cbn [fst] in Ha. subst u.
  unfold establish, relay_answers, answer_at. cbn. by destruct (relay_addr cfg).
Qed.
End Joined.
