(* ===== verification/ClientDemo.v ===== *)
(** * A concrete daemon on a concrete relay

    The daemon of ClientRelay.v run against the relay of SessionDemo.v. *)
From S2P Require Import Prelude Frames Router Auth Registry RegistryInv RegistryProps Polar PolarProps Codec Session SessionProps Relay SessionDemo ClientDaemon ClientProps ClientRelay.
Import PolarDemo.
Local Open Scope Z_scope.

#[local] Existing Instances ScriptBackend sound_cache sound_db demo_env demo_auth demo_sessions demo_view demo_laws.

Definition mat_cfg : ClientConfig :=
  mkClientConfig demo_domain None mat_token [mkHttpTunnel "demo.relay.dev" "127.0.0.1" 8080]
    [mkTcpTunnel 20000 "127.0.0.1" 22] System.
Definition stranger_cfg : ClientConfig :=
  mkClientConfig demo_domain None "etun_unknown" [mkHttpTunnel "demo.relay.dev" "127.0.0.1" 8080] [] System.

Local Abbreviation demo_joined cfg w :=
  (joined never_stalls "0.1.0" "0.1.0" no_debug no_debug no_debug 7 true cfg [Heartbeat true] w).

Lemma demo_safe : safe (demo_relay demo_conn).
Proof.
  split; [exact demo_start_inv|]. split; intros ? ? H; vm_compute in H; done.
Qed.

Example mat_connects :
  granted_hostnames (status (demo_joined mat_cfg (demo_relay demo_conn)).2) = ["demo.relay.dev"%string] /\
  granted_ports (status (demo_joined mat_cfg (demo_relay demo_conn)).2) = [20000].
Proof. vm_compute. auto. Qed.

Lemma tunnel_end_to_end_witness :
  (exists user n s, (authenticate_any (token mat_cfg) (demo_relay demo_conn)).1 = Some user /\
     relay_run never_stalls "0.1.0" "0.1.0" no_debug 7 true mat_cfg (demo_relay demo_conn) =
       (HsAccepted user (token mat_cfg) 3, n, s) /\
     host_owner (world s) "demo.relay.dev" = Some (Auth.user_id user) /\
     lookup_http (router_of (world s)) "demo.relay.dev" = Some (mkHandle 7 (Auth.user_id user))) /\
  exists t, t ∈ http_tunnels mat_cfg /\ hostname t = "demo.relay.dev"%string /\
    handle_inbound (routes mat_cfg) (fun _ => LocalOk) (Ok (Frames.Http "demo.relay.dev" (V4 []) 5)) =
      SplicedTo (http_target t).
Proof.
  destruct (tunnel_end_to_end never_stalls "0.1.0" "0.1.0" no_debug no_debug no_debug 7 true mat_cfg
    [Heartbeat true] (demo_relay demo_conn) "demo.relay.dev" (fun _ => LocalOk) (V4 []) 5) as [H1 H2].
  - exact demo_safe.
  - rewrite (proj1 mat_connects). constructor.
  - split; [exact H1|]. apply H2. repeat constructor.
Defined.

Lemma refused_token_seen_witness :
  (demo_joined stranger_cfg (demo_relay demo_conn)).1 = Err (Failed ConnAuth) /\
  status (demo_joined stranger_cfg (demo_relay demo_conn)).2 = default_status.
Proof.
  apply (refused_token_seen never_stalls "0.1.0" "0.1.0" no_debug no_debug no_debug 7 true stranger_cfg
    [Heartbeat true] (demo_relay demo_conn)).
  vm_compute. reflexivity.
Defined.
