(* ===== verification/ClientFiles.v ===== *)
(** * The client's files (crates/client/src/paths.rs, creds.rs, config.rs, status.rs)

    The configuration, the credentials and the status snapshot live in one
    directory and are written through [atomic_write] (Fs.v).  TOML and JSON are
    the class [Format] with its round-trip law. *)
From S2P Require Import Prelude Frames Fs ClientDaemon.
Local Open Scope Z_scope.

(** ** File names *)
Definition config_file : string := "config.toml".
Definition credentials_file : string := "credentials.toml".
Definition status_file : string := "status.json".

(** ** Formats *)
Class Format (T : Type) := {
  render : T -> result string (list byte);
  parse : list byte -> result string T;
}.
(** Documented behaviour of serde's formats: what they write, they read back. *)
Class FormatLaw (T : Type) `{Format T} :=
  format_roundtrip : forall (x : T) bs, render x = Ok bs -> parse bs = Ok x.

(** Reading a file that may be missing: the default then, an error when it does
    not parse. *)
Definition load_file {T : Type} `{Format T} (dflt : T) (path : string) : st Disk string T :=
  fun d =>
    let d' := mkDisk (files d) (tail (faults d)) in
    match faults d with
    | Fails _ :: _ => (Err ("reading " +:+ path), d')
    | _ => match files d !! path with
           | None => (Ok dflt, d')
           | Some f => (parse (content f), d')
           end
    end.
Definition save_file {T : Type} `{Format T} (path : string) (m : Z) (x : T) : st Disk string () :=
  match render x with
  | Ok bytes => atomic_write path bytes m
  | Err e => st_fail e
  end.

(** ** Credentials *)
Abbreviation CredFile := (gmap string string).
Definition cred_load `{Format CredFile} : st Disk string CredFile := load_file ∅ credentials_file.
Definition cred_save `{Format CredFile} (c : CredFile) : st Disk string () :=
  save_file credentials_file 384 c. (* 0o600 *)
Definition store `{Format CredFile} (relay token : string) : st Disk string () :=
  c ← cred_load; cred_save (<[relay := token]> c).

(** The environment: variables, and what reading a file outside the
    configuration directory gives. *)
Record Env := mkEnv { var : string -> option string; read_to_string : string -> option string }.

Definition nonempty (o : option string) : option string :=
  match o with
  | Some s => if is_empty s then None else Some s
  | None => None
  end.
Definition token_from_file (e : Env) : option string :=
  p ← nonempty (var e "ETUN_TOKEN_FILE");
  tok ← read_to_string e p;
  nonempty (Some (trim tok)).
Definition token_from_env (e : Env) : option string :=
  match nonempty (var e "ETUN_TOKEN") with
  | Some t => Some t
  | None => nonempty (var e "ETUN_LICENSE_KEY")
  end.
Definition resolve `{Format CredFile} (e : Env) (relay : string) : st Disk string (option string) :=
  match token_from_file e with
  | Some t => mret (Some t)
  | None =>
      match token_from_env e with
      | Some t => mret (Some t)
      | None => c ← cred_load; mret (c !! relay)
      end
  end.

(** ** Configuration *)
Inductive Proto := PHttp | PTcp.
#[export] Instance Proto_eq_dec : EqDecision Proto.
Proof. solve_decision. Defined.
Record TunnelConfig := mkTunnel {
  t_name : string;
  t_port : Z;
  t_local_host : string;
  t_protocol : Proto;
  t_hostname : option string;
  t_public_port : option Z;
}.
#[export] Instance TunnelConfig_eq_dec : EqDecision TunnelConfig.
Proof. solve_decision. Defined.
Definition default_local_host : string := "127.0.0.1".
Record FileConfig := mkFileConfig {
  relay : string;
  relay_ca : option string;
  tunnels : list TunnelConfig;
}.
Definition default_config : FileConfig := mkFileConfig EmptyString None [].

(** [read]: the bytes of a file; [first_cert]: the first certificate of a PEM. *)
Definition trust_mode (read : string -> result string (list byte))
    (first_cert : list byte -> option (list byte)) (cfg : FileConfig) : result string TrustMode :=
  match relay_ca cfg with
  | None => Ok System
  | Some path =>
      match read path with
      | Err e => Err ("reading relay_ca " +:+ path +:+ ": " +:+ e)
      | Ok pem =>
          match first_cert pem with
          | None => Err ("parsing relay_ca " +:+ path)
          | Some der => Ok (CustomRoot der)
          end
      end
  end.

Definition config_load `{Format FileConfig} : st Disk string FileConfig :=
  load_file default_config config_file.
Definition config_save `{Format FileConfig} (cfg : FileConfig) : st Disk string () :=
  save_file config_file 420 cfg. (* 0o644 *)

Definition tunnel (cfg : FileConfig) (n : string) : option TunnelConfig :=
  snd <$> list_find (fun t => t_name t = n) (tunnels cfg).
Definition fqdn (cfg : FileConfig) (t : TunnelConfig) : string :=
  default (t_name t) (t_hostname t) +:+ "." +:+ relay cfg.

Fixpoint collect_tunnels (cfg : FileConfig) (l : list TunnelConfig) :
    result string (list HttpTunnel * list TcpTunnel) :=
  match l with
  | [] => Ok ([], [])
  | t :: rest =>
      match t_protocol t with
      | PHttp =>
          '(hs, ps) ← collect_tunnels cfg rest;
          Ok (mkHttpTunnel (fqdn cfg t) (t_local_host t) (t_port t) :: hs, ps)
      | PTcp =>
          match t_public_port t with
          | None => Err ("tcp tunnel `" +:+ t_name t +:+ "` needs a public_port")
          | Some p =>
              '(hs, ps) ← collect_tunnels cfg rest;
              Ok (hs, mkTcpTunnel p (t_local_host t) (t_port t) :: ps)
          end
      end
  end.
Definition to_client_config (cfg : FileConfig) (token : string) (trust : TrustMode) :
    result string ClientConfig :=
  if is_empty (relay cfg) then Err "no relay configured; run `etun login` first"%string
  else
    '(hs, ps) ← collect_tunnels cfg (tunnels cfg);
    Ok (mkClientConfig (relay cfg) None token hs ps trust).

(** ** The status snapshot *)
Record StatusSnapshot := mkSnapshot {
  sn_state : string;
  sn_relay : string;
  sn_hostnames : list string;
  sn_ports : list Z;
  sn_reconnects : Z;
  sn_pid : Z;
}.
Definition from_daemon (relay : string) (pid : Z) (s : DaemonStatus) : StatusSnapshot :=
  mkSnapshot (match state s with
              | Connecting => "connecting"
              | Connected => "connected"
              | StAuthFailed => "auth_failed"
              end) relay (granted_hostnames s) (granted_ports s) (reconnects s) pid.
Definition status_write `{Format StatusSnapshot} (s : StatusSnapshot) : st Disk string () :=
  save_file status_file 420 s.
(** A snapshot that does not parse reads as none. *)
Definition status_read `{Format StatusSnapshot} : st Disk string (option StatusSnapshot) :=
  fun d =>
    let d' := mkDisk (files d) (tail (faults d)) in
    match faults d with
    | Fails _ :: _ => (Err ("reading " +:+ status_file), d')
    | _ => match files d !! status_file with
           | None => (Ok None, d')
           | Some f => (Ok (match parse (content f) with Ok s => Some s | Err _ => None end), d')
           end
    end.

