(* ===== verification/ClientCommands.v ===== *)
(** * The client's commands (crates/client/src/control.rs, login.rs, commands.rs)

    One-shot control requests to the relay, and the subcommands that edit the
    configuration.  What the relay and the network answer to one request is an
    input ([ControlIo]); the terminal and the environment are arguments.  The
    lines a command prints are part of its result where they tell the user
    something the code decides. *)
From stdpp Require Import pretty.
From S2P Require Import Prelude Limits Frames Codec Fs ClientDaemon ClientFiles.
Local Open Scope Z_scope.

(** ** One-shot control requests *)
Definition PROTO_OWNED_SET : Z := 3.

(** A step under a deadline. *)
Inductive Timed (A : Type) := TimedOut | Got (r : A).
Arguments TimedOut {A}.
Arguments Got {A} r.

Record ControlIo := mkControlIo {
  ci_connect : Timed (result string ());
  ci_preamble : result CodecError ();
  ci_hello : result CodecError ();
  ci_reply : Timed (result CodecError ControlFrame);
  ci_request : result CodecError ();
  ci_answer : Timed (result CodecError ControlFrame);
}.

Record OwnedSet := mkOwnedSet { o_hostnames : list string; o_tcp_ports : list Z; o_max_tunnels : option Z }.
Definition used (o : OwnedSet) : nat := length (o_hostnames o) + length (o_tcp_ports o).
Record Freed := mkFreed { f_hostnames : list string; f_tcp_ports : list Z }.
Record VerifyOk := mkVerifyOk { v_session_id : Z; v_proto : Z }.

Section Control.
Context (agent_version : string).
(** [Display] of codec errors and [Debug] of codes and frames. *)
Context (show_codec : CodecError -> string) (debug_code : DenyCode -> string)
  (debug_frame : ControlFrame -> string).

(** The frames a request writes, in order. *)
Abbreviation req := (st (list ControlFrame) string).
Definition emit (f : ControlFrame) (r : result CodecError ()) : req () :=
  fun sent => match r with
              | Ok _ => (Ok (), sent ++ [f])
              | Err e => (Err (show_codec e), sent)
              end.
Definition need {A : Type} (r : result string A) : req A := fun sent => (r, sent).

Definition hello_of (tok : string) : ControlFrame :=
  Hello (mkSecret tok) agent_version 1 PROTOCOL_VERSION.

(** [open]: connect under a deadline, [Hello], [Welcome]. *)
Definition open (relay tok : string) (io : ControlIo) : req Z :=
  need (match ci_connect io with
        | TimedOut => Err ("timed out connecting to connect." +:+ relay +:+ " (10s)")
        | Got r => r
        end) ;;
  need (map_err show_codec (ci_preamble io)) ;;
  emit (hello_of tok) (ci_hello io) ;;
  need (match ci_reply io with
        | TimedOut => Err "relay did not respond to Hello within 10s"%string
        | Got (Ok (Welcome proto _ _)) => Ok proto
        | Got (Ok (Denied AuthFailed _)) => Err "relay rejected the token (run `etun login` again)"%string
        | Got (Ok (Denied code message)) =>
            Err ("relay denied the connection (" +:+ debug_code code +:+ "): " +:+ message)
        | Got (Ok other) => Err ("unexpected reply to Hello: " +:+ debug_frame other)
        | Got (Err e) => Err ("reading relay reply: " +:+ show_codec e)
        end).

Definition read_reply (io : ControlIo) : result string ControlFrame :=
  match ci_answer io with
  | TimedOut => Err "relay did not reply within 10s"%string
  | Got (Ok f) => Ok f
  | Got (Err e) => Err ("reading relay reply: " +:+ show_codec e)
  end.
(** [ControlSession::close]: the [Goodbye] is best effort. *)
Definition close : req () := fun sent => (Ok (), sent ++ [Goodbye]).
(** Run the rest, then close, and return what the rest returned. *)
Definition then_close {A : Type} (r : result string A) : req A :=
  close ;; need r.

Definition list_owned (relay tok : string) (io : ControlIo) : req OwnedSet :=
  proto ← open relay tok io;
  if proto <? PROTO_OWNED_SET then
    then_close (Err ("relay is too old to report owned tunnels (needs protocol v" +:+
                     pretty PROTO_OWNED_SET +:+ "+)"))
  else
    emit ListOwned (ci_request io) ;;
    then_close (match read_reply io with
                | Ok (Frames.Owned hs ps max) => Ok (mkOwnedSet hs ps max)
                | Ok other => Err ("unexpected reply to ListOwned: " +:+ debug_frame other)
                | Err e => Err e
                end).

Definition release_remote (relay tok : string) (hostnames : list string) (tcp_ports : list Z)
    (io : ControlIo) : req Freed :=
  proto ← open relay tok io;
  if proto <? PROTO_OWNED_SET then
    then_close (Err ("relay is too old to release tunnels remotely (needs protocol v" +:+
                     pretty PROTO_OWNED_SET +:+ "+)"))
  else
    emit (Release hostnames tcp_ports) (ci_request io) ;;
    then_close (match read_reply io with
                | Ok (Released hs ps) => Ok (mkFreed hs ps)
                | Ok other => Err ("unexpected reply to Release: " +:+ debug_frame other)
                | Err e => Err e
                end).

(** [login::verify]: the connection has no deadline there, and a denial leaves
    without a [Goodbye]. *)
Definition verify (connect : result string ()) (tok : string) (io : ControlIo) : req VerifyOk :=
  need connect ;;
  need (map_err show_codec (ci_preamble io)) ;;
  emit (hello_of tok) (ci_hello io) ;;
  v ← need (match ci_reply io with
            | TimedOut => Err "relay did not respond to Hello within 10s"%string
            | Got (Ok (Welcome proto _ sid)) => Ok (mkVerifyOk sid proto)
            | Got (Ok (Denied AuthFailed _)) => Err "relay rejected the token (authentication failed)"%string
            | Got (Ok (Denied code message)) =>
                Err ("relay denied the connection (" +:+ debug_code code +:+ "): " +:+ message)
            | Got (Ok other) => Err ("unexpected reply to Hello: " +:+ debug_frame other)
            | Got (Err e) => Err ("reading relay reply: " +:+ show_codec e)
            end);
  close ;; mret v.
End Control.

(** ** Plans and reports *)
Definition plan_line (o : OwnedSet) : option string :=
  match o_max_tunnels o with
  | None => None
  | Some cap =>
      if cap =? 0 then
        Some "Plan: your subscription does not permit active tunnels. `etun up` will be rejected until you resubscribe."%string
      else
        (* [cap as usize] *)
        if cap mod 2 ^ 64 <=? Z.of_nat (used o) then
          Some ("Plan: " +:+ pretty (used o) +:+ "/" +:+ pretty cap +:+
            " tunnels used — at your limit. `etun up` will reject new tunnels until you upgrade or `etun release` one.")
        else Some ("Plan: " +:+ pretty (used o) +:+ "/" +:+ pretty cap +:+ " tunnels used.")
  end.

Definition report_released (f : Freed) : list string :=
  match f_hostnames f, f_tcp_ports f with
  | [], [] => ["relay: nothing to release (the relay did not have you owning it)"%string]
  | hs, ps => ((fun h => "released on relay: " +:+ h) <$> hs) ++
              ((fun p => "released on relay: tcp port " +:+ pretty p) <$> ps)
  end.

Definition tunnel_resource (cfg : FileConfig) (t : TunnelConfig) : list string * list Z :=
  match t_protocol t with
  | PHttp => ([fqdn cfg t], [])
  | PTcp => ([], option_list (t_public_port t))
  end.

(** [print_remote_reconcile]: each resource the relay owns, and whether it is an
    orphan; then whether the advice on orphans is printed. *)
Definition local_hosts (cfg : FileConfig) : gset string :=
  list_to_set (fqdn cfg <$> filter (fun t => t_protocol t = PHttp) (tunnels cfg)).
Definition local_ports (cfg : FileConfig) : gset Z :=
  list_to_set (omap t_public_port (filter (fun t => t_protocol t = PTcp) (tunnels cfg))).
Record Reconciled := mkReconciled {
  r_plan : option string;
  r_hosts : list (string * bool);
  r_ports : list (Z * bool);
  r_advice : bool;
}.
Definition print_remote_reconcile (cfg : FileConfig) (o : OwnedSet) : Reconciled :=
  let hs := (fun h => (h, bool_decide (h ∉ local_hosts cfg))) <$> o_hostnames o in
  let ps := (fun p => (p, bool_decide (p ∉ local_ports cfg))) <$> o_tcp_ports o in
  mkReconciled (plan_line o) hs ps (existsb snd hs || existsb snd ps).

(** ** Commands *)
Definition DEFAULT_RELAY : string := "ethertunnel.com".
Definition resolve_relay (arg : option string) (configured : string) : string :=
  default DEFAULT_RELAY (arg ∪ (if is_empty configured then None else Some configured)).

(** How [login] may be given the token. *)
Record LoginIn := mkLoginIn {
  token_stdin : bool;
  stdin : result string string;
  is_terminal : bool;
  prompt : result string string;
}.
Definition login_token (e : Env) (i : LoginIn) : result string string :=
  if token_stdin i then map_ok trim (stdin i)
  else
    match var e "ETUN_TOKEN" with
    | Some t => Ok t
    | None =>
        match var e "ETUN_LICENSE_KEY" with
        | Some t => Ok t
        | None =>
            if is_terminal i then map_ok trim (prompt i)
            else Err "provide the token via --token-stdin or the ETUN_TOKEN / ETUN_LICENSE_KEY env var"%string
        end
    end.

Section Commands.
Context `{Format FileConfig, Format CredFile, Format StatusSnapshot}.
(** What [trust_mode] and the relay give. *)
Context (trust_of : FileConfig -> result string TrustMode).
Context (e : Env).

Definition lift {A : Type} (r : result string A) : st Disk string A := fun d => (r, d).

(** Carry on after an error, knowing that there was one. *)
Definition attempt {A : Type} (c : st Disk string A) : st Disk string (option A) :=
  fun d => match c d with
           | (Ok a, d') => (Ok (Some a), d')
           | (Err _, d') => (Ok None, d')
           end.

(** [verify_relay relay token trust]: the round trip of [login::verify]. *)
Definition login (verify_relay : string -> string -> TrustMode -> result string VerifyOk)
    (arg : option string) (i : LoginIn) : st Disk string VerifyOk :=
  cfg ← config_load;
  let target := resolve_relay arg (relay cfg) in
  token ← lift (login_token e i);
  if is_empty token then st_fail "empty token"%string
  else
    trust ← lift (trust_of cfg);
    ok ← lift (verify_relay target token trust);
    store target token ;;
    (if is_empty (relay cfg)
     then config_save (mkFileConfig target (relay_ca cfg) (tunnels cfg))
     else mret ()) ;;
    mret ok.

Definition add_tunnel (t : TunnelConfig) (cfg : FileConfig) : FileConfig :=
  mkFileConfig (relay cfg) (relay_ca cfg) (filter (fun u => t_name u <> t_name t) (tunnels cfg) ++ [t]).
(** Relay, token and trust for a request. *)
Definition relay_creds (cfg : FileConfig) : st Disk string (string * string * TrustMode) :=
  if is_empty (relay cfg) then st_fail "no relay configured; run `etun login` first"%string
  else
    tok ← resolve e (relay cfg);
    match tok with
    | None => st_fail ("not logged in to " +:+ relay cfg +:+ "; run `etun login`")
    | Some token => trust ← lift (trust_of cfg); mret (relay cfg, token, trust)
    end.

(** [advise_plan]: best effort, the line it prints if any; the request runs under
    its own deadline. *)
Definition advise_plan (fetch : string -> string -> TrustMode -> Timed (result string OwnedSet))
    (cfg : FileConfig) : st Disk string (list string) :=
  creds ← attempt (relay_creds cfg);
  mret (match creds with
        | Some (r, tok, trust) =>
            match fetch r tok trust with
            | Got (Ok o) => option_list (plan_line o)
            | _ => []
            end
        | None => []
        end).
(** [add]: the edit, then the advisory. *)
Definition add (fetch : string -> string -> TrustMode -> Timed (result string OwnedSet))
    (n : string) (port : Z) (host : option string) (tcp_public_port : option Z)
    (lhost : option string) : st Disk string (list string) :=
  cfg ← config_load;
  let proto := match tcp_public_port with Some _ => PTcp | None => PHttp end in
  let lh := default "127.0.0.1"%string lhost in
  let cfg' := add_tunnel (mkTunnel n port lh proto host tcp_public_port) cfg in
  config_save cfg' ;;
  lines ← advise_plan fetch cfg';
  mret (("added tunnel `" +:+ n +:+ "` -> " +:+ lh +:+ ":" +:+ pretty port) :: lines).

(** A remote request: relay, token, trust, hostnames, ports. *)
Abbreviation Remote := (string -> string -> TrustMode -> list string -> list Z -> result string Freed).

Definition position (n : string) (l : list TunnelConfig) : option nat :=
  fst <$> list_find (fun t => t_name t = n) l.

(** [remove]: the local edit first, then the release, whose failure is only
    reported.  The result is what was asked of the relay and its answer. *)
Definition remove (remote : Remote) (n : string) :
    st Disk string ((list string * list Z) * option (result string Freed)) :=
  cfg ← config_load;
  match position n (tunnels cfg) with
  | None => st_fail ("no such tunnel: " +:+ n)
  | Some idx =>
      let res := default ([], []) (tunnel_resource cfg <$> tunnels cfg !! idx) in
      let cfg' := mkFileConfig (relay cfg) (relay_ca cfg) (delete idx (tunnels cfg)) in
      config_save cfg' ;;
      creds ← attempt (relay_creds cfg');
      mret (res, (fun '(r, tok, trust) => remote r tok trust res.1 res.2) <$> creds)
  end.

(** What [release] asks the relay to free. *)
Definition release_target (cfg : FileConfig) (target : string) : list string * list Z :=
  match tunnel cfg target with
  | Some t => tunnel_resource cfg t
  | None =>
      ([if contains_char (Ascii.ascii_of_nat 46) target then target else target +:+ "." +:+ relay cfg], [])
  end.
Definition release (remote : Remote) (target : string) : st Disk string Freed :=
  cfg ← config_load;
  '(r, tok, trust) ← relay_creds cfg;
  let res := release_target cfg target in
  lift (remote r tok trust res.1 res.2).

(** [list] without [--json]: the reconciliation, when the relay can be asked. *)
Definition list_cmd (fetch : string -> string -> TrustMode -> result string OwnedSet) :
    st Disk string (FileConfig * option (result string Reconciled)) :=
  cfg ← config_load;
  creds ← attempt (relay_creds cfg);
  mret (cfg, (fun '(r, tok, trust) => map_ok (print_remote_reconcile cfg) (fetch r tok trust)) <$> creds).

(** [up] until the supervisor starts. *)
Definition up : st Disk string ClientConfig :=
  cfg ← config_load;
  tok ← resolve e (relay cfg);
  match tok with
  | None => st_fail "no token for this relay; run `etun login` first"%string
  | Some token =>
      trust ← lift (trust_of cfg);
      lift (to_client_config cfg token trust)
  end.
End Commands.
