(* ===== verification/ClientEdits.v ===== *)
(** * What the client's commands leave on disk

    The commands of ClientCommands.v change the files exactly as they say: the
    credentials of a login the relay accepted, one tunnel added or removed. *)
From S2P Require Import Prelude Limits Frames Codec Fs ClientDaemon ClientFiles ClientCommands.
Local Open Scope Z_scope.

(** What a file means: its parsed content, the default when it is missing. *)
Definition view {T : Type} `{Format T} (dflt : T) (path : string) (d : Disk) : result string T :=
  match files d !! path with
  | None => Ok dflt
  | Some f => parse (content f)
  end.

Lemma load_file_ok {T : Type} `{Format T} (dflt x : T) path d d' :
  load_file dflt path d = (Ok x, d') -> view dflt path d = Ok x /\ files d' = files d.
Proof.
  unfold load_file, view. destruct (faults d) as [|[|k] fl]; [| |done];
    destruct (files d !! path); intros [= E <-]; by subst.
Qed.

Lemma lift_ok {A : Type} (r : result string A) d a d' :
  lift r d = (Ok a, d') -> r = Ok a /\ d' = d.
Proof. by intros [= -> <-]. Qed.

Definition own_file (path : string) : Prop :=
  path = config_file \/ path = credentials_file \/ path = status_file.

Lemma own_file_tmp path q : own_file path -> own_file q -> with_extension path "tmp" <> q.
Proof. by intros [->|[->| ->]] [->|[->| ->]]. Qed.

Lemma save_file_ok {T : Type} `{FormatLaw T} (dflt x : T) path m d u d' :
  own_file path -> save_file path m x d = (Ok u, d') ->
  view dflt path d' = Ok x /\
  forall q, own_file q -> q <> path -> files d' !! q = files d !! q.
Proof.
  intros Hp. unfold save_file. destruct (render x) as [bs|e] eqn:Hr; [|done]. intros E.
  pose proof (own_file_tmp path path Hp Hp) as Htmp.
  pose proof (fs_run_crash_point (atomic_write_ops path bs m) d) as Hc.
  fold (atomic_write path bs m) in Hc. rewrite E in Hc.
  apply atomic_write_crash in Hc as (_ & _ & Hq); [|done].
  apply atomic_write_ok in E as [Hf _]; [|done]. split.
  - unfold view. rewrite Hf. by apply format_roundtrip.
  - intros q Hown Hne. apply Hq; [done|]. intros ->. by apply (own_file_tmp path (with_extension path "tmp") Hp Hown).
Qed.

Lemma view_same {T : Type} `{Format T} (dflt : T) q d d' :
  files d' !! q = files d !! q -> view dflt q d' = view dflt q d.
Proof. unfold view. by intros ->. Qed.

Section Edits.
Context `{HF : FormatLaw FileConfig, HC : FormatLaw CredFile}.
Context (trust_of : FileConfig -> result string TrustMode) (e : Env).
Definition cfg_view (d : Disk) : result string FileConfig := view default_config config_file d.
Definition cred_view (d : Disk) : result string CredFile := view ∅ credentials_file d.

Lemma config_save_ok cfg d u d' :
  config_save cfg d = (Ok u, d') -> cfg_view d' = Ok cfg /\ cred_view d' = cred_view d.
Proof using HF.
  intros E. apply (save_file_ok default_config) in E as [Hv Hq]; [|by left].
  split; [done|]. apply view_same, Hq; [by right; left|done].
Qed.

Lemma store_ok r tok d u d' :
  store r tok d = (Ok u, d') ->
  exists c, cred_view d = Ok c /\ cred_view d' = Ok (<[r := tok]> c) /\ cfg_view d' = cfg_view d.
Proof using HC.
  intros E. unfold store, cred_load, cred_save in E. run_ok E.
  apply load_file_ok in E0 as [Hv Hf]. exists a.
  apply (save_file_ok ∅) in E as [Hv' Hq]; [|by right; left].
  split; [done|]. split; [done|].
  apply view_same. rewrite Hq by first [by left | done]. by rewrite Hf.
Qed.

(** Login stores what the relay accepted, and nothing else: a successful
    login has verified the very token it stores, against the relay it stores it
    for, under the configured trust; the tokens of other relays stay; and the
    configuration changes only when it named no relay, so a login to another
    relay than the configured one leaves the configured one in use. *)
Theorem login_exact verify_relay arg i d v d' :
  login trust_of e verify_relay arg i d = (Ok v, d') ->
  exists cfg c tok trust,
    cfg_view d = Ok cfg /\ cred_view d = Ok c /\
    login_token e i = Ok tok /\ tok <> EmptyString /\ trust_of cfg = Ok trust /\
    verify_relay (resolve_relay arg (relay cfg)) tok trust = Ok v /\
    cred_view d' = Ok (<[resolve_relay arg (relay cfg) := tok]> c) /\
    cfg_view d' = Ok (if is_empty (relay cfg)
                      then mkFileConfig (resolve_relay arg (relay cfg)) (relay_ca cfg) (tunnels cfg)
                      else cfg).
Proof using HF HC.
  intros E. unfold login in E. run_ok E. rename a into cfg.
  apply load_file_ok in E0 as [Hcfg Hf0]. run_ok E. rename a into tok.
  apply lift_ok in E0 as [Htok ->]. destruct (is_empty tok) eqn:Hne; [done|].
  run_ok E. rename a into trust. apply lift_ok in E0 as [Htr ->].
  run_ok E. apply lift_ok in E0 as [Hver ->].
  run_ok E. apply store_ok in E0 as (c & Hc & Hc' & Hcfg').
  run_ok E. injection E as -> ->.
  assert (Hcd : cred_view d = Ok c) by (rewrite <- Hc; symmetry; apply view_same; by rewrite Hf0).
  assert (Hcg : cfg_view d1 = Ok cfg).
  { rewrite Hcfg'. rewrite <- Hcfg. apply view_same. by rewrite Hf0. }
  exists cfg, c, tok, trust. split_and!; auto; [by intros ->| |].
  - destruct (is_empty (relay cfg)); [|by injection E0 as _ <-].
    apply config_save_ok in E0 as [_ ->]. done.
  - destruct (is_empty (relay cfg)); [|by injection E0 as _ <-].
    by apply config_save_ok in E0 as [-> _].
Qed.

Lemma load_file_files {T : Type} `{Format T} (dflt : T) path d :
  files (load_file dflt path d).2 = files d.
Proof using.
  unfold load_file. destruct (faults d) as [|[|k] fl]; try done; by destruct (files d !! path).
Qed.

(** A token the relay does not accept is never stored: when the relay turns
    it down, or cannot be reached, a login leaves every file as it was. *)
Theorem rejected_login_keeps_files verify_relay arg i d :
  (forall r t tr, is_ok (verify_relay r t tr) = false) ->
  is_ok (login trust_of e verify_relay arg i d).1 = false /\
  files (login trust_of e verify_relay arg i d).2 = files d.
Proof using.
  intros Hv. unfold login, config_load, mbind, st_bind.
  pose proof (load_file_files default_config config_file d) as Hf.
  destruct (load_file default_config config_file d) as [[cfg|e1] d1]; cbn [snd] in Hf; [|done].
  unfold lift. destruct (login_token e i) as [tok|e2]; [|done].
  destruct (is_empty tok); [done|]. destruct (trust_of cfg) as [tr|e3]; [|done].
  specialize (Hv (resolve_relay arg (relay cfg)) tok tr).
  by destruct (verify_relay _ tok tr).
Qed.

(** *** Tunnels *)
Definition names (cfg : FileConfig) : list string := t_name <$> tunnels cfg.

Lemma find_app_l (n : string) (l k : list TunnelConfig) :
  n ∉ t_name <$> l ->
  snd <$> list_find (fun t => t_name t = n) (l ++ k) = snd <$> list_find (fun t => t_name t = n) k.
Proof using.
  induction l as [|t l IH]; [done|]. cbn. rewrite not_elem_of_cons. intros [Hne Hl].
  rewrite decide_False by done. specialize (IH Hl). revert IH.
  by destruct (list_find _ (l ++ k)) as [[? ?]|], (list_find _ k) as [[? ?]|].
Qed.

Lemma tunnel_filter (n : string) (P : TunnelConfig -> Prop) `{!forall t, Decision (P t)} l k :
  (forall t, t_name t = n -> P t) ->
  snd <$> list_find (fun t => t_name t = n) (filter P l ++ k) =
  match list_find (fun t => t_name t = n) l with
  | Some (_, t) => Some t
  | None => snd <$> list_find (fun t => t_name t = n) k
  end.
Proof using.
  intros HP. induction l as [|t l IH]; [done|]. rewrite filter_cons. cbn [list_find].
  destruct (decide (t_name t = n)) as [Hn|Hn].
  - rewrite decide_True by auto. cbn. by rewrite decide_True.
  - case_decide.
    + cbn. rewrite decide_False by done. revert IH.
      destruct (list_find _ (filter P l ++ k)) as [[? ?]|], (list_find _ l) as [[? ?]|]; cbn; auto.
    + rewrite IH. by destruct (list_find _ l) as [[? ?]|].
Qed.

Lemma add_tunnel_lookup t cfg n :
  tunnel (add_tunnel t cfg) n = if decide (n = t_name t) then Some t else tunnel cfg n.
Proof using.
  unfold tunnel, add_tunnel. cbn [tunnels]. case_decide as Hn.
  - rewrite find_app_l; [subst n; cbn; by rewrite decide_True|].
    rewrite list_elem_of_fmap. intros (u & Hu & [Hne _]%list_elem_of_filter). congruence.
  - rewrite tunnel_filter by congruence. destruct (list_find _ (tunnels cfg)) as [[? ?]|]; [done|].
    cbn. by rewrite decide_False.
Qed.

Lemma add_tunnel_names t cfg : NoDup (names cfg) -> NoDup (names (add_tunnel t cfg)).
Proof using.
  unfold names, add_tunnel. cbn [tunnels]. intros Hn. rewrite fmap_app. apply NoDup_app. split_and!.
  - clear -Hn. induction (tunnels cfg) as [|u l IH]; [constructor|].
    apply NoDup_cons in Hn as [Hu Hl]. rewrite filter_cons. case_decide; [|by apply IH].
    cbn. constructor; [|by apply IH]. intros (w & Hw & [_ Hin]%list_elem_of_filter)%list_elem_of_fmap.
    apply Hu, list_elem_of_fmap. eauto.
  - intros n (u & -> & [Hne _]%list_elem_of_filter)%list_elem_of_fmap Hin.
    cbn in Hin. apply list_elem_of_singleton in Hin. done.
  - cbn. apply NoDup_singleton.
Qed.

(** Looking credentials up changes no file. *)
Lemma relay_creds_run cfg d :
  files (relay_creds trust_of e cfg d).2 = files d /\
  forall r tok trust d', relay_creds trust_of e cfg d = (Ok (r, tok, trust), d') -> r = relay cfg.
Proof using.
  unfold relay_creds. destruct (is_empty (relay cfg)); [done|].
  unfold resolve. destruct (token_from_file e) as [t|].
  { cbn. unfold mbind, st_bind, lift. destruct (trust_of cfg); split; try done. by intros ???? [= <-]. }
  destruct (token_from_env e) as [t|].
  { cbn. unfold mbind, st_bind, lift. destruct (trust_of cfg); split; try done. by intros ???? [= <-]. }
  unfold mbind, st_bind, cred_load. pose proof (load_file_files ∅ credentials_file d) as Hf.
  destruct (load_file ∅ credentials_file d) as [[c|err] d1]; cbn [snd] in Hf; [|done]. cbn.
  destruct (c !! relay cfg); [|done]. unfold lift.
  destruct (trust_of cfg); split; try done. by intros ???? [= <-].
Qed.

Lemma attempt_files {A : Type} (c : st Disk string A) d :
  files (c d).2 = files d -> exists o d', attempt c d = (Ok o, d') /\ files d' = files d.
Proof using. unfold attempt. destruct (c d) as [[x|err] d']; eauto. Qed.
Lemma advise_plan_files fetch cfg d :
  exists lines d', advise_plan trust_of e fetch cfg d = (Ok lines, d') /\ files d' = files d.
Proof using.
  unfold advise_plan, mbind, st_bind.
  destruct (attempt_files (relay_creds trust_of e cfg) d) as (o & d1 & -> & Hf);
    [apply relay_creds_run|]. by eexists _, d1.
Qed.

(** Adding a tunnel edits exactly that tunnel: after a successful [etun add]
    the configuration names the new tunnel under its name, every other name means
    what it meant, names stay unique, and relay, trust and credentials are
    untouched, whatever the plan advisory meets. *)
Theorem add_exact fetch n port host pub lhost d u d' :
  add trust_of e fetch n port host pub lhost d = (Ok u, d') ->
  exists cfg cfg', cfg_view d = Ok cfg /\ cfg_view d' = Ok cfg' /\ cred_view d' = cred_view d /\
    relay cfg' = relay cfg /\ relay_ca cfg' = relay_ca cfg /\
    (forall n', tunnel cfg' n' =
       if decide (n' = n)
       then Some (mkTunnel n port (default default_local_host lhost)
                   (match pub with Some _ => PTcp | None => PHttp end) host pub)
       else tunnel cfg n') /\
    (NoDup (names cfg) -> NoDup (names cfg')).
Proof using HF.
  intros E. unfold add, config_load in E. run_ok E. apply load_file_ok in E0 as [Hc Hf].
  run_ok E. apply config_save_ok in E0 as [Hc' Hcred]. run_ok E. injection E as _ <-.
  destruct (advise_plan_files fetch (add_tunnel (mkTunnel n port (default default_local_host lhost)
    (match pub with Some _ => PTcp | None => PHttp end) host pub) a) d1) as (l & d3 & Ea & Hf3).
  unfold default_local_host in Ea. rewrite Ea in E0. injection E0 as _ <-.
  eexists a, _. split; [done|]. split; [rewrite <- Hc'; apply view_same; by rewrite Hf3|].
  split_and!; [|done|done| |].
  - transitivity (cred_view d1); [apply view_same; by rewrite Hf3|].
    rewrite Hcred. apply view_same. by rewrite Hf.
  - intros n'. by rewrite add_tunnel_lookup.
  - intros Hn. by apply add_tunnel_names.
Qed.

Lemma tunnel_cons (n : string) (u : TunnelConfig) (l : list TunnelConfig) :
  snd <$> list_find (fun t => t_name t = n) (u :: l) =
  if decide (t_name u = n) then Some u else snd <$> list_find (fun t => t_name t = n) l.
Proof using.
  cbn. case_decide; [done|]. rewrite <- option_fmap_compose. by destruct (list_find _ l).
Qed.
Lemma tunnel_absent (n : string) (l : list TunnelConfig) :
  n ∉ t_name <$> l -> snd <$> list_find (fun t => t_name t = n) l = None.
Proof using.
  intros Hn. pose proof (find_app_l n l [] Hn) as E. by rewrite app_nil_r in E.
Qed.

Lemma delete_found (n n' : string) (l : list TunnelConfig) idx t :
  list_find (fun t => t_name t = n) l = Some (idx, t) -> NoDup (t_name <$> l) ->
  snd <$> list_find (fun t => t_name t = n') (delete idx l) =
  if decide (n' = n) then None else snd <$> list_find (fun t => t_name t = n') l.
Proof using.
  revert idx. induction l as [|u l IH]; intros idx; [done|].
  intros Hf [Hu Hl]%NoDup_cons. rewrite tunnel_cons. cbn in Hf.
  destruct (decide (t_name u = n)) as [Hn|Hn].
  - injection Hf as <- <-. cbn [delete list_delete]. case_decide as Hn'.
    + subst n'. apply tunnel_absent. by rewrite <- Hn.
    + by rewrite decide_False by congruence.
  - destruct (list_find _ l) as [[j w]|] eqn:E in Hf; [|done]. cbn in Hf. injection Hf as <- <-.
    change (delete (S j) (u :: l)) with (u :: delete j l). rewrite tunnel_cons.
    destruct (decide (t_name u = n')) as [Hn'|Hn']; [by rewrite decide_False by congruence|].
    by apply IH.
Qed.

(** Removing a tunnel edits exactly that tunnel and releases exactly its
    resource: a successful [etun remove] found the tunnel, dropped it from the
    configuration, left every other name as it was (names being unique), and
    asked the relay, if it could, to release the hostname or port of that tunnel
    and no other; a failed release does not bring it back. *)
Theorem remove_exact remote n d res ans d' :
  remove trust_of e remote n d = (Ok (res, ans), d') ->
  exists cfg cfg' t, cfg_view d = Ok cfg /\ cfg_view d' = Ok cfg' /\
    tunnel cfg n = Some t /\ res = tunnel_resource cfg t /\
    relay cfg' = relay cfg /\ relay_ca cfg' = relay_ca cfg /\
    (NoDup (names cfg) -> forall n', tunnel cfg' n' = if decide (n' = n) then None else tunnel cfg n') /\
    (forall r, ans = Some r -> exists tok trust, r = remote (relay cfg) tok trust res.1 res.2).
Proof using HF.
  intros E. unfold remove, config_load, position in E. run_ok E. rename a into cfg.
  apply load_file_ok in E0 as [Hc Hf].
  destruct (list_find _ (tunnels cfg)) as [[idx t]|] eqn:Hfind; cbn [fmap option_fmap option_map] in E; [|done].
  pose proof Hfind as (Hidx & Hname & _)%list_find_Some.
  change (fst (idx, t)) with idx in E. rewrite Hidx in E. cbn [fmap option_fmap option_map default from_option] in E.
  cbv zeta in E. run_ok E. apply config_save_ok in E0 as [Hc' _].
  run_ok E. injection E as <- <- ->.
  set (cfg' := mkFileConfig (relay cfg) (relay_ca cfg) (delete idx (tunnels cfg))) in *.
  unfold attempt in E0. pose proof (relay_creds_run cfg' d1) as [Hfiles Hrel].
  destruct (relay_creds trust_of e cfg' d1) as [r d3]. cbn [snd] in Hfiles.
  assert (Hd : files d' = files d1 /\ forall q, a0 = Some q -> q.1.1 = relay cfg).
  { destruct r as [[[r tok] trust]|err]; injection E0 as <- <-; (split; [done|]); [|done].
    intros q [= <-]. by eapply (Hrel r tok trust). }
  destruct Hd as [Hfd Hq]. exists cfg, cfg', t.
  assert (Hv2 : cfg_view d' = Ok cfg') by (rewrite <- Hc'; apply view_same; by rewrite Hfd).
  split_and!; auto.
  - unfold tunnel. by rewrite Hfind.
  - intros Hnd n'. unfold tunnel. by apply (delete_found n n' _ idx t).
  - intros r' Hr. destruct a0 as [[[r0 tok] trust]|]; [|done]. cbn in Hr. injection Hr as <-.
    specialize (Hq _ eq_refl). cbn in Hq. subst r0. eauto.
Qed.
End Edits.

(** ** Which token is used *)

(** The precedence of credentials: the token file named by ETUN_TOKEN_FILE,
    trimmed, if it can be read and is not empty; else ETUN_TOKEN; else
    ETUN_LICENSE_KEY, empty values not counting; else the stored token of this
    relay, and the credentials file is read only then. *)
Theorem resolve_precedence `{Format CredFile} (e : Env) (r : string) (d : Disk) :
  let (res, d') := resolve e r d in
  (forall p tok, var e "ETUN_TOKEN_FILE" = Some p -> p <> EmptyString ->
     read_to_string e p = Some tok -> trim tok <> EmptyString -> res = Ok (Some (trim tok)) /\ d' = d) /\
  (token_from_file e = None -> forall t, var e "ETUN_TOKEN" = Some t -> t <> EmptyString ->
     res = Ok (Some t) /\ d' = d) /\
  (token_from_file e = None -> nonempty (var e "ETUN_TOKEN") = None ->
     forall t, var e "ETUN_LICENSE_KEY" = Some t -> t <> EmptyString -> res = Ok (Some t) /\ d' = d) /\
  (token_from_file e = None -> nonempty (var e "ETUN_TOKEN") = None ->
   nonempty (var e "ETUN_LICENSE_KEY") = None ->
     res = match (cred_load d).1 with Ok c => Ok (c !! r) | Err x => Err x end).
Proof.
  assert (Hne : forall s, s <> EmptyString -> nonempty (Some s) = Some s) by (by intros []).
  destruct (resolve e r d) as [res d'] eqn:E. unfold resolve, token_from_env in E. split_and!.
  - intros p tok Hp Hp0 Ht Ht0. assert (Hf : token_from_file e = Some (trim tok)).
    { unfold token_from_file. rewrite Hp, (Hne p Hp0). cbn. rewrite Ht. cbn. by apply (Hne (trim tok)). }
    rewrite Hf in E. by injection E as <- <-.
  - intros Hf t Ht Ht0. rewrite Hf, Ht, (Hne t Ht0) in E. by injection E as <- <-.
  - intros Hf H1 t Ht Ht0. rewrite Hf, H1, Ht, (Hne t Ht0) in E. by injection E as <- <-.
  - intros Hf H1 H2. rewrite Hf, H1, H2 in E. unfold mbind, st_bind in E.
    destruct (cred_load d) as [[c|x] d1]; by injection E as <- <-.
Qed.

(** ** The daemon's configuration *)
Lemma collect_tunnels_ok cfg l hs ps :
  collect_tunnels cfg l = Ok (hs, ps) ->
  hostname <$> hs = fqdn cfg <$> filter (fun t => t_protocol t = PHttp) l /\
  Some <$> (public_port <$> ps) = t_public_port <$> filter (fun t => t_protocol t = PTcp) l.
Proof.
  revert hs ps. induction l as [|t l IH]; intros hs ps; cbn [collect_tunnels]; [by intros [= <- <-]|].
  rewrite !filter_cons. destruct (t_protocol t) eqn:Hp.
  - rewrite (decide_True (P := PHttp = PHttp)), (decide_False (P := PHttp = PTcp)) by done.
    destruct (collect_tunnels cfg l) as [[hs' ps']|x]; [|done]. cbn. intros [= <- <-].
    destruct (IH hs' ps' eq_refl) as [H1 H2]. cbn. by rewrite H1.
  - rewrite (decide_False (P := PTcp = PHttp)), (decide_True (P := PTcp = PTcp)) by done.
    destruct (t_public_port t) as [p|] eqn:Hpp; [|done].
    destruct (collect_tunnels cfg l) as [[hs' ps']|x]; [|done]. cbn. intros [= <- <-].
    destruct (IH hs' ps' eq_refl) as [H1 H2]. cbn. by rewrite H2, Hpp.
Qed.

Lemma collect_tunnels_err cfg l :
  is_ok (collect_tunnels cfg l) = false <->
  exists t, t ∈ l /\ t_protocol t = PTcp /\ t_public_port t = None.
Proof.
  induction l as [|t l IH]; cbn.
  - split; [done|]. by intros (t & ?%not_elem_of_nil & _).
  - assert (Hc : (exists u, u ∈ t :: l /\ t_protocol u = PTcp /\ t_public_port u = None) <->
      (t_protocol t = PTcp /\ t_public_port t = None) \/
      exists u, u ∈ l /\ t_protocol u = PTcp /\ t_public_port u = None).
    { split.
      - intros (u & [->|Hu]%elem_of_cons & ?); eauto.
      - intros [?|(u & Hu & ?)]; [exists t; split; [left|done]|exists u; split; [by right|done]]. }
    rewrite Hc, <- IH. destruct (t_protocol t); [|destruct (t_public_port t)];
      destruct (collect_tunnels cfg l) as [[hs ps]|x]; cbn; intuition congruence.
Qed.

(** The daemon claims exactly what is configured: the runtime configuration
    exists iff a relay is configured and every TCP tunnel has a public port, and
    then it claims, in order, the hostname of every HTTP tunnel under the relay's
    domain and the public port of every TCP tunnel, for that relay and with that
    token. *)
Theorem to_client_config_exact (cfg : FileConfig) (tok : string) (tr : TrustMode) :
  match to_client_config cfg tok tr with
  | Ok c =>
      relay cfg <> EmptyString /\ relay_host c = relay cfg /\ token c = tok /\ trust c = tr /\
      claim_hostnames c = fqdn cfg <$> filter (fun t => t_protocol t = PHttp) (tunnels cfg) /\
      Some <$> claim_ports c = t_public_port <$> filter (fun t => t_protocol t = PTcp) (tunnels cfg) /\
      Forall (fun h => exists label, h = label +:+ "." +:+ relay cfg) (claim_hostnames c)
  | Err _ =>
      relay cfg = EmptyString \/
      exists t, t ∈ tunnels cfg /\ t_protocol t = PTcp /\ t_public_port t = None
  end.
Proof.
  unfold to_client_config. destruct (relay cfg) as [|x rest] eqn:Hr; cbn [is_empty]; [by left|].
  pose proof (collect_tunnels_err cfg (tunnels cfg)) as He.
  destruct (collect_tunnels cfg (tunnels cfg)) as [[hs ps]|err] eqn:E; cbn.
  - apply collect_tunnels_ok in E as [Hh Hp]. unfold claim_hostnames, claim_ports. cbn. split_and!; auto.
    rewrite Hh. apply Forall_fmap, Forall_true. intros t. cbn. unfold fqdn. rewrite Hr. eauto.
  - right. by apply He.
Qed.

(** ** Reconciliation *)

(** The orphan report is exact: [etun list] calls a hostname or port the
    relay owns an orphan iff no configured tunnel maps to it, and prints the
    advice to release iff there is one. *)
Theorem reconcile_exact (cfg : FileConfig) (o : OwnedSet) :
  let r := print_remote_reconcile cfg o in
  (r_hosts r).*1 = o_hostnames o /\ (r_ports r).*1 = o_tcp_ports o /\
  (forall h b, (h, b) ∈ r_hosts r ->
     (b = true <-> ~ exists t, t ∈ tunnels cfg /\ h ∈ (tunnel_resource cfg t).1)) /\
  (forall p b, (p, b) ∈ r_ports r ->
     (b = true <-> ~ exists t, t ∈ tunnels cfg /\ p ∈ (tunnel_resource cfg t).2)) /\
  (r_advice r = true <-> (exists h, (h, true) ∈ r_hosts r) \/ (exists p, (p, true) ∈ r_ports r)).
Proof.
  intros r. assert (Hex : forall {A} (l : list (A * bool)), existsb snd l = true <-> exists a, (a, true) ∈ l).
  { intros A l. rewrite existsb_exists. split.
    - intros ([a b] & Hin%list_elem_of_In & Hb). cbn in Hb. subst b. eauto.
    - intros (a & Ha%list_elem_of_In). by exists (a, true). }
  split_and!.
  - subst r. cbn. rewrite <- list_fmap_compose. apply list_fmap_id.
  - subst r. cbn. rewrite <- list_fmap_compose. apply list_fmap_id.
  - intros h b (h' & [= -> ->] & _)%list_elem_of_fmap. rewrite bool_decide_eq_true.
    unfold local_hosts. rewrite elem_of_list_to_set, list_elem_of_fmap.
    assert (Hiff : (exists t, h' = fqdn cfg t /\ t ∈ filter (fun t => t_protocol t = PHttp) (tunnels cfg)) <->
      exists t, t ∈ tunnels cfg /\ h' ∈ (tunnel_resource cfg t).1); [|by rewrite Hiff].
    unfold tunnel_resource. split; intros (t & H1 & H2); exists t.
    + apply list_elem_of_filter in H2 as [Hp Hin]. rewrite Hp. split; [done|]. by apply list_elem_of_singleton.
    + rewrite list_elem_of_filter. destruct (t_protocol t); [|by apply not_elem_of_nil in H2].
      by apply list_elem_of_singleton in H2.
  - intros p b (p' & [= -> ->] & _)%list_elem_of_fmap. rewrite bool_decide_eq_true.
    unfold local_ports. rewrite elem_of_list_to_set, list_elem_of_omap.
    assert (Hiff : (exists t, t ∈ filter (fun t => t_protocol t = PTcp) (tunnels cfg) /\ t_public_port t = Some p') <->
      exists t, t ∈ tunnels cfg /\ p' ∈ (tunnel_resource cfg t).2); [|by rewrite Hiff].
    unfold tunnel_resource. split; intros (t & H1 & H2); exists t.
    + apply list_elem_of_filter in H1 as [Hp Hin]. rewrite Hp. split; [done|]. cbn. rewrite H2. by left.
    + rewrite list_elem_of_filter. destruct (t_protocol t); [by apply not_elem_of_nil in H2|].
      cbn in H2. destruct (t_public_port t); cbn in H2; [|by apply not_elem_of_nil in H2].
      by apply list_elem_of_singleton in H2 as ->.
  - subst r. unfold print_remote_reconcile. cbn [r_advice r_hosts r_ports].
    by rewrite orb_true_iff, !Hex.
Qed.

(** ** Concrete runs *)
#[export] Instance FileConfig_eq_dec : EqDecision FileConfig.
Proof. solve_decision. Defined.

(** A format that knows the values of a list, one byte each. *)
Section TableFormat.
Context {T : Type} `{EqDecision T}.
Definition table_render (l : list T) (x : T) : result string (list byte) :=
  match list_find (eq x) l with
  | Some (i, _) => if decide (i < 256)%nat then Ok [byte_of (Z.of_nat i)] else Err "unknown"%string
  | None => Err "unknown"%string
  end.
Definition table_parse (l : list T) (bs : list byte) : result string T :=
  match bs with
  | [b] => match l !! Z.to_nat (byte_val b) with Some x => Ok x | None => Err "bad"%string end
  | _ => Err "bad"%string
  end.
Lemma table_roundtrip (l : list T) (x : T) bs : table_render l x = Ok bs -> table_parse l bs = Ok x.
Proof using.
  unfold table_render. destruct (list_find (eq x) l) as [[i y]|] eqn:E; [|done].
  case_decide; [|done]. intros [= <-]. cbn [table_parse]. rewrite byte_val_of, Z.mod_small by lia.
  rewrite Nat2Z.id. apply list_find_Some in E as (-> & <- & _). done.
Qed.
End TableFormat.

Definition web : TunnelConfig := mkTunnel "web" 8080 "127.0.0.1" PHttp None None.
Definition cfg_empty : FileConfig := mkFileConfig "ethertunnel.com" None [].
Definition cfg_web : FileConfig := mkFileConfig "ethertunnel.com" None [web].
Definition tokens_one : CredFile := {["ethertunnel.com" := "etun_t"]}.
#[local] Instance demo_cfg_format : Format FileConfig := {|
  render := table_render [cfg_empty; cfg_web]; parse := table_parse [cfg_empty; cfg_web] |}.
#[local] Instance demo_cfg_law : FormatLaw FileConfig := table_roundtrip [cfg_empty; cfg_web].
#[local] Instance demo_cred_format : Format CredFile := {|
  render := table_render [tokens_one]; parse := table_parse [tokens_one] |}.
#[local] Instance demo_cred_law : FormatLaw CredFile := table_roundtrip [tokens_one].

Definition demo_env : Env :=
  mkEnv (fun v => if decide (v = "ETUN_TOKEN"%string) then Some "etun_t"%string else None) (fun _ => None).
Definition demo_trust (_ : FileConfig) : result string TrustMode := Ok System.
Definition no_input : LoginIn := mkLoginIn false (Err EmptyString) false (Err EmptyString).
Definition accept (_ _ : string) (_ : TrustMode) : result string VerifyOk := Ok (mkVerifyOk 7 3).
Definition reject (_ _ : string) (_ : TrustMode) : result string VerifyOk := Err "no"%string.
Definition fresh_disk : Disk := mkDisk ∅ [].
Definition logged_in : Disk := (login demo_trust demo_env accept None no_input fresh_disk).2.
Definition no_answer (_ _ : string) (_ : TrustMode) : Timed (result string OwnedSet) := TimedOut.
Definition with_web : Disk :=
  (add demo_trust demo_env no_answer "web" 8080 None None None logged_in).2.

Lemma login_exact_witness :
  exists cfg c tok trust,
    cfg_view fresh_disk = Ok cfg /\ cred_view fresh_disk = Ok c /\
    login_token demo_env no_input = Ok tok /\ tok <> EmptyString /\ demo_trust cfg = Ok trust /\
    accept (resolve_relay None (relay cfg)) tok trust = Ok (mkVerifyOk 7 3) /\
    cred_view logged_in = Ok (<[resolve_relay None (relay cfg) := tok]> c) /\
    cfg_view logged_in = Ok (if is_empty (relay cfg)
      then mkFileConfig (resolve_relay None (relay cfg)) (relay_ca cfg) (tunnels cfg) else cfg).
Proof.
  apply (login_exact demo_trust demo_env accept None no_input fresh_disk (mkVerifyOk 7 3) logged_in).
  vm_compute. reflexivity.
Defined.

Lemma rejected_login_keeps_files_witness :
  is_ok (login demo_trust demo_env reject None no_input logged_in).1 = false /\
  files (login demo_trust demo_env reject None no_input logged_in).2 = files logged_in.
Proof.
  apply (rejected_login_keeps_files demo_trust demo_env reject None no_input logged_in).
  reflexivity.
Defined.

Lemma add_exact_witness :
  exists cfg cfg', cfg_view logged_in = Ok cfg /\ cfg_view with_web = Ok cfg' /\
    cred_view with_web = cred_view logged_in /\ relay cfg' = relay cfg /\ relay_ca cfg' = relay_ca cfg /\
    (forall n', tunnel cfg' n' = if decide (n' = "web"%string) then Some web else tunnel cfg n') /\
    (NoDup (names cfg) -> NoDup (names cfg')).
Proof.
  apply (add_exact demo_trust demo_env no_answer "web" 8080 None None None logged_in
    ["added tunnel `web` -> 127.0.0.1:8080"] with_web).
  vm_compute. reflexivity.
Defined.

Definition free_all (_ _ : string) (_ : TrustMode) (hs : list string) (ps : list Z) : result string Freed :=
  Ok (mkFreed hs ps).
Lemma remove_exact_witness :
  let out := remove demo_trust demo_env free_all "web" with_web in
  exists cfg cfg' t, cfg_view with_web = Ok cfg /\ cfg_view out.2 = Ok cfg' /\
    tunnel cfg "web" = Some t /\ (["web.ethertunnel.com"%string], []) = tunnel_resource cfg t /\
    relay cfg' = relay cfg /\ relay_ca cfg' = relay_ca cfg /\
    (NoDup (names cfg) -> forall n', tunnel cfg' n' = if decide (n' = "web"%string) then None else tunnel cfg n') /\
    (forall r, Some (Ok (mkFreed ["web.ethertunnel.com"%string] [])) = Some r ->
       exists tok trust, r = free_all (relay cfg) tok trust ["web.ethertunnel.com"%string] []).
Proof.
  apply (remove_exact demo_trust demo_env free_all "web" with_web
    (["web.ethertunnel.com"%string], []) (Some (Ok (mkFreed ["web.ethertunnel.com"%string] [])))
    (remove demo_trust demo_env free_all "web" with_web).2).
  vm_compute. reflexivity.
Defined.
