(* ===== verification/ClientList.v ===== *)
(** * What [etun list] prints (crates/client/src/commands.rs)

    The lines of the configured tunnels and of the reconciliation with the
    relay's owned set, and the command's whole output. *)
From stdpp Require Import pretty.
From S2P Require Import Prelude Frames Fs ClientDaemon ClientFiles ClientCommands ClientEdits.
Local Open Scope Z_scope.
Local Open Scope string_scope.
Local Open Scope list_scope.

(** [{:<14}]: padded to fourteen characters; a character is a byte that does not
    continue a UTF-8 sequence. *)
Definition starts_char (c : Ascii.ascii) : bool :=
  negb (Nat.eqb (Nat.div (Ascii.nat_of_ascii c) 64) 2).
Fixpoint char_count (s : string) : nat :=
  match s with
  | EmptyString => 0
  | String c s' => (if starts_char c then 1 else 0) + char_count s'
  end.
Fixpoint spaces (n : nat) : string := match n with O => EmptyString | S k => " " +:+ spaces k end.
Definition pad14 (s : string) : string := s +:+ spaces (14 - char_count s).

Definition list_line (cfg : FileConfig) (t : TunnelConfig) : string :=
  match t_protocol t with
  | PHttp => pad14 (t_name t) +:+ " https://" +:+ fqdn cfg t +:+ "  ->  " +:+ t_local_host t +:+ ":" +:+ pretty (t_port t)
  | PTcp => pad14 (t_name t) +:+ " tcp " +:+ relay cfg +:+ ":" +:+ pretty (default 0 (t_public_port t)) +:+ "  ->  "
              +:+ t_local_host t +:+ ":" +:+ pretty (t_port t)
  end.
Definition list_lines (cfg : FileConfig) : list string :=
  match tunnels cfg with
  | [] => ["no tunnels configured (use `etun add`)"]
  | ts => list_line cfg <$> ts
  end.

Definition mark (orphan : bool) : string := if orphan then "  (orphan — not in local config)" else "  (in config)".
Definition owned_lines (r : Reconciled) : list string :=
  ((fun x => "  " +:+ x.1 +:+ mark x.2) <$> r_hosts r) ++ ((fun x => "  tcp " +:+ pretty x.1 +:+ mark x.2) <$> r_ports r).
(** An empty line stands for a leading line break. *)
Definition reconcile_lines (cfg : FileConfig) (o : OwnedSet) : list string :=
  let r := print_remote_reconcile cfg o in
  (match r_plan r with Some line => [EmptyString; line] | None => [] end) ++
  match o_hostnames o, o_tcp_ports o with
  | [], [] => ["Relay owns nothing for this account."]
  | _, _ =>
      [EmptyString; "Relay-owned (authoritative):"] ++ owned_lines r ++
      (if r_advice r
       then [EmptyString; "Orphans still count against your plan's tunnel limit. Free one with `etun release <name-or-label>`."]
       else [])
  end.

Section list.
Context `{Format FileConfig, Format CredFile}.
Context (trust_of : FileConfig -> result string TrustMode) (e : Env).
(** [list]: the lines on the standard output, and those on the error output. *)
Definition list_out (to_json : list TunnelConfig -> result string string)
    (fetch : string -> string -> TrustMode -> result string OwnedSet) (json : bool) :
    st Disk string (list string * list string) :=
  cfg ← config_load;
  if json then text ← lift (to_json (tunnels cfg)); mret ([text], [])
  else
    creds ← attempt (relay_creds trust_of e cfg);
    mret (match creds with
          | None => (list_lines cfg, [])
          | Some (r, tok, trust) =>
              match fetch r tok trust with
              | Ok o => ((list_lines cfg ++ reconcile_lines cfg o)%list, [])
              | Err err => (list_lines cfg, [EmptyString; "(relay-owned set unavailable: " +:+ err +:+ ")"])
              end
          end).
End list.

Definition plan_offset (o : OwnedSet) : nat := match plan_line o with Some _ => 4 | None => 2 end.
Lemma claims_are_local (cfg : FileConfig) (tok : string) (tr : TrustMode) (c : ClientConfig) (h : string) :
  to_client_config cfg tok tr = Ok c -> h ∈ local_hosts cfg <-> h ∈ claim_hostnames c.
Proof.
  intros Hc. unfold local_hosts. rewrite elem_of_list_to_set.
  unfold to_client_config in Hc. destruct (is_empty (relay cfg)); [done|].
  destruct (collect_tunnels cfg (tunnels cfg)) as [[hs ps]|] eqn:E; [|done]. cbn in Hc. injection Hc as <-.
  apply collect_tunnels_ok in E as [Hh _]. unfold claim_hostnames. cbn. by rewrite Hh.
Qed.

(** The listing tells what [etun up] will do.  With a configuration the daemon
    accepts, the listing has exactly one line for each hostname the relay owns, in
    the relay's order, and it reads "in config" precisely for the names the daemon
    will claim. *)
Theorem list_matches_up (cfg : FileConfig) (tok : string) (tr : TrustMode) (c : ClientConfig) (o : OwnedSet) (i : nat) (h : string) :
  to_client_config cfg tok tr = Ok c -> o_hostnames o !! i = Some h ->
  reconcile_lines cfg o !! (plan_offset o + i)%nat =
    Some ("  " +:+ h +:+ mark (bool_decide (h ∉ claim_hostnames c))).
Proof.
  intros Hc Hi. unfold reconcile_lines, plan_offset. cbn [r_plan r_advice print_remote_reconcile].
  assert (Hb : bool_decide (h ∉ claim_hostnames c) = bool_decide (h ∉ local_hosts cfg)).
  { apply bool_decide_ext. by rewrite (claims_are_local cfg tok tr c h Hc). }
  rewrite Hb. destruct (o_hostnames o) as [|h0 hs] eqn:Eh; [done|]. rewrite <- Eh in *.
  assert (Hl : owned_lines (print_remote_reconcile cfg o) !! i = Some ("  " +:+ h +:+ mark (bool_decide (h ∉ local_hosts cfg)))).
  { unfold owned_lines. apply lookup_app_l_Some. cbn [print_remote_reconcile r_hosts].
    rewrite !list_lookup_fmap, Hi. done. }
  destruct (plan_line o); cbn [app Nat.add lookup list_lookup]; by apply lookup_app_l_Some.
Qed.
