(* ===== verification/ClientStatus.v ===== *)
(** * Status and logs of the daemon (crates/client/src/commands.rs, status.rs)

    The publisher task of [etun up], which writes a snapshot of the daemon's
    status whenever it changes; [etun status], which reads it; [etun logs], which
    prints the newest log file and follows it. *)
From stdpp Require Import pretty.
From S2P Require Import Prelude Fs ClientDaemon ClientFiles ClientCommands ClientEdits.
Local Open Scope Z_scope.

(** ** The publisher *)
Section Publisher.
Context `{Format StatusSnapshot}.
Context (relay : string) (pid : Z).

Definition up_lines (snap : StatusSnapshot) : list string :=
  ((fun h => "  tunnel up:  https://" +:+ h) <$> sn_hostnames snap) ++
  ((fun p => "  tunnel up:  tcp " +:+ relay +:+ ":" +:+ pretty p) <$> sn_ports snap).
(** One turn: the snapshot is written (a failure is ignored), then the lines to
    print and the last state announced. *)
Definition publish_turn (s : DaemonStatus) (last : ConnState) (d : Disk) : list string * ConnState * Disk :=
  let snap := from_daemon relay pid s in
  let d' := (status_write snap d).2 in
  if String.eqb (sn_state snap) "connected" && negb (bool_decide (last = Connected))
  then (up_lines snap, Connected, d')
  else if String.eqb (sn_state snap) "auth_failed"
       then (["  authentication failed; check your token (`etun login`)"%string], last, d')
       else ([], last, d').
(** The loop over the statuses it wakes up to. *)
Fixpoint publisher (seen : list DaemonStatus) (last : ConnState) (d : Disk) : list string * Disk :=
  match seen with
  | [] => ([], d)
  | s :: rest =>
      let '(lines, last', d') := publish_turn s last d in
      let '(more, d'') := publisher rest last' d' in
      (lines ++ more, d'')
  end.

(** ** [etun status] *)
Definition status_lines (s : StatusSnapshot) : list string :=
  ["state:      " +:+ sn_state s; "relay:      " +:+ sn_relay s;
   "pid:        " +:+ pretty (sn_pid s); "reconnects: " +:+ pretty (sn_reconnects s)] ++
  ((fun h => "  https://" +:+ h) <$> sn_hostnames s) ++
  ((fun p => "  tcp " +:+ sn_relay s +:+ ":" +:+ pretty p) <$> sn_ports s).
(** [pretty_json]: serde's rendering of a snapshot. *)
Definition status_cmd (pretty_json : StatusSnapshot -> result string string) (json : bool) :
    st Disk string (list string) :=
  snap ← status_read;
  match snap with
  | None => mret ["no running daemon (status file absent)"%string]
  | Some s => if json then j ← lift (pretty_json s); mret [j] else mret (status_lines s)
  end.
End Publisher.

(** ** [etun logs] *)
Definition log_file_basename : string := "etun.log".
(** The newest of the log files: the last name in order. *)
Definition newest_log (names : list string) : option string :=
  last (sort_by String.leb (filter (fun n => String.prefix log_file_basename n = true) names)).
(** The bytes printed from an offset, and how many; [bytes] is the file. *)
Definition print_from (bytes : list byte) (from : nat) : list byte * nat :=
  if (length bytes <=? from)%nat then ([], 0%nat) else (drop from bytes, length (drop from bytes)).
(** The loop: each turn finds the file with the given content. *)
Fixpoint follow (contents : list (list byte)) (pos : nat) : list byte :=
  match contents with
  | [] => []
  | c :: rest => let (out, n) := print_from c pos in out ++ follow rest (pos + n)
  end.

(** ** Theorems *)
Section Published.
Context `{HS : FormatLaw StatusSnapshot}.
Context (relay : string) (pid : Z).

(** What the status file means. *)
Definition status_view (d : Disk) : option (result string StatusSnapshot) :=
  parse ∘ content <$> files d !! status_file.

Lemma status_write_view (snap : StatusSnapshot) (d : Disk) :
  let d' := (status_write snap d).2 in
  (status_view d' = status_view d \/ status_view d' = Some (Ok snap)) /\
  (is_ok (status_write snap d).1 = true -> status_view d' = Some (Ok snap)) /\
  (forall q, own_file q -> q <> status_file -> files d' !! q = files d !! q).
Proof using HS.
  cbn zeta. unfold status_write, save_file. destruct (render snap) as [bs|err] eqn:Hr; [|by split_and!; [left|..]].
  assert (Htmp : with_extension status_file "tmp" <> status_file) by (by vm_compute).
  pose proof (fs_run_crash_point (atomic_write_ops status_file bs 420) d) as Hc.
  fold (atomic_write status_file bs 420) in Hc.
  destruct (atomic_write status_file bs 420 d) as [r d'] eqn:E. cbn [snd fst] in *.
  apply atomic_write_crash in Hc as (Hs & _ & Hq); [|done].
  assert (Hnew : forall m, files d' !! status_file = Some (mkFile bs m) -> status_view d' = Some (Ok snap)).
  { intros m Hf. unfold status_view. rewrite Hf. cbn. f_equal. by apply format_roundtrip. }
  split_and!.
  - destruct Hs as [Hs|Hs]; [left; unfold status_view; by rewrite Hs|right; eauto].
  - destruct r as [[]|]; [|done]. intros _. apply atomic_write_ok in E as [Hf _]; [|done]. eauto.
  - intros q Hown Hne. apply Hq; [done|]. intros ->.
    exact (own_file_tmp status_file _ (or_intror (or_intror eq_refl)) Hown eq_refl).
Qed.
Lemma publish_turn_disk s last d :
  (publish_turn relay pid s last d).2 = (status_write (from_daemon relay pid s) d).2.
Proof using.
  unfold publish_turn. by destruct (_ && _), (String.eqb (sn_state (from_daemon relay pid s)) "auth_failed").
Qed.

Lemma publisher_cons s rest last d :
  exists last', (publisher relay pid (s :: rest) last d).2 =
                (publisher relay pid rest last' (status_write (from_daemon relay pid s) d).2).2.
Proof using.
  cbn [publisher]. pose proof (publish_turn_disk s last d) as Hd.
  destruct (publish_turn relay pid s last d) as [[l last'] d1]. cbn [snd] in Hd. subst d1.
  exists last'. by destruct (publisher relay pid rest last' _).
Qed.
Lemma publisher_view (seen : list DaemonStatus) last d :
  let d' := (publisher relay pid seen last d).2 in
  (status_view d' = status_view d \/
   exists t, t ∈ seen /\ status_view d' = Some (Ok (from_daemon relay pid t))) /\
  (forall q, own_file q -> q <> status_file -> files d' !! q = files d !! q).
Proof using HS.
  cbn zeta. revert last d. induction seen as [|s seen IH]; intros last d; [by split; [left|]|].
  destruct (publisher_cons s seen last d) as [last' ->].
  destruct (status_write_view (from_daemon relay pid s) d) as (Hw & _ & Hq).
  destruct (IH last' (status_write (from_daemon relay pid s) d).2) as [Hv Hq']. split.
  - destruct Hv as [->|(t & Ht & ->)]; [|right; exists t; split; [by right|done]].
    destruct Hw as [->| ->]; [by left|right]. exists s. split; [by left|done].
  - intros q Ho Hne. by rewrite Hq', Hq.
Qed.
Lemma status_write_works snap d :
  faults d = [] -> faults (status_write snap d).2 = [] /\
  is_ok (status_write snap d).1 = is_ok (render snap).
Proof using.
  intros Hf. unfold status_write, save_file. destruct (render snap) as [bs|]; [|done].
  destruct (atomic_write_works status_file bs 420 ltac:(by vm_compute) d Hf) as (d' & -> & Hf'). done.
Qed.
Lemma publisher_last seen s last d :
  faults d = [] -> is_ok (render (from_daemon relay pid s)) = true ->
  let d' := (publisher relay pid (seen ++ [s]) last d).2 in
  status_view d' = Some (Ok (from_daemon relay pid s)) /\ faults d' = [].
Proof using HS.
  intros Hf Hr. cbn zeta. revert last d Hf. induction seen as [|x seen IH]; intros last d Hf.
  - cbn [app]. destruct (publisher_cons s [] last d) as [last' ->]. cbn [publisher snd].
    destruct (status_write_works (from_daemon relay pid s) d Hf) as [Hf' Ho]. split; [|done].
    destruct (status_write_view (from_daemon relay pid s) d) as (_ & Hw & _). apply Hw. congruence.
  - cbn [app]. destruct (publisher_cons x (seen ++ [s]) last d) as [last' ->].
    apply IH. by apply status_write_works.
Qed.
Lemma status_cmd_view pj d s :
  faults d = [] -> status_view d = Some (Ok s) -> (status_cmd pj false d).1 = Ok (status_lines s).
Proof using.
  intros Hf. unfold status_view, status_cmd, status_read, mbind, st_bind. rewrite Hf.
  destruct (files d !! status_file) as [f|]; [|done]. cbn. intros [= ->]. done.
Qed.

(** The status file always tells of a status the daemon had: whatever writes
    fail on the way, after the publisher has seen any sequence of statuses the file
    holds either what it held before or the exact snapshot of one of them, and of
    the last one when that write succeeded, in which case [etun status] prints
    exactly that snapshot; the configuration and the credentials are untouched. *)
Theorem status_never_torn (seen : list DaemonStatus) (s : DaemonStatus) (last : ConnState) (d d' : Disk) lines :
  publisher relay pid (seen ++ [s]) last d = (lines, d') ->
  (status_view d' = status_view d \/
   exists t, t ∈ seen ++ [s] /\ status_view d' = Some (Ok (from_daemon relay pid t))) /\
  (forall q, own_file q -> q <> status_file -> files d' !! q = files d !! q) /\
  (faults d = [] -> is_ok (render (from_daemon relay pid s)) = true ->
     status_view d' = Some (Ok (from_daemon relay pid s)) /\
     forall pj, (status_cmd pj false d').1 = Ok (status_lines (from_daemon relay pid s))).
Proof using HS.
  intros E. assert (Ed : d' = (publisher relay pid (seen ++ [s]) last d).2) by (by rewrite E). subst d'.
  destruct (publisher_view (seen ++ [s]) last d) as [Hv Hq]. split_and!; [done..|].
  intros Hf Hr. destruct (publisher_last seen s last d Hf Hr) as [Hs Hf']. split; [done|].
  intros pj. by apply status_cmd_view.
Qed.

(** A reconnection is not announced: once the publisher has printed the
    granted tunnels, it never prints a granted tunnel again, whatever the daemon is
    granted after a later reconnection; only authentication failures are still
    printed. *)
Theorem reconnect_not_announced (seen : list DaemonStatus) (d : Disk) :
  Forall (fun l => l = "  authentication failed; check your token (`etun login`)"%string)
    (publisher relay pid seen Connected d).1.
Proof using.
  revert d. induction seen as [|s seen IH]; intros d; [constructor|].
  cbn [publisher]. unfold publish_turn. rewrite bool_decide_true by done. rewrite andb_false_r.
  destruct (String.eqb (sn_state (from_daemon relay pid s)) "auth_failed");
    specialize (IH (status_write (from_daemon relay pid s) d).2);
    destruct (publisher relay pid seen Connected _); [by constructor|done].
Qed.
End Published.

(** *** Logs *)

(** Following a file prints its bytes once: from any offset, a sequence of
    contents each extending the one before. *)
Lemma follow_from (contents : list (list byte)) (c : list byte) :
  Forall (prefix c) contents -> StronglySorted prefix contents ->
  follow contents (length c) = drop (length c) (default c (last contents)).
Proof.
  revert c. induction contents as [|x rest IH]; intros c Hc Hs.
  { cbn. by rewrite drop_all. }
  apply Forall_cons in Hc as [[k ->] Hc]. apply StronglySorted_inv in Hs as [Hs Hx].
  assert (Hpos : follow (( c ++ k) :: rest) (length c) = k ++ follow rest (length (c ++ k))).
  { cbn. unfold print_from. rewrite length_app. destruct (Nat.leb_spec (length c + length k) (length c)).
    - assert (k = []) as -> by (apply nil_length_inv; lia). cbn. by rewrite !Nat.add_0_r.
    - rewrite drop_app_length. done. }
  rewrite Hpos, (IH (c ++ k) Hx Hs). rewrite last_cons.
  destruct (last rest) as [y|] eqn:El; cbn.
  - assert (Hy : prefix (c ++ k) y) by (rewrite Forall_forall in Hx; by apply Hx, last_Some_elem_of).
    destruct Hy as [r ->]. rewrite drop_app_length, <- app_assoc, drop_app_length. done.
  - by rewrite drop_all, app_nil_r, drop_app_length.
Qed.

(** [etun logs -f] prints the log file exactly: while the file only grows,
    what has been printed after any number of turns is its whole content at the
    last of them, no byte missing or repeated. *)
Theorem logs_follow_exact (contents : list (list byte)) (now : list byte) :
  StronglySorted prefix (contents ++ [now]) -> follow (contents ++ [now]) 0 = now.
Proof.
  intros Hs. change 0%nat with (length (@nil byte)).
  rewrite follow_from; [|apply Forall_forall; intros x _; apply prefix_nil|done].
  by rewrite last_snoc.
Qed.


(** ** Concrete runs *)
#[export] Instance StatusSnapshot_eq_dec : EqDecision StatusSnapshot.
Proof. solve_decision. Defined.
Definition st_down : DaemonStatus := mkStatus Connecting [] [] 1.
Definition st_up : DaemonStatus := mkStatus Connected ["web.r.dev"%string] [] 1.
Definition snaps : list StatusSnapshot := [from_daemon "r.dev" 7 st_down; from_daemon "r.dev" 7 st_up].
#[local] Instance demo_status_format : Format StatusSnapshot := {|
  render := table_render snaps; parse := table_parse snaps |}.
#[local] Instance demo_status_law : FormatLaw StatusSnapshot := table_roundtrip snaps.

Lemma status_never_torn_witness :
  (status_cmd (fun _ => Err EmptyString) false (publisher "r.dev" 7 [st_down; st_up] Connecting (mkDisk (∅ : Files) [])).2).1 =
    Ok ["state:      connected"; "relay:      r.dev"; "pid:        7"; "reconnects: 1"; "  https://web.r.dev"].
Proof.
  destruct (status_never_torn "r.dev" 7 [st_down] st_up Connecting (mkDisk (∅ : Files) [])
    (publisher "r.dev" 7 [st_down; st_up] Connecting (mkDisk (∅ : Files) [])).2
    (publisher "r.dev" 7 [st_down; st_up] Connecting (mkDisk (∅ : Files) [])).1
    (surjective_pairing _)) as (_ & _ & Hs).
  exact (proj2 (Hs eq_refl eq_refl) (fun _ => Err EmptyString)).
Defined.
Lemma logs_follow_exact_witness :
  follow [[]; [Byte.x01]; [Byte.x01]; [Byte.x01; Byte.x02]] 0 = [Byte.x01; Byte.x02].
Proof.
  apply (logs_follow_exact [[]; [Byte.x01]; [Byte.x01]] [Byte.x01; Byte.x02]).
  repeat constructor; first [apply prefix_nil | by exists [] | by exists [Byte.x02]].
Defined.
