(* ===== verification/ClientDoctor.v ===== *)
(** * The client's doctor (crates/client/src/doctor.rs, login.rs)

    The diagnostics of a client: the checks it makes and its verdict, and how the
    verdict relates to what [etun up] does.  What the relay answers is an input. *)
From stdpp Require Import pretty.
From S2P Require Import Prelude Fs ClientDaemon ClientFiles ClientCommands.
Local Open Scope Z_scope.

Record Check := mkCheck { ok : bool; label : string; detail : string }.
Definition pass (l d : string) : Check := mkCheck true l d.
Definition fail (l d : string) : Check := mkCheck false l d.

(** [login::tls_probe]: [connect] is the TLS handshake and the chain it showed,
    [not_after] the expiry of a certificate, [now] the clock (zero before 1970). *)
Record TlsInfo := mkTlsInfo { days_remaining : Z; expired : bool }.
Definition tls_probe (connect : result string (list (list byte)))
    (not_after : list byte -> result string Z) (now : Z) : result string TlsInfo :=
  certs ← connect;
  leaf ← match certs with [] => Err "relay presented no certificate"%string | l :: _ => Ok l end;
  na ← map_err (fun e => "parsing relay certificate: " +:+ e) (not_after leaf);
  Ok (mkTlsInfo (Z.quot (na - now) 86400) (na <=? now)).

Section Run.
Context `{Format FileConfig, Format CredFile}.
Context (e : Env) (trust_of : FileConfig -> result string TrustMode).
(** [probe] and [verify]: the handshake and the authenticated round trip. *)
Context (probe : string -> TrustMode -> result string TlsInfo).
Context (verify : string -> string -> TrustMode -> result string VerifyOk).

Definition token_check (token : option string) : Check :=
  match token with
  | Some _ => pass "credentials" "token present"
  | None => fail "credentials" "no token; run `etun login`"
  end.
Definition probe_check (r : result string TlsInfo) : Check :=
  match r with
  | Ok info =>
      if expired info then fail "relay tls" "certificate has expired"
      else pass "relay tls" ("valid, ~" +:+ pretty (days_remaining info) +:+ " days remaining")
  | Err err => fail "relay tls" err
  end.
Definition auth_check (r : result string VerifyOk) : Check :=
  match r with
  | Ok v => pass "auth" ("accepted (session " +:+ pretty (v_session_id v) +:+ ", proto " +:+
                         pretty (v_proto v) +:+ ")")
  | Err err => fail "auth" err
  end.
(** The checks it prints and the verdict. *)
Definition run (d : Disk) : list Check * bool :=
  match config_load d with
  | (Err err, _) => ([fail "config" err], false)
  | (Ok cfg, d1) =>
      if is_empty (relay cfg) then ([fail "config" "no relay set; run `etun login` first"], false)
      else
        let token := match (resolve e (relay cfg) d1).1 with Ok t => t | Err _ => None end in
        let cs := [pass "config" ("relay = " +:+ relay cfg);
                   pass "tunnels" (pretty (Z.of_nat (length (tunnels cfg))) +:+ " configured");
                   token_check token] in
        match trust_of cfg with
        | Err err => (cs ++ [fail "trust" err], false)
        | Ok trust =>
            let cs := cs ++ [probe_check (probe (relay cfg) trust)] ++
                      match token with
                      | Some t => [auth_check (verify (relay cfg) t trust)]
                      | None => []
                      end in
            (cs, bool_decide (length (filter (fun c => ok c = false) cs) = 0%nat))
        end
  end.
End Run.

(** ** Theorems *)
Section Verdict.
Context `{Format FileConfig, Format CredFile}.
Context (e : Env) (trust_of : FileConfig -> result string TrustMode).
Context (probe : string -> TrustMode -> result string TlsInfo).
Context (verify : string -> string -> TrustMode -> result string VerifyOk).

(** The client's doctor passes exactly when the configuration names a relay, a
    token for it is found, its trust root loads, the relay shows a certificate that
    has not expired, and the relay accepts the token; and then [etun up], run on
    the same files, starts the daemon with that token and that trust unless a TCP
    tunnel of the configuration has no public port. *)
Theorem client_doctor_exact (d : Disk) :
  (run e trust_of probe verify d).2 = true <->
  exists cfg tok trust info v d1,
    config_load d = (Ok cfg, d1) /\ relay cfg <> EmptyString /\ (resolve e (relay cfg) d1).1 = Ok (Some tok) /\
    trust_of cfg = Ok trust /\ probe (relay cfg) trust = Ok info /\ expired info = false /\
    verify (relay cfg) tok trust = Ok v /\
    (up trust_of e d).1 = to_client_config cfg tok trust.
Proof using.
  unfold run. destruct (config_load d) as [[cfg|err] d1] eqn:Ec.
  2: { split; [done|]. by intros (? & ? & ? & ? & ? & ? & ? & _). }
  destruct (is_empty (relay cfg)) eqn:Ee.
  { split; [done|]. intros (cfg' & ? & ? & ? & ? & ? & [= <- <-] & Hne & _). by destruct (relay cfg). }
  assert (Hne : relay cfg <> EmptyString) by (by destruct (relay cfg)).
  destruct (resolve e (relay cfg) d1) as [rt d2] eqn:Er. cbn [fst].
  destruct (trust_of cfg) as [trust|err] eqn:Et.
  2: { split; [done|]. intros (cfg' & ? & ? & ? & ? & ? & [= <- <-] & _ & _ & Ht & _). congruence. }
  cbn [snd]. rewrite bool_decide_eq_true, count_none; cbn [negb]; rewrite !Forall_app, !Forall_cons.
  split.
  - intros ((_ & _ & Hk & _) & (Hp & _) & Hv). destruct rt as [[tok|]|]; cbn in Hk; [|done..].
    rewrite Forall_cons in Hv. destruct Hv as [Hv _].
    destruct (probe (relay cfg) trust) as [info|] eqn:Ep; cbn in Hp; [|done].
    destruct (expired info) eqn:Ex; [done|].
    destruct (verify (relay cfg) tok trust) as [v|] eqn:Ev; cbn in Hv; [|done].
    exists cfg, tok, trust, info, v, d1. rewrite Er. split_and!; try done.
    unfold up, mbind, st_bind. rewrite Ec, Er, Et. done.
  - intros (cfg' & tok & trust' & info & v & d1' & [= <- <-] & _ & Hr & Ht & Hp & Hx & Hv & _).
    rewrite Er in Hr. cbn in Hr. subst rt. assert (trust' = trust) as -> by congruence.
    rewrite Hp, Hv. cbn. rewrite Hx. rewrite Forall_cons. by split_and!.
Qed.
End Verdict.
