(* ===== verification/ClientNet.v ===== *)
(** * Reaching the relay (crates/client/src/tls.rs, control.rs, login.rs, supervisor.rs)

    How the one-shot requests and the daemon connect: the trust they configure,
    the name they verify, and the order of the steps, up to the first frame.  The
    network, the certificate store and the TLS library answer; the model records
    what was completed. *)
From S2P Require Import Prelude Limits Frames Codec ClientDaemon ClientFiles ClientCommands ClientDoctor.
Local Open Scope Z_scope.

(** [rustls::ClientConfig] as far as [client_config] sets it. *)
Record TlsClient := mkTlsClient { tc_roots : list (list byte); tc_alpn : list string }.

(** Steps that were completed, in order. *)
Inductive NetAct :=
  | Resolved (host : string)
  | Dialled (addr : SocketAddr)
  | Verified (name : string) (client : TlsClient)
  | Upgraded (url : string)
  | StreamOpen.

(** The answers: each await is ready or still pending. *)
Record NetIo := mkNetIo {
  n_lookup : string -> Poll (result string (list SocketAddr));
  n_tcp : SocketAddr -> Poll (result string ());
  n_name : string -> result string ();
  n_handshake : TlsClient -> string -> Poll (result string (list (list byte)));
  n_ws : string -> Poll (result string ());
  n_stream : Poll (result string ());
}.

(** A computation over the awaits. *)
Definition net (A : Type) : Type := list NetAct -> Poll (result string A) * list NetAct.
#[export] Instance net_ret : MRet net := fun A a tr => (Ready (Ok a), tr).
#[export] Instance net_bind : MBind net := fun A B k m tr =>
  match m tr with
  | (Ready (Ok a), tr') => k a tr'
  | (Ready (Err e), tr') => (Ready (Err e), tr')
  | (Pending, tr') => (Pending, tr')
  end.
(** An await with its error context. *)
Definition wait_for {A : Type} (act : NetAct) (ctx : string -> string) (p : Poll (result string A)) : net A :=
  fun tr => match p with
            | Ready (Ok a) => (Ready (Ok a), tr ++ [act])
            | Ready (Err e) => (Ready (Err (ctx e)), tr)
            | Pending => (Pending, tr)
            end.
Definition given {A : Type} (r : result string A) : net A := fun tr => (Ready r, tr).

Section reach.
(** The bundled Mozilla roots, [RootCertStore::add], and [Display] of an address. *)
Context (tls_server_roots : list (list byte)) (add_root : list byte -> result string (list byte))
  (show_addr : SocketAddr -> string).
Context (io : NetIo).

Definition client_config (trust : TrustMode) : result string TlsClient :=
  match trust with
  | System => Ok (mkTlsClient tls_server_roots ["http/1.1"%string])
  | CustomRoot der =>
      root ← map_err (fun e => "invalid relay CA certificate: " +:+ e) (add_root der);
      Ok (mkTlsClient [root] ["http/1.1"%string])
  end.

Definition connect_host_of (relay : string) : string := "connect." +:+ relay.
Definition control_url (host : string) : string := "wss://" +:+ host +:+ "/connect".

(** [tls_connect]; the chain the relay showed. *)
Definition tls_connect (relay : string) (trust : TrustMode) : net (list (list byte)) :=
  let host := connect_host_of relay in
  addrs ← wait_for (Resolved host) (fun _ => "resolving " +:+ host) (n_lookup io host);
  addr ← given (match addrs with a :: _ => Ok a | [] => Err ("no address for " +:+ host) end);
  wait_for (Dialled addr) (fun _ => "connecting to " +:+ show_addr addr) (n_tcp io addr) ;;
  client ← given (client_config trust);
  given (map_err (fun e => "bad server name " +:+ host +:+ ": " +:+ e) (n_name io host)) ;;
  wait_for (Verified host client) (fun _ => "TLS handshake with " +:+ host) (n_handshake io client host).

(** The connect phase of [open] and [verify]. *)
Definition connect_phase (relay : string) (trust : TrustMode) : net () :=
  tls_connect relay trust ;;
  let url := control_url (connect_host_of relay) in
  wait_for (Upgraded url) (fun e => "websocket handshake: " +:+ e) (n_ws io url) ;;
  wait_for StreamOpen (fun e => "opening control stream: " +:+ e) (n_stream io).

(** [control::open]: a phase still pending at the ten-second deadline is cut. *)
Definition timed_phase (relay : string) (trust : TrustMode) : Timed (result string ()) :=
  match (connect_phase relay trust []).1 with Ready r => Got r | Pending => TimedOut end.
Definition reach_io (relay : string) (trust : TrustMode) (c : ControlIo) : ControlIo :=
  mkControlIo (timed_phase relay trust) (ci_preamble c) (ci_hello c) (ci_reply c) (ci_request c) (ci_answer c).

(** [tls_probe] on the handshake. *)
Definition probe_over (relay : string) (trust : TrustMode) (not_after : list byte -> result string Z) (now : Z) :
    Poll (result string TlsInfo) :=
  match (tls_connect relay trust []).1 with
  | Ready r => Ready (tls_probe r not_after now)
  | Pending => Pending
  end.

(** The daemon's connection: the same steps, with an address that may be fixed. *)
Definition daemon_io (cfg : ClientConfig) (c : ConnIo) : ConnIo :=
  let host := connect_host cfg in
  mkConnIo (n_lookup io host) (n_tcp io) (map_ok (fun _ => ()) (client_config (trust cfg))) (n_name io host)
    (match client_config (trust cfg) with
     | Ok client => match n_handshake io client host with
                    | Ready r => Ready (map_ok (fun _ => ()) r)
                    | Pending => Pending
                    end
     | Err _ => Pending
     end)
    (n_ws io (control_url host)) (n_stream io)
    (io_preamble c) (io_hello c) (io_hello_reply c) (io_claim c) (io_claim_reply c).

(** ** Only a verified relay sees the token *)

(** The relay was verified: the handshake for its control name succeeded under
    exactly the roots the trust mode asks for. *)
Definition relay_verified (relay : string) (trust : TrustMode) : Prop :=
  exists client chain,
    n_handshake io client (connect_host_of relay) = Ready (Ok chain) /\
    match trust with
    | System => tc_roots client = tls_server_roots
    | CustomRoot der => exists root, add_root der = Ok root /\ tc_roots client = [root]
    end.
Lemma client_config_roots (trust : TrustMode) (client : TlsClient) :
  client_config trust = Ok client ->
  match trust with
  | System => tc_roots client = tls_server_roots
  | CustomRoot der => exists root, add_root der = Ok root /\ tc_roots client = [root]
  end.
Proof using.
  unfold client_config. destruct trust as [|der]; [by intros [= <-]|].
  destruct (add_root der) as [root|e]; [|done]. cbn. intros [= <-]. by exists root.
Qed.
Lemma net_bind_Ok {A B : Type} (m : net A) (k : A -> net B) (b : B) (tr tr' : list NetAct) :
  (m ≫= k) tr = (Ready (Ok b), tr') -> exists a tr1, m tr = (Ready (Ok a), tr1) /\ k a tr1 = (Ready (Ok b), tr').
Proof using. unfold mbind, net_bind. destruct (m tr) as [[[a|e]|] tr1]; [|done..]. intros H. by exists a, tr1. Qed.
Lemma wait_for_Ok {A : Type} (act : NetAct) (ctx : string -> string) (p : Poll (result string A)) (a : A) (tr tr' : list NetAct) :
  wait_for act ctx p tr = (Ready (Ok a), tr') -> p = Ready (Ok a) /\ tr' = tr ++ [act].
Proof using. unfold wait_for. destruct p as [[x|e]|]; [|done..]. by intros [= <- <-]. Qed.
Lemma given_Ok {A : Type} (r : result string A) (a : A) (tr tr' : list NetAct) :
  given r tr = (Ready (Ok a), tr') -> r = Ok a /\ tr' = tr.
Proof using. by intros [= -> ->]. Qed.

Lemma tls_connect_Ok (relay : string) (trust : TrustMode) (chain : list (list byte)) (tr' : list NetAct) :
  tls_connect relay trust [] = (Ready (Ok chain), tr') ->
  exists addr client, client_config trust = Ok client /\ n_handshake io client (connect_host_of relay) = Ready (Ok chain) /\
    tr' = [Resolved (connect_host_of relay); Dialled addr; Verified (connect_host_of relay) client].
Proof using.
  unfold tls_connect. intros (addrs & t1 & [_ ->]%wait_for_Ok & H)%net_bind_Ok.
  apply net_bind_Ok in H as (addr & t2 & [_ ->]%given_Ok & H).
  apply net_bind_Ok in H as (u & t3 & [_ ->]%wait_for_Ok & H).
  apply net_bind_Ok in H as (client & t4 & [Hc ->]%given_Ok & H).
  apply net_bind_Ok in H as (u2 & t5 & [_ ->]%given_Ok & H).
  apply wait_for_Ok in H as [Hh ->]. by exists addr, client.
Qed.
Lemma connect_phase_Ok (relay : string) (trust : TrustMode) (tr' : list NetAct) :
  connect_phase relay trust [] = (Ready (Ok ()), tr') ->
  relay_verified relay trust /\
  exists addr client, tr' = [Resolved (connect_host_of relay); Dialled addr; Verified (connect_host_of relay) client;
    Upgraded (control_url (connect_host_of relay)); StreamOpen].
Proof using.
  unfold connect_phase. intros (chain & t1 & (addr & client & Hc & Hh & ->)%tls_connect_Ok & H)%net_bind_Ok.
  apply net_bind_Ok in H as (u & t2 & [_ ->]%wait_for_Ok & H). apply wait_for_Ok in H as [_ ->].
  split; [|by exists addr, client]. exists client, chain. split; [done|]. by apply client_config_roots.
Qed.

Context (agent_version : string) (show_codec : CodecError -> string) (debug_code : DenyCode -> string)
  (debug_frame : ControlFrame -> string).
Abbreviation open_over := (ClientCommands.open agent_version show_codec debug_code debug_frame).

Lemma open_sends_after_connect (relay tok : string) (c : ControlIo) (r : result string Z) (sent : list ControlFrame) :
  open_over relay tok c [] = (r, sent) -> sent <> [] -> ci_connect c = Got (Ok ()).
Proof using.
  unfold ClientCommands.open, mbind, st_bind, need. destruct (ci_connect c) as [|[[]|e]]; [|done|].
  - by intros [= <- <-].
  - by intros [= <- <-].
Qed.
(** The daemon's set-up writes nothing. *)
Definition quiet {A : Type} (m : conn A) : Prop := forall k, (m k).2 = k.
Lemma quiet_bind {A B : Type} (m : conn A) (f : A -> conn B) : quiet m -> (forall a, quiet (f a)) -> quiet (m ≫= f).
Proof using.
  intros Hm Hf k. unfold mbind, st_bind. specialize (Hm k). destruct (m k) as [[a|e] k1]; cbn in *; [|done].
  subst k1. apply Hf.
Qed.
Lemma quiet_await {A : Type} (p : Poll (result ConnError A)) : quiet (await p).
Proof using. by destruct p as [[a|e]|]. Qed.
Lemma establish_quiet (cfg : ClientConfig) (c : ConnIo) : quiet (establish cfg c).
Proof using.
  unfold establish. repeat (apply quiet_bind; [|intros ?]); try apply quiet_await.
  destruct (relay_addr cfg); [done|]. apply quiet_bind; [apply quiet_await|]. by intros [|].
Qed.
Lemma daemon_sends_after_establish (cfg : ClientConfig) (c : ConnIo) (evs : list SteadyEvent) (k k' : Conn) (r : result Halt ()) :
  connect_once agent_version debug_frame debug_code cfg c evs k = (r, k') -> sent k' <> sent k ->
  (establish cfg c k).1 = Ok ().
Proof using.
  unfold connect_once, mbind, st_bind. pose proof (establish_quiet cfg c k) as Hq.
  destruct (establish cfg c k) as [[[]|e] k1]; [done|]. cbn in Hq. subst k1. by intros [= _ <-].
Qed.
Lemma establish_verified (cfg : ClientConfig) (c : ConnIo) (k : Conn) :
  (establish cfg (daemon_io cfg c) k).1 = Ok () -> relay_verified (relay_host cfg) (trust cfg).
Proof using.
  intros H. destruct (client_config (trust cfg)) as [client|e] eqn:Ec.
  - exists client. destruct (n_handshake io client (connect_host cfg)) as [[chain|e]|] eqn:Eh.
    + exists chain. split; [exact Eh|]. by apply client_config_roots.
    + exfalso. revert H. unfold establish, daemon_io, mbind, st_bind, await, lift_poll. cbn.
      rewrite Ec, Eh. cbn. by repeat (case_match; simplify_eq/=).
    + exfalso. revert H. unfold establish, daemon_io, mbind, st_bind, await, lift_poll. cbn.
      rewrite Ec, Eh. cbn. by repeat (case_match; simplify_eq/=).
  - exfalso. revert H. unfold establish, daemon_io, mbind, st_bind, await, lift_poll. cbn.
    rewrite Ec. cbn. by repeat (case_match; simplify_eq/=).
Qed.

(** C22 Only a verified relay sees the token.  Whatever the network answers, and
    wherever a step fails or hangs: when a one-shot request, a login or the daemon
    has written a frame (the token is in the first one), the TLS handshake for
    [connect.<relay>] has succeeded before, under exactly the roots the
    configuration asks for: the bundled ones, or the configured certificate alone. *)
Theorem token_only_to_verified_relay (relay tok : string) (trust_mode : TrustMode) :
  (forall c r frames, open_over relay tok (reach_io relay trust_mode c) [] = (r, frames) -> frames <> [] ->
     relay_verified relay trust_mode) /\
  (forall phase c v frames, (connect_phase relay trust_mode []).1 = Ready phase ->
     verify agent_version show_codec debug_code debug_frame phase tok c [] = (v, frames) -> frames <> [] ->
     relay_verified relay trust_mode) /\
  (forall cfg d evs k k' r, connect_once agent_version debug_frame debug_code cfg (daemon_io cfg d) evs k = (r, k') ->
     sent k' <> sent k -> relay_verified (relay_host cfg) (trust cfg)).
Proof using.
  assert (Hphase : (connect_phase relay trust_mode []).1 = Ready (Ok ()) -> relay_verified relay trust_mode).
  { destruct (connect_phase relay trust_mode []) as [p tr'] eqn:E. cbn. intros ->. by apply connect_phase_Ok in E as [Hv _]. }
  split_and!.
  - intros c r frames Ho Hs. apply Hphase. apply (open_sends_after_connect _ _ _ _ _ Ho) in Hs. cbn in Hs.
    unfold timed_phase in Hs. destruct (connect_phase relay trust_mode []).1 as [p|]; [|done]. by injection Hs as ->.
  - intros phase c v frames Hp Hv Hs. apply Hphase. rewrite Hp.
    revert Hv Hs. unfold verify, mbind, st_bind, need. destruct phase as [[]|e]; [done|]. by intros [= <- <-].
  - intros cfg d evs k k' r Hd Hs. apply (establish_verified cfg d k). by eapply daemon_sends_after_establish.
Qed.
End reach.

(** ** A private certificate authority *)
Module Demo.
Definition addr0 : SocketAddr := mkSocketAddr (V4 []) 443.
Definition net0 : NetIo := mkNetIo (fun _ => Ready (Ok [addr0])) (fun _ => Ready (Ok ())) (fun _ => Ok ())
  (fun client name => if bool_decide (tc_roots client = [[Byte.x2a]]) then Ready (Ok [[Byte.x01]]) else Ready (Err "unknown issuer"%string))
  (fun _ => Ready (Ok ())) (Ready (Ok ())).
Definition answers : ControlIo :=
  mkControlIo TimedOut (Ok ()) (Ok ()) (Got (Ok (Welcome 3 "1" 7))) (Ok ()) TimedOut.
Definition quietly {A : Type} (a : A) : string := EmptyString.
Definition opened (trust : TrustMode) : result string Z * list ControlFrame :=
  ClientCommands.open "1" quietly quietly quietly "relay.dev" "etun_t"
    (reach_io [[Byte.x2b]] Ok quietly net0 "relay.dev" trust answers) [].
(** The private root is accepted; the bundled ones are not, and then nothing was
    sent. *)
Example only_private_root : (opened System).2 = [] /\ (opened (CustomRoot [Byte.x2a])).1 = Ok 3.
Proof. vm_compute. split; reflexivity. Qed.
Lemma token_only_to_verified_relay_witness :
  relay_verified [[Byte.x2b]] Ok net0 "relay.dev" (CustomRoot [Byte.x2a]).
Proof.
  apply (proj1 (token_only_to_verified_relay [[Byte.x2b]] Ok quietly net0 "1" quietly quietly quietly
    "relay.dev" "etun_t" (CustomRoot [Byte.x2a])) answers (opened (CustomRoot [Byte.x2a])).1 (opened (CustomRoot [Byte.x2a])).2).
  - vm_compute. reflexivity.
  - vm_compute. discriminate.
Defined.
End Demo.
