(* ===== verification/Service.v ===== *)
(** * The background service (crates/client/src/service.rs)

    [etun service] writes a unit file (systemd), a property list (launchd) or
    registers a service (sc.exe) and drives the manager by running its command
    line tool.  The machine is its files and directories, the commands run so
    far, and the answers it still gives to file operations and commands; the
    modules follow the source's [imp] modules, one per platform. *)
From S2P Require Import Prelude Frames Fs ClientDaemon ClientFiles.

(** ** The machine *)
Inductive IoFault := IoWorks | IoFails (partial : option nat).
Record Host := mkHost {
  h_files : gmap string string;
  h_dirs : gset string;
  h_cmds : list (list string);
  h_io : list IoFault;             (* answers to the next file operations *)
  h_spawn : list (option bool);    (* and commands: [None] when it cannot be run *)
}.
Definition next_io (h : Host) : IoFault * Host :=
  (default IoWorks (head (h_io h)), mkHost (h_files h) (h_dirs h) (h_cmds h) (tail (h_io h)) (h_spawn h)).
Definition set_files (fs : gmap string string) (h : Host) : Host :=
  mkHost fs (h_dirs h) (h_cmds h) (h_io h) (h_spawn h).

Fixpoint str_take (k : nat) (s : string) : string :=
  match k, s with
  | S k', String c s' => String c (str_take k' s')
  | _, _ => EmptyString
  end.
(** [std::fs::write]: a failure may leave a truncated or partly written file. *)
Definition host_write (path text : string) : st Host string () :=
  fun h => match next_io h with
           | (IoWorks, h1) => (Ok (), set_files (<[path := text]> (h_files h1)) h1)
           | (IoFails None, h1) => (Err "io error"%string, h1)
           | (IoFails (Some k), h1) =>
               (Err "io error"%string, set_files (<[path := str_take k text]> (h_files h1)) h1)
           end.
Definition create_dir_all (dir : string) : st Host string () :=
  fun h => match next_io h with
           | (IoWorks, h1) =>
               (Ok (), mkHost (h_files h1) ({[dir]} ∪ h_dirs h1) (h_cmds h1) (h_io h1) (h_spawn h1))
           | (_, h1) => (Err "io error"%string, h1)
           end.
Definition remove_file (path : string) : st Host string () :=
  fun h => match next_io h with
           | (IoWorks, h1) => (Ok (), set_files (delete path (h_files h1)) h1)
           | (_, h1) => (Err "io error"%string, h1)
           end.
(** [Path::exists]: a file operation that cannot fail. *)
Definition path_exists (path : string) : st Host string bool :=
  fun h => (Ok (bool_decide (is_Some (h_files h !! path))), h).
(** [Command::status]: the exit status, or an error when it cannot be run. *)
Definition cmd_status (argv : list string) : st Host string bool :=
  fun h => let h1 := mkHost (h_files h) (h_dirs h) (h_cmds h ++ [argv]) (h_io h) (tail (h_spawn h)) in
           match default (Some true) (head (h_spawn h)) with
           | Some ok => (Ok ok, h1)
           | None => (Err ("cannot run " +:+ default EmptyString (head argv)), h1)
           end.
(** [let _ = op]. *)
Definition ignore {A : Type} (m : st Host string A) : st Host string () := fun h => (Ok (), (m h).2).
Definition context {A : Type} (ctx : string) : st Host string A -> st Host string A :=
  st_map_err (fun e => ctx +:+ ": " +:+ e).

(** What the process finds around it: [current_exe], [BaseDirs], [USER],
    [ETUN_CONFIG_DIR], and [ProjectDirs]. *)
Record Around := mkAround {
  current_exe : result string string;
  base_config_dir : option string;
  home_dir : option string;
  user_var : option string;
  config_dir_var : option string;
  project_config_dir : option string;
}.
Definition lift {A : Type} (r : result string A) : st Host string A := fun h => (r, h).
Definition ok_or {A : Type} (e : string) (o : option A) : result string A :=
  match o with Some a => Ok a | None => Err e end.

(** ** Text *)
Definition nl : string := String (Ascii.ascii_of_nat 10) EmptyString.
Definition dq : string := String (Ascii.ascii_of_nat 34) EmptyString.
Definition unlines (l : list string) : string := foldr (fun x acc => x +:+ nl +:+ acc) EmptyString l.
Definition words (l : list string) : string :=
  match l with [] => EmptyString | x :: l' => foldl (fun acc y => acc +:+ " " +:+ y) x l' end.
(** [str::replace]: left to right, without overlaps; [skip] characters of a match
    are still to be passed over. *)
Fixpoint replace_go (pat to : string) (skip : nat) (s : string) : string :=
  match s with
  | EmptyString => EmptyString
  | String c s' =>
      match skip with
      | S k => replace_go pat to k s'
      | O => if starts_with pat s then to +:+ replace_go pat to (pred (String.length pat)) s'
             else String c (replace_go pat to O s')
      end
  end.
Definition str_replace (pat to s : string) : string := replace_go pat to O s.

Section service.
Context (around : Around).

Definition exe : st Host string string := lift (map_err (fun e => "locating the etun binary: " +:+ e) (current_exe around)).

(** ** paths.rs: the configuration and log directories, created when needed *)
Definition config_dir : st Host string string :=
  dir ← (match config_dir_var around with
         | Some over => mret over
         | None => lift (ok_or "cannot determine a config directory for this platform" (project_config_dir around))
         end);
  context ("creating " +:+ dir) (create_dir_all dir) ;;
  mret dir.
Definition log_dir : st Host string string :=
  base ← config_dir;
  let dir := base +:+ "/logs" in
  context ("creating " +:+ dir) (create_dir_all dir) ;;
  mret dir.

(** ** Linux: systemd *)
Definition unit_path (system : bool) : st Host string string :=
  if system then mret "/etc/systemd/system/etun.service"%string
  else
    dir ← lift (ok_or "cannot find home directory" (base_config_dir around));
    let base := dir +:+ "/systemd/user" in
    create_dir_all base ;;
    mret (base +:+ "/etun.service").

(** The lines of [SYSTEM_BODY], with what stands for the binary. *)
Definition system_lines (exe : string) : list string := [
  "[Unit]";
  "Description=EtherTunnel client daemon";
  "Documentation=https://github.com/matpb/ethertunnel";
  "After=network-online.target";
  "Wants=network-online.target";
  EmptyString;
  "[Service]";
  "Type=simple";
  "ExecStart=" +:+ exe +:+ " up --service-mode";
  "Restart=always";
  "RestartSec=5";
  EmptyString;
  "# --- Identity & state (no useradd side effect) ---";
  "# systemd allocates a locked-down transient service user for the lifetime of";
  "# the unit and creates /var/lib/etun owned by it (%S expands to /var/lib).";
  "DynamicUser=yes";
  "StateDirectory=etun";
  "StateDirectoryMode=0700";
  "# Point the client's config-dir resolver (paths::config_dir, ETUN_CONFIG_DIR";
  "# wins) at the RW StateDirectory: the daemon reads config.toml and writes";
  "# credentials.toml / status.json / logs/ there.";
  "Environment=ETUN_CONFIG_DIR=%S/etun";
  EmptyString;
  "# --- Bearer token (never lands in the DynamicUser-owned state dir) ---";
  "# Operator provisions the raw token at /etc/etun/token (root:root 0600).";
  "# systemd, running as root before dropping privileges, copies it into a private";
  "# tmpfs at $CREDENTIALS_DIRECTORY/token (mode 0400, readable only by the";
  "# transient uid). ETUN_TOKEN_FILE points the daemon's creds resolver at it.";
  "# %d == $CREDENTIALS_DIRECTORY.";
  "LoadCredential=token:/etc/etun/token";
  "Environment=ETUN_TOKEN_FILE=%d/token";
  EmptyString;
  "# --- Hardening (mirrors deploy/etun-relay.service; tightened for an egress-only client) ---";
  "NoNewPrivileges=true";
  "ProtectSystem=strict";
  "ProtectHome=true";
  "PrivateTmp=true";
  "ProtectKernelTunables=true";
  "ProtectKernelModules=true";
  "ProtectControlGroups=true";
  "RestrictNamespaces=true";
  "RestrictSUIDSGID=true";
  "RestrictRealtime=true";
  "LockPersonality=true";
  "MemoryDenyWriteExecute=true";
  "RestrictAddressFamilies=AF_UNIX AF_INET AF_INET6";
  "SystemCallFilter=@system-service";
  "SystemCallErrorNumber=EPERM";
  "# Userspace TLS client: binds no privileged ports, needs no capabilities.";
  "CapabilityBoundingSet=";
  "AmbientCapabilities=";
  "LimitNOFILE=65536";
  EmptyString;
  "[Install]";
  "WantedBy=multi-user.target"]%string.
Definition SYSTEM_BODY : string := unlines (system_lines "{exe}").

Definition user_lines (exe : string) : list string := [
  "[Unit]";
  "Description=EtherTunnel client daemon";
  "After=network-online.target";
  "Wants=network-online.target";
  EmptyString;
  "[Service]";
  "Type=simple";
  "ExecStart=" +:+ exe +:+ " up --service-mode";
  "Restart=always";
  "RestartSec=5";
  "NoNewPrivileges=true";
  EmptyString;
  "[Install]";
  "WantedBy=default.target"]%string.

Definition unit_of (system : bool) (exe : string) : string :=
  if system then str_replace "{exe}" exe SYSTEM_BODY else unlines (user_lines exe).
Definition unit_text (system : bool) : st Host string string :=
  e ← exe; mret (unit_of system e).

Definition systemctl_argv (system : bool) (args : list string) : list string :=
  "systemctl"%string :: (if system then [] else ["--user"%string]) ++ args.
Definition systemctl (system : bool) (args : list string) : st Host string () :=
  ok ← context "running systemctl" (cmd_status (systemctl_argv system args));
  if (ok : bool) then mret () else st_fail ("systemctl " +:+ words args +:+ " failed").

End service.

Module Systemd.
Section imp.
Context (around : Around).
Definition reload (system : bool) : st Host string () := systemctl system ["daemon-reload"%string].

Definition install (system : bool) : st Host string () :=
  path ← unit_path around system;
  text ← unit_text around system;
  context ("writing " +:+ path) (host_write path text) ;;
  reload system ;;
  if system then
    context "creating /etc/etun" (create_dir_all "/etc/etun") ;;
    context "creating /var/lib/etun" (create_dir_all "/var/lib/etun") ;;
    systemctl system ["enable"; "etun.service"]%string
  else
    (match user_var around with
     | Some user => ignore (cmd_status ["loginctl"; "enable-linger"; user]%string)
     | None => mret ()
     end) ;;
    systemctl system ["enable"; "--now"; "etun.service"]%string.

Definition uninstall (system : bool) : st Host string () :=
  ignore (systemctl system ["disable"; "--now"; "etun.service"]%string) ;;
  path ← unit_path around system;
  present ← path_exists path;
  (if (present : bool) then remove_file path else mret ()) ;;
  ignore (reload system).

Definition start (system : bool) : st Host string () := systemctl system ["start"; "etun.service"]%string.
Definition stop (system : bool) : st Host string () := systemctl system ["stop"; "etun.service"]%string.
Definition status (system : bool) : st Host string () :=
  ignore (cmd_status (systemctl_argv system ["status"; "etun.service"; "--no-pager"]%string)).
End imp.
End Systemd.

(** ** macOS: launchd *)
Module Launchd.
Definition LABEL : string := "com.matpb.etun".
Section imp.
Context (around : Around).

Definition plist_path (system : bool) : st Host string string :=
  dir ← (if system then mret "/Library/LaunchDaemons"%string
         else home ← lift (ok_or "cannot find home directory" (home_dir around));
              mret (home +:+ "/Library/LaunchAgents"));
  ignore (create_dir_all dir) ;;
  mret (dir +:+ "/" +:+ LABEL +:+ ".plist").

Definition plist_of (exe log : string) : string := unlines [
  "<?xml version=" +:+ dq +:+ "1.0" +:+ dq +:+ " encoding=" +:+ dq +:+ "UTF-8" +:+ dq +:+ "?>";
  "<!DOCTYPE plist PUBLIC " +:+ dq +:+ "-//Apple//DTD PLIST 1.0//EN" +:+ dq +:+ " " +:+ dq +:+
    "http://www.apple.com/DTDs/PropertyList-1.0.dtd" +:+ dq +:+ ">";
  "<plist version=" +:+ dq +:+ "1.0" +:+ dq +:+ "><dict>";
  "<key>Label</key><string>" +:+ LABEL +:+ "</string>";
  "<key>ProgramArguments</key><array><string>" +:+ exe +:+
    "</string><string>up</string><string>--service-mode</string></array>";
  "<key>RunAtLoad</key><true/>";
  "<key>KeepAlive</key><true/>";
  "<key>StandardErrorPath</key><string>" +:+ log +:+ "/launchd.err</string>";
  "<key>StandardOutPath</key><string>" +:+ log +:+ "/launchd.out</string>";
  "</dict></plist>"]%string.
Definition plist_text : st Host string string :=
  e ← exe around; logs ← log_dir around; mret (plist_of e logs).

Definition install (system : bool) : st Host string () :=
  path ← plist_path system;
  text ← plist_text;
  context ("writing " +:+ path) (host_write path text) ;;
  ignore (cmd_status ["launchctl"; "load"; "-w"; path]%string).
Definition uninstall (system : bool) : st Host string () :=
  path ← plist_path system;
  ignore (cmd_status ["launchctl"; "unload"; "-w"; path]%string) ;;
  present ← path_exists path;
  if (present : bool) then remove_file path else mret ().
Definition start (system : bool) : st Host string () :=
  ok ← cmd_status ["launchctl"; "start"; LABEL]%string;
  if (ok : bool) then mret () else st_fail "launchctl start failed"%string.
Definition stop (system : bool) : st Host string () := ignore (cmd_status ["launchctl"; "stop"; LABEL]%string).
Definition status (system : bool) : st Host string () := ignore (cmd_status ["launchctl"; "list"; LABEL]%string).
End imp.
End Launchd.

(** ** Windows: sc.exe *)
Module WinSc.
Definition NAME : string := "EtherTunnel".
Definition bin_of (exe : string) : string := dq +:+ exe +:+ dq +:+ " up --service-mode".
Definition checked (why : string) (argv : list string) : st Host string () :=
  ok ← cmd_status argv; if (ok : bool) then mret () else st_fail why.

Definition install (around : Around) (system : bool) : st Host string () :=
  e ← exe around;
  ok ← context "running sc.exe (run as Administrator)"
         (cmd_status ["sc.exe"; "create"; NAME; "start="; "auto"; "binPath="; bin_of e]%string);
  if (ok : bool) then ignore (cmd_status ["sc.exe"; "start"; NAME]%string)
  else st_fail "sc.exe create failed (Administrator required)"%string.
Definition uninstall (system : bool) : st Host string () :=
  ignore (cmd_status ["sc.exe"; "stop"; NAME]%string) ;;
  checked "sc.exe delete failed (Administrator required)" ["sc.exe"; "delete"; NAME]%string.
Definition start (system : bool) : st Host string () :=
  checked "sc.exe start failed" ["sc.exe"; "start"; NAME]%string.
Definition stop (system : bool) : st Host string () := ignore (cmd_status ["sc.exe"; "stop"; NAME]%string).
Definition status (system : bool) : st Host string () := ignore (cmd_status ["sc.exe"; "query"; NAME]%string).
End WinSc.

(** ** The entry points *)
Inductive Platform := Linux | MacOs | Windows | OtherOs.
Inductive ServiceCmd := CInstall | CUninstall | CStart | CStop | CStatus.

Definition unsupported (cmd : ServiceCmd) : string :=
  match cmd with
  | CInstall => "service install is not supported on this platform"
  | _ => "unsupported platform"
  end.
Definition service (around : Around) (p : Platform) (cmd : ServiceCmd) (system : bool) : st Host string () :=
  match p, cmd with
  | Linux, CInstall => Systemd.install around system
  | Linux, CUninstall => Systemd.uninstall around system
  | Linux, CStart => Systemd.start system
  | Linux, CStop => Systemd.stop system
  | Linux, CStatus => Systemd.status system
  | MacOs, CInstall => Launchd.install around system
  | MacOs, CUninstall => Launchd.uninstall around system
  | MacOs, CStart => Launchd.start system
  | MacOs, CStop => Launchd.stop system
  | MacOs, CStatus => Launchd.status system
  | Windows, CInstall => WinSc.install around system
  | Windows, CUninstall => WinSc.uninstall system
  | Windows, CStart => WinSc.start system
  | Windows, CStop => WinSc.stop system
  | Windows, CStatus => WinSc.status system
  | OtherOs, _ => st_fail (unsupported cmd)
  end.

(** ** What a command does to the machine *)

(** Commands are only added, each of them satisfies [P], and files change only at
    [paths]. *)
Definition acts {A : Type} (P : list string -> Prop) (paths : gset string) (m : st Host string A) : Prop :=
  forall h, (exists new, h_cmds (m h).2 = h_cmds h ++ new /\ Forall P new) /\
            (forall q, q ∉ paths -> h_files (m h).2 !! q = h_files h !! q).
Section acts.
Context {P : list string -> Prop} {paths : gset string}.
Lemma acts_pure {A : Type} (m : st Host string A) :
  (forall h, h_cmds (m h).2 = h_cmds h /\ h_files (m h).2 = h_files h) -> acts P paths m.
Proof using.
  intros Hm h. destruct (Hm h) as [-> ->]. split; [|done]. exists []. by rewrite app_nil_r.
Qed.
(** Binding on a value with a known property. *)
Lemma acts_bind_val {A B : Type} (Q : A -> Prop) (m : st Host string A) (k : A -> st Host string B) :
  acts P paths m -> (forall h a h', m h = (Ok a, h') -> Q a) -> (forall a, Q a -> acts P paths (k a)) ->
  acts P paths (m ≫= k).
Proof using.
  intros Hm HQ Hk h. unfold mbind, st_bind. destruct (Hm h) as [(n1 & Hc1 & Hn1) Hf1].
  destruct (m h) as [[a|e] h1] eqn:E; cbn [snd] in *; [|by eauto].
  destruct (Hk a (HQ _ _ _ E) h1) as [(n2 & Hc2 & Hn2) Hf2]. split.
  - exists (n1 ++ n2). rewrite Hc2, Hc1, app_assoc. split; [done|]. by apply Forall_app.
  - intros q Hq. by rewrite Hf2, Hf1.
Qed.
Lemma acts_bind {A B : Type} (m : st Host string A) (k : A -> st Host string B) :
  acts P paths m -> (forall a, acts P paths (k a)) -> acts P paths (m ≫= k).
Proof using. intros Hm Hk. by apply (acts_bind_val (fun _ => True)). Qed.
Lemma acts_ret {A : Type} (a : A) : acts P paths (mret a).
Proof using. by apply acts_pure. Qed.
Lemma acts_fail {A : Type} (e : string) : acts P paths (st_fail (A:=A) e).
Proof using. by apply acts_pure. Qed.
Lemma acts_lift {A : Type} (r : result string A) : acts P paths (lift r).
Proof using. by apply acts_pure. Qed.
Lemma acts_exists (p : string) : acts P paths (path_exists p).
Proof using. by apply acts_pure. Qed.
Lemma acts_ignore {A : Type} (m : st Host string A) : acts P paths m -> acts P paths (ignore m).
Proof using. intros Hm h. exact (Hm h). Qed.
Lemma acts_context {A : Type} (c : string) (m : st Host string A) : acts P paths m -> acts P paths (context c m).
Proof using. intros Hm h. unfold context, st_map_err. specialize (Hm h). by destruct (m h). Qed.
Lemma acts_create_dir (d : string) : acts P paths (create_dir_all d).
Proof using.
  apply acts_pure. intros h. unfold create_dir_all, next_io. cbn.
  by destruct (default IoWorks _) as [|[k|]].
Qed.
Lemma acts_write (p text : string) : p ∈ paths -> acts P paths (host_write p text).
Proof using.
  intros Hp h. unfold host_write, next_io. cbn. split.
  - exists []. rewrite app_nil_r. by destruct (default IoWorks _) as [|[k|]].
  - intros q Hq. assert (p <> q) by set_solver.
    destruct (default IoWorks _) as [|[k|]]; cbn; by rewrite ?lookup_insert_ne.
Qed.
Lemma acts_remove (p : string) : p ∈ paths -> acts P paths (remove_file p).
Proof using.
  intros Hp h. unfold remove_file, next_io. cbn. split.
  - exists []. rewrite app_nil_r. by destruct (default IoWorks _) as [|[k|]].
  - intros q Hq. assert (p <> q) by set_solver.
    destruct (default IoWorks _) as [|[k|]]; cbn; by rewrite ?lookup_delete_ne.
Qed.
Lemma acts_cmd (argv : list string) : P argv -> acts P paths (cmd_status argv).
Proof using.
  intros Ha h. unfold cmd_status. cbn. split.
  - exists [argv]. destruct (default _ _) as [ok|]; cbn; split; auto.
  - intros q _. by destruct (default _ _) as [ok|].
Qed.
Lemma acts_systemctl (system : bool) (args : list string) :
  P (systemctl_argv system args) -> acts P paths (systemctl system args).
Proof using.
  intros Ha. apply acts_bind; [by apply acts_context, acts_cmd|]. intros [].
  - apply acts_ret.
  - apply acts_fail.
Qed.
End acts.
#[export] Hint Resolve acts_bind acts_ret acts_fail acts_lift acts_exists acts_ignore acts_context
  acts_create_dir acts_write acts_remove acts_cmd acts_systemctl : etun.

(** ** The only file a service command touches *)
Definition service_file (around : Around) (p : Platform) (system : bool) : option string :=
  match p with
  | Linux =>
      if system then Some "/etc/systemd/system/etun.service"%string
      else (fun d => (d +:+ "/systemd/user") +:+ "/etun.service") <$> base_config_dir around
  | MacOs =>
      (fun d => d +:+ "/" +:+ Launchd.LABEL +:+ ".plist") <$>
        (if system then Some "/Library/LaunchDaemons"%string
         else (fun h => h +:+ "/Library/LaunchAgents") <$> home_dir around)
  | Windows | OtherOs => None
  end.
Definition touched (o : option string) : gset string := match o with Some p => {[p]} | None => ∅ end.

Lemma unit_path_file (around : Around) (system : bool) h p h' :
  unit_path around system h = (Ok p, h') -> service_file around Linux system = Some p.
Proof.
  unfold unit_path, service_file. destruct system; [by intros [= <- _]|]. destruct (base_config_dir around); [|done].
  cbn. intros E. run_ok E. run_ok E. injection E0 as -> ->. by injection E as <- _.
Qed.
Lemma plist_path_file (around : Around) (system : bool) h p h' :
  Launchd.plist_path around system h = (Ok p, h') -> service_file around MacOs system = Some p.
Proof.
  unfold Launchd.plist_path, service_file. intros E. run_ok E. run_ok E. injection E as <- _.
  destruct system; [by injection E0 as <- _|]. destruct (home_dir around); [|done]. by injection E0 as <- _.
Qed.
Lemma acts_unit_path {P : list string -> Prop} {paths : gset string} (around : Around) (system : bool) :
  acts P paths (unit_path around system).
Proof. unfold unit_path. destruct system; eauto with etun. Qed.
Lemma acts_plist_path {P : list string -> Prop} {paths : gset string} (around : Around) (system : bool) :
  acts P paths (Launchd.plist_path around system).
Proof. unfold Launchd.plist_path. destruct system; eauto with etun. Qed.
Lemma acts_exe {P : list string -> Prop} {paths : gset string} (around : Around) : acts P paths (exe around).
Proof. apply acts_lift. Qed.
Lemma acts_log_dir {P : list string -> Prop} {paths : gset string} (around : Around) : acts P paths (log_dir around).
Proof.
  unfold log_dir, config_dir. apply acts_bind; [|eauto with etun]. apply acts_bind; [|eauto with etun].
  destruct (config_dir_var around); [apply acts_ret|apply acts_lift].
Qed.
#[export] Hint Resolve acts_unit_path acts_plist_path acts_exe acts_log_dir : etun.

(** Walks a program, leaving the commands it runs. *)
Ltac acts_auto :=
  repeat lazymatch goal with
    | |- acts _ _ (systemctl _ _) => apply acts_systemctl
    | |- acts _ _ (context _ _) => apply acts_context
    | |- acts _ _ (ignore _) => apply acts_ignore
    | |- acts _ _ (cmd_status _) => apply acts_cmd
    | |- acts _ _ (exe _) => apply acts_exe
    | |- acts _ _ (_ ≫= _) => apply acts_bind; [|intros ?]
    | |- acts _ _ (if ?b then _ else _) => destruct b
    | |- acts _ _ _ => apply acts_ret || apply acts_fail
    end.

Section install.
Context (P : list string -> Prop) (around : Around).
Lemma acts_systemd_install (system : bool) :
  (forall args, args ∈ [["daemon-reload"%string];
                        "enable"%string :: (if system then [] else ["--now"%string]) ++ ["etun.service"%string]] ->
     P (systemctl_argv system args)) ->
  (system = false -> forall user, P ["loginctl"; "enable-linger"; user]%string) ->
  acts P (touched (service_file around Linux system)) (Systemd.install around system).
Proof using.
  intros HP Hl. apply (acts_bind_val (fun p => p ∈ touched (service_file around Linux system))).
  { apply acts_unit_path. }
  { intros h a h' E. rewrite (unit_path_file _ _ _ _ _ E). set_solver. }
  intros path Hpath. apply acts_bind; [unfold unit_text; eauto with etun|]. intros text.
  apply acts_bind; [by apply acts_context, acts_write|]. intros _.
  apply acts_bind; [apply acts_systemctl, HP; set_solver|]. intros _. destruct system.
  - do 2 (apply acts_bind; [by apply acts_context, acts_create_dir|intros _]).
    apply acts_systemctl, HP. set_solver.
  - apply acts_bind.
    + destruct (user_var around); [|apply acts_ret]. by apply acts_ignore, acts_cmd, Hl.
    + intros _. apply acts_systemctl, HP. set_solver.
Qed.
Lemma acts_systemd_uninstall (system : bool) :
  (forall args, P (systemctl_argv system args)) ->
  acts P (touched (service_file around Linux system)) (Systemd.uninstall around system).
Proof using.
  intros HP. apply acts_bind; [by apply acts_ignore, acts_systemctl|]. intros _.
  apply (acts_bind_val (fun p => p ∈ touched (service_file around Linux system))).
  { apply acts_unit_path. }
  { intros h a h' E. rewrite (unit_path_file _ _ _ _ _ E). set_solver. }
  intros path Hpath. apply acts_bind; [apply acts_exists|]. intros b.
  apply acts_bind; [destruct b; eauto with etun|]. intros _. by apply acts_ignore, acts_systemctl.
Qed.
Lemma acts_launchd_install (system : bool) :
  (forall args, P ("launchctl"%string :: args)) ->
  acts P (touched (service_file around MacOs system)) (Launchd.install around system).
Proof using.
  intros HP. apply (acts_bind_val (fun p => p ∈ touched (service_file around MacOs system))).
  { apply acts_plist_path. }
  { intros h a h' E. rewrite (plist_path_file _ _ _ _ _ E). set_solver. }
  intros path Hpath. apply acts_bind; [unfold Launchd.plist_text; eauto 6 with etun|]. intros text.
  apply acts_bind; [by apply acts_context, acts_write|]. intros _. by apply acts_ignore, acts_cmd.
Qed.
Lemma acts_launchd_uninstall (system : bool) :
  (forall args, P ("launchctl"%string :: args)) ->
  acts P (touched (service_file around MacOs system)) (Launchd.uninstall around system).
Proof using.
  intros HP. apply (acts_bind_val (fun p => p ∈ touched (service_file around MacOs system))).
  { apply acts_plist_path. }
  { intros h a h' E. rewrite (plist_path_file _ _ _ _ _ E). set_solver. }
  intros path Hpath. apply acts_bind; [by apply acts_ignore, acts_cmd|]. intros _.
  apply acts_bind; [apply acts_exists|]. intros []; eauto with etun.
Qed.
End install.

(** The tools of each platform's service manager. *)
Definition tools (p : Platform) : list string :=
  match p with
  | Linux => ["systemctl"; "loginctl"]
  | MacOs => ["launchctl"]
  | Windows => ["sc.exe"]
  | OtherOs => []
  end%string.
Definition by_tool (p : Platform) (argv : list string) : Prop := exists t, head argv = Some t /\ t ∈ tools p.

(** The files a command may change. *)
Definition service_paths (around : Around) (p : Platform) (cmd : ServiceCmd) (system : bool) : gset string :=
  match cmd with CInstall | CUninstall => touched (service_file around p system) | _ => ∅ end.
Lemma acts_service (around : Around) (p : Platform) (cmd : ServiceCmd) (system : bool) :
  acts (by_tool p) (service_paths around p cmd system) (service around p cmd system).
Proof.
  assert (Htool : forall t args, t ∈ tools p -> by_tool p (t :: args)) by (intros t args; by exists t).
  unfold service_paths. destruct p, cmd; cbn [service]; try apply acts_fail;
    try (apply acts_systemd_install || apply acts_systemd_uninstall || apply acts_launchd_install
         || apply acts_launchd_uninstall); intros;
    unfold Systemd.start, Systemd.stop, Systemd.status, Launchd.start, Launchd.stop, Launchd.status,
      WinSc.install, WinSc.uninstall, WinSc.start, WinSc.stop, WinSc.status, WinSc.checked;
    acts_auto; apply Htool; set_solver.
Qed.

(** A service command touches one file.  On every platform, for every command
    and whatever fails on the way: no file but the service's own unit or property
    list changes, starting, stopping and querying change none at all, the commands
    run are those of the platform's service manager, and on a platform without one
    nothing happens and the command fails. *)
Theorem service_touches_one_file (around : Around) (p : Platform) (cmd : ServiceCmd) (system : bool)
    (h h' : Host) (r : result string ()) :
  service around p cmd system h = (r, h') ->
  (forall q, Some q <> service_file around p system \/ cmd <> CInstall /\ cmd <> CUninstall ->
     h_files h' !! q = h_files h !! q) /\
  (exists new, h_cmds h' = h_cmds h ++ new /\ Forall (by_tool p) new) /\
  (p = OtherOs -> h' = h /\ is_ok r = false).
Proof.
  intros E.
  assert (Hp : p = OtherOs -> h' = h /\ is_ok r = false).
  { intros ->. cbn in E. by injection E as <- <-. }
  destruct (acts_service around p cmd system h) as [Hc Hf]. rewrite E in Hc, Hf. split; [|by split].
  intros q Hq. apply Hf. unfold service_paths. destruct cmd, (service_file around p system); cbn; set_solver.
Qed.

(** ** Installing *)

(** A command that starts the service. *)
Definition starts_service (argv : list string) : Prop := "--now"%string ∈ argv \/ "start"%string ∈ argv.
#[export] Instance starts_service_dec (argv : list string) : Decision (starts_service argv).
Proof. unfold starts_service. apply _. Defined.

Lemma systemctl_ok (system : bool) (args : list string) h h' :
  systemctl system args h = (Ok (), h') ->
  h_cmds h' = h_cmds h ++ [systemctl_argv system args] /\ h_files h' = h_files h /\ h_dirs h' = h_dirs h.
Proof.
  unfold systemctl, context, st_map_err, cmd_status, mbind, st_bind.
  destruct (default _ _) as [[]|]; cbn; [|done..]. by intros [= <-].
Qed.
Lemma context_ok {A : Type} (c : string) (m : st Host string A) h a h' :
  context c m h = (Ok a, h') -> m h = (Ok a, h').
Proof. unfold context, st_map_err. by destruct (m h) as [[]]; intros [= <- <-]. Qed.
Lemma host_write_ok (p text : string) h h' :
  host_write p text h = (Ok (), h') -> h_files h' = <[p := text]> (h_files h) /\ h_cmds h' = h_cmds h.
Proof. unfold host_write, next_io. destruct (default _ _) as [|[]]; [|done..]. by intros [= <-]. Qed.
Lemma create_dir_ok (d : string) h h' :
  create_dir_all d h = (Ok (), h') ->
  h_dirs h' = {[d]} ∪ h_dirs h /\ h_files h' = h_files h /\ h_cmds h' = h_cmds h.
Proof. unfold create_dir_all, next_io. destruct (default _ _) as [|[]]; [|done..]. by intros [= <-]. Qed.

(** What has happened once the unit is written and the manager reloaded. *)
Definition written_unit (around : Around) (system : bool) : st Host string () :=
  path ← unit_path around system;
  text ← unit_text around system;
  context ("writing " +:+ path) (host_write path text) ;;
  Systemd.reload system.
Lemma written_unit_ok (around : Around) (system : bool) h h' :
  written_unit around system h = (Ok (), h') ->
  exists e path, current_exe around = Ok e /\ service_file around Linux system = Some path /\
    h_files h' !! path = Some (unit_of system e).
Proof.
  intros E. unfold written_unit in E. run_ok E. run_ok E. run_ok E.
  apply unit_path_file in E0 as Hp. unfold unit_text in E1. run_ok E1. injection E1 as <- <-.
  unfold exe, lift in E3. destruct (current_exe around) as [e|]; [|done]. cbn in E3. injection E3 as <- <-.
  destruct a1. apply context_ok, host_write_ok in E2 as [Hf _]. apply systemctl_ok in E as (_ & Hf' & _).
  eexists _, a. by rewrite Hf', Hf, lookup_insert_eq.
Qed.
Definition enable_unit (around : Around) (system : bool) : st Host string () :=
  if system then
    context "creating /etc/etun" (create_dir_all "/etc/etun") ;;
    context "creating /var/lib/etun" (create_dir_all "/var/lib/etun") ;;
    systemctl system ["enable"; "etun.service"]%string
  else
    (match user_var around with
     | Some user => ignore (cmd_status ["loginctl"; "enable-linger"; user]%string)
     | None => mret ()
     end) ;;
    systemctl system ["enable"; "--now"; "etun.service"]%string.
Definition enable_argv (system : bool) : list string :=
  systemctl_argv system ("enable"%string :: (if system then [] else ["--now"%string]) ++ ["etun.service"%string]).
Lemma install_split (around : Around) (system : bool) h :
  Systemd.install around system h = (written_unit around system ;; enable_unit around system) h.
Proof.
  unfold Systemd.install, written_unit, mbind, st_bind.
  destruct (unit_path around system h) as [[p|] h1]; [|done].
  destruct (unit_text around system h1) as [[t|] h2]; [|done].
  destruct (context _ _ h2) as [[[]|] h3]; [|done]. by destruct (Systemd.reload system h3) as [[[]|] h4].
Qed.
Lemma acts_written_unit (around : Around) (system : bool) :
  acts (fun argv => ~ starts_service argv) (touched (service_file around Linux system)) (written_unit around system).
Proof.
  apply (acts_bind_val (fun p => p ∈ touched (service_file around Linux system))).
  { apply acts_unit_path. }
  { intros h a h' E. rewrite (unit_path_file _ _ _ _ _ E). set_solver. }
  intros path Hpath. apply acts_bind; [unfold unit_text; eauto with etun|]. intros text.
  apply acts_bind; [by apply acts_context, acts_write|]. intros _.
  apply acts_systemctl. unfold systemctl_argv, starts_service. destruct system; set_solver.
Qed.

Lemma acts_enable_unit (around : Around) (system : bool) :
  acts (fun argv => system = true -> ~ starts_service argv) ∅ (enable_unit around system).
Proof.
  unfold enable_unit, starts_service, systemctl_argv. destruct system.
  - do 2 (apply acts_bind; [by apply acts_context, acts_create_dir|intros _]).
    apply acts_systemctl. cbn. set_solver.
  - apply acts_bind; [destruct (user_var around)|intros _]; acts_auto; done.
Qed.
Lemma enable_unit_last (around : Around) (system : bool) h h' :
  enable_unit around system h = (Ok (), h') -> exists pre, h_cmds h' = h_cmds h ++ pre ++ [enable_argv system].
Proof.
  unfold enable_unit. destruct system; intros E; run_ok E.
  - run_ok E. destruct a, a0. apply context_ok, create_dir_ok in E0 as (_ & _ & H0).
    apply context_ok, create_dir_ok in E1 as (_ & _ & H1). apply systemctl_ok in E as (H2 & _).
    exists []. by rewrite H2, H1, H0.
  - apply systemctl_ok in E as (H2 & _).
    assert (Hm : acts (fun _ => True) ∅ (match user_var around with
      | Some user => ignore (cmd_status ["loginctl"; "enable-linger"; user]%string) | None => mret () end))
      by (destruct (user_var around); acts_auto; done).
    destruct (Hm h) as [(n & Hn & _) _]. rewrite E0 in Hn. cbn [snd] in Hn. exists n. by rewrite H2, Hn, app_assoc.
Qed.

(** Installing a unit starts nothing that was not written.  Whatever fails on
    the way: [--system] never starts the service (it must be provisioned first),
    the per-user install starts it only when the unit file holds exactly the text
    for this binary, and an install that succeeds has written that text, reloaded
    the manager and enabled the unit. *)
Theorem install_starts_only_written (around : Around) (system : bool) (h h' : Host) (r : result string ()) :
  Systemd.install around system h = (r, h') ->
  exists new, h_cmds h' = h_cmds h ++ new /\
    (system = true -> Forall (fun argv => ~ starts_service argv) new) /\
    (Exists starts_service new \/ r = Ok () ->
       exists e path, current_exe around = Ok e /\ service_file around Linux system = Some path /\
         h_files h' !! path = Some (unit_of system e)) /\
    (r = Ok () -> last new = Some (enable_argv system)).
Proof.
  rewrite install_split. unfold mbind, st_bind.
  destruct (acts_written_unit around system h) as [(n1 & Hc1 & Hn1) _].
  destruct (written_unit around system h) as [[[]|e] h1] eqn:E1; cbn [snd] in Hc1.
  2: { intros [= <- <-]. exists n1. split_and!; [done|done| |done].
       intros [(x & Hx & Hs)%Exists_exists|]; [|done]. rewrite Forall_forall in Hn1. by destruct (Hn1 x Hx). }
  intros E. destruct (acts_enable_unit around system h1) as [(n2 & Hc2 & Hn2) Hf2]. rewrite E in Hc2, Hf2.
  cbn [snd] in Hc2, Hf2. exists (n1 ++ n2). rewrite Hc2, Hc1, app_assoc. split_and!; [done| | |].
  - intros Hs. apply Forall_app. split; [done|]. eapply Forall_impl; [exact Hn2|]. auto.
  - intros _. apply written_unit_ok in E1 as (e & path & He & Hp & Hf). exists e, path.
    by rewrite Hf2 by set_solver.
  - intros ->. apply enable_unit_last in E as [pre Hpre]. rewrite Hc2 in Hpre. apply app_inv_head in Hpre.
    by rewrite Hpre, app_assoc, last_snoc.
Qed.

Lemma remove_present (path : string) h h' :
  (present ← path_exists path; if (present : bool) then remove_file path else mret ()) h = (Ok (), h') ->
  h_files h' !! path = None.
Proof.
  unfold mbind, st_bind, path_exists. case_bool_decide as Hp.
  - unfold remove_file, next_io. destruct (default _ _) as [|[]]; [|done..]. intros [= <-]. cbn. apply lookup_delete_eq.
  - intros [= <-]. by apply eq_None_not_Some.
Qed.
(** Uninstalling, once it reports success, has left no unit or property list
    behind, whatever the manager answered. *)
Theorem uninstall_removes (around : Around) (p : Platform) (system : bool) (h h' : Host) (path : string) :
  service around p CUninstall system h = (Ok (), h') -> service_file around p system = Some path ->
  h_files h' !! path = None.
Proof.
  intros E Hfile. destruct p; [| |done..]; cbn [service] in E; run_ok E; run_ok E.
  - apply unit_path_file in E1. rewrite Hfile in E1. injection E1 as <-. run_ok E. run_ok E. destruct a1.
    assert (Hr : (present ← path_exists path; if (present : bool) then remove_file path else mret ()) d0 = (Ok (), d2))
      by (unfold mbind, st_bind; rewrite E1; exact E2).
    apply remove_present in Hr.
    assert (Ha : acts (fun _ => True) ∅ (ignore (Systemd.reload system))) by (unfold Systemd.reload; acts_auto; done).
    destruct (Ha d2) as [_ Hf]. rewrite E in Hf. cbn [snd] in Hf. by rewrite Hf.
  - apply plist_path_file in E0. rewrite Hfile in E0. injection E0 as <-. by apply remove_present in E.
Qed.

Local Open Scope string_scope.
(** ** What the unit says

    A unit file is read line by line: section headers, comments, [key=value]. *)
Fixpoint split_lines (s : string) : list string :=
  match s with
  | EmptyString => []
  | String c s' =>
      if Ascii.eqb c (Ascii.ascii_of_nat 10) then EmptyString :: split_lines s'
      else match split_lines s' with
           | [] => [String c EmptyString]
           | l :: ls => String c l :: ls
           end
  end.
Fixpoint strip_prefix (pre s : string) : option string :=
  match pre, s with
  | EmptyString, _ => Some s
  | String c p, String d t => if Ascii.eqb c d then strip_prefix p t else None
  | _, EmptyString => None
  end.
(** The values of [key] in the section named by the header line [section]. *)
Fixpoint directives (section key : string) (here : bool) (ls : list string) : list string :=
  match ls with
  | [] => []
  | l :: rest =>
      if starts_with "[" l then directives section key (bool_decide (l = section)) rest
      else if starts_with "#" l then directives section key here rest
      else match (if here then strip_prefix (key +:+ "=") l else None) with
           | Some v => v :: directives section key here rest
           | None => directives section key here rest
           end
  end.
Definition unit_values (section key text : string) : list string :=
  directives section key false (split_lines text).

Definition no_newline (s : string) : Prop := str_forall (fun c => negb (Ascii.eqb c (Ascii.ascii_of_nat 10))) s = true.
Lemma split_line_app (l rest : string) :
  no_newline l -> split_lines (l +:+ nl +:+ rest) = l :: split_lines rest.
Proof.
  unfold no_newline. induction l as [|c l IH]; [done|]. rewrite string_app_cons. cbn [str_forall split_lines].
  intros [Hc Hl]%andb_prop. apply negb_true_iff in Hc. rewrite Hc. by rewrite IH.
Qed.
Lemma split_unlines (l : list string) : Forall no_newline l -> split_lines (unlines l) = l.
Proof.
  induction 1 as [|x l Hx Hl IH]; [done|]. cbn [unlines foldr]. rewrite split_line_app by done. by f_equal.
Qed.
Lemma no_newline_app (s t : string) : no_newline s -> no_newline t -> no_newline (s +:+ t).
Proof. unfold no_newline. intros Hs Ht. by rewrite str_forall_app, Hs, Ht. Qed.

Lemma string_app_assoc (a b c : string) : (a +:+ b) +:+ c = a +:+ b +:+ c.
Proof. induction a as [|x a IH]; [done|]. rewrite !string_app_cons. by rewrite IH. Qed.
Lemma system_unit (e : string) : unit_of true e = unlines (system_lines e).
Proof.
  unfold system_lines. cbn [unlines foldr]. rewrite !string_app_assoc. vm_compute. reflexivity.
Qed.
Lemma unit_lines (system : bool) (e : string) :
  no_newline e -> split_lines (unit_of system e) = if system then system_lines e else user_lines e.
Proof.
  intros He.
  assert (Hx : no_newline ("ExecStart=" +:+ e +:+ " up --service-mode")) by (by repeat apply no_newline_app).
  destruct system; [rewrite system_unit|unfold unit_of];
    rewrite split_unlines; try done; repeat (apply Forall_cons; split; [first [exact Hx|reflexivity]|]); apply Forall_nil_2.
Qed.

(** The unit says what it should.  For every path of the binary without a line
    break, the unit file has one start command, the binary with [up
    --service-mode]; it is restarted for ever and wanted at boot; the system unit
    sets exactly the two variables the client reads, loads the token as a
    credential and runs under a transient user; the per-user unit has none of
    these. *)
Theorem unit_says (system : bool) (e : string) :
  no_newline e ->
  let value := fun sec key => unit_values sec key (unit_of system e) in
  value "[Service]" "ExecStart" = [e +:+ " up --service-mode"] /\
  value "[Service]" "Restart" = ["always"] /\
  value "[Install]" "WantedBy" = [if system then "multi-user.target" else "default.target"] /\
  value "[Service]" "Environment" =
    (if system then ["ETUN_CONFIG_DIR=%S/etun"; "ETUN_TOKEN_FILE=%d/token"] else []) /\
  value "[Service]" "LoadCredential" = (if system then ["token:/etc/etun/token"] else []) /\
  value "[Service]" "DynamicUser" = (if system then ["yes"] else []).
Proof.
  intros He. cbv zeta. unfold unit_values. rewrite unit_lines by done.
  destruct system; split_and!; vm_compute; reflexivity.
Qed.

(** ** From the unit to the daemon

    The manager sets the variables of [Environment] after replacing the
    specifiers. *)
Fixpoint expand (spec : Ascii.ascii -> option string) (s : string) : string :=
  match s with
  | EmptyString => EmptyString
  | String c rest =>
      if Ascii.eqb c (Ascii.ascii_of_nat 37) then
        match rest with
        | String d rest' => match spec d with Some v => v +:+ expand spec rest' | None => String c (expand spec rest) end
        | EmptyString => s
        end
      else String c (expand spec rest)
  end.
Definition specifiers (state_dir cred_dir : string) (c : Ascii.ascii) : option string :=
  if Ascii.eqb c (Ascii.ascii_of_nat 83) then Some state_dir
  else if Ascii.eqb c (Ascii.ascii_of_nat 100) then Some cred_dir
  else None.
(** [name=value], split at the first equals sign. *)
Fixpoint assignment (s : string) : option (string * string) :=
  match s with
  | EmptyString => None
  | String c rest =>
      if Ascii.eqb c (Ascii.ascii_of_nat 61) then Some (EmptyString, rest)
      else '(n, v) ← assignment rest; Some (String c n, v)
  end.
(** [env] has the variables of the unit [text]. *)
Definition unit_env (text state_dir cred_dir : string) (env : Env) : Prop :=
  Forall (fun nv => var env nv.1 = Some (expand (specifiers state_dir cred_dir) nv.2))
    (omap assignment (unit_values "[Service]" "Environment" text)).

(** A provisioned system service uses the provisioned token.  When the manager
    has copied the operator's file to the credentials directory and set the
    variables of the installed unit, the daemon's credential lookup returns that
    file's token, white space around it removed, for every relay and whatever else
    is in the environment or on disk, and does not touch the disk; and its files
    live in the unit's state directory. *)
Theorem system_service_token `{Format CredFile} (e state_dir cred_dir token relay : string) (env : Env) (d : Disk) :
  no_newline e -> unit_env (unit_of true e) state_dir cred_dir env ->
  read_to_string env (cred_dir +:+ "/token") = Some token -> is_empty (trim token) = false ->
  resolve env relay d = (Ok (Some (trim token)), d) /\
  var env "ETUN_CONFIG_DIR" = Some (state_dir +:+ "/etun").
Proof.
  intros He Henv Hread Htok.
  assert (Hv : unit_values "[Service]" "Environment" (unit_of true e)
    = ["ETUN_CONFIG_DIR=%S/etun"; "ETUN_TOKEN_FILE=%d/token"]).
  { unfold unit_values. rewrite unit_lines by done. vm_compute. reflexivity. }
  unfold unit_env in Henv. rewrite Hv in Henv.
  apply Forall_cons in Henv as [Hdir [Hfile _]%Forall_cons]. cbn [fst snd] in Hdir, Hfile.
  split; [|exact Hdir]. unfold resolve, token_from_file. rewrite Hfile.
  change (expand (specifiers state_dir cred_dir) "%d/token") with (cred_dir +:+ "/token"). cbn [nonempty].
  assert (Hne : is_empty (cred_dir +:+ "/token") = false) by (by destruct cred_dir).
  rewrite Hne. cbn. rewrite Hread. cbn. by rewrite Htok.
Qed.

(** ** Where the words and the code part *)

(** The first word of a command line, which is what the manager executes. *)
Fixpoint first_word (s : string) : string :=
  match s with
  | EmptyString => EmptyString
  | String c rest => if is_ws c then EmptyString else String c (first_word rest)
  end.
Lemma first_word_plain (s rest : string) :
  str_forall (fun c => negb (is_ws c)) s = true -> first_word (s +:+ " " +:+ rest) = s.
Proof.
  induction s as [|c s IH]; [done|]. rewrite string_app_cons. cbn [str_forall first_word].
  intros [Hc Hs]%andb_prop. apply negb_true_iff in Hc. by rewrite Hc, IH.
Qed.
Lemma first_word_no_ws (s : string) : str_forall (fun c => negb (is_ws c)) (first_word s) = true.
Proof.
  induction s as [|c s IH]; [done|]. cbn [first_word]. destruct (is_ws c) eqn:Hc; [done|].
  cbn [str_forall]. by rewrite Hc.
Qed.
(** The path goes into the unit unescaped: the command the manager executes is the
    binary exactly when the path holds no white space. *)
Theorem exec_path_unescaped (system : bool) (e : string) :
  no_newline e ->
  (first_word <$> unit_values "[Service]" "ExecStart" (unit_of system e) = [e]) <->
  str_forall (fun c => negb (is_ws c)) e = true.
Proof.
  intros He.
  assert (Hv : unit_values "[Service]" "ExecStart" (unit_of system e) = [e +:+ " " +:+ "up --service-mode"]).
  { unfold unit_values. rewrite unit_lines by done. destruct system; vm_compute; reflexivity. }
  rewrite Hv. cbn [fmap list_fmap]. split.
  - intros [= H]. rewrite <- H. apply first_word_no_ws.
  - intros H. by rewrite first_word_plain.
Qed.

(** ** Witnesses *)
Definition around0 : Around :=
  mkAround (Ok "/usr/bin/etun") (Some "/home/u/.config") (Some "/home/u") (Some "u") None (Some "/home/u/.config/etun").
Definition host0 : Host := mkHost ∅ ∅ [] [] [].
Lemma service_touches_one_file_witness :
  let h' := (service around0 Linux CInstall false host0).2 in
  h_files h' !! "/home/u/.config/etun/config.toml" = None /\
  exists new, h_cmds h' = ([] ++ new)%list /\ Forall (by_tool Linux) new.
Proof.
  destruct (service_touches_one_file around0 Linux CInstall false host0
    (service around0 Linux CInstall false host0).2 (service around0 Linux CInstall false host0).1) as (H1 & H2 & _).
  - vm_compute. reflexivity.
  - split; [|exact H2]. apply H1. left. vm_compute. discriminate.
Defined.
Lemma install_starts_only_written_witness :
  let h' := (Systemd.install around0 true host0).2 in
  exists new, h_cmds h' = ([] ++ new)%list /\ Forall (fun argv => ~ starts_service argv) new /\
    last new = Some ["systemctl"; "enable"; "etun.service"].
Proof.
  destruct (install_starts_only_written around0 true host0 (Systemd.install around0 true host0).2 (Ok ()))
    as (new & H1 & H2 & _ & H4).
  - vm_compute. reflexivity.
  - exists new. split; [exact H1|]. split; [exact (H2 eq_refl)|exact (H4 eq_refl)].
Defined.
Lemma uninstall_removes_witness :
  let h1 := (service around0 MacOs CInstall false host0).2 in
  let h2 := (service around0 MacOs CUninstall false h1).2 in
  bool_decide (is_Some (h_files h1 !! "/home/u/Library/LaunchAgents/com.matpb.etun.plist")) = true /\
  h_files h2 !! "/home/u/Library/LaunchAgents/com.matpb.etun.plist" = None.
Proof.
  split; [vm_compute; reflexivity|].
  apply (uninstall_removes around0 MacOs false (service around0 MacOs CInstall false host0).2).
  - vm_compute. reflexivity.
  - reflexivity.
Defined.
Lemma unit_says_witness : unit_values "[Service]" "ExecStart" (unit_of true "/usr/bin/etun") = ["/usr/bin/etun up --service-mode"].
Proof. exact (proj1 (unit_says true "/usr/bin/etun" eq_refl)). Defined.
Lemma exec_path_unescaped_witness :
  first_word <$> unit_values "[Service]" "ExecStart" (unit_of false "/home/a b/etun") <> ["/home/a b/etun"].
Proof.
  intros E. destruct (exec_path_unescaped false "/home/a b/etun" eq_refl) as [H _]. specialize (H E). discriminate H.
Defined.
Section token_witness.
#[local] Instance no_creds : Format CredFile := {| render _ := Err "off"; parse _ := Err "off" |}.
Definition env0 : Env := mkEnv
  (fun k => if bool_decide (k = "ETUN_CONFIG_DIR") then Some "/var/lib/etun"
            else if bool_decide (k = "ETUN_TOKEN_FILE") then Some "/run/credentials/etun.service/token"
            else if bool_decide (k = "ETUN_TOKEN") then Some "other" else None)
  (fun p => if bool_decide (p = "/run/credentials/etun.service/token") then Some (" etk_1" +:+ nl) else None).
Lemma system_service_token_witness :
  resolve env0 "relay.dev" (mkDisk ∅ []) = (Ok (Some "etk_1"), mkDisk ∅ []).
Proof.
  destruct (system_service_token "/usr/bin/etun" "/var/lib" "/run/credentials/etun.service" (" etk_1" +:+ nl)
    "relay.dev" env0 (mkDisk ∅ [])) as [H _].
  - reflexivity.
  - unfold unit_env. vm_compute. repeat constructor.
  - reflexivity.
  - reflexivity.
  - exact H.
Defined.
End token_witness.
