(* ===== verification/Cli.v ===== *)
(** * The [etun] binary (crates/cli/src/main.rs)

    The command line and its dispatch: one machine with the client's files, the
    registry databases and their files, the relay's certificates and the service
    manager's side, and every subcommand as the definition that models it elsewhere,
    run on its part of the machine.  [serve] and [up] do not end by themselves: what
    they write while they run (the operations sessions make on the registry, the
    certificates the renewal saves, the statuses the publisher wakes up to) is an
    input, of any length. *)
From S2P Require Import Prelude Limits Frames Codec Fs Registry RegistryInv RegistryProps Polar Store Certs Edge Serve ClientDaemon ClientFiles ClientCommands ClientEdits ClientStatus ClientDoctor Service.
Local Open Scope Z_scope.

(** [Command]; the flags of [Service] are the command and [--system]. *)
Inductive Command :=
  | Serve (config : string) (check : bool)
  | Admin (config dbf domainf : option string) (action : AdminAction)
  | Login (relay : option string) (token_stdin : bool)
  | Add (name : string) (port : Z) (hostname : option string) (tcp : option Z) (local_host : option string)
  | List (json : bool)
  | Remove (name : string)
  | Release (name : string)
  | Up (service_mode : bool)
  | Status (json : bool)
  | Service (cmd : ServiceCmd) (system : bool)
  | Logs (follow : bool)
  | Doctor.

(** [mc_disk]: the client's directory; [mc_dbs]: the contents of the registry
    databases; [mc_store]: the database files; [mc_tls]: the relay's state
    directory. *)
Record Machine := mkMachine {
  mc_disk : Disk;
  mc_dbs : Dbs;
  mc_store : Files;
  mc_tls : Disk;
  mc_host : Host;
}.

(** What the renewal task writes to the state directory. *)
Inductive TlsWrite := WCert (cert_pem key_pem : list byte) | WAccount (json : list byte).

(** What the outside gives the commands: the answers of relays and of the
    operating system, the SQLite engine's effect on files, and what happens while
    [serve] and [up] run. *)
Record CliIo := mkCliIo {
  io_load : string -> result string RelayConfig;
  io_lite : SqliteFiles;
  io_may : string -> bool;
  io_integrity : result SqlError string;
  io_show_sql : SqlError -> string;
  io_bind : result string ();
  io_served : list RegOp;
  io_renewals : list TlsWrite;
  io_relay_doctor : RelayConfig -> bool;
  io_env : Env;
  io_login : LoginIn;
  io_trust : FileConfig -> result string TrustMode;
  io_verify : string -> string -> TrustMode -> result string VerifyOk;
  io_advise : string -> string -> TrustMode -> Timed (result string OwnedSet);
  io_fetch : string -> string -> TrustMode -> result string OwnedSet;
  io_remote : string -> string -> TrustMode -> list string -> list Z -> result string Freed;
  io_config_json : FileConfig -> result string string;
  io_status_json : StatusSnapshot -> result string string;
  io_probe : string -> TrustMode -> result string TlsInfo;
  io_around : Around;
  io_platform : Platform;
  io_logs : list (string * list byte);
  io_pid : Z;
  io_statuses : list DaemonStatus;
}.

Inductive CliError := CliServe (e : ServeError) | CliAdmin (e : AdminError) | CliClient (e : string).
(** How a command ends: by itself, by [exit(1)], or not until it is stopped. *)
Inductive Exit :=
  | Finished
  | ExitOne
  | Serving (s : Serve.Served)
  | Daemon (c : ClientConfig)
  | Following (printed : list byte).
(** The exit status of the process; [None] while it runs. *)
Definition exit_status (r : result CliError Exit) : option Z :=
  match r with
  | Ok Finished => Some 0
  | Ok ExitOne | Err _ => Some 1
  | Ok (Serving _) | Ok (Daemon _) | Ok (Following _) => None
  end.

(** Run on one part of the machine. *)
Definition on_client {A : Type} (m : st Disk string A) : st Machine CliError A :=
  fun mc => let (r, d) := m (mc_disk mc) in
            (map_err CliClient r, mkMachine d (mc_dbs mc) (mc_store mc) (mc_tls mc) (mc_host mc)).
Definition on_host {A : Type} (m : st Host string A) : st Machine CliError A :=
  fun mc => let (r, h) := m (mc_host mc) in
            (map_err CliClient r, mkMachine (mc_disk mc) (mc_dbs mc) (mc_store mc) (mc_tls mc) h).
Definition on_dbs {A : Type} (m : st Dbs AdminError A) : st Machine CliError A :=
  fun mc => let (r, dbs) := m (mc_dbs mc) in
            (map_err CliAdmin r, mkMachine (mc_disk mc) dbs (mc_store mc) (mc_tls mc) (mc_host mc)).
Definition set_store (fs : Files) (mc : Machine) : Machine :=
  mkMachine (mc_disk mc) (mc_dbs mc) fs (mc_tls mc) (mc_host mc).
Definition set_dbs (dbs : Dbs) (mc : Machine) : Machine :=
  mkMachine (mc_disk mc) dbs (mc_store mc) (mc_tls mc) (mc_host mc).
Definition set_tls (d : Disk) (mc : Machine) : Machine :=
  mkMachine (mc_disk mc) (mc_dbs mc) (mc_store mc) d (mc_host mc).

(** The directory of a file's path, with its slash. *)
Fixpoint dir_prefix (s : string) : string :=
  match s with
  | EmptyString => EmptyString
  | String c rest =>
      match dir_prefix rest with
      | EmptyString => if Ascii.eqb c (Ascii.ascii_of_nat 47) then String c EmptyString else EmptyString
      | dir => String c dir
      end
  end.
Definition cache_path (db : string) : string := dir_prefix db +:+ "polar-cache.db".

Section cli.
Context `{CertLib, !Engine, Format FileConfig, Format CredFile, Format StatusSnapshot}.
Context (read : string -> result string (list byte)) (read_text : string -> result string string).
Context (staging_url production_url : string).
Context (io : CliIo).

(** *** Logging: where the lines go *)
Inductive LogTarget := Terminal | PlainStderr | RollingFile (dir : string).
Definition init_logging (service_mode : bool) : st Machine CliError LogTarget :=
  if negb service_mode then mret Terminal
  else match io_platform io with
       | Linux => mret PlainStderr
       | _ => fun mc =>
           match log_dir (io_around io) (mc_host mc) with
           | (Ok dir, h) => (Ok (RollingFile dir), mkMachine (mc_disk mc) (mc_dbs mc) (mc_store mc) (mc_tls mc) h)
           | (Err _, h) => (Ok Terminal, mkMachine (mc_disk mc) (mc_dbs mc) (mc_store mc) (mc_tls mc) h)
           end
       end.

(** [commands::logs]. *)
Definition logs (follow : bool) : st Host string Exit :=
  log_dir (io_around io) ;;
  match newest_log (fst <$> io_logs io) with
  | None => mret Finished
  | Some latest =>
      let bytes := default [] (snd <$> (list_find (fun f => fst f = latest) (io_logs io) ≫= fun x => Some (snd x))) in
      mret (if follow then Following (print_from bytes 0).1 else Finished)
  end.

(** [Registry::open] and [LicenseCache::open]: the files, and for a registry the
    tables, which are created when they are not there. *)
Definition open_registry (path : string) (mc : Machine) : result RegistryError () * Machine :=
  let (r, fs) := Registry_open (io_lite io) (io_may io) path (mc_store mc) in
  (r, set_store fs (match r with
                    | Ok _ => set_dbs (<[path := db_at path (mc_dbs mc)]> (mc_dbs mc)) mc
                    | Err _ => mc
                    end)).
Definition open_cache (path : string) (mc : Machine) : result string () * Machine :=
  let (r, fs) := LicenseCache_open (io_lite io) (io_may io) path (mc_store mc) in
  (map_err (io_show_sql io) r, set_store fs mc).
(** The cache is opened after the integrity check, when there is a [polar] section. *)
Definition wants_cache (check : bool) (opened : result RegistryError ()) (cfg : RelayConfig) : bool :=
  negb check && is_ok opened && is_ok (integrity_check (io_integrity io)) && bool_decide (is_Some (polar cfg)).
(** The relay runs: sessions change the registry, the renewal saves certificates. *)
Definition tls_write (w : TlsWrite) (d : Disk) : Disk :=
  match w with
  | WCert c k => (save (Ok ()) c k d).2
  | WAccount json => (acme_atomic_write account_path json 384 d).2
  end.
Definition while_serving (cfg : RelayConfig) (mc : Machine) : Machine :=
  let mc1 := set_dbs (<[db_path cfg := run_ops (domain (server cfg)) (io_served io) (db_at (db_path cfg) (mc_dbs mc))]>
                        (mc_dbs mc)) mc in
  match tls_mode (tls cfg) with
  | Acme => set_tls (foldl (fun d w => tls_write w d) (mc_tls mc) (io_renewals io)) mc1
  | _ => mc1
  end.
Definition serve_cmd (config : string) (check : bool) : st Machine CliError Exit := fun mc =>
  match io_load io config with
  | Err e => (Err (CliServe (LoadConfig e)), mc)
  | Ok cfg =>
      let (opened, mc1) := open_registry (db_path cfg) mc in
      let (cached, mc2) := if wants_cache check opened cfg then open_cache (cache_path (db_path cfg)) mc1 else (Ok (), mc1) in
      match run_serve read read_text staging_url production_url check
              (mkServeIo (Ok cfg) opened (io_integrity io) cached (io_bind io)) (mc_tls mc) with
      | Err e => (Err (CliServe e), mc2)
      | Ok Checked => (Ok Finished, mc2)
      | Ok s => (Ok (Serving s), while_serving cfg mc2)
      end
  end.

(** The database [etun admin] opens, if it gets that far; the doctor opens the
    configured one as well. *)
Definition admin_db (config dbf domainf : option string) (action : AdminAction) : option string :=
  match action with
  | ADoctor => path ← config; match io_load io path with Ok cfg => Some (db_path cfg) | Err _ => None end
  | _ => match admin_target (io_load io) config dbf domainf with Ok (p, _) => Some p | Err _ => None end
  end.
Definition admin_cmd (config dbf domainf : option string) (action : AdminAction) : st Machine CliError AdminEnd := fun mc =>
  let (opened, mc1) := match admin_db config dbf domainf action with
                       | Some p => open_registry p mc
                       | None => (Ok (), mc)
                       end in
  on_dbs (run_admin (io_load io) (fun _ _ => opened) (io_relay_doctor io) config dbf domainf action) mc1.

(** The publisher of [etun up] writes the status file as long as the daemon runs. *)
Definition publish (c : ClientConfig) : st Disk string () := fun d =>
  (Ok (), (publisher (relay_host c) (io_pid io) (io_statuses io) Connecting d).2).

Definition dispatch (cmd : Command) : st Machine CliError Exit :=
  match cmd with
  | Serve config check => serve_cmd config check
  | Admin config dbf domainf action =>
      r ← admin_cmd config dbf domainf action;
      mret (match r with Printed _ | DoctorOk => Finished | ExitFailure => ExitOne end)
  | Login relay token_stdin =>
      let i := io_login io in
      on_client (login (io_trust io) (io_env io) (io_verify io) relay
        (mkLoginIn token_stdin (stdin i) (is_terminal i) (prompt i))) ;;
      mret Finished
  | Add name port hostname tcp local_host =>
      on_client (add (io_trust io) (io_env io) (io_advise io) name port hostname tcp local_host) ;; mret Finished
  | List json =>
      (if (json : bool)
       then on_client (cfg ← config_load; ClientCommands.lift (io_config_json io cfg)) ;; mret ()
       else on_client (list_cmd (io_trust io) (io_env io) (io_fetch io)) ;; mret ()) ;;
      mret Finished
  | Remove name => on_client (remove (io_trust io) (io_env io) (io_remote io) name) ;; mret Finished
  | Release name => on_client (release (io_trust io) (io_env io) (io_remote io) name) ;; mret Finished
  | Up _ => c ← on_client (up (io_trust io) (io_env io)); on_client (publish c) ;; mret (Daemon c)
  | Status json => on_client (status_cmd (io_status_json io) json) ;; mret Finished
  | Service cmd system => on_host (service (io_around io) (io_platform io) cmd system) ;; mret Finished
  | Logs follow => on_host (logs follow)
  | Doctor => fun mc =>
      (Ok (if (ClientDoctor.run (io_env io) (io_trust io) (io_probe io) (io_verify io) (mc_disk mc)).2
           then Finished else ExitOne), mc)
  end.

Definition main (cmd : Command) : st Machine CliError Exit :=
  init_logging (match cmd with Up true => true | _ => false end) ;; dispatch cmd.
End cli.

(** ** What a subcommand may change *)

(** The files of the client a program may change. *)
Definition touches {A : Type} (paths : gset string) (m : st Disk string A) : Prop :=
  forall d q, q ∉ paths -> files (m d).2 !! q = files d !! q.
Section touches.
Context {paths : gset string}.
Lemma touches_ret {A : Type} (a : A) : touches paths (mret a).
Proof using. by intros d q. Qed.
Lemma touches_fail {A : Type} (e : string) : touches paths (st_fail (A:=A) e).
Proof using. by intros d q. Qed.
Lemma touches_lift {A : Type} (r : result string A) : touches paths (ClientCommands.lift r).
Proof using. by intros d q. Qed.
Lemma touches_bind {A B : Type} (m : st Disk string A) (k : A -> st Disk string B) :
  touches paths m -> (forall a, touches paths (k a)) -> touches paths (m ≫= k).
Proof using.
  intros Hm Hk d q Hq. unfold mbind, st_bind. specialize (Hm d q Hq).
  destruct (m d) as [[a|e] d1]; cbn [snd] in *; [|done]. by rewrite Hk.
Qed.
Lemma touches_attempt {A : Type} (m : st Disk string A) : touches paths m -> touches paths (attempt m).
Proof using. intros Hm d q Hq. specialize (Hm d q Hq). unfold attempt. by destruct (m d) as [[]]. Qed.
Lemma touches_load {T : Type} `{Format T} (dflt : T) (p : string) : touches paths (load_file dflt p).
Proof using. intros d q _. by rewrite load_file_files. Qed.
Lemma touches_save {T : Type} `{Format T} (p : string) (m : Z) (x : T) :
  own_file p -> p ∈ paths -> with_extension p "tmp" ∈ paths -> touches paths (save_file p m x).
Proof using.
  intros Hown Hp Ht d q Hq. unfold save_file. destruct (render x) as [bytes|]; [|done].
  pose proof (fs_run_crash_point (atomic_write_ops p bytes m) d) as Hc.
  apply atomic_write_crash in Hc as (_ & _ & Hother); [|by apply own_file_tmp].
  apply Hother; [by intros ->|by intros ->].
Qed.
End touches.
#[export] Hint Resolve touches_ret touches_fail touches_lift touches_bind touches_attempt touches_load : etun.

(** Walks a program over the client's files. *)
Ltac touches_auto :=
  repeat lazymatch goal with
    | |- touches _ (_ ≫= _) => apply touches_bind; [|intros ?]
    | |- touches _ (attempt _) => apply touches_attempt
    | |- touches _ (ClientCommands.lift _) => apply touches_lift
    | |- touches _ (load_file _ _) => apply touches_load
    | |- touches _ (st_fail _) => apply touches_fail
    | |- touches _ (mret _) => apply touches_ret
    | |- touches _ (if ?b then _ else _) => destruct b
    | |- touches _ (match ?x with _ => _ end) => destruct x
    | |- touches _ (let '(_, _) := ?x in _) => destruct x
    end.

Section isolated.
Context `{CertLib, !Engine, Format FileConfig, Format CredFile, Format StatusSnapshot}.
Context (trust_of : FileConfig -> result string TrustMode) (e : Env).
Lemma touches_resolve (paths : gset string) (r : string) : touches paths (ClientFiles.resolve e r).
Proof using. unfold ClientFiles.resolve, cred_load. touches_auto. Qed.
Lemma touches_relay_creds (paths : gset string) (cfg : FileConfig) : touches paths (relay_creds trust_of e cfg).
Proof using. unfold relay_creds. touches_auto; apply touches_resolve. Qed.

Definition config_paths : gset string := {[config_file; with_extension config_file "tmp"]}.
Definition cred_paths : gset string := {[credentials_file; with_extension credentials_file "tmp"]}.
Lemma touches_config_save (paths : gset string) (cfg : FileConfig) : config_paths ⊆ paths -> touches paths (config_save cfg).
Proof using. intros Hp. apply touches_save; [by left| |]; apply Hp; unfold config_paths; set_solver. Qed.
Lemma touches_cred_save (paths : gset string) (c : CredFile) : cred_paths ⊆ paths -> touches paths (cred_save c).
Proof using. intros Hp. apply touches_save; [by right; left| |]; apply Hp; unfold cred_paths; set_solver. Qed.
Lemma touches_login verify_relay arg i : touches (config_paths ∪ cred_paths) (login trust_of e verify_relay arg i).
Proof using.
  unfold login, store, config_load, cred_load. touches_auto;
    [apply touches_cred_save|apply touches_config_save]; set_solver.
Qed.
Lemma touches_add fetch n port host pub lhost : touches config_paths (add trust_of e fetch n port host pub lhost).
Proof using.
  unfold add, advise_plan, config_load. touches_auto; [by apply touches_config_save|apply touches_relay_creds].
Qed.
Lemma touches_remove remote n : touches config_paths (remove trust_of e remote n).
Proof using.
  unfold remove, config_load. touches_auto; [by apply touches_config_save|apply touches_relay_creds].
Qed.
Lemma touches_release remote n : touches ∅ (release trust_of e remote n).
Proof using. unfold release, config_load. touches_auto. apply touches_relay_creds. Qed.
Lemma touches_list fetch : touches ∅ (list_cmd trust_of e fetch).
Proof using. unfold list_cmd, config_load. touches_auto. apply touches_relay_creds. Qed.
Lemma touches_up : touches ∅ (up trust_of e).
Proof using. unfold up, config_load. touches_auto. apply touches_resolve. Qed.
Lemma touches_mono {A : Type} (P Q : gset string) (m : st Disk string A) : P ⊆ Q -> touches P m -> touches Q m.
Proof using. intros HPQ Hm d q Hq. apply Hm. set_solver. Qed.
Definition status_paths : gset string := {[status_file; with_extension status_file "tmp"]}.
Lemma touches_publish (io : CliIo) (c : ClientConfig) : touches status_paths (publish io c).
Proof using.
  intros d q Hq. unfold publish. cbn [snd]. generalize Connecting. revert d. induction (io_statuses io) as [|x seen IH]; intros d last; [done|].
  destruct (publisher_cons (relay_host c) (io_pid io) x seen last d) as [last' ->]. rewrite IH.
  assert (Hs : touches status_paths (status_write (from_daemon (relay_host c) (io_pid io) x)))
    by (apply touches_save; [by right; right|unfold status_paths; set_solver..]).
  by apply Hs.
Qed.

(** The renewal writes the certificate, the key and the account, nothing else. *)
Definition tls_paths : gset string :=
  {[cert_path; with_extension cert_path "tmp"; key_path; with_extension key_path "tmp"; account_path;
    with_extension account_path "tmp"]}.
Lemma atomic_other (p : string) (bs : list byte) (m : Z) (d : Disk) (q : string) :
  with_extension p "tmp" <> p -> q <> p -> q <> with_extension p "tmp" ->
  files (acme_atomic_write p bs m d).2 !! q = files d !! q.
Proof using.
  intros Hp N1 N2. pose proof (fs_run_crash_point (atomic_write_ops p bs m) d) as Hc.
  apply atomic_write_crash in Hc as (_ & _ & Hother); [|done]. by apply Hother.
Qed.
Lemma tls_write_other (w : TlsWrite) (d : Disk) (q : string) : q ∉ tls_paths -> files (tls_write w d) !! q = files d !! q.
Proof using.
  intros Hq.
  assert (Hne : q <> cert_path /\ q <> with_extension cert_path "tmp" /\ q <> key_path /\
    q <> with_extension key_path "tmp" /\ q <> account_path /\ q <> with_extension account_path "tmp")
    by (unfold tls_paths in Hq; set_solver).
  destruct Hne as (N1 & N2 & N3 & N4 & N5 & N6).
  destruct w as [c k|json]; cbn [tls_write]; [|by apply atomic_other; [vm_compute|..]].
  unfold save, mbind, st_bind. pose proof (atomic_other cert_path c 420 d q ltac:(by vm_compute) N1 N2) as Hc.
  destruct (acme_atomic_write cert_path c 420 d) as [[[]|e'] d1]; cbn [snd] in *; [|done].
  rewrite <- Hc. by apply atomic_other; [vm_compute|..].
Qed.
Lemma renewals_other (ws : list TlsWrite) (d : Disk) (q : string) :
  q ∉ tls_paths -> files (foldl (fun d w => tls_write w d) d ws) !! q = files d !! q.
Proof using.
  intros Hq. revert d. induction ws as [|w ws IH]; intros d; [done|]. cbn [foldl]. rewrite IH. by apply tls_write_other.
Qed.
End isolated.

(** ** Isolation *)
Section scope.
Context (io : CliIo).
Definition may_change (cmd : Command) : gset string :=
  match cmd with
  | Login _ _ => config_paths ∪ cred_paths
  | Add _ _ _ _ _ | Remove _ => config_paths
  | Up _ => status_paths
  | _ => ∅
  end.
Definition service_change (cmd : Command) : gset string :=
  match cmd with Service sc system => service_paths (io_around io) (io_platform io) sc system | _ => ∅ end.
(** The registry a command opens, and the database files it may create or change:
    the registry's, and for a relay with licensing those of the cache. *)
Definition db_change (cmd : Command) : gset string :=
  match cmd with
  | Serve config _ => match io_load io config with Ok cfg => {[db_path cfg]} | Err _ => ∅ end
  | Admin config dbf domainf action => match admin_db io config dbf domainf action with Some p => {[p]} | None => ∅ end
  | _ => ∅
  end.
Definition cache_change (cmd : Command) : gset string :=
  match cmd with
  | Serve config false =>
      match io_load io config with
      | Ok cfg => match polar cfg with Some _ => {[cache_path (db_path cfg)]} | None => ∅ end
      | Err _ => ∅
      end
  | _ => ∅
  end.
Definition db_file_of (paths : gset string) (q : string) : Prop := exists p, p ∈ paths /\ q ∈ siblings p.
Definition tls_change (cmd : Command) : gset string := match cmd with Serve _ false => tls_paths | _ => ∅ end.
Definition is_service (cmd : Command) : bool := match cmd with Service _ _ => true | _ => false end.
End scope.

(** What a program on the machine leaves alone: client files outside [s_client],
    system files outside [s_host], databases outside [s_dbs], database files but
    those of [s_store], files of the state directory outside [s_tls], and the
    commands run unless [s_cmds]. *)
Record Scope := mkScope {
  s_client : gset string; s_host : gset string; s_dbs : gset string; s_store : gset string; s_tls : gset string;
  s_cmds : bool }.
Record within_scope (S : Scope) (mc mc' : Machine) : Prop := {
  ws_client : forall q, q ∉ s_client S -> files (mc_disk mc') !! q = files (mc_disk mc) !! q;
  ws_host : forall q, q ∉ s_host S -> h_files (mc_host mc') !! q = h_files (mc_host mc) !! q;
  ws_dbs : forall q, q ∉ s_dbs S -> mc_dbs mc' !! q = mc_dbs mc !! q;
  ws_store : forall q, ~ db_file_of (s_store S) q -> mc_store mc' !! q = mc_store mc !! q;
  ws_tls : forall q, q ∉ s_tls S -> files (mc_tls mc') !! q = files (mc_tls mc) !! q;
  ws_cmds : s_cmds S = false -> h_cmds (mc_host mc') = h_cmds (mc_host mc);
}.
Lemma within_refl (S : Scope) (mc : Machine) : within_scope S mc mc.
Proof. by split. Qed.
Lemma within_trans (S : Scope) (a b c : Machine) : within_scope S a b -> within_scope S b c -> within_scope S a c.
Proof.
  intros [A1 A2 A3 A4 A5 A6] [B1 B2 B3 B4 B5 B6].
  split; intros; [rewrite B1, A1|rewrite B2, A2|rewrite B3, A3|rewrite B4, A4|rewrite B5, A5|rewrite B6, A6]; done.
Qed.
Definition confined {A : Type} (S : Scope) (m : st Machine CliError A) : Prop := forall mc, within_scope S mc (m mc).2.
Section confined.
Context {S : Scope}.
Lemma confined_ret {A : Type} (a : A) : confined S (mret a).
Proof using. intros mc. apply within_refl. Qed.
Lemma confined_bind {A B : Type} (m : st Machine CliError A) (k : A -> st Machine CliError B) :
  confined S m -> (forall a, confined S (k a)) -> confined S (m ≫= k).
Proof using.
  intros Hm Hk mc. unfold mbind, st_bind. specialize (Hm mc).
  destruct (m mc) as [[a|e] mc1]; cbn [snd] in *; [|done]. by eapply within_trans; [|apply Hk].
Qed.
Lemma confined_client {A : Type} (m : st Disk string A) : touches (s_client S) m -> confined S (on_client m).
Proof using.
  intros Hm mc. unfold on_client. specialize (Hm (mc_disk mc)). by destruct (m (mc_disk mc)) as [r d].
Qed.
Lemma confined_host {A : Type} (R : list string -> Prop) (m : st Host string A) :
  acts R (s_host S) m -> (s_cmds S = true \/ forall c, ~ R c) -> confined S (on_host m).
Proof using.
  intros Hm Hc mc. unfold on_host. destruct (Hm (mc_host mc)) as [(new & Hn & Hall) Hf].
  destruct (m (mc_host mc)) as [r h]; cbn [snd] in *. split; cbn [mc_disk mc_dbs mc_store mc_tls mc_host]; try done.
  intros HS. destruct Hc as [Hc|Hc]; [congruence|]. rewrite Hn. destruct new as [|c new]; [apply app_nil_r|].
  apply Forall_cons in Hall as [Hc' _]. by destruct (Hc c).
Qed.
End confined.

Section main.
Context `{CertLib, !Engine, Format FileConfig, Format CredFile, Format StatusSnapshot}.
Context (read : string -> result string (list byte)) (read_text : string -> result string string).
Context (staging_url production_url : string) (io : CliIo).
Context `{!SqliteLaw (io_lite io)}.
Definition scope_of (cmd : Command) : Scope :=
  mkScope (may_change cmd) (service_change io cmd) (db_change io cmd) (db_change io cmd ∪ cache_change io cmd)
    (tls_change cmd) (is_service cmd).

Lemma confined_logging (S : Scope) (b : bool) : confined S (init_logging io b).
Proof using.
  clear SqliteLaw0. unfold init_logging. destruct b; [|apply confined_ret]. cbn [negb].
  assert (Hl : forall mc, h_cmds (log_dir (io_around io) (mc_host mc)).2 = h_cmds (mc_host mc) /\
    forall q, h_files (log_dir (io_around io) (mc_host mc)).2 !! q = h_files (mc_host mc) !! q).
  { intros mc. destruct (acts_log_dir (P:=fun _ => False) (paths:=∅) (io_around io) (mc_host mc)) as [(new & Hn & Hall) Hf].
    split; [|intros q; apply Hf; set_solver]. rewrite Hn. destruct new as [|c new]; [apply app_nil_r|].
    by apply Forall_cons in Hall as [[] _]. }
  destruct (io_platform io); [apply confined_ret|..]; intros mc; destruct (Hl mc) as [Hh1 Hh2];
    destruct (log_dir (io_around io) (mc_host mc)) as [[dir|e] h]; cbn [snd mc_disk mc_dbs mc_host] in *; by split.
Qed.
Lemma open_registry_within (S : Scope) (p : string) (mc : Machine) :
  p ∈ s_dbs S -> p ∈ s_store S -> within_scope S mc (open_registry io p mc).2.
Proof using SqliteLaw0.
  intros K1 K2. unfold open_registry, Registry_open. pose proof (open_db_honest (io_lite io) (io_may io) p (mc_store mc)) as Hh.
  destruct (open_db (io_lite io) (io_may io) p (mc_store mc)) as [r fs]. cbn [snd] in *.
  split; cbn [mc_disk mc_dbs mc_store mc_tls mc_host set_store]; try by destruct r.
  - intros q Hq. destruct r as [[]|]; cbn [map_err mc_dbs set_dbs]; [|done]. rewrite lookup_insert_ne; [done|]. by intros ->.
  - intros q Hq. apply Hh. intros Hin. apply Hq. by exists p.
Qed.
Lemma open_cache_within (S : Scope) (p : string) (mc : Machine) : p ∈ s_store S -> within_scope S mc (open_cache io p mc).2.
Proof using SqliteLaw0.
  intros K2. unfold open_cache, LicenseCache_open. pose proof (open_db_honest (io_lite io) (io_may io) p (mc_store mc)) as Hh.
  destruct (open_db (io_lite io) (io_may io) p (mc_store mc)) as [r fs]. cbn [snd] in *.
  split; cbn [mc_disk mc_dbs mc_store mc_tls mc_host set_store]; try done.
  intros q Hq. apply Hh. intros Hin. apply Hq. by exists p.
Qed.
Lemma while_serving_within (S : Scope) (cfg : RelayConfig) (mc : Machine) :
  db_path cfg ∈ s_dbs S -> tls_paths ⊆ s_tls S -> within_scope S mc (while_serving io cfg mc).
Proof using.
  clear SqliteLaw0 read read_text staging_url production_url. intros Hd Ht. unfold while_serving. set (mc1 := set_dbs _ mc).
  assert (K1 : within_scope S mc mc1).
  { split; try done. intros q Hq. unfold mc1. cbn. rewrite lookup_insert_ne; [done|]. by intros <-. }
  destruct (tls_mode (tls cfg)); [|done|done]. eapply within_trans; [exact K1|].
  split; try done. intros q Hq. cbn. apply renewals_other. set_solver.
Qed.
Lemma confined_serve (config : string) (check : bool) :
  confined (scope_of (Serve config check)) (serve_cmd read read_text staging_url production_url io config check).
Proof using SqliteLaw0.
  intros mc. unfold serve_cmd. set (S := scope_of _).
  destruct (io_load io config) as [cfg|e] eqn:El; [|apply within_refl].
  assert (Hd : db_path cfg ∈ s_dbs S) by (unfold S; cbn; rewrite El; set_solver).
  assert (Hs : db_path cfg ∈ s_store S) by (unfold S; cbn; rewrite El; set_solver).
  pose proof (open_registry_within S (db_path cfg) mc Hd Hs) as K1.
  destruct (open_registry io (db_path cfg) mc) as [opened mc1]. cbn [snd] in K1.
  assert (K2 : within_scope S mc (if wants_cache io check opened cfg
    then open_cache io (cache_path (db_path cfg)) mc1 else (Ok (), mc1)).2).
  { destruct (wants_cache io check opened cfg) eqn:Ew; [|done]. eapply within_trans; [exact K1|]. apply open_cache_within.
    unfold wants_cache in Ew. apply andb_true_iff in Ew as [Ew [po Hpo]%bool_decide_eq_true].
    destruct check; [done|]. unfold S. cbn. rewrite El, Hpo. set_solver. }
  destruct (if wants_cache io check opened cfg then _ else _) as [cached mc2]. cbn [snd] in K2.
  destruct (run_serve _ _ _ _ _ _ _) as [[|gate shown l]|e] eqn:Er; [done| |done].
  eapply within_trans; [exact K2|]. apply while_serving_within; [done|].
  destruct check; [|done]. exfalso. unfold run_serve in Er. cbn in Er.
  destruct (map_err OpenRegistry opened); [|done]. cbn in Er. by destruct (map_err Integrity _).
Qed.
Lemma run_admin_other load (opened : result RegistryError ()) doctor config dbf domainf action (dbs : Dbs) (q : string) :
  (forall p d, admin_target load config dbf domainf = Ok (p, d) -> action <> ADoctor -> q <> p) ->
  (run_admin load (fun _ _ => opened) doctor config dbf domainf action dbs).2 !! q = dbs !! q.
Proof using.
  intros Hq. unfold run_admin. destruct action as [c|c|c|c|];
    [..|destruct config as [path|]; [|done]; by destruct (load path)].
  all: destruct (admin_target load config dbf domainf) as [[p d]|e]; [|done]; destruct opened as [[]|e]; [|done];
    specialize (Hq p d eq_refl ltac:(done)); destruct (admin_dispatch d _ _) as [r c0]; cbn [snd]; by rewrite lookup_insert_ne.
Qed.
Lemma confined_admin config dbf domainf action :
  confined (scope_of (Admin config dbf domainf action)) (admin_cmd io config dbf domainf action).
Proof using SqliteLaw0.
  clear read read_text. intros mc. unfold admin_cmd. set (S := scope_of _).
  assert (K1 : within_scope S mc (match admin_db io config dbf domainf action with
    | Some p => open_registry io p mc | None => (Ok (), mc) end).2).
  { destruct (admin_db io config dbf domainf action) as [p|] eqn:Ep; [|apply within_refl].
    apply open_registry_within; unfold S; cbn; rewrite Ep; set_solver. }
  destruct (match admin_db io config dbf domainf action with Some p => _ | None => _ end) as [opened mc1]. cbn [snd] in K1.
  eapply within_trans; [exact K1|]. unfold on_dbs.
  pose proof (fun q => run_admin_other (io_load io) opened (io_relay_doctor io) config dbf domainf action (mc_dbs mc1) q) as Hr.
  destruct (run_admin _ _ _ _ _ _ _ _) as [r dbs]. cbn [snd] in *. split; try done.
  intros q Hq. cbn. apply Hr. intros p d Ht Ha ->. apply Hq. unfold S. cbn. unfold admin_db. rewrite Ht.
  destruct action; set_solver.
Qed.
Lemma confined_dispatch (cmd : Command) :
  confined (scope_of cmd) (dispatch read read_text staging_url production_url io cmd).
Proof using SqliteLaw0.
  destruct cmd as [config check|config dbf domainf action|relay stdin|name port host tcp lhost|json|name|name|sm|json|sc system|fo|];
    cbn [dispatch].
  - apply confined_serve.
  - apply confined_bind; [apply confined_admin|]. intros a. apply confined_ret.
  - apply confined_bind; [apply confined_client, touches_login|]. intros _. apply confined_ret.
  - apply confined_bind; [apply confined_client, touches_add|]. intros _. apply confined_ret.
  - apply confined_bind; [|intros _; apply confined_ret].
    destruct json; (apply confined_bind; [apply confined_client|intros _; apply confined_ret]).
    + unfold config_load. touches_auto.
    + apply touches_list.
  - apply confined_bind; [apply confined_client, touches_remove|]. intros _. apply confined_ret.
  - apply confined_bind; [apply confined_client, touches_release|]. intros _. apply confined_ret.
  - apply confined_bind; [apply confined_client, (touches_mono ∅), touches_up; set_solver|]. intros c.
    apply confined_bind; [apply confined_client, touches_publish|]. intros _. apply confined_ret.
  - apply confined_bind; [apply confined_client|intros _; apply confined_ret].
    intros d q _. unfold status_cmd, status_read, mbind, st_bind. cbn.
    destruct (faults d) as [|[|k] fl]; try done; destruct (files d !! status_file) as [f|]; try done;
      destruct (parse (content f)); try done; destruct json; try done; by destruct (io_status_json io _).
  - apply confined_bind; [|intros _; apply confined_ret]. apply (confined_host (by_tool (io_platform io))); [apply acts_service|by left].
  - apply (confined_host (fun _ => False)); [|by right; intros c []]. unfold logs.
    apply acts_bind; [apply acts_log_dir|]. intros _. destruct (newest_log _); apply acts_ret.
  - intros mc. apply within_refl.
Qed.

End main.

(** ** A machine on which the service is installed *)
Section Demo.
#[local] Instance cli_certs : CertLib := {|
  pem_items _ := [];
  pem_key b := Ok b;
  supported _ := Ok ();
  leaf_not_after _ := Ok 0;
  rcgen _ := Ok ([], []);
|}.
#[local] Instance cli_engine : Engine := {|
  engine_fails _ := false; clock _ := 0; os_rng _ := []; sha256 _ := []; base64url _ := EmptyString;
|}.
#[local] Instance no_format {T : Type} : Format T := {| render _ := Err EmptyString; parse _ := Err EmptyString |}.
Definition off {A : Type} : result string A := Err "offline"%string.
Definition relay0 : RelayConfig := mkRelayConfig (mkConfig "relay.dev" "EtherTunnel relay" default_limits) default_tls
  "/var/lib/r.db" default_tcp (Some (default_polar "org")).
Definition io0 : CliIo := mkCliIo (fun _ => Ok relay0) demo_sqlite (fun _ => true) (Ok "ok"%string) (fun _ => EmptyString) (Ok ())
  [OpAddUser "mat"] [] (fun _ => false) (mkEnv (fun _ => None) (fun _ => None)) (mkLoginIn false off false off) (fun _ => off)
  (fun _ _ _ => off) (fun _ _ _ => TimedOut) (fun _ _ _ => off) (fun _ _ _ _ _ => off) (fun _ => off) (fun _ => off)
  (fun _ _ => off) around0 Linux [] 1 [].
Definition machine0 : Machine := mkMachine (mkDisk ∅ []) ∅ ∅ (mkDisk ∅ []) host0.
Definition run0 (cmd : Command) : result CliError Exit * Machine :=
  main (fun _ => off) (fun _ => off) EmptyString EmptyString io0 cmd machine0.
Definition installed : result CliError Exit * Machine := run0 (Service CInstall true).
(** [serve --check] on a fresh host creates the registry, and a serving relay the
    license cache beside it. *)
Example check_creates_registry :
  exit_status (run0 (Serve "relay.toml" true)).1 = Some 0 /\
  bool_decide (is_Some (mc_store (run0 (Serve "relay.toml" true)).2 !! "/var/lib/r.db"%string)) = true /\
  mc_store (run0 (Serve "relay.toml" true)).2 !! "/var/lib/polar-cache.db"%string = None.
Proof. vm_compute. split_and!; reflexivity. Qed.
Example doctor_creates_registry :
  exit_status (run0 (Admin (Some "relay.toml"%string) None None ADoctor)).1 = Some 1 /\
  bool_decide (is_Some (mc_store (run0 (Admin (Some "relay.toml"%string) None None ADoctor)).2 !! "/var/lib/r.db"%string)) = true.
Proof. vm_compute. split_and!; reflexivity. Qed.
End Demo.
