(* ===== verification/TestKit.v ===== *)
(** * Running the source's unit tests on the model

    A test is a program on the tested state that may panic: an [unwrap] of an
    error and a failed [assert] both end it.  The Test*.v files translate the
    crates' own unit tests; evaluating them is the check that the definitions do
    what the source's authors expect of the code. *)
From S2P Require Import Prelude.

Definition test (S A : Type) : Type := S -> option (A * S).
#[export] Instance test_ret {S : Type} : MRet (test S) := fun A a s => Some (a, s).
#[export] Instance test_bind {S : Type} : MBind (test S) :=
  fun A B f m s => match m s with Some (a, s') => f a s' | None => None end.

Section kit.
Context {S E A : Type}.
(** [call().unwrap()]. *)
Definition unwrap (m : st S E A) : test S A :=
  fun s => match m s with (Ok a, s') => Some (a, s') | (Err _, _) => None end.
(** [matches!(call(), Err(p))]. *)
Definition fails_with (p : E -> bool) (m : st S E A) : test S () :=
  fun s => match m s with (Err e, s') => if p e then Some ((), s') else None | (Ok _, _) => None end.
(** A call that cannot fail. *)
Definition call (m : S -> A * S) : test S A := fun s => Some (m s).
(** A read of the state. *)
Definition see (f : S -> A) : test S A := fun s => Some (f s, s).
(** [.unwrap()] of an option. *)
Definition demand (o : option A) : test S A := fun s => match o with Some a => Some (a, s) | None => None end.
End kit.
(** [assert!]. *)
Definition assert {S : Type} (b : bool) : test S () := fun s => if b then Some ((), s) else None.
Definition assert_eq {S A : Type} `{EqDecision A} (x y : A) : test S () := assert (bool_decide (x = y)).
(** Change the state from outside. *)
Definition change {S : Type} (f : S -> S) : test S () := fun s => Some ((), f s).
Definition passes {S A : Type} (t : test S A) (s : S) : bool := match t s with Some _ => true | None => false end.

(** Tests and their names; all must pass. *)
Definition all_pass (l : list (string * bool)) : bool := forallb snd l.
