(* ===== verification/TestRegistry.v ===== *)
(** * The registry's unit tests (crates/relay/src/registry.rs, mod tests) *)
From S2P Require Import Prelude Auth Fs Registry Store TestKit.
Local Open Scope Z_scope.

(** The engine of the tests: nothing fails, every random draw differs, and the
    hash is injective. *)
#[export] Instance test_engine : Engine := {|
  engine_fails _ := false;
  clock n := 1000 + Z.of_nat n;
  os_rng n := [byte_of (65 + Z.of_nat n)];
  sha256 s := byte_of <$> (Z.of_nat ∘ Ascii.nat_of_ascii <$> String.list_ascii_of_string s);
  base64url bs := String.string_of_list_ascii (Ascii.ascii_of_byte <$> bs);
|}.
Definition reg : Conn := mkConn no_tables None 0.
Definition apex : string := "ethertunnel.com".
Definition on (label : string) : string := label +:+ "." +:+ apex.
Definition owns (uid : Z) (h : string) : test Conn bool := call (reg_owns_hostname apex uid h).
Definition owns_p (uid p : Z) : test Conn bool := call (reg_owns_port uid p).
Definition auth (t : string) : test Conn (option AuthedUser) := call (reg_authenticate t).
Definition authenticates (t : string) : test Conn bool := u ← auth t; mret (bool_decide (is_Some u)).
Definition counted (uid n : Z) : test Conn () := c ← unwrap (count_owned_resources uid); assert_eq c n.
Definition is_taken (e : RegistryError) : bool := match e with LabelTaken _ => true | _ => false end.
Definition is_invalid (e : RegistryError) : bool := match e with InvalidLabel _ _ => true | _ => false end.
Definition is_cap (e : RegistryError) : bool := match e with CapExceededErr => true | _ => false end.
Definition yes (m : st Conn RegistryError bool) : test Conn () := b ← unwrap m; assert b.
Definition no (m : st Conn RegistryError bool) : test Conn () := b ← unwrap m; assert (negb b).
Definition holds (m : test Conn bool) : test Conn () := b ← m; assert b.
Definition refutes (m : test Conn bool) : test Conn () := b ← m; assert (negb b).
Definition user_count (n : nat) : test Conn () := l ← unwrap list_users; assert_eq (length l) n.
(** [INSERT INTO hostnames] and [tcp_ports] with a chosen time. *)
Definition put_host (uid : Z) (label : string) (ts : Z) : test Conn () :=
  change (fun c => mkConn (insert_hostname uid label ts (db c)).2 (saved c) (tick c)).
Definition put_port (port uid ts : Z) : test Conn () :=
  change (fun c => mkConn (insert_port port uid ts (db c)).2 (saved c) (tick c)).

Definition label_validation : bool :=
  forallb (fun l => is_ok (validate_label l)) ["demo"; "my-app-2"]%string &&
  forallb (fun l => negb (is_ok (validate_label l)))
    [EmptyString; "-bad"; "bad-"; "UPPER"; "has.dot"; "connect"]%string.

Definition token_lifecycle_and_auth : test Conn () :=
  unwrap (add_user "mat") ;;
  token ← unwrap (create_token "mat" (Some "laptop"%string));
  assert (starts_with "etun_" token) ;;
  user ← auth token;
  assert_eq (name <$> user) (Some "mat"%string) ;;
  refutes (authenticates "etun_wrong") ;;
  ts ← unwrap (list_tokens (Some "mat"%string));
  yes (revoke_token (default 0 (tr_id <$> head ts))) ;;
  refutes (authenticates token).

Definition hostname_ownership_by_fqdn : test Conn () :=
  uid ← unwrap (add_user "mat");
  other ← unwrap (add_user "eve");
  unwrap (add_hostname "demo" "mat") ;;
  holds (owns uid (on "demo")) ;;
  refutes (owns other (on "demo")) ;;
  refutes (owns uid "demo.evil.com") ;;
  refutes (owns uid "a.b.ethertunnel.com") ;;
  refutes (owns uid (on "missing")) ;;
  fails_with is_taken (add_hostname "demo" "eve").

Definition port_reservation : test Conn () :=
  uid ← unwrap (add_user "mat");
  unwrap (add_port 20000 "mat") ;;
  holds (owns_p uid 20000) ;;
  fails_with (fun e => bool_decide (e = PortTaken 20000)) (add_port 20000 "mat").

Definition provision_user_token_is_idempotent_on_name : test Conn () :=
  '(t1, created1) ← unwrap (provision_user_token "acct_abc");
  assert created1 ;;
  assert (starts_with "etun_" t1) ;;
  holds (authenticates t1) ;;
  '(t2, created2) ← unwrap (provision_user_token "acct_abc");
  assert (negb created2) ;;
  assert (negb (bool_decide (t1 = t2))) ;;
  u1 ← auth t1;
  u2 ← auth t2;
  assert (bool_decide (is_Some u1)) ;;
  assert_eq (Auth.user_id <$> u1) (Auth.user_id <$> u2) ;;
  user_count 1.

Definition rotate_user_token_revokes_all_previous_tokens : test Conn () :=
  '(old1, _) ← unwrap (provision_user_token "acct_rot");
  '(old2, _) ← unwrap (provision_user_token "acct_rot");
  holds (authenticates old1) ;;
  holds (authenticates old2) ;;
  '(fresh, revoked) ← unwrap (rotate_user_token "acct_rot");
  assert_eq revoked 2%nat ;;
  assert (negb (bool_decide (fresh = old1))) ;;
  assert (negb (bool_decide (fresh = old2))) ;;
  refutes (authenticates old1) ;;
  refutes (authenticates old2) ;;
  holds (authenticates fresh) ;;
  user_count 1 ;;
  '(fresh2, revoked2) ← unwrap (rotate_user_token "acct_rot");
  assert_eq revoked2 1%nat ;;
  refutes (authenticates fresh) ;;
  holds (authenticates fresh2).

Definition rotate_user_token_creates_account_if_absent : test Conn () :=
  '(tok, revoked) ← unwrap (rotate_user_token "acct_new");
  assert_eq revoked 0%nat ;;
  holds (authenticates tok) ;;
  user_count 1.

Definition release_user_hostnames_returns_and_empties : test Conn () :=
  uid ← unwrap (add_user "acct_x");
  unwrap (add_hostname "alpha" "acct_x") ;;
  unwrap (add_hostname "beta" "acct_x") ;;
  unwrap (add_port 20001 "acct_x") ;;
  '(hosts, ports) ← unwrap (release_user_hostnames "acct_x" false);
  assert_eq (sort_by String.leb hosts) ["alpha"; "beta"]%string ;;
  assert_eq ports [] ;;
  left ← unwrap (list_hostnames (Some "acct_x"%string));
  assert_eq left [] ;;
  holds (owns_p uid 20001) ;;
  '(hosts2, _) ← unwrap (release_user_hostnames "acct_x" true);
  assert_eq hosts2 [] ;;
  refutes (owns_p uid 20001) ;;
  fails_with (fun e => match e with NoSuchUser _ => true | _ => false end) (release_user_hostnames "nobody" true).

Definition claim_label_free_own_taken : test Conn () :=
  mat ← unwrap (add_user "acct_mat");
  eve ← unwrap (add_user "acct_eve");
  yes (claim_label mat "myapp") ;;
  holds (owns mat (on "myapp")) ;;
  no (claim_label mat "myapp") ;;
  fails_with is_taken (claim_label eve "myapp") ;;
  fails_with is_invalid (claim_label mat "connect") ;;
  fails_with is_invalid (claim_label mat "Bad_Label").

Definition claim_label_capped_enforces_owned_count : test Conn () :=
  mat ← unwrap (add_user "acct_mat");
  yes (claim_label_capped mat "one" (Some 2)) ;;
  yes (claim_label_capped mat "two" (Some 2)) ;;
  counted mat 2 ;;
  fails_with is_cap (claim_label_capped mat "three" (Some 2)) ;;
  refutes (owns mat (on "three")) ;;
  counted mat 2 ;;
  no (claim_label_capped mat "one" (Some 2)) ;;
  yes (remove_hostname "two") ;;
  counted mat 1 ;;
  yes (claim_label_capped mat "three" (Some 2)) ;;
  counted mat 2.

Definition claim_label_capped_max_none_is_uncapped : test Conn () :=
  mat ← unwrap (add_user "acct_mat");
  foldr (fun label rest => yes (claim_label_capped mat label None) ;; rest) (counted mat 5)
    ["a"; "b"; "c"; "d"; "e"]%string.

Definition count_owned_resources_counts_hostnames_and_ports_not_tokens : test Conn () :=
  mat ← unwrap (add_user "acct_mat");
  counted mat 0 ;;
  unwrap (create_token "acct_mat" (Some "laptop"%string)) ;;
  counted mat 0 ;;
  unwrap (add_hostname "alpha" "acct_mat") ;;
  unwrap (add_port 20002 "acct_mat") ;;
  counted mat 2.

Definition owned_listing_and_owner_guarded_release : test Conn () :=
  mat ← unwrap (add_user "acct_mat");
  eve ← unwrap (add_user "acct_eve");
  unwrap (claim_label mat "myapp") ;;
  unwrap (claim_label mat "myapp2") ;;
  unwrap (add_port 20005 "acct_mat") ;;
  unwrap (claim_label eve "evil") ;;
  hs ← unwrap (reg_owned_hostnames apex mat);
  assert_eq hs [on "myapp"; on "myapp2"] ;;
  ps ← unwrap (reg_owned_ports mat);
  assert_eq ps [20005] ;;
  no (release_hostname_owned apex eve (on "myapp")) ;;
  holds (owns mat (on "myapp")) ;;
  yes (release_hostname_owned apex mat (on "myapp")) ;;
  refutes (owns mat (on "myapp")) ;;
  counted mat 2 ;;
  no (release_port_owned eve 20005) ;;
  yes (release_port_owned mat 20005) ;;
  counted mat 1 ;;
  no (release_hostname_owned apex mat (on "myapp")) ;;
  no (release_hostname_owned apex mat "myapp.example.org").

(** Three hostnames and a port with distinct times. *)
Definition four_owned (mat : Z) : test Conn () :=
  put_host mat "oldest" 100 ;; put_host mat "middle" 200 ;; put_host mat "newest" 300 ;; put_port 20500 mat 250.

Definition prune_owned_to_cap_keeps_oldest_drops_newest : test Conn () :=
  mat ← unwrap (add_user "mat");
  four_owned mat ;;
  counted mat 4 ;;
  '(hosts, ports) ← unwrap (prune_owned_to_cap mat 2);
  assert_eq (sort_by String.leb hosts) ["newest"%string] ;;
  assert_eq ports [20500] ;;
  counted mat 2 ;;
  holds (owns mat (on "oldest")) ;;
  holds (owns mat (on "middle")) ;;
  refutes (owns mat (on "newest")) ;;
  refutes (owns_p mat 20500) ;;
  '(h2, p2) ← unwrap (prune_owned_to_cap mat 5);
  assert (bool_decide (h2 = []) && bool_decide (p2 = [])) ;;
  '(h3, p3) ← unwrap (prune_owned_to_cap mat 0);
  assert_eq (length h3 + length p3)%nat 2%nat ;;
  counted mat 0.

Definition owned_over_cap_names_the_same_set_without_deleting_it : test Conn () :=
  mat ← unwrap (add_user "mat");
  four_owned mat ;;
  over ← unwrap (owned_over_cap mat 2);
  assert_eq over (["newest"%string], [20500]) ;;
  counted mat 4 ;;
  pruned ← unwrap (prune_owned_to_cap mat 2);
  assert_eq pruned over ;;
  over2 ← unwrap (owned_over_cap mat 2);
  assert_eq over2.1 [].

Definition lookup_user_id_resolves_or_none : test Conn () :=
  mat ← unwrap (add_user "acct_mat");
  found ← unwrap (lookup_user_id "acct_mat");
  assert_eq found (Some mat) ;;
  ghost ← unwrap (lookup_user_id "ghost");
  assert_eq ghost None.

Definition remove_user_guards_owned_resources : test Conn () :=
  unwrap (add_user "mat") ;;
  unwrap (add_hostname "demo" "mat") ;;
  fails_with (fun e => match e with UserNotEmpty _ => true | _ => false end) (remove_user "mat" false) ;;
  unwrap (remove_user "mat" true).

(** Under umask 0o022 new files are 0o644; the engine creates the siblings. *)
Definition engine_022 : SqliteFiles :=
  let new fs q := match fs !! q with Some _ => fs | None => <[q := mkFile [] 420]> fs end in
  mkSqlite (fun path fs => (Ok (), new fs path))
           (fun path fs => (Ok (), foldl new fs [path +:+ "-wal"; path +:+ "-shm"])).
Definition open_chmods_db_owner_only : bool :=
  match Registry_open engine_022 (fun _ => true) "/tmp/r.db" ∅ with
  | (Ok _, fs) => forallb (fun q => bool_decide ((mode <$> fs !! q) = Some 384)) (siblings "/tmp/r.db")
  | (Err _, _) => false
  end.

Definition open_in_memory_does_not_chmod_or_panic : test Conn () :=
  unwrap (add_user "mat") ;; user_count 1.

Definition tighten_sqlite_perms_is_best_effort : bool :=
  bool_decide (tighten_sqlite_perms (fun _ => true) "/tmp/none.db" ∅ = ∅).

(** The sixteen claims, in one of their orders: each runs under the lock. *)
Fixpoint race (mat : Z) (labels : list string) (granted refused : nat) : test Conn (nat * nat) :=
  match labels with
  | [] => mret (granted, refused)
  | l :: rest => fun c =>
      match claim_label_capped mat l (Some 5) c with
      | (Ok true, c') => race mat rest (S granted) refused c'
      | (Err CapExceededErr, c') => race mat rest granted (S refused) c'
      | _ => None
      end
  end.
Definition concurrent_claims_never_exceed_cap : test Conn () :=
  mat ← unwrap (add_user "mat");
  '(granted, refused) ← race mat
     ["h0"; "h1"; "h2"; "h3"; "h4"; "h5"; "h6"; "h7"; "h8"; "h9"; "h10"; "h11"; "h12"; "h13"; "h14"; "h15"]%string 0 0;
  assert_eq granted 5%nat ;;
  assert_eq refused 11%nat ;;
  counted mat 5.

Definition prune_never_deletes_another_users_row_with_same_label : test Conn () :=
  mat ← unwrap (add_user "mat");
  eve ← unwrap (add_user "eve");
  put_host mat "shared" 100 ;;
  put_host mat "extra" 200 ;;
  unwrap (add_hostname "shared-eve" "eve") ;;
  '(removed, _) ← unwrap (prune_owned_to_cap mat 1);
  assert_eq removed ["extra"%string] ;;
  holds (owns mat (on "shared")) ;;
  holds (owns eve (on "shared-eve")).

Definition claim_label_capped_enforces_cap_under_immediate_transaction : test Conn () :=
  mat ← unwrap (add_user "acct_mat");
  yes (claim_label_capped mat "one" (Some 1)) ;;
  fails_with is_cap (claim_label_capped mat "two" (Some 1)) ;;
  refutes (owns mat (on "two")) ;;
  counted mat 1.

Fixpoint repeat_a (n : nat) : string := match n with O => EmptyString | S k => "a" +:+ repeat_a k end.
Definition add_user_rejects_empty_and_oversize_names : test Conn () :=
  let invalid e := match e with InvalidUser _ => true | _ => false end in
  fails_with invalid (add_user EmptyString) ;;
  fails_with invalid (add_user (repeat_a 201)) ;;
  unwrap (add_user (repeat_a 200)) ;;
  mret ().

Definition registry_tests : list (string * bool) := [
  ("label_validation", label_validation);
  ("token_lifecycle_and_auth", passes token_lifecycle_and_auth reg);
  ("hostname_ownership_by_fqdn", passes hostname_ownership_by_fqdn reg);
  ("port_reservation", passes port_reservation reg);
  ("provision_user_token_is_idempotent_on_name", passes provision_user_token_is_idempotent_on_name reg);
  ("rotate_user_token_revokes_all_previous_tokens", passes rotate_user_token_revokes_all_previous_tokens reg);
  ("rotate_user_token_creates_account_if_absent", passes rotate_user_token_creates_account_if_absent reg);
  ("release_user_hostnames_returns_and_empties", passes release_user_hostnames_returns_and_empties reg);
  ("claim_label_free_own_taken", passes claim_label_free_own_taken reg);
  ("claim_label_capped_enforces_owned_count", passes claim_label_capped_enforces_owned_count reg);
  ("claim_label_capped_max_none_is_uncapped", passes claim_label_capped_max_none_is_uncapped reg);
  ("count_owned_resources_counts_hostnames_and_ports_not_tokens",
    passes count_owned_resources_counts_hostnames_and_ports_not_tokens reg);
  ("owned_listing_and_owner_guarded_release", passes owned_listing_and_owner_guarded_release reg);
  ("prune_owned_to_cap_keeps_oldest_drops_newest", passes prune_owned_to_cap_keeps_oldest_drops_newest reg);
  ("owned_over_cap_names_the_same_set_without_deleting_it",
    passes owned_over_cap_names_the_same_set_without_deleting_it reg);
  ("lookup_user_id_resolves_or_none", passes lookup_user_id_resolves_or_none reg);
  ("remove_user_guards_owned_resources", passes remove_user_guards_owned_resources reg);
  ("open_chmods_db_owner_only", open_chmods_db_owner_only);
  ("open_in_memory_does_not_chmod_or_panic", passes open_in_memory_does_not_chmod_or_panic reg);
  ("tighten_sqlite_perms_is_best_effort", tighten_sqlite_perms_is_best_effort);
  ("concurrent_claims_never_exceed_cap", passes concurrent_claims_never_exceed_cap reg);
  ("prune_never_deletes_another_users_row_with_same_label",
    passes prune_never_deletes_another_users_row_with_same_label reg);
  ("claim_label_capped_enforces_cap_under_immediate_transaction",
    passes claim_label_capped_enforces_cap_under_immediate_transaction reg);
  ("add_user_rejects_empty_and_oversize_names", passes add_user_rejects_empty_and_oversize_names reg)]%string.
