(* ===== verification/TestRelay.v ===== *)
(** * Unit tests of the proto and relay crates

    The tests of codec.rs, router.rs, ratelimit.rs, listener.rs, proxy.rs and
    tcp.rs (mod tests).  A test on virtual time becomes the list of polls its timers and writes
    cause. *)
From S2P Require Import Prelude Limits Frames Codec Splice Router F64 RateLimit Auth Session Http TestKit.
Local Open Scope Z_scope.

(** ** codec.rs *)
(** The tests below never decode a body, so any encoding will do. *)
#[local] Instance opaque_wire : Wire ControlFrame :=
  {| to_stdvec _ := Ok (replicate 100 Byte.x78); from_bytes _ := Err () |}.
Definition is_too_large (e : CodecError) : bool := match e with TooLarge _ _ => true | _ => false end.
Definition is_bad_magic (e : CodecError) : bool := match e with BadMagic => true | _ => false end.
Definition oversize_write_is_rejected : bool :=
  passes (fails_with is_too_large (write_frame (Frames.Shutdown "x") 8)) (mkWriter [] None true).
Definition oversize_read_is_rejected_before_alloc : bool :=
  passes (fails_with is_too_large (read_frame (T := ControlFrame) MAX_CONTROL_FRAME)) (to_le_bytes 4 (10 * 1024 * 1024)).
Definition preamble_roundtrip_and_bad_magic : bool :=
  match write_preamble (mkWriter [] None true) with
  | (Ok _, a) => passes (v ← unwrap read_preamble; assert_eq v PROTOCOL_VERSION) (Codec.w_sent a)
  | (Err _, _) => false
  end &&
  passes (fails_with is_bad_magic read_preamble) [Byte.x58; Byte.x58; Byte.x58; Byte.x58; Byte.x01; Byte.x00].
Definition truncated_frame_reads_as_eof : bool :=
  passes (fails_with is_eof (read_frame (T := ControlFrame) MAX_CONTROL_FRAME)) (to_le_bytes 4 5 ++ [Byte.x01; Byte.x02]).

(** ** router.rs *)
Definition handle : Z -> Z -> SessionHandle := mkHandle.
Definition t_claim (h : SessionHandle) (hosts : list string) (ports : list Z) : test RouterInner (list (SessionHandle * Resource)) :=
  call (fun r => let (r', sup) := claim h hosts ports r in (sup, r')).
Definition t_evict (hosts : list string) (ports : list Z) : test RouterInner (list (SessionHandle * Resource)) :=
  call (fun r => let (r', out) := evict_routes hosts ports r in (out, r')).
Definition http_at (h : string) (want : option Z) : test RouterInner () :=
  x ← see (fun r => lookup_http r h); assert_eq (sh_session_id <$> x) want.
Definition tcp_at (p : Z) (want : option Z) : test RouterInner () :=
  x ← see (fun r => lookup_tcp r p); assert_eq (sh_session_id <$> x) want.
Definition sorted_hosts (sid : Z) (want : list string) : test RouterInner () :=
  hosts ← see (hostnames_of sid); assert_eq (sort_by String.leb hosts) want.

Definition claim_and_lookup : test RouterInner () :=
  superseded ← t_claim (handle 1 100) ["a.example.com"%string] [20000];
  assert (bool_decide (superseded = [])) ;;
  http_at "a.example.com" (Some 1) ;;
  tcp_at 20000 (Some 1) ;;
  http_at "b.example.com" None.

Definition newest_session_supersedes_and_old_disconnect_is_safe : test RouterInner () :=
  t_claim (handle 1 100) ["a.example.com"%string] [] ;;
  superseded ← t_claim (handle 2 100) ["a.example.com"%string] [];
  assert_eq ((fun x => (sh_session_id x.1, x.2)) <$> superseded) [(1, Host "a.example.com")] ;;
  http_at "a.example.com" (Some 2) ;;
  change (remove_session 1) ;;
  http_at "a.example.com" (Some 2) ;;
  change (remove_session 2) ;;
  http_at "a.example.com" None.

Definition evict_routes_removes_and_returns_affected : test RouterInner () :=
  t_claim (handle 1 100) ["keep.example.com"; "drop.example.com"]%string [20000; 20001] ;;
  evicted ← t_evict ["drop.example.com"%string] [20001];
  assert_eq (length evicted) 2%nat ;;
  http_at "drop.example.com" None ;;
  tcp_at 20001 None ;;
  http_at "keep.example.com" (Some 1) ;;
  tcp_at 20000 (Some 1) ;;
  ghost ← t_evict ["ghost.example.com"%string] [30000];
  assert (bool_decide (ghost = [])) ;;
  change (remove_session 1) ;;
  http_at "keep.example.com" None.

Definition hostnames_of_lists_a_sessions_routed_hosts : test RouterInner () :=
  t_claim (handle 1 100) ["a.example.com"; "b.example.com"]%string [] ;;
  t_claim (handle 2 200) ["c.example.com"%string] [] ;;
  sorted_hosts 1 ["a.example.com"; "b.example.com"]%string ;;
  sorted_hosts 2 ["c.example.com"]%string ;;
  sorted_hosts 999 [] ;;
  t_evict ["a.example.com"%string] [] ;;
  sorted_hosts 1 ["b.example.com"]%string.

Definition reclaim_same_session_is_noop : test RouterInner () :=
  first ← t_claim (handle 1 100) ["a.example.com"%string] [];
  assert (bool_decide (first = [])) ;;
  again ← t_claim (handle 1 100) ["a.example.com"%string] [];
  assert (bool_decide (again = [])) ;;
  n ← see hostname_count; assert_eq n 1%nat.

(** ** ratelimit.rs *)
Definition v4 (a b c d : Z) : IpAddr := V4 (byte_of <$> [a; b; c; d]).
Definition v6 (groups : list Z) : IpAddr := V6 (groups ≫= fun g => [byte_of (g / 256); byte_of (g mod 256)]).
Definition second : Z := 1000000000.
Definition t_check (ip : IpAddr) (t : Z) (want : bool) : test RateLimiter () :=
  ok ← call (check_at ip t); assert_eq ok want.
Definition burst_then_throttle_then_refill : bool :=
  let ip := v4 127 0 0 1 in
  passes (t_check ip 0 true ;; t_check ip 0 true ;; t_check ip 0 true ;; t_check ip 0 true ;; t_check ip 0 true ;;
          t_check ip 0 false ;; t_check ip second true) (RateLimiter_new 10 5).
Definition independent_per_ip : bool :=
  passes (t_check (v4 1 1 1 1) 0 true ;; t_check (v4 1 1 1 1) 0 false ;; t_check (v4 2 2 2 2) 0 true) (RateLimiter_new 1 1).
Definition ipv6_collapses_to_slash_64 : bool :=
  let a := v6 [8193; 3512; 43981; 1; 0; 0; 0; 1] in
  let b := v6 [8193; 3512; 43981; 1; 65535; 65535; 65535; 65535] in
  let other := v6 [8193; 3512; 43981; 2; 0; 0; 0; 1] in
  bool_decide (limiter_key a = limiter_key b) && negb (bool_decide (limiter_key a = limiter_key other)) &&
  bool_decide (limiter_key a = v6 [8193; 3512; 43981; 1; 0; 0; 0; 0]) &&
  bool_decide (limiter_key (v4 9 9 9 9) = v4 9 9 9 9).
(** [try_admit(ip).expect()], [try_admit(ip).is_none()] and [drop]. *)
Definition admitted (ip : IpAddr) : test ConnLimiter IpAddr :=
  fun cl => match try_admit ip cl with (Some permit, cl') => Some (permit, cl') | (None, _) => None end.
Definition refused (ip : IpAddr) : test ConnLimiter () :=
  fun cl => match try_admit ip cl with (Some _, _) => None | (None, cl') => Some ((), cl') end.
Definition conn_limiter_global_and_per_key_caps : bool :=
  let a1 := v6 [8193; 3512; 1; 1; 0; 0; 0; 1] in
  let a2 := v6 [8193; 3512; 1; 1; 0; 0; 0; 2] in
  let b := v4 203 0 113 7 in
  passes (p1 ← admitted a1; p2 ← admitted a2; refused a1 ;; admitted b ;; refused b ;;
          change (drop_permit p1) ;; admitted b ;; change (drop_permit p2)) (ConnLimiter_new 3 2).
Definition session_limiter_caps_and_recovers : bool :=
  let a := v6 [8193; 3512; 7; 7; 0; 0; 0; 1] in
  let a2 := v6 [8193; 3512; 7; 7; 0; 0; 0; 153] in
  let b := v4 198 51 100 5 in
  passes (pa ← admitted a; refused a2 ;; admitted b ;; refused b ;; change (drop_permit pa) ;; admitted a2)
    (ConnLimiter_new 2 1).

(** ** listener.rs *)
Definition req_with_hosts (hosts : list string) : HeaderMap := if decide (hosts = []) then ∅ else {[HOST := hosts]}.
Definition host_of_single_header_is_lowercased_and_port_stripped : bool :=
  bool_decide (host_of (req_with_hosts ["Example.COM:8443"%string]) = Some "example.com"%string).
Definition host_of_duplicate_header_is_rejected : bool :=
  bool_decide (host_of (req_with_hosts ["a.example.com"; "b.example.com"]%string) = None).
Definition host_of_missing_header_is_none : bool := bool_decide (host_of (req_with_hosts []) = None).

(** ** proxy.rs *)
Definition strip_hop_by_hop_removes_content_length_when_te_present : bool :=
  let headers := strip_hop_by_hop false
    (header_insert CONTENT_LENGTH "5" (header_insert TRANSFER_ENCODING "chunked" ∅)) in
  negb (contains_key CONTENT_LENGTH headers) && negb (contains_key TRANSFER_ENCODING headers).
Definition strip_hop_by_hop_keeps_content_length_without_te : bool :=
  contains_key CONTENT_LENGTH (strip_hop_by_hop false (header_insert CONTENT_LENGTH "5" ∅)).

(** The tests' clock: a tick is delayed by its period. *)
#[local] Instance test_ticker : Ticker := fun _ now period => now + period.
(** Every tick of the watchdog up to [ms], nothing readable or writable. *)
Definition quiet_until (step ms : Z) : list (Z * list (Side * IoEvent)) :=
  (fun k => (step * Z.of_nat k, [])) <$> seq 0 (S (Z.to_nat (ms / step))).
Definition timed_out (s : SpliceState) : bool :=
  match Splice.outcome s with Some (Err (TimedOut _)) => true | _ => false end.
Definition ended_ok (s : SpliceState) : bool := match Splice.outcome s with Some (Ok _) => true | _ => false end.
Definition idle_timeout_reclaims_silent_splice : bool :=
  timed_out (splice_run (Some 100) None (quiet_until 25 2000) (splice_new [] [])).
Definition ping : list byte := byte_of <$> [112; 105; 110; 103].
Definition eof (side : Side) : list (Side * IoEvent) := [(side, Readable 0); (side, ShutDone)].
(** A chunk every 100 ms from [b_far], forwarded to [a_far], while the other
    direction is silent; then both ends close. *)
Definition idle_timeout_tracks_cross_direction_activity : bool :=
  let pump := (fun k => (100 * Z.of_nat k, [(BtoA, Readable 3); (BtoA, Splice.Writable 3)])) <$> seq 0 20 in
  let s := splice_run (Some 500) None pump (splice_new [] (concat (replicate 20 ping))) in
  bool_decide (Splice.outcome s = None) &&
  ended_ok (splice_run (Some 500) None [(2000, eof AtoB ++ eof BtoA)] s).
Definition absolute_timeout_fires_on_active_splice : bool :=
  let pump := (fun k => (50 * Z.of_nat k, [(AtoB, Readable 0); (AtoB, Splice.Writable 0)])) <$> seq 0 50 in
  timed_out (splice_run (Some 60000) (Some 200) pump (splice_new (replicate 50 Byte.x78) [])).
Definition no_timeout_copies_to_eof : bool :=
  let hello := byte_of <$> [104; 101; 108; 108; 111] in
  let s := splice_run None None [(0, [(AtoB, Readable 4); (AtoB, Splice.Writable 4)] ++ eof AtoB)] (splice_new hello []) in
  bool_decide (delivered (ab s) = hello) && ended_ok (splice_run None None [(1, eof BtoA)] s).

(** ** tcp.rs: the lock makes the two calls one after the other, and only the
    first reaches the operating system. *)
Definition concurrent_ensure_bound_same_port_both_ok : bool :=
  passes (unwrap (ensure_bound 4711 (Ok ())) ;; unwrap (ensure_bound 4711 (Err "in use"%string)) ;;
          m ← see bound; assert (bool_decide (4711 ∈ m))) (mkTcp (1024, 65535) ∅).

Definition relay_tests : list (string * bool) := [
  ("oversize_write_is_rejected", oversize_write_is_rejected);
  ("oversize_read_is_rejected_before_alloc", oversize_read_is_rejected_before_alloc);
  ("preamble_roundtrip_and_bad_magic", preamble_roundtrip_and_bad_magic);
  ("truncated_frame_reads_as_eof", truncated_frame_reads_as_eof);
  ("claim_and_lookup", passes claim_and_lookup Router_new);
  ("newest_session_supersedes_and_old_disconnect_is_safe",
    passes newest_session_supersedes_and_old_disconnect_is_safe Router_new);
  ("evict_routes_removes_and_returns_affected", passes evict_routes_removes_and_returns_affected Router_new);
  ("hostnames_of_lists_a_sessions_routed_hosts", passes hostnames_of_lists_a_sessions_routed_hosts Router_new);
  ("reclaim_same_session_is_noop", passes reclaim_same_session_is_noop Router_new);
  ("burst_then_throttle_then_refill", burst_then_throttle_then_refill);
  ("independent_per_ip", independent_per_ip);
  ("ipv6_collapses_to_slash_64", ipv6_collapses_to_slash_64);
  ("conn_limiter_global_and_per_key_caps", conn_limiter_global_and_per_key_caps);
  ("session_limiter_caps_and_recovers", session_limiter_caps_and_recovers);
  ("host_of_single_header", host_of_single_header_is_lowercased_and_port_stripped);
  ("host_of_duplicate_header", host_of_duplicate_header_is_rejected);
  ("host_of_missing_header", host_of_missing_header_is_none);
  ("strip_hop_by_hop_removes_content_length", strip_hop_by_hop_removes_content_length_when_te_present);
  ("strip_hop_by_hop_keeps_content_length", strip_hop_by_hop_keeps_content_length_without_te);
  ("idle_timeout_reclaims_silent_splice", idle_timeout_reclaims_silent_splice);
  ("idle_timeout_tracks_cross_direction_activity", idle_timeout_tracks_cross_direction_activity);
  ("absolute_timeout_fires_on_active_splice", absolute_timeout_fires_on_active_splice);
  ("no_timeout_copies_to_eof", no_timeout_copies_to_eof);
  ("concurrent_ensure_bound_same_port_both_ok", concurrent_ensure_bound_same_port_both_ok)]%string.
