(* ===== verification/TestPolar.v ===== *)
(** * The license gate's unit tests (crates/relay/src/polar.rs, mod tests)

    With the scripted backend of [test_support]: a table of granted keys, an
    outage switch, keys without activations left, and call counters.  The clocks
    stand still unless a test ages a row. *)
From S2P Require Import Prelude Frames Auth Fs Registry Router Polar Http Store TestKit TestRegistry.
Local Open Scope Z_scope.

Record MockBackend := mkMock {
  granted : gmap string (string * string);
  outage : option string;
  activation_exhausted : gset string;
  validate_calls : Z;
  activate_calls : Z;
  deactivate_calls : Z;
}.
Definition mock_default : MockBackend := mkMock ∅ None ∅ 0 0 0.
Definition grant (key customer_id benefit_id : string) (m : MockBackend) : MockBackend :=
  mkMock (<[key := (customer_id, benefit_id)]> (granted m)) (outage m) (activation_exhausted m)
    (validate_calls m) (activate_calls m) (deactivate_calls m).
Definition granting (key customer_id benefit_id : string) : MockBackend := grant key customer_id benefit_id mock_default.
#[export] Instance mock_backend : PolarBackend MockBackend := {|
  validate key m :=
    (match outage m with
     | Some why => VUnavailable why
     | None => match granted m !! key with Some (c, b) => VGranted c b | None => VNotLicensed end
     end, mkMock (granted m) (outage m) (activation_exhausted m) (validate_calls m + 1) (activate_calls m) (deactivate_calls m));
  activate key _ m :=
    (if bool_decide (key ∈ activation_exhausted m) then LimitReached
     else Activated ("act-" +:+ String.substring 0 8 key),
     mkMock (granted m) (outage m) (activation_exhausted m) (validate_calls m) (activate_calls m + 1) (deactivate_calls m));
  deactivate _ _ m :=
    (Ok (), mkMock (granted m) (outage m) (activation_exhausted m) (validate_calls m) (activate_calls m) (deactivate_calls m + 1));
|}.
#[export] Instance cache_works : CacheEngine := {| cache_fails _ := false |}.

Abbreviation W := (World MockBackend).
Definition now_unix : Z := 1700000000.
Definition KEY : string := "CMND-TEST-KEY-0001".
Definition test_policy (bs : list (string * Z)) : PolarPolicy :=
  PolarGate_new (mkPolicy "org-test" 300 259200 2592000 true (list_to_map bs) 10 30).
Definition gate_with (backend : MockBackend) : W :=
  mkWorld (mkCache ∅ 0) (ValidateBudget_new 10 30 0) backend (Some apex) reg Router_new [].
(** A gate of its own cache and backend beside the same registry and router. *)
Definition another_gate (backend : MockBackend) (w : W) : W :=
  mkWorld (mkCache ∅ 0) (ValidateBudget_new 10 30 0) backend (Some apex) (w_reg w) (w_router w) (w_sent w).
Definition seed_license_at (key customer_id status : string) (max : option Z) (validated_at : Z) : test W () :=
  unwrap (on_cache (upsert (mkRow (hash_key key) customer_id "ben_test" max status None validated_at))).
Definition seed_license (key customer_id status : string) (max : option Z) : test W () :=
  seed_license_at key customer_id status max now_unix.
Definition row_of (key : string) : test W LicenseRow :=
  o ← unwrap (on_cache (get (hash_key key))); demand o.
Definition put_row (r : LicenseRow) (validated_at : Z) : test W () :=
  unwrap (on_cache (upsert (mkRow (key_hash r) (customer_id r) (benefit_id r) (max_tunnels r) (status r) (activation_id r) validated_at))).
Definition age (key : string) (validated_at : Z) : test W () := r ← row_of key; put_row r validated_at.

Section gate.
Context (p : PolarPolicy).
Definition try_auth (key : string) : test W (option AuthedUser) :=
  call (gate_authenticate p (fun _ => EmptyString) key now_unix 0).
(** [authenticate(key).await.expect(..)] and [.is_none()]. *)
Definition authed (key : string) : test W AuthedUser :=
  o ← try_auth key; demand o.
Definition denied (key : string) : test W () := o ← try_auth key; assert (negb (bool_decide (is_Some o))).
Definition cap_is (user : string) (now : Z) (d : CapDecision) : test W () :=
  c ← call (cap_for p user now); assert_eq c d.
Definition gate_revalidate (key : string) : test W () :=
  age key (now_unix - cache_ttl_secs p - 1) ;; authed key ;; mret ().
End gate.

Definition has_account (customer : string) (want : option Z) : test W () :=
  o ← unwrap (on_reg (lookup_user_id customer)); assert_eq o want.
Definition validates (n : Z) : test W () := m ← see w_backend; assert_eq (validate_calls m) n.
Definition owned (uid n : Z) : test W () := c ← unwrap (on_reg (count_owned_resources uid)); assert_eq c n.
Definition owns_label (uid : Z) (label : string) (want : bool) : test W () :=
  b ← call (on_reg (reg_owns_hostname apex uid (on label))); assert_eq b want.
Fixpoint claims (uid : Z) (labels : list string) : test W () :=
  match labels with
  | [] => mret ()
  | l :: rest => unwrap (on_reg (claim_label uid l)) ;; claims uid rest
  end.
Definition routed (label : string) (want : bool) : test W () :=
  r ← see w_router; assert_eq (bool_decide (is_Some (lookup_http r (on label)))) want.

Definition cm : PolarPolicy := test_policy [("ben_cm"%string, 1)].
Definition mock_cm : MockBackend := granting KEY "cust_1" "ben_cm".

Definition granted_key_provisions_user_and_caches : test W () :=
  user ← authed cm KEY;
  assert_eq (name user) "cust_1"%string ;;
  has_account "cust_1" (Some (Auth.user_id user)) ;;
  cap_is cm "cust_1" now_unix (Cap 1) ;;
  again ← authed cm KEY;
  assert_eq (Auth.user_id again) (Auth.user_id user).

Definition cache_fresh_hit_skips_http : test W () :=
  authed cm KEY ;; authed cm KEY ;; authed cm KEY ;; validates 1.

Definition unknown_key_is_denied : test W () := denied cm "CMND-WRONG" ;; has_account "cust_1" None.

Definition unknown_key_is_negatively_cached : test W () :=
  denied cm "CMND-JUNK" ;; denied cm "CMND-JUNK" ;; validates 1.

Definition expired_negative_rows_are_swept_on_new_unknown_key : test W () :=
  denied cm "CMND-FIRST-JUNK" ;;
  age "CMND-FIRST-JUNK" (now_unix - cache_ttl_secs cm - 1) ;;
  denied cm "CMND-SECOND-JUNK" ;;
  o ← unwrap (on_cache (get (hash_key "CMND-FIRST-JUNK")));
  assert (negb (bool_decide (is_Some o))).

Definition tight : PolarPolicy := PolarGate_new (mkPolicy "org-test" 300 259200 2592000 true {["ben_cm"%string := 1]} 0 1).
Definition validate_budget_exhaustion_still_honors_cached_grant : test W () :=
  change (set_budget (ValidateBudget_new 0 1 0)) ;;
  authed tight KEY ;;
  age KEY (now_unix - cache_ttl_secs tight - 1) ;;
  user ← authed tight KEY;
  assert_eq (name user) "cust_1"%string ;;
  validates 1.

(** The table is dropped after the second statement. *)
Definition cache_read_error_denies_all : test W () :=
  let breaks : CacheEngine := {| cache_fails n := (2 <=? n)%nat |} in
  let cap := @cap_for MockBackend breaks (test_policy []) "cust_1" now_unix in
  unwrap (on_cache (@upsert breaks (mkRow (hash_key "K") "cust_1" "ben_cm" (Some 5) "granted" None now_unix))) ;;
  c ← call cap; assert_eq c (Cap 5) ;;
  d ← call cap; assert_eq d DenyAll.

Definition future_dated_row_is_treated_stale : test W () :=
  seed_license_at KEY "cust_1" "granted" (Some 1) (now_unix + 10000) ;;
  user ← authed cm KEY;
  assert_eq (name user) "cust_1"%string ;;
  validates 1.

Definition zero_clock_is_treated_as_unavailable : test W () :=
  seed_license "K" "cust_1" "granted" (Some 5) ;; cap_is (test_policy []) "cust_1" 0 DenyAll.

Definition etun_prefixed_credential_never_reaches_backend : test W () :=
  change (set_backend (granting "etun_abc" "cust_1" "ben_cm")) ;;
  denied cm "etun_abc" ;; validates 0 ;; has_account "cust_1" None.

Definition unknown_benefit_is_denied_loudly : test W () :=
  change (set_backend (granting KEY "cust_1" "ben_unknown")) ;;
  denied cm KEY ;; cap_is cm "cust_1" now_unix DenyAll.

Definition outage_honors_cached_grant_within_staleness : test W () :=
  authed cm KEY ;;
  r ← row_of KEY;
  change (fun _ => gate_with (mkMock ∅ (Some "connect refused"%string) ∅ 0 0 0)) ;;
  put_row r (now_unix - cache_ttl_secs cm - 10) ;;
  user ← authed cm KEY;
  assert_eq (name user) "cust_1"%string ;;
  age KEY (now_unix - staleness_secs cm - 10) ;;
  denied cm KEY.

Definition revoked_key_flips_to_denied_after_ttl : test W () :=
  authed cm KEY ;;
  r ← row_of KEY;
  change (fun _ => gate_with mock_default) ;;
  put_row r (now_unix - 301) ;;
  denied cm KEY ;;
  cap_is cm "cust_1" now_unix DenyAll.

Definition activation_lifecycle_and_limit : test W () :=
  authed cm KEY ;;
  unwrap (ensure_activated cm KEY) ;;
  r ← row_of KEY;
  assert (bool_decide (is_Some (activation_id r))) ;;
  unwrap (ensure_activated cm KEY) ;;
  r2 ← row_of KEY;
  assert_eq (activation_id r2) (activation_id r) ;;
  m ← see w_backend; assert_eq (activate_calls m) 1 ;;
  change (release_activation KEY) ;;
  r3 ← row_of KEY;
  assert_eq (activation_id r3) None.

Definition activation_limit_reached_denies_claim : test W () :=
  change (set_backend (mkMock (granted mock_cm) None {[KEY]} 0 0 0)) ;;
  authed cm KEY ;;
  fails_with (contains_str "activation limit") (ensure_activated cm KEY).

Definition local_token_users_are_uncapped : test W () :=
  change (fun _ => gate_with mock_default) ;;
  cap_is cm "mat" now_unix Allow ;;
  unwrap (ensure_activated cm "etun_local_token").

Definition tiers : PolarPolicy := test_policy [("ben_indie", 3); ("ben_cm", 1)]%string.
Definition teams : PolarPolicy := test_policy [("ben_team", 30); ("ben_cm", 1)]%string.
Definition TEAM : string := "CMND-TEAM-KEY".
Definition CM : string := "CMND-CORTEXMIND-KEY".
Definition OLD : string := "CMND-OLD-INDIE-KEY".
Definition NEW : string := "CMND-NEW-CM-KEY".
Definition mock_old_new : MockBackend := grant NEW "cust_1" "ben_cm" (granting OLD "cust_1" "ben_indie").
Definition mock_team_cm : MockBackend := grant CM "cust_1" "ben_cm" (granting TEAM "cust_1" "ben_team").

Definition downgrade_prunes_over_cap_tunnels : test W () :=
  change (set_backend (granting KEY "cust_1" "ben_indie")) ;;
  user ← authed tiers KEY;
  let uid := Auth.user_id user in
  claims uid ["a"; "b"; "c"]%string ;;
  owned uid 3 ;;
  change (another_gate (granting "CMND-NEW-KEY" "cust_1" "ben_cm")) ;;
  user2 ← authed tiers "CMND-NEW-KEY";
  assert_eq (Auth.user_id user2) uid ;;
  owned uid 1 ;;
  owns_label uid "a" true.

Definition multi_key_customer_resolves_cap_as_max_across_keys : test W () :=
  user ← authed teams TEAM;
  let uid := Auth.user_id user in
  claims uid ["a"; "b"; "c"]%string ;;
  same ← authed teams CM;
  assert_eq (Auth.user_id same) uid ;;
  owned uid 3 ;;
  cap_is teams "cust_1" now_unix (Cap 30) ;;
  seed_license "K-OTHER" "cust_2" "granted" (Some 99) ;;
  cap_is teams "cust_1" now_unix (Cap 30) ;;
  cap_is teams "cust_2" now_unix (Cap 99) ;;
  cap_is teams "mat" now_unix Allow.

(** [h00] to [h39]. *)
Definition h_labels : list string :=
  let digits := ["0"; "1"; "2"; "3"; "4"; "5"; "6"; "7"; "8"; "9"]%string in
  tens ← ["0"; "1"; "2"; "3"]%string; (fun d => "h" +:+ tens +:+ d) <$> digits.
Definition pooled_cap_is_the_enforced_prune_target : test W () :=
  user ← authed teams TEAM;
  let uid := Auth.user_id user in
  claims uid h_labels ;;
  authed teams CM ;;
  owned uid 30 ;;
  owns_label uid "h00" true ;;
  owns_label uid "h39" false.

Definition stale_sibling_key_evicts_routes_but_keeps_reservations : test W () :=
  user ← authed tiers OLD;
  let uid := Auth.user_id user in
  claims uid ["a"; "b"; "c"]%string ;;
  change (fun w => set_router (claim (mkHandle 1 uid) (on <$> ["a"; "b"; "c"]%string) [] (w_router w)).1 w) ;;
  authed tiers NEW ;;
  routed "c" true ;;
  seed_license_at OLD "cust_1" "granted" (Some 3) (now_unix - staleness_secs tiers - 1) ;;
  gate_revalidate tiers NEW ;;
  routed "a" true ;;
  routed "b" false ;;
  routed "c" false ;;
  sent ← see w_sent;
  assert (match sent with (h, Denied LimitExceeded _) :: _ => bool_decide (sh_session_id h = 1) | _ => false end) ;;
  owned uid 3.

Definition short : PolarPolicy :=
  PolarGate_new (mkPolicy "org-test" 300 259200 86400 true (list_to_map [("ben_indie", 3); ("ben_cm", 1)]%string) 10 30).
Definition short_cap_prune_grace_cannot_outrun_the_claim_gate : test W () :=
  user ← authed short OLD;
  let uid := Auth.user_id user in
  claims uid ["a"; "b"; "c"]%string ;;
  authed short NEW ;;
  seed_license_at OLD "cust_1" "granted" (Some 3) (now_unix - 172800) ;;
  cap_is short "cust_1" now_unix (Cap 3) ;;
  gate_revalidate short NEW ;;
  owned uid 3.

Definition genuine_downgrade_prunes_once_the_old_key_goes_stale : test W () :=
  user ← authed tiers OLD;
  let uid := Auth.user_id user in
  claims uid ["a"; "b"; "c"]%string ;;
  authed tiers NEW ;;
  owned uid 3 ;;
  cap_is tiers "cust_1" now_unix (Cap 3) ;;
  seed_license_at OLD "cust_1" "granted" (Some 3) (now_unix - staleness_secs tiers - 1) ;;
  cap_is tiers "cust_1" now_unix (Cap 1) ;;
  gate_revalidate tiers NEW ;;
  owned uid 3 ;;
  seed_license_at OLD "cust_1" "granted" (Some 3) (now_unix - cap_prune_grace_secs tiers - 1) ;;
  gate_revalidate tiers NEW ;;
  owned uid 1 ;;
  owns_label uid "a" true.

Definition same_key_benefit_change_prunes_immediately : test W () :=
  user ← authed cm KEY;
  let uid := Auth.user_id user in
  claims uid ["a"; "b"; "c"]%string ;;
  seed_license_at KEY "cust_1" "granted" (Some 3) (now_unix - cache_ttl_secs cm - 1) ;;
  cap_is cm "cust_1" now_unix (Cap 3) ;;
  authed cm KEY ;;
  owned uid 1 ;;
  owns_label uid "a" true ;;
  cap_is cm "cust_1" now_unix (Cap 1).

Definition none : PolarPolicy := test_policy [].
Definition cap_ignores_keys_past_the_staleness_window : test W () :=
  let staleness := staleness_secs none in
  seed_license_at "K-SMALL" "cust_1" "granted" (Some 1) now_unix ;;
  seed_license_at "K-BIG" "cust_1" "granted" (Some 30) (now_unix - staleness - 1) ;;
  cap_is none "cust_1" now_unix (Cap 1) ;;
  seed_license_at "K-BIG" "cust_1" "granted" (Some 30) (now_unix - staleness) ;;
  cap_is none "cust_1" now_unix (Cap 30).

Definition a_customer_whose_only_key_aged_out_is_denied_not_uncapped : test W () :=
  seed_license_at "K-LAPSED" "cust_1" "granted" (Some 30) (now_unix - staleness_secs none - 1) ;;
  cap_is none "cust_1" now_unix DenyAll ;;
  cap_is none "mat" now_unix Allow.

Definition a_customer_whose_only_key_is_future_dated_is_denied_not_uncapped : test W () :=
  seed_license_at "K-SKEWED" "cust_1" "granted" (Some 30) (now_unix + 10000) ;;
  cap_is none "cust_1" now_unix DenyAll ;;
  cap_is none "mat" now_unix Allow.

Definition revoked_and_unmapped_keys_grant_no_capacity : test W () :=
  seed_license "K-REVOKED" "cust_1" "not_licensed" (Some 30) ;;
  seed_license "K-UNMAPPED" "cust_1" "granted" None ;;
  cap_is none "cust_1" now_unix DenyAll ;;
  seed_license "K-LIVE" "cust_1" "granted" (Some 2) ;;
  cap_is none "cust_1" now_unix (Cap 2).

Definition five : PolarPolicy := test_policy [("ben_cm"%string, 5)].
Definition GOOD : string := "CMND-GOOD-KEY".
Definition BAD : string := "CMND-UNMAPPED-KEY".
Definition mock_good_bad : MockBackend := grant BAD "cust_1" "ben_unknown" (granting GOOD "cust_1" "ben_cm").
Definition unmapped_benefit_denies_its_own_key_without_touching_the_pool : test W () :=
  user ← authed five GOOD;
  let uid := Auth.user_id user in
  claims uid ["a"; "b"]%string ;;
  denied five BAD ;;
  owned uid 2 ;;
  cap_is five "cust_1" now_unix (Cap 5).

Definition open_chmods_cache_owner_only : bool :=
  match LicenseCache_open engine_022 (fun _ => true) "/tmp/p.db" ∅ with
  | (Ok _, fs) => forallb (fun q => bool_decide ((mode <$> fs !! q) = Some 384)) (siblings "/tmp/p.db")
  | (Err _, _) => false
  end.

Definition polar_tests : list (string * bool) :=
  let with_mock (n : string) (m : MockBackend) (t : test W ()) := (n, passes t (gate_with m)) in [
  with_mock "granted_key_provisions_user_and_caches" mock_cm granted_key_provisions_user_and_caches;
  with_mock "cache_fresh_hit_skips_http" mock_cm cache_fresh_hit_skips_http;
  with_mock "unknown_key_is_denied" mock_cm unknown_key_is_denied;
  with_mock "unknown_key_is_negatively_cached" mock_cm unknown_key_is_negatively_cached;
  with_mock "expired_negative_rows_are_swept" mock_cm expired_negative_rows_are_swept_on_new_unknown_key;
  with_mock "validate_budget_exhaustion" mock_cm validate_budget_exhaustion_still_honors_cached_grant;
  with_mock "cache_read_error_denies_all" mock_default cache_read_error_denies_all;
  with_mock "future_dated_row_is_treated_stale" mock_cm future_dated_row_is_treated_stale;
  with_mock "zero_clock_is_treated_as_unavailable" mock_default zero_clock_is_treated_as_unavailable;
  with_mock "etun_prefixed_credential" mock_cm etun_prefixed_credential_never_reaches_backend;
  with_mock "unknown_benefit_is_denied_loudly" mock_cm unknown_benefit_is_denied_loudly;
  with_mock "outage_honors_cached_grant" mock_cm outage_honors_cached_grant_within_staleness;
  with_mock "revoked_key_flips_to_denied" mock_cm revoked_key_flips_to_denied_after_ttl;
  with_mock "activation_lifecycle_and_limit" mock_cm activation_lifecycle_and_limit;
  with_mock "activation_limit_reached_denies_claim" mock_cm activation_limit_reached_denies_claim;
  with_mock "local_token_users_are_uncapped" mock_default local_token_users_are_uncapped;
  with_mock "downgrade_prunes_over_cap_tunnels" mock_cm downgrade_prunes_over_cap_tunnels;
  with_mock "multi_key_customer" mock_team_cm multi_key_customer_resolves_cap_as_max_across_keys;
  with_mock "pooled_cap_is_the_enforced_prune_target" mock_team_cm pooled_cap_is_the_enforced_prune_target;
  with_mock "stale_sibling_key" mock_old_new stale_sibling_key_evicts_routes_but_keeps_reservations;
  with_mock "short_cap_prune_grace" mock_old_new short_cap_prune_grace_cannot_outrun_the_claim_gate;
  with_mock "genuine_downgrade" mock_old_new genuine_downgrade_prunes_once_the_old_key_goes_stale;
  with_mock "same_key_benefit_change" mock_cm same_key_benefit_change_prunes_immediately;
  with_mock "cap_ignores_keys_past_the_window" mock_default cap_ignores_keys_past_the_staleness_window;
  with_mock "only_key_aged_out" mock_default a_customer_whose_only_key_aged_out_is_denied_not_uncapped;
  with_mock "only_key_future_dated" mock_default a_customer_whose_only_key_is_future_dated_is_denied_not_uncapped;
  with_mock "revoked_and_unmapped_keys" mock_default revoked_and_unmapped_keys_grant_no_capacity;
  with_mock "unmapped_benefit" mock_good_bad unmapped_benefit_denies_its_own_key_without_touching_the_pool;
  ("open_chmods_cache_owner_only"%string, open_chmods_cache_owner_only)].
