(* ===== verification/TestSession.v ===== *)
(** * The session's unit tests (crates/relay/src/session.rs, mod tests)

    A daemon is its session id, user and token; it talks to a relay whose
    accounts are the in-memory ones ([fixture]) or, for the tests of the license
    gate end to end, the registry.  A session whose control task stops is torn
    down as [run_session] does. *)
From stdpp Require Import pretty.
From S2P Require Import Prelude Limits Frames Codec Router Auth Registry Polar Session Relay Http TestKit TestRegistry TestPolar.
Import Memory.
Local Open Scope Z_scope.

#[local] Instance test_env : RelayEnv := {| unix_now _ := now_unix; mono_now _ := 0; os_bind _ _ := Ok () |}.
Definition debug_res (r : Resource) : string := match r with Host h => "Host(" +:+ h +:+ ")" | _ => "Tcp" end.
#[local] Instance test_relay : SessionWorld (Relay MockBackend) := RelayWorld apex debug_res.

(** Accounts in memory, everything else as in the relay. *)
Record Fixture := mkFixture { fx_mem : MemoryInner; fx_relay : Relay MockBackend }.
Definition on_mem {A : Type} (m : MemoryInner -> A * MemoryInner) (f : Fixture) : A * Fixture :=
  let (a, g) := m (fx_mem f) in (a, mkFixture g (fx_relay f)).
Definition on_relay {A : Type} (m : Relay MockBackend -> A * Relay MockBackend) (f : Fixture) : A * Fixture :=
  let (a, r) := m (fx_relay f) in (a, mkFixture (fx_mem f) r).
#[local] Instance fixture_auth : Authenticator Fixture := {|
  authenticate t := on_mem (authenticate t);
  owns_hostname u h := on_mem (owns_hostname u h);
  owns_port u p := on_mem (owns_port u p);
  claim_hostname u h max := on_mem (claim_hostname u h max);
  owned_hostnames u := on_mem (owned_hostnames u);
  owned_ports u := on_mem (owned_ports u);
  release_hostname u h := on_mem (release_hostname u h);
  release_port u p := on_mem (release_port u p);
|}.
#[local] Instance fixture_world : SessionWorld Fixture := {|
  sw_auth := fixture_auth;
  router_of f := router_of (fx_relay f);
  with_router x f := mkFixture (fx_mem f) (with_router x (fx_relay f));
  notify h fr f := mkFixture (fx_mem f) (notify h fr (fx_relay f));
  tcp_manager f := tcp_manager (fx_relay f);
  bind_port p := on_relay (bind_port p);
  gate_installed f := gate_installed (fx_relay f);
  gate_auth k := on_relay (gate_auth k);
  gate_cap n := on_relay (gate_cap n);
  gate_activate k := on_relay (gate_activate k);
  gate_deactivate k f := mkFixture (fx_mem f) (gate_deactivate k (fx_relay f));
|}.

Record Daemon := mkDaemon { d_sid : Z; d_user : AuthedUser; d_token : string }.
Definition hello (token : string) : ControlFrame := Hello (mkSecret token) "test" 1 1.

Section daemon.
Context {W : Type} `{!SessionWorld W}.
Definition never (n : nat) : bool := false.

(** [connect] and the handshake up to [Welcome]; [sid] is what [next_id] gave. *)
Definition connect (sid : Z) (token : string) : test W Daemon :=
  h ← call (handshake (HsGot (Ok 1)) (HsGot (Ok (hello token))));
  demand (match h with HsAccepted user t _ => Some (mkDaemon sid user t) | _ => None end).
Definition refused_with (code : DenyCode) (token : string) : test W () :=
  h ← call (handshake (HsGot (Ok 1)) (HsGot (Ok (hello token))));
  assert (match h with HsDenied c _ => bool_decide (c = code) | _ => false end).
(** One turn of the session's loop: what it answers, and the actor's teardown when
    it ends. *)
Definition turn_of (d : Daemon) (ev : CtrlEvent) : test W (Next * list ControlFrame) :=
  call (fun w =>
    let (n, s) := ctrl_step never debug_res true (mkHandle (d_sid d) (Auth.user_id (d_user d))) (d_user d) (d_token d) ev
                    (mkSess w [] 0) in
    ((n, out s), match n with
                 | Continue => world s
                 | Stop => with_router (remove_session (d_sid d) (router_of (world s))) (world s)
                 end)).
(** Send a frame and receive the answer. *)
Definition ask (d : Daemon) (f : ControlFrame) : test W ControlFrame :=
  '(_, l) ← turn_of d (EvFrame f); demand (head l).
Definition claims_ok (d : Daemon) (hosts : list string) : test W () :=
  a ← ask d (Claim hosts []);
  assert (match a with Granted hs _ => bool_decide (hs = hosts) | _ => false end).
Definition claim_denied (d : Daemon) (hosts : list string) (code : DenyCode) : test W () :=
  a ← ask d (Claim hosts []);
  assert (match a with Denied c _ => bool_decide (c = code) | _ => false end).
Definition pings (d : Daemon) (nonce : Z) : test W () :=
  a ← ask d (Ping nonce); assert (match a with Pong n => n =? nonce | _ => false end).
Definition route_is (host : string) (want : option Z) : test W () :=
  r ← see router_of; assert_eq (sh_session_id <$> lookup_http r host) want.
Definition stops (d : Daemon) (ev : CtrlEvent) : test W () :=
  '(n, _) ← turn_of d ev; assert_eq n Stop.
Definition survives (d : Daemon) (ev : CtrlEvent) : test W () :=
  '(n, _) ← turn_of d ev; assert_eq n Continue.
End daemon.

(** [fixture]: [mat] with a token, a hostname and a port. *)
Definition fixture : Fixture :=
  let (uid, g) := Memory.add_user "mat" "etun_good" MemoryAuth_new in
  mkFixture (grant_port uid 20000 (grant_hostname uid "myapp.ethertunnel.com" g))
    (mkRelay (gate_with mock_default) None None 0).
Definition mat_id : Z := 1.
Definition myapp : string := "myapp.ethertunnel.com".
(** [ctx.set_polar] with a gate that has one license row for [mat]. *)
Definition install_gate (status : string) (max : Z) : test Fixture () :=
  fun f => match seed_license "CMND-SEED" "mat" status (Some max) (r_world (fx_relay f)) with
           | Some (_, w) => Some ((), mkFixture (fx_mem f) (mkRelay w (Some none) None 0))
           | None => None
           end.
Definition mem (m : MemoryInner -> MemoryInner) : test Fixture () := change (fun f => mkFixture (m (fx_mem f)) (fx_relay f)).
Definition mat_owns (h : string) (want : bool) : test Fixture () :=
  b ← see (fun f => mem_owns_hostname mat_id h (fx_mem f)); assert_eq b want.
Definition lists (d : Daemon) (hosts : list string) (ports : list Z) (max : option Z) : test Fixture () :=
  a ← ask d ListOwned;
  assert (match a with
          | Frames.Owned hs ps m => bool_decide (hs = hosts) && bool_decide (ps = ports) && bool_decide (m = max)
          | _ => false
          end).

Definition hello_welcome_claim_granted_ping_pong : test Fixture () :=
  d ← connect 1 "etun_good";
  claims_ok d [myapp] ;;
  route_is myapp (Some 1) ;;
  pings d 99.

Definition bad_token_is_denied : test Fixture () := refused_with AuthFailed "etun_wrong".

Definition claim_label_owned_by_another_user_is_denied : test Fixture () :=
  mem (fun g => let (eve, g1) := Memory.add_user "eve" "etun_eve" g in grant_hostname eve "taken.ethertunnel.com" g1) ;;
  d ← connect 1 "etun_good";
  claim_denied d ["taken.ethertunnel.com"%string] NotOwner ;;
  route_is "taken.ethertunnel.com" None.

Definition claim_free_label_auto_registers_and_is_granted : test Fixture () :=
  d ← connect 1 "etun_good";
  claims_ok d ["brandnew.ethertunnel.com"%string] ;;
  route_is "brandnew.ethertunnel.com" (Some 1) ;;
  mat_owns "brandnew.ethertunnel.com" true.

Definition list_owned_then_release_frees_resources : test Fixture () :=
  d ← connect 1 "etun_good";
  claims_ok d [myapp] ;;
  route_is myapp (Some 1) ;;
  lists d [myapp] [20000] None ;;
  a ← ask d (Release [myapp; "notmine.ethertunnel.com"%string] []);
  assert (match a with Released hs ps => bool_decide (hs = [myapp]) && bool_decide (ps = []) | _ => false end) ;;
  route_is myapp None ;;
  lists d [] [20000] None.

Definition list_owned_reports_plan_cap_when_gated : test Fixture () :=
  install_gate "granted" 3 ;;
  d ← connect 1 "etun_good";
  lists d [myapp] [20000] (Some 3).

Definition list_owned_reports_revoked_as_some_zero : test Fixture () :=
  install_gate "not_licensed" 10 ;;
  d ← connect 1 "etun_good";
  lists d [myapp] [20000] (Some 0).

Definition claim_exceeding_cap_is_denied_and_label_not_registered : test Fixture () :=
  install_gate "granted" 1 ;;
  d ← connect 1 "etun_good";
  claim_denied d ["one.ethertunnel.com"; "two.ethertunnel.com"]%string LimitExceeded ;;
  mat_owns "one.ethertunnel.com" false ;;
  mat_owns "two.ethertunnel.com" false ;;
  route_is "one.ethertunnel.com" None.

Definition owned_cap_blocks_reclaim_after_disconnect : test Fixture () :=
  install_gate "granted" 1 ;;
  mem (grant_hostname mat_id "first.ethertunnel.com") ;;
  d ← connect 1 "etun_good";
  claim_denied d ["second.ethertunnel.com"%string] LimitExceeded ;;
  mat_owns "second.ethertunnel.com" false.

Definition oversized_claim_is_denied : test Fixture () :=
  d ← connect 1 "etun_good";
  claim_denied d ((fun i => "h" +:+ pretty i +:+ ".ethertunnel.com") <$> seq 0 (S MAX_CLAIM_ENTRIES)) ProtocolError ;;
  route_is "h0.ethertunnel.com" None.

Definition newest_session_supersedes_and_old_is_notified : test Fixture () :=
  d1 ← connect 1 "etun_good";
  claims_ok d1 [myapp] ;;
  d2 ← connect 2 "etun_good";
  claims_ok d2 [myapp] ;;
  sent ← see (fun f => w_sent (r_world (fx_relay f)));
  assert (match sent with
          | [(h, Superseded (Host r))] => bool_decide (sh_session_id h = 1) && bool_decide (r = myapp)
          | _ => false
          end) ;;
  route_is myapp (Some 2).

Definition revoked_token_terminates_live_session : test Fixture () :=
  d ← connect 1 "etun_good";
  claims_ok d [myapp] ;;
  pings d 0 ;;
  survives d EvTick ;;
  mem (fun g => (revoke "etun_good" g).2) ;;
  pings d 1 ;;
  route_is myapp (Some 1) ;;
  stops d EvTick ;;
  route_is myapp None.

Definition lapsed_entitlement_terminates_live_session : test Fixture () :=
  install_gate "granted" 5 ;;
  d ← connect 1 "etun_good";
  claims_ok d [myapp] ;;
  survives d EvTick ;;
  install_gate "not_licensed" 5 ;;
  pings d 0 ;;
  stops d EvTick ;;
  route_is myapp None.

Definition unrevoked_session_survives_revalidation_ticks : test Fixture () :=
  d ← connect 1 "etun_good";
  claims_ok d [myapp] ;;
  survives d EvTick ;; pings d 0 ;; survives d EvTick ;; pings d 1 ;; survives d EvTick ;; pings d 2 ;;
  survives d EvTick ;; pings d 3 ;; survives d EvTick ;; pings d 4 ;;
  route_is myapp (Some 1).

Definition silent_session_hits_deadman : test Fixture () :=
  d ← connect 1 "etun_good";
  claims_ok d [myapp] ;;
  stops d EvSilent ;;
  route_is myapp None.

(** The writer is stuck: the channel takes 64 more frames, then a send times out. *)
Definition peer_that_never_reads_is_closed_within_ctrl_send_timeout : test Fixture () :=
  d ← connect 1 "etun_good";
  claims_ok d [myapp] ;;
  s ← see (fun f => ctrl_loop (fun n => (64 <=? n)%nat) debug_res true (mkHandle 1 mat_id) (d_user d) (d_token d)
                      ((fun k => EvFrame (Ping (Z.of_nat k))) <$> seq 0 70) (mkSess f [] 0));
  assert_eq s.1 Stop ;;
  assert_eq (length (out s.2)) 64%nat.

Definition revoked_hostname_ownership_evicts_route_on_revalidation : test Fixture () :=
  d ← connect 1 "etun_good";
  claims_ok d [myapp] ;;
  mem (fun g => (mem_release_hostname mat_id myapp g).2) ;;
  survives d EvTick ;;
  route_is myapp None ;;
  sent ← see (fun f => w_sent (r_world (fx_relay f)));
  assert (match sent with
          | [(h, Denied NotOwner m)] => bool_decide (sh_session_id h = 1) && contains_str (debug_res (Host myapp)) m
          | _ => false
          end).

(** ** The gate end to end: accounts in the registry *)
Definition licensed (p : PolarPolicy) (m : MockBackend) : Relay MockBackend := mkRelay (gate_with m) (Some p) None 0.
Definition in_w {A : Type} (t : test W A) : test (Relay MockBackend) A :=
  fun r => match t (r_world r) with Some (a, w) => Some (a, put_world w r) | None => None end.
Definition account_id (customer : string) : test (Relay MockBackend) Z :=
  o ← in_w (unwrap (on_reg (lookup_user_id customer))); demand o.

Definition polar_key_handshake_claims_under_cap : test (Relay MockBackend) () :=
  d ← connect 1 "CMND-E2E-KEY";
  claims_ok d ["cortex1.ethertunnel.com"%string] ;;
  route_is "cortex1.ethertunnel.com" (Some 1) ;;
  uid ← account_id "cust_e2e";
  in_w (owns_label uid "cortex1" true) ;;
  m ← see (fun r => w_backend (r_world r));
  assert_eq (activate_calls m) 1 ;;
  claim_denied d ["cortex2.ethertunnel.com"%string] LimitExceeded ;;
  in_w (owns_label uid "cortex2" false).

Definition second_key_revalidation_neither_prunes_nor_blocks_claims : test (Relay MockBackend) () :=
  d ← connect 1 "CMND-TEAM-E2E";
  claims_ok d ["t1.ethertunnel.com"%string] ;;
  claims_ok d ["t2.ethertunnel.com"%string] ;;
  in_w (authed teams "CMND-CM-E2E") ;;
  route_is "t2.ethertunnel.com" (Some 1) ;;
  uid ← account_id "cust_multi";
  in_w (owned uid 2) ;;
  claims_ok d ["t3.ethertunnel.com"%string].

Definition polar_unknown_key_is_denied_at_handshake : test (Relay MockBackend) () :=
  refused_with AuthFailed "CMND-NOT-A-REAL-KEY".

Definition session_tests : list (string * bool) :=
  let fx (n : string) (t : test Fixture ()) := (n, passes t fixture) in
  [fx "hello_welcome_claim_granted_ping_pong" hello_welcome_claim_granted_ping_pong;
   fx "bad_token_is_denied" bad_token_is_denied;
   fx "claim_label_owned_by_another_user_is_denied" claim_label_owned_by_another_user_is_denied;
   fx "claim_free_label_auto_registers" claim_free_label_auto_registers_and_is_granted;
   fx "list_owned_then_release" list_owned_then_release_frees_resources;
   fx "list_owned_reports_plan_cap_when_gated" list_owned_reports_plan_cap_when_gated;
   fx "list_owned_reports_revoked_as_some_zero" list_owned_reports_revoked_as_some_zero;
   fx "claim_exceeding_cap_is_denied" claim_exceeding_cap_is_denied_and_label_not_registered;
   fx "owned_cap_blocks_reclaim_after_disconnect" owned_cap_blocks_reclaim_after_disconnect;
   fx "oversized_claim_is_denied" oversized_claim_is_denied;
   fx "newest_session_supersedes_and_old_is_notified" newest_session_supersedes_and_old_is_notified;
   fx "revoked_token_terminates_live_session" revoked_token_terminates_live_session;
   fx "lapsed_entitlement_terminates_live_session" lapsed_entitlement_terminates_live_session;
   fx "unrevoked_session_survives_revalidation_ticks" unrevoked_session_survives_revalidation_ticks;
   fx "silent_session_hits_deadman" silent_session_hits_deadman;
   fx "peer_that_never_reads_is_closed" peer_that_never_reads_is_closed_within_ctrl_send_timeout;
   fx "revoked_hostname_ownership_evicts_route" revoked_hostname_ownership_evicts_route_on_revalidation;
   ("polar_key_handshake_claims_under_cap"%string,
     passes polar_key_handshake_claims_under_cap (licensed cm (granting "CMND-E2E-KEY" "cust_e2e" "ben_cm")));
   ("second_key_revalidation"%string,
     passes second_key_revalidation_neither_prunes_nor_blocks_claims
       (licensed teams (grant "CMND-CM-E2E" "cust_multi" "ben_cm" (granting "CMND-TEAM-E2E" "cust_multi" "ben_team"))));
   ("polar_unknown_key_is_denied_at_handshake"%string,
     passes polar_unknown_key_is_denied_at_handshake (licensed cm mock_default))].
