(* ===== verification/TestConfig.v ===== *)
(** * Unit tests of the configurations and of the client's commands

    The tests of crates/relay/src/config.rs, crates/client/src/config.rs and
    crates/client/src/commands.rs (mod tests).  A TOML text stands as the document
    the parser gives for it. *)
From S2P Require Import Prelude Http Edge Serve Settings ClientDaemon ClientFiles ClientCommands TestKit.
Local Open Scope Z_scope.

(** ** Relay configuration *)
Definition server_section : string * Toml := ("server", TTable [("domain", TStr "example.com")])%string.
Definition loads (t : table) (p : Settings -> bool) : bool :=
  match decode_config (fun a => Some a) t with Ok c => p c | Err _ => false end.
Definition limits_of (c : Settings) : LimitsConfig := limits (server (relay_config c)).

Definition limits_back_compat_old_config_loads_with_defaults : bool :=
  loads [server_section] (fun c =>
    let l := limits_of c in
    (max_connections l =? 4096) && (max_connections_per_ip l =? 64) && (header_timeout c =? 10) &&
    (max_sessions l =? 4096) && (max_sessions_per_ip l =? 64) && (proxy_idle_timeout_secs l =? 1800) &&
    (proxy_absolute_max_secs l =? 0) && (revalidate_secs c =? 60) && (accept_rate_per_sec l =? 20) && (accept_burst l =? 40)).

Definition limits_accept_rate_and_burst_parse : bool :=
  loads [server_section; ("limits", TTable [("accept_rate_per_sec", TInt 5); ("accept_burst", TInt 15)])]%string
    (fun c => (accept_rate_per_sec (limits_of c) =? 5) && (accept_burst (limits_of c) =? 15)).

Definition limits_partial_block_fills_new_fields : bool :=
  loads [server_section; ("limits", TTable [("max_connections", TInt 1000); ("max_connections_per_ip", TInt 10)])]%string
    (fun c =>
       let l := limits_of c in
       (max_connections l =? 1000) && (max_connections_per_ip l =? 10) && (max_sessions l =? 4096) &&
       (max_sessions_per_ip l =? 64) && (proxy_idle_timeout_secs l =? 1800) && (proxy_absolute_max_secs l =? 0) &&
       (revalidate_secs c =? 60) && (accept_rate_per_sec l =? 20) && (accept_burst l =? 40)).

Definition polar_block_parses_with_defaults_and_benefits : bool :=
  loads [server_section;
    ("polar", TTable [("organization_id", TStr "00000000-0000-0000-0000-000000000000");
       ("benefits", TTable [("11111111-1111-1111-1111-111111111111", TInt 1);
                            ("22222222-2222-2222-2222-222222222222", TInt 3)])])]%string
    (fun c => match polar (relay_config c) with
              | None => false
              | Some p =>
                  String.eqb (po_organization_id p) "00000000-0000-0000-0000-000000000000" &&
                  String.eqb (po_api_base p) "https://api.polar.sh" && (po_cache_ttl_secs p =? 300) &&
                  (po_staleness_secs p =? 259200) && (po_cap_prune_grace_secs p =? 2592000) && po_activate_on_claim p &&
                  bool_decide (po_benefits p !! "11111111-1111-1111-1111-111111111111"%string = Some 1) &&
                  bool_decide (po_benefits p !! "22222222-2222-2222-2222-222222222222"%string = Some 3)
              end).

Definition no_polar_block_is_none_and_legacy_keygate_is_ignored : bool :=
  loads [server_section;
    ("keygate", TTable [("base_url", TStr "https://license.example.com");
       ("consumer_token_file", TStr "/etc/ethertunnel/keygate.token"); ("public_key", TStr "legacy");
       ("key_id", TStr "kg-2026-06")]);
    ("provision", TTable [("token_file", TStr "/etc/ethertunnel/provision.token")])]%string
    (fun c => match polar (relay_config c) with None => true | Some _ => false end).

(** ** Client configuration *)
Definition demo_tunnel (hostname : option string) : TunnelConfig :=
  mkTunnel "demo" 8080 "127.0.0.1" PHttp hostname None.
Definition fqdn_uses_hostname_then_name : bool :=
  let cfg := mkFileConfig "ethertunnel.com" None [] in
  String.eqb (fqdn cfg (demo_tunnel None)) "demo.ethertunnel.com" &&
  String.eqb (fqdn cfg (demo_tunnel (Some "api"%string))) "api.ethertunnel.com" &&
  bool_decide (is_Some (tunnel (mkFileConfig "ethertunnel.com" None [demo_tunnel None]) "demo")).
Definition tcp_without_public_port_errors : bool :=
  let cfg := mkFileConfig "ethertunnel.com" None [mkTunnel "ssh" 22 "127.0.0.1" PTcp None None] in
  negb (is_ok (to_client_config cfg "etun_x" System)).

(** ** Client commands *)
Definition default_relay_is_hosted_domain : bool := String.eqb DEFAULT_RELAY "ethertunnel.com".
Definition relay_precedence_arg_beats_config_and_default : bool :=
  String.eqb (resolve_relay (Some "arg.example"%string) "cfg.example") "arg.example" &&
  String.eqb (resolve_relay None "cfg.example") "cfg.example" &&
  String.eqb (resolve_relay None EmptyString) DEFAULT_RELAY.
Definition plan_says (o : OwnedSet) (yes no : list string) : bool :=
  match plan_line o with
  | Some s => forallb (fun w => contains_str w s) yes && forallb (fun w => negb (contains_str w s)) no
  | None => false
  end.
Definition plan_line_branches : bool :=
  bool_decide (plan_line (mkOwnedSet ["a.x"%string] [] None) = None) &&
  plan_says (mkOwnedSet [] [] (Some 0)) ["does not permit"%string] [] &&
  plan_says (mkOwnedSet ["a.x"; "b.x"]%string [] (Some 3)) ["2/3"%string] ["upgrade"%string] &&
  plan_says (mkOwnedSet ["a.x"; "b.x"]%string [20000] (Some 3)) ["3/3"; "at your limit"]%string [] &&
  plan_says (mkOwnedSet ["a.x"; "b.x"; "c.x"; "d.x"]%string [] (Some 3)) ["4/3"; "at your limit"]%string [].

Definition config_tests : list (string * bool) := [
  ("limits_back_compat_old_config_loads_with_defaults", limits_back_compat_old_config_loads_with_defaults);
  ("limits_accept_rate_and_burst_parse", limits_accept_rate_and_burst_parse);
  ("limits_partial_block_fills_new_fields", limits_partial_block_fills_new_fields);
  ("polar_block_parses_with_defaults_and_benefits", polar_block_parses_with_defaults_and_benefits);
  ("no_polar_block_is_none", no_polar_block_is_none_and_legacy_keygate_is_ignored);
  ("fqdn_uses_hostname_then_name", fqdn_uses_hostname_then_name);
  ("tcp_without_public_port_errors", tcp_without_public_port_errors);
  ("default_relay_is_hosted_domain", default_relay_is_hosted_domain);
  ("relay_precedence", relay_precedence_arg_beats_config_and_default);
  ("plan_line_branches", plan_line_branches)]%string.
