(* ===== verification/Tests.v ===== *)
(** * The crates' unit tests on the model

    Every test of TestRegistry.v, TestRelay.v, TestPolar.v, TestSession.v and
    TestConfig.v, evaluated by the kernel. *)
From S2P Require Import Prelude TestKit TestRegistry TestRelay TestPolar TestSession TestConfig.

(** The definitions of this development pass the crates' own unit tests:
    each of the tests of registry.rs, codec.rs, router.rs, ratelimit.rs,
    listener.rs, proxy.rs, tcp.rs, polar.rs, session.rs and the two config.rs and
    commands.rs that does not need the network or the WebSocket library, translated
    call by call, evaluates to success. *)
Theorem unit_tests_pass :
  all_pass (registry_tests ++ relay_tests ++ polar_tests ++ session_tests ++ config_tests) = true.
Proof. vm_compute. reflexivity. Qed.
